(** * loop4r_read: the program of [Source/Main.cpp]

    The application bridges an FCB1010 pedal board (MIDI control changes) to
    the sooperlooper engine (OSC) and mirrors loop states onto ten LEDs.
    The class [loop4r_readApplication] is embedded as a record [App] of its
    data members; its member functions become programs of a small monad [M]
    that threads the record, collects what the function writes to the outside
    world (stdout, stderr, OSC sockets, the MIDI output port) as a list of
    [Event]s, and stops with a [Fault] where the C++ code reads an array or an
    argument list outside its bounds, or converts a float that no [int]
    holds. *)

From Stdlib Require Import ZArith QArith Lia.
From stdpp Require Import base list strings pretty.

Open Scope Z_scope.

(** ** Enumerations and constants *)

(** [enum LoopStates]: values arrive over OSC as a float that is cast to the
    enumeration, so any integer can occur; the enumerators are names for
    integers, usable in patterns like the [case] labels of the source. *)
Definition LoopStates := Z.
Abbreviation Unknown := (-1)%Z (only parsing).
Abbreviation Off := 0%Z (only parsing).
Abbreviation WaitStart := 1%Z (only parsing).
Abbreviation Recording := 2%Z (only parsing).
Abbreviation WaitStop := 3%Z (only parsing).
Abbreviation Playing := 4%Z (only parsing).
Abbreviation Overdubbing := 5%Z (only parsing).
Abbreviation Multiplying := 6%Z (only parsing).
Abbreviation Inserting := 7%Z (only parsing).
Abbreviation Replacing := 8%Z (only parsing).
Abbreviation Delay := 9%Z (only parsing).
Abbreviation Muted := 10%Z (only parsing).
Abbreviation Scratching := 11%Z (only parsing).
Abbreviation OneShot := 12%Z (only parsing).
Abbreviation Substitute := 13%Z (only parsing).
Abbreviation Paused := 14%Z (only parsing).

Inductive LedStates := Dark | Light | Blink | FastBlink.

(** [(int)led.state_] *)
Definition LedStates_to_int (s : LedStates) : Z :=
  match s with Dark => 0 | Light => 1 | Blink => 2 | FastBlink => 3 end.

Definition DEFAULT_BASE_NOTE : Z := 64.
Definition UP : Z := 10.
Definition DOWN : Z := 11.

Definition TIMER_OFF : Z := 0.
Definition TIMER_FASTBLINK : Z := 1.
Definition TIMER_BLINK : Z := 3.

Definition RECORD : Z := 4.
Definition MULTIPLY : Z := 5.
Definition INSERT : Z := 6.
Definition REPLACE : Z := 7.
Definition SUBSTITUTE : Z := 8.
Definition UNDO : Z := 9.

(** ** Data model *)

Module LED.
Record t := mk { index_ : Z; on_ : bool; timer_ : Z; state_ : LedStates }.
Definition set_on (b : bool) (l : t) : t := mk (index_ l) b (timer_ l) (state_ l).
Definition set_timer (v : Z) (l : t) : t := mk (index_ l) (on_ l) v (state_ l).
Definition set_state (s : LedStates) (l : t) : t := mk (index_ l) (on_ l) (timer_ l) s.
End LED.

(** [struct Loop] holds a reference [LED& led_] into the array [leds_]; the
    reference is the position of the referenced element. *)
Module Loop.
Record t := mk { index_ : Z; state_ : LoopStates; led_ : Z }.
Definition set_state (s : LoopStates) (l : t) : t := mk (index_ l) s (led_ l).
End Loop.

(** A float32: a finite value, represented by the rational it denotes, an
    infinity or a NaN. The code only ever converts a float to [int]. *)
Inductive float :=
| finite (q : Q)
| infinity (negative : bool)
| NaN.
Coercion finite : Q >-> float.

(** OSC arguments. *)
Inductive OSCArgument :=
| Int32 (z : Z)
| Float32 (v : float)
| Str (s : string)
| Blob.

Definition isInt32 (a : OSCArgument) : bool := match a with Int32 _ => true | _ => false end.
Definition isFloat32 (a : OSCArgument) : bool := match a with Float32 _ => true | _ => false end.
Definition isString (a : OSCArgument) : bool := match a with Str _ => true | _ => false end.

Definition INT_MIN : Z := -2147483648.
Definition INT_MAX : Z := 2147483647.

(** A rational with its fractional part discarded. *)
Definition truncate (q : Q) : Z := Z.quot (Qnum q) (Zpos (Qden q)).

(** Conversion of a float to [int], as in [int x = arg->getFloat32 ()]: the
    value is truncated toward zero; when the truncated value is no [int],
    and for an infinity or a NaN, the behaviour is undefined and there is no
    result. *)
Definition float_to_int (v : float) : option Z :=
  match v with
  | finite q =>
      if (INT_MIN <=? truncate q) && (truncate q <=? INT_MAX)
      then Some (truncate q)
      else None
  | infinity _ | NaN => None
  end.

(** An [OSCMessage] as the handlers see it: the argument list. *)
Definition OSCMessage := list OSCArgument.

Inductive MidiMessage :=
| controllerEvent (channel number value : Z)
| noteOn (channel note velocity : Z)
| noteOff (channel note velocity : Z)
| otherMessage (raw : list Z).

(** ** The outside world *)

Inductive Sender := oscSender | oscLedSender.

(** Lines written to [std::cerr]; the text is kept abstract. *)
Inductive LogLine :=
| LogMidiInDisconnected (name : string)
| LogMidiInConnected (name : string)
| LogVirtualOutFailed (name : string)
| LogOscSendConnected (port : Z)
| LogOscConnected (rcv snd led : Z)
| LogOscReconnected (rcv snd : Z)
| LogInvalidPortNumber
| LogConnectError (port : Z)
| LogMissingOutputPort
| LogUnexpectedPingAckArgs
| LogUnexpectedHeartbeatArgs
| LogUnrecognizedCtrl
| LogMidi (m : MidiMessage).

Inductive Event :=
| cout_cc (cc n : Z)
| osc_send (via : Sender) (address : string) (args : list OSCArgument)
| midi_send (m : MidiMessage)
| cerr (l : LogLine).

(** What the operating system answers when the timer asks: the MIDI input
    devices present, whether opening the i-th one succeeds, whether a virtual
    output can be created, whether the OSC sockets connect, and JUCE's
    [String::containsIgnoreCase]. *)
Record Devices := mkDevices {
  getDevices : list string;
  openDevice : nat -> bool;
  createNewDevice : string -> bool;
  senderConnect : Z -> bool;
  receiverConnect : Z -> bool;
  containsIgnoreCase : string -> string -> bool
}.

(** The data members of [loop4r_readApplication] that the modelled functions
    read or write. An [int] is a [Z]: the countdown, the note numbers and the
    loop counters computed below stay far inside the range of [int] for every
    int32 argument. Smart pointers are modelled by whether they are non-null.
    [filterCommands_] is left out: [executeCommand] handles every
    [CommandIndex] before its [default] label, so the array stays empty and
    the filter at the head of [handleIncomingMidiMessage] never fires.
    [missingOutputPortWarningPrinted] is the function-local static of
    [sendMidiMessage]. *)
Record App := mkApp {
  leds_ : list LED.t;
  loops_ : list Loop.t;
  mode_ : Z;
  heartbeat_ : Z;
  engineId_ : Z;
  loopCount_ : Z;
  selectedLoop_ : Z;
  hostUrl_ : string;
  version_ : string;
  currentReceivePort_ : Z;
  currentSendPort_ : Z;
  currentLedSendPort_ : Z;
  oscSendPort_ : Z;
  oscReceivePort_ : Z;
  pinged_ : bool;
  oscLedSenderInitialized_ : bool;
  channel_ : Z;
  baseNote_ : Z;
  midiInName_ : string;
  fullMidiInName_ : string;
  midiIn_ : bool;
  virtMidiOutName_ : string;
  virtMidiOut_ : bool;
  missingOutputPortWarningPrinted : bool
}.

Definition set_leds (v : list LED.t) (a : App) : App :=
  mkApp v (loops_ a) (mode_ a) (heartbeat_ a) (engineId_ a) (loopCount_ a)
    (selectedLoop_ a) (hostUrl_ a) (version_ a) (currentReceivePort_ a)
    (currentSendPort_ a) (currentLedSendPort_ a) (oscSendPort_ a)
    (oscReceivePort_ a) (pinged_ a) (oscLedSenderInitialized_ a) (channel_ a)
    (baseNote_ a) (midiInName_ a) (fullMidiInName_ a) (midiIn_ a)
    (virtMidiOutName_ a) (virtMidiOut_ a) (missingOutputPortWarningPrinted a).

Definition set_loops (v : list Loop.t) (a : App) : App :=
  mkApp (leds_ a) v (mode_ a) (heartbeat_ a) (engineId_ a) (loopCount_ a)
    (selectedLoop_ a) (hostUrl_ a) (version_ a) (currentReceivePort_ a)
    (currentSendPort_ a) (currentLedSendPort_ a) (oscSendPort_ a)
    (oscReceivePort_ a) (pinged_ a) (oscLedSenderInitialized_ a) (channel_ a)
    (baseNote_ a) (midiInName_ a) (fullMidiInName_ a) (midiIn_ a)
    (virtMidiOutName_ a) (virtMidiOut_ a) (missingOutputPortWarningPrinted a).

Definition set_mode (v : Z) (a : App) : App :=
  mkApp (leds_ a) (loops_ a) v (heartbeat_ a) (engineId_ a) (loopCount_ a)
    (selectedLoop_ a) (hostUrl_ a) (version_ a) (currentReceivePort_ a)
    (currentSendPort_ a) (currentLedSendPort_ a) (oscSendPort_ a)
    (oscReceivePort_ a) (pinged_ a) (oscLedSenderInitialized_ a) (channel_ a)
    (baseNote_ a) (midiInName_ a) (fullMidiInName_ a) (midiIn_ a)
    (virtMidiOutName_ a) (virtMidiOut_ a) (missingOutputPortWarningPrinted a).

Definition set_heartbeat (v : Z) (a : App) : App :=
  mkApp (leds_ a) (loops_ a) (mode_ a) v (engineId_ a) (loopCount_ a)
    (selectedLoop_ a) (hostUrl_ a) (version_ a) (currentReceivePort_ a)
    (currentSendPort_ a) (currentLedSendPort_ a) (oscSendPort_ a)
    (oscReceivePort_ a) (pinged_ a) (oscLedSenderInitialized_ a) (channel_ a)
    (baseNote_ a) (midiInName_ a) (fullMidiInName_ a) (midiIn_ a)
    (virtMidiOutName_ a) (virtMidiOut_ a) (missingOutputPortWarningPrinted a).

Definition set_engineId (v : Z) (a : App) : App :=
  mkApp (leds_ a) (loops_ a) (mode_ a) (heartbeat_ a) v (loopCount_ a)
    (selectedLoop_ a) (hostUrl_ a) (version_ a) (currentReceivePort_ a)
    (currentSendPort_ a) (currentLedSendPort_ a) (oscSendPort_ a)
    (oscReceivePort_ a) (pinged_ a) (oscLedSenderInitialized_ a) (channel_ a)
    (baseNote_ a) (midiInName_ a) (fullMidiInName_ a) (midiIn_ a)
    (virtMidiOutName_ a) (virtMidiOut_ a) (missingOutputPortWarningPrinted a).

Definition set_loopCount (v : Z) (a : App) : App :=
  mkApp (leds_ a) (loops_ a) (mode_ a) (heartbeat_ a) (engineId_ a) v
    (selectedLoop_ a) (hostUrl_ a) (version_ a) (currentReceivePort_ a)
    (currentSendPort_ a) (currentLedSendPort_ a) (oscSendPort_ a)
    (oscReceivePort_ a) (pinged_ a) (oscLedSenderInitialized_ a) (channel_ a)
    (baseNote_ a) (midiInName_ a) (fullMidiInName_ a) (midiIn_ a)
    (virtMidiOutName_ a) (virtMidiOut_ a) (missingOutputPortWarningPrinted a).

Definition set_selectedLoop (v : Z) (a : App) : App :=
  mkApp (leds_ a) (loops_ a) (mode_ a) (heartbeat_ a) (engineId_ a)
    (loopCount_ a) v (hostUrl_ a) (version_ a) (currentReceivePort_ a)
    (currentSendPort_ a) (currentLedSendPort_ a) (oscSendPort_ a)
    (oscReceivePort_ a) (pinged_ a) (oscLedSenderInitialized_ a) (channel_ a)
    (baseNote_ a) (midiInName_ a) (fullMidiInName_ a) (midiIn_ a)
    (virtMidiOutName_ a) (virtMidiOut_ a) (missingOutputPortWarningPrinted a).

Definition set_hostUrl (v : string) (a : App) : App :=
  mkApp (leds_ a) (loops_ a) (mode_ a) (heartbeat_ a) (engineId_ a)
    (loopCount_ a) (selectedLoop_ a) v (version_ a) (currentReceivePort_ a)
    (currentSendPort_ a) (currentLedSendPort_ a) (oscSendPort_ a)
    (oscReceivePort_ a) (pinged_ a) (oscLedSenderInitialized_ a) (channel_ a)
    (baseNote_ a) (midiInName_ a) (fullMidiInName_ a) (midiIn_ a)
    (virtMidiOutName_ a) (virtMidiOut_ a) (missingOutputPortWarningPrinted a).

Definition set_version (v : string) (a : App) : App :=
  mkApp (leds_ a) (loops_ a) (mode_ a) (heartbeat_ a) (engineId_ a)
    (loopCount_ a) (selectedLoop_ a) (hostUrl_ a) v (currentReceivePort_ a)
    (currentSendPort_ a) (currentLedSendPort_ a) (oscSendPort_ a)
    (oscReceivePort_ a) (pinged_ a) (oscLedSenderInitialized_ a) (channel_ a)
    (baseNote_ a) (midiInName_ a) (fullMidiInName_ a) (midiIn_ a)
    (virtMidiOutName_ a) (virtMidiOut_ a) (missingOutputPortWarningPrinted a).

Definition set_currentReceivePort (v : Z) (a : App) : App :=
  mkApp (leds_ a) (loops_ a) (mode_ a) (heartbeat_ a) (engineId_ a)
    (loopCount_ a) (selectedLoop_ a) (hostUrl_ a) (version_ a) v
    (currentSendPort_ a) (currentLedSendPort_ a) (oscSendPort_ a)
    (oscReceivePort_ a) (pinged_ a) (oscLedSenderInitialized_ a) (channel_ a)
    (baseNote_ a) (midiInName_ a) (fullMidiInName_ a) (midiIn_ a)
    (virtMidiOutName_ a) (virtMidiOut_ a) (missingOutputPortWarningPrinted a).

Definition set_currentSendPort (v : Z) (a : App) : App :=
  mkApp (leds_ a) (loops_ a) (mode_ a) (heartbeat_ a) (engineId_ a)
    (loopCount_ a) (selectedLoop_ a) (hostUrl_ a) (version_ a)
    (currentReceivePort_ a) v (currentLedSendPort_ a) (oscSendPort_ a)
    (oscReceivePort_ a) (pinged_ a) (oscLedSenderInitialized_ a) (channel_ a)
    (baseNote_ a) (midiInName_ a) (fullMidiInName_ a) (midiIn_ a)
    (virtMidiOutName_ a) (virtMidiOut_ a) (missingOutputPortWarningPrinted a).

Definition set_fullMidiInName (v : string) (a : App) : App :=
  mkApp (leds_ a) (loops_ a) (mode_ a) (heartbeat_ a) (engineId_ a)
    (loopCount_ a) (selectedLoop_ a) (hostUrl_ a) (version_ a)
    (currentReceivePort_ a) (currentSendPort_ a) (currentLedSendPort_ a)
    (oscSendPort_ a) (oscReceivePort_ a) (pinged_ a)
    (oscLedSenderInitialized_ a) (channel_ a) (baseNote_ a) (midiInName_ a) v
    (midiIn_ a) (virtMidiOutName_ a) (virtMidiOut_ a)
    (missingOutputPortWarningPrinted a).

Definition set_midiIn (v : bool) (a : App) : App :=
  mkApp (leds_ a) (loops_ a) (mode_ a) (heartbeat_ a) (engineId_ a)
    (loopCount_ a) (selectedLoop_ a) (hostUrl_ a) (version_ a)
    (currentReceivePort_ a) (currentSendPort_ a) (currentLedSendPort_ a)
    (oscSendPort_ a) (oscReceivePort_ a) (pinged_ a)
    (oscLedSenderInitialized_ a) (channel_ a) (baseNote_ a) (midiInName_ a)
    (fullMidiInName_ a) v (virtMidiOutName_ a) (virtMidiOut_ a)
    (missingOutputPortWarningPrinted a).

Definition set_virtMidiOutName (v : string) (a : App) : App :=
  mkApp (leds_ a) (loops_ a) (mode_ a) (heartbeat_ a) (engineId_ a)
    (loopCount_ a) (selectedLoop_ a) (hostUrl_ a) (version_ a)
    (currentReceivePort_ a) (currentSendPort_ a) (currentLedSendPort_ a)
    (oscSendPort_ a) (oscReceivePort_ a) (pinged_ a)
    (oscLedSenderInitialized_ a) (channel_ a) (baseNote_ a) (midiInName_ a)
    (fullMidiInName_ a) (midiIn_ a) v (virtMidiOut_ a)
    (missingOutputPortWarningPrinted a).

Definition set_virtMidiOut (v : bool) (a : App) : App :=
  mkApp (leds_ a) (loops_ a) (mode_ a) (heartbeat_ a) (engineId_ a)
    (loopCount_ a) (selectedLoop_ a) (hostUrl_ a) (version_ a)
    (currentReceivePort_ a) (currentSendPort_ a) (currentLedSendPort_ a)
    (oscSendPort_ a) (oscReceivePort_ a) (pinged_ a)
    (oscLedSenderInitialized_ a) (channel_ a) (baseNote_ a) (midiInName_ a)
    (fullMidiInName_ a) (midiIn_ a) (virtMidiOutName_ a) v
    (missingOutputPortWarningPrinted a).

Definition set_missingOutputPortWarningPrinted (v : bool) (a : App) : App :=
  mkApp (leds_ a) (loops_ a) (mode_ a) (heartbeat_ a) (engineId_ a)
    (loopCount_ a) (selectedLoop_ a) (hostUrl_ a) (version_ a)
    (currentReceivePort_ a) (currentSendPort_ a) (currentLedSendPort_ a)
    (oscSendPort_ a) (oscReceivePort_ a) (pinged_ a)
    (oscLedSenderInitialized_ a) (channel_ a) (baseNote_ a) (midiInName_ a)
    (fullMidiInName_ a) (midiIn_ a) (virtMidiOutName_ a) (virtMidiOut_ a) v.

(** ** The monad of member functions *)

Inductive Fault :=
| OutOfBounds (index : Z) (size : nat)
| PastTheEnd
| NotAnInt (v : float).

Inductive Res (A : Type) :=
| Done (a : A) (s : App) (out : list Event)
| Crash (f : Fault) (out : list Event).
Arguments Done {A} a s out.
Arguments Crash {A} f out.

Definition M (A : Type) : Type := App -> Res A.

Definition ret {A} (a : A) : M A := fun s => Done a s [].

(** [prefix o r]: the outcome [r] of the rest of a function, after [o] has
    already been written. *)
Definition prefix {A} (o : list Event) (r : Res A) : Res A :=
  match r with
  | Done a s o' => Done a s (o ++ o')
  | Crash f o' => Crash f (o ++ o')
  end.

Definition bind {A B} (m : M A) (k : A -> M B) : M B :=
  fun s =>
    match m s with
    | Done a s1 o1 => prefix o1 (k a s1)
    | Crash f o1 => Crash f o1
    end.

Declare Scope prog_scope.
Delimit Scope prog_scope with prog.
Notation "'do' x <- c ; k" := (bind c (fun x => k))
  (at level 10, x name, c at level 100, k at level 200) : prog_scope.
Notation "c ;; k" := (bind c (fun _ => k))
  (at level 100, k at level 200, right associativity) : prog_scope.
Open Scope prog_scope.

Definition gets {A} (f : App -> A) : M A := fun s => Done (f s) s [].
Definition modify (f : App -> App) : M unit := fun s => Done tt (f s) [].
Definition emit (e : Event) : M unit := fun s => Done tt s [e].
Definition fault {A} (f : Fault) : M A := fun _ => Crash f [].
Definition when (b : bool) (m : M unit) : M unit := if b then m else ret tt.

Fixpoint for_each {A} (l : list A) (body : A -> M unit) : M unit :=
  match l with
  | [] => ret tt
  | x :: rest => body x ;; for_each rest body
  end.

(** [Array::getReference (index)]: JUCE only asserts the bound in debug
    builds; an index outside [0, size) is an out-of-bounds access. *)
Definition getReference {A} (arr : list A) (index : Z) : M nat :=
  if (0 <=? index) && (index <? Z.of_nat (length arr))
  then ret (Z.to_nat index)
  else fault (OutOfBounds index (length arr)).

(** Reading and writing through a reference into [leds_] or [loops_]. *)
Definition read_led (ref : Z) : M LED.t :=
  do leds <- gets leds_;
  do i <- getReference leds ref;
  match leds !! i with
  | Some l => ret l
  | None => fault (OutOfBounds ref (length leds))
  end.

Definition write_led (ref : Z) (f : LED.t -> LED.t) : M unit :=
  do leds <- gets leds_;
  do i <- getReference leds ref;
  modify (set_leds (alter f i leds)).

Definition read_loop (k : nat) : M Loop.t :=
  do loops <- gets loops_;
  match loops !! k with
  | Some l => ret l
  | None => fault (OutOfBounds (Z.of_nat k) (length loops))
  end.

Definition write_loop (k : nat) (f : Loop.t -> Loop.t) : M unit :=
  modify (fun s => set_loops (alter f k (loops_ s)) s).

(** ** LEDs *)

Definition pedalIndex (controllerValue : Z) : Z :=
  match controllerValue with
  | 1 | 2 | 3 | 4 | 5 | 6 | 7 | 8 | 9 => controllerValue - 1
  | 0 => 9
  | 10 => UP
  | 11 => DOWN
  | _ => controllerValue
  end.

(** The result type is [uint8], hence the reduction in the last case. *)
Definition ledNumber (pedalIdx : Z) : Z :=
  match pedalIdx with
  | 0 | 1 | 2 | 3 | 4 | 5 | 6 | 7 | 8 => pedalIdx + 1
  | 9 => 0
  | _ => pedalIdx mod 256
  end.

Definition led_message (led : LED.t) : Event :=
  osc_send oscLedSender "/led"
    [Int32 (LED.index_ led); Int32 (if LED.on_ led then 1 else 0);
     Int32 (LED.timer_ led); Int32 (LedStates_to_int (LED.state_ led))].

(** [ledOn] and [ledOff] are the same function up to the controller number
    they print and the value they store in [on_]. The line goes to stdout
    before the LED is looked up. *)
Definition led_switch (cc : Z) (on : bool) (pedalIdx : Z) : M unit :=
  emit (cout_cc cc (ledNumber pedalIdx)) ;;
  write_led pedalIdx (LED.set_on on) ;;
  do led <- read_led pedalIdx;
  do initialized <- gets oscLedSenderInitialized_;
  when initialized (emit (led_message led)).

Definition ledOn (pedalIdx : Z) : M unit := led_switch 106 true pedalIdx.
Definition ledOff (pedalIdx : Z) : M unit := led_switch 107 false pedalIdx.

(** The first [switch] of [updateLoopLedState]: the look of the loop's own
    LED, and the shared action LED of the four states that have one. *)
Definition switch_newState (loop : Loop.t) (newState : LoopStates) : M unit :=
  let led := Loop.led_ loop in
  let index := Loop.index_ loop in
  match newState with
  | Unknown | Off =>
      write_led led (LED.set_state Dark) ;;
      write_led led (LED.set_timer TIMER_OFF) ;;
      ledOff index
  | WaitStart | WaitStop =>
      write_led led (LED.set_state FastBlink) ;;
      write_led led (LED.set_timer TIMER_FASTBLINK) ;;
      ledOn index
  | Recording =>
      write_led led (LED.set_state Light) ;;
      write_led led (LED.set_timer TIMER_OFF) ;;
      ledOn index
  | Overdubbing =>
      write_led led (LED.set_state Light) ;;
      write_led led (LED.set_timer TIMER_OFF) ;;
      ledOn index
  | Inserting =>
      write_led led (LED.set_state FastBlink) ;;
      write_led led (LED.set_timer TIMER_FASTBLINK) ;;
      ledOn index ;;
      ledOn INSERT
  | Replacing =>
      write_led led (LED.set_state FastBlink) ;;
      write_led led (LED.set_timer TIMER_FASTBLINK) ;;
      ledOn index ;;
      ledOn REPLACE
  | Substitute =>
      write_led led (LED.set_state FastBlink) ;;
      write_led led (LED.set_timer TIMER_FASTBLINK) ;;
      ledOn index ;;
      ledOn SUBSTITUTE
  | Multiplying =>
      write_led led (LED.set_state FastBlink) ;;
      write_led led (LED.set_timer TIMER_FASTBLINK) ;;
      ledOn index ;;
      ledOn MULTIPLY
  | Delay =>
      write_led led (LED.set_state Light) ;;
      write_led led (LED.set_timer TIMER_OFF) ;;
      ledOn index
  | Scratching =>
      write_led led (LED.set_state Light) ;;
      write_led led (LED.set_timer TIMER_OFF) ;;
      ledOn index
  | OneShot =>
      write_led led (LED.set_state Light) ;;
      write_led led (LED.set_timer TIMER_OFF) ;;
      ledOn index
  | Playing =>
      do mode <- gets mode_;
      if mode =? 0 then
        write_led led (LED.set_state Light) ;;
        write_led led (LED.set_timer TIMER_OFF) ;;
        ledOn index
      else
        write_led led (LED.set_state Blink) ;;
        write_led led (LED.set_timer TIMER_BLINK) ;;
        ledOn index
  | Muted | Paused =>
      write_led led (LED.set_state Blink) ;;
      write_led led (LED.set_timer TIMER_BLINK) ;;
      ledOn index
  | _ =>
      write_led led (LED.set_state Dark) ;;
      write_led led (LED.set_timer TIMER_OFF) ;;
      ledOff index
  end.

(** The second [switch], on the state the loop had so far: "turn off any
    leds that are no longer active". *)
Definition switch_oldState (loop : Loop.t) : M unit :=
  match Loop.state_ loop with
  | Inserting => ledOff INSERT
  | Replacing => ledOff REPLACE
  | Substitute => ledOff SUBSTITUTE
  | Multiplying => ledOff MULTIPLY
  | _ => ret tt
  end.

(** [updateLoopLedState (Loop& loop, LoopStates newState)]; the loop is
    given by its position [k] in [loops_]. *)
Definition updateLoopLedState (k : nat) (newState : LoopStates) : M unit :=
  do loop <- read_loop k;
  switch_newState loop newState ;;
  when (negb (newState =? Loop.state_ loop)) (switch_oldState loop) ;;
  write_loop k (Loop.set_state newState).

(** [for (auto&& loop : loops_) updateLoopLedState (loop, loop.state_)] *)
Definition updateLoops : M unit :=
  do loops <- gets loops_;
  for_each (seq 0 (length loops))
    (fun k => do loop <- read_loop k; updateLoopLedState k (Loop.state_ loop)).

Definition selectLoop : M unit :=
  do sel <- gets selectedLoop_;
  (if 0 <? Z.quot sel 10
   then emit (cout_cc 113 (Z.quot sel 10))
   else emit (cout_cc 113 0)) ;;
  emit (cout_cc 114 (Z.rem sel 10)) ;;
  do initialized <- gets oscLedSenderInitialized_;
  when initialized (emit (osc_send oscLedSender "/display" [Int32 sel])).

(** ** Pedal events *)

(** [sendMidiMessage]; every caller passes [virtMidiOut_] as the port. *)
Definition sendMidiMessage (msg : MidiMessage) : M unit :=
  do midiOut <- gets virtMidiOut_;
  if midiOut then emit (midi_send msg)
  else
    do printed <- gets missingOutputPortWarningPrinted;
    when (negb printed)
      (emit (cerr LogMissingOutputPort) ;;
       modify (set_missingOutputPortWarningPrinted true)).

(** [handleIncomingMidiMessage]: the controller part, then the description
    of the message on stderr ([LogMidi] stands for the line of the message's
    kind, and for no line when the kind is none of those listed there).
    [lastTime_], written at a pedal-down and read nowhere, is left out. *)
Definition handleIncomingMidiMessage (msg : MidiMessage) : M unit :=
  match msg with
  | controllerEvent _ number value =>
      let pedalIdx := pedalIndex value in
      do channel <- gets channel_;
      do baseNote <- gets baseNote_;
      match number with
      | 104 =>
          if (0 <=? pedalIdx) && (pedalIdx <=? 3) then
            do mode <- gets mode_;
            sendMidiMessage (noteOn channel (baseNote + mode + pedalIdx) 127)
          else if pedalIdx =? RECORD then
            do mode <- gets mode_;
            let mode' := if 0 <? mode then 0 else 20 in
            modify (set_mode mode') ;;
            (if mode' =? 0 then ledOff pedalIdx else ledOn pedalIdx) ;;
            updateLoops
          else if pedalIdx =? UNDO then
            ledOn pedalIdx ;;
            sendMidiMessage (noteOn channel (baseNote + pedalIdx) 127)
          else
            sendMidiMessage (noteOn channel (baseNote + pedalIdx) 127)
      | 105 =>
          if (0 <=? pedalIdx) && (pedalIdx <=? 3) then
            do mode <- gets mode_;
            sendMidiMessage (noteOff channel (baseNote + mode + pedalIdx) 0)
          else if pedalIdx =? RECORD then
            ret tt
          else if pedalIdx =? UNDO then
            ledOff pedalIdx ;;
            sendMidiMessage (noteOff channel (baseNote + pedalIdx) 0) ;;
            updateLoops
          else
            sendMidiMessage (noteOff channel (baseNote + pedalIdx) 0)
      | _ =>
          do midiOut <- gets virtMidiOut_;
          when midiOut (emit (midi_send msg))
      end
  | _ => ret tt
  end ;;
  emit (cerr (LogMidi msg)).

(** ** Requests to the looper *)

Definition to_string (z : Z) : string := pretty z.

Definition replyUrl : M string :=
  do port <- gets currentReceivePort_;
  ret ("osc.udp://localhost:" +:+ to_string port +:+ "/").

Definition getCurrentState (index : Z) : M unit :=
  do url <- replyUrl;
  emit (osc_send oscSender ("/sl/" +:+ to_string index +:+ "/get")
          [Str "state"; Str url; Str "/ctrl"]).

Definition registerAutoUpdates (index : Z) (unreg : bool) : M unit :=
  do url <- replyUrl;
  if unreg then
    emit (osc_send oscSender ("/sl/" +:+ to_string index +:+ "/unregister_auto_update")
            [Str "state"; Int32 100; Str url; Str "/ctrl"])
  else
    emit (osc_send oscSender ("/sl/" +:+ to_string index +:+ "/register_auto_update")
            [Str "state"; Int32 100; Str url; Str "/ctrl"]).

Definition registerGlobalUpdates (unreg : bool) : M unit :=
  do url <- replyUrl;
  if unreg then
    emit (osc_send oscSender "/unregister_update"
            [Str "selected_loop_num"; Str url; Str "/ctrl"])
  else
    emit (osc_send oscSender "/register_update"
            [Str "selected_loop_num"; Str url; Str "/ctrl"]).

(** [loops_.add ({i, Off, leds_.getReference (i)})]: binding the reference
    indexes [leds_], before the loop is added. *)
Definition add_loop (i : Z) : M unit :=
  do leds <- gets leds_;
  do ref <- getReference leds i;
  modify (fun s => set_loops (loops_ s ++ [Loop.mk i Off (Z.of_nat ref)]) s).

(** ** Messages from the looper *)

(** The argument loop of [handlePingAckMessage]; [i] counts the arguments
    seen so far. *)
Fixpoint pingack_arguments (i : nat) (args : list OSCArgument) : M unit :=
  match args with
  | [] => ret tt
  | arg :: rest =>
      match i, arg with
      | 0%nat, Str s => modify (set_hostUrl s)
      | 1%nat, Str s => modify (set_version s)
      | 2%nat, Int32 z => modify (set_loopCount z)
      | 3%nat, Int32 z => modify (set_engineId z)
      | 0%nat, _ | 1%nat, _ | 2%nat, _ | 3%nat, _ => ret tt
      | _, _ => emit (cerr LogUnexpectedPingAckArgs)
      end ;;
      pingack_arguments (S i) rest
  end.

Definition handlePingAckMessage (message : OSCMessage) : M unit :=
  match message with
  | [] => ret tt
  | _ =>
      pingack_arguments 0 message ;;
      do loopCount <- gets loopCount_;
      when (0 <? loopCount)
        (modify (set_loops []) ;;
         for_each (seqZ 0 loopCount)
           (fun i => add_loop i ;; registerAutoUpdates i false ;; getCurrentState i) ;;
         registerGlobalUpdates false) ;;
      modify (set_heartbeat 5)
  end.

(** The argument loop of [handleHeartbeatMessage]; the locals [numloops] and
    [uid] are threaded through and returned. *)
Fixpoint heartbeat_arguments (i : nat) (args : list OSCArgument)
    (numloops uid : Z) : M (Z * Z) :=
  match args with
  | [] => ret (numloops, uid)
  | arg :: rest =>
      match i, arg with
      | 0%nat, Str s => modify (set_hostUrl s) ;; heartbeat_arguments (S i) rest numloops uid
      | 1%nat, Str s => modify (set_version s) ;; heartbeat_arguments (S i) rest numloops uid
      | 2%nat, Int32 z => heartbeat_arguments (S i) rest z uid
      | 3%nat, Int32 z => heartbeat_arguments (S i) rest numloops z
      | 0%nat, _ | 1%nat, _ | 2%nat, _ | 3%nat, _ =>
          heartbeat_arguments (S i) rest numloops uid
      | _, _ =>
          emit (cerr LogUnexpectedHeartbeatArgs) ;;
          heartbeat_arguments (S i) rest numloops uid
      end
  end.

Definition handleHeartbeatMessage (message : OSCMessage) : M unit :=
  match message with
  | [] => ret tt
  | _ =>
      do engineId <- gets engineId_;
      do locals <- heartbeat_arguments 0 message 0 engineId;
      let numloops := fst locals in
      let uid := snd locals in
      (if negb (uid =? engineId) then
         when (0 <? numloops)
           (modify (set_loopCount numloops) ;;
            modify (set_loops []) ;;
            for_each (seqZ 0 numloops)
              (fun i =>
                 add_loop i ;; registerAutoUpdates i false ;;
                 getCurrentState i ;; updateLoops) ;;
            registerGlobalUpdates false)
       else
         do loopCount <- gets loopCount_;
         when (negb (loopCount =? numloops))
           (for_each (seqZ loopCount (numloops - loopCount))
              (fun i => registerAutoUpdates i false ;; add_loop i ;; updateLoops) ;;
            modify (set_loopCount numloops))) ;;
      modify (set_heartbeat 5)
  end.

(** [OSCArgument* arg] stepping through the argument list: dereferencing it
    at [message.end ()] is a read past the end. *)
Definition deref (arg : list OSCArgument) : M OSCArgument :=
  match arg with
  | a :: _ => ret a
  | [] => fault PastTheEnd
  end.

(** [arg->getFloat32 ()] assigned to an [int]. *)
Definition getFloat32_as_int (v : float) : M Z :=
  match float_to_int v with
  | Some z => ret z
  | None => fault (NotAnInt v)
  end.

Definition handleCtrlMessage (message : OSCMessage) : M unit :=
  match message with
  | [] => ret tt
  | first :: arg =>
      match first with
      | Int32 loopIndex =>
          if loopIndex =? -2 then
            do a <- deref arg;
            match a with
            | Str key =>
                when (String.eqb key "selected_loop_num")
                  (do v <- deref (tail arg);
                   match v with
                   | Float32 v =>
                       do selected <- getFloat32_as_int v;
                       modify (set_selectedLoop selected) ;; selectLoop
                   | _ => ret tt
                   end)
            | _ => ret tt
            end
          else if loopIndex <? 0 then ret tt
          else
            do a <- deref arg;
            match a with
            | Str key =>
                when (String.eqb key "state")
                  (do v <- deref (tail arg);
                   match v with
                   | Float32 v =>
                       do loopState <- getFloat32_as_int v;
                       do loops <- gets loops_;
                       do k <- getReference loops loopIndex;
                       updateLoopLedState k loopState
                   | _ => ret tt
                   end)
            | _ => ret tt
            end ;;
            modify (set_heartbeat 5)
      | _ => emit (cerr LogUnrecognizedCtrl)
      end
  end.

(** ** The 200 ms timer *)

Fixpoint indexOf (devices : list string) (name : string) : option nat :=
  match devices with
  | [] => None
  | d :: rest => if String.eqb d name then Some 0%nat else S <$> indexOf rest name
  end.

Fixpoint firstContaining (contains : string -> string -> bool)
    (devices : list string) (i : nat) (name : string) : option (nat * string) :=
  match devices with
  | [] => None
  | d :: rest =>
      if contains d name then Some (i, d)
      else firstContaining contains rest (S i) name
  end.

Definition tryToConnectMidiInput (os : Devices) : M bool :=
  do midiInName <- gets midiInName_;
  let found :=
    match indexOf (getDevices os) midiInName with
    | Some index => Some (index, midiInName)
    | None => firstContaining (containsIgnoreCase os) (getDevices os) 0 midiInName
    end in
  match found with
  | Some (index, name) =>
      if openDevice os index then
        modify (set_midiIn true) ;; modify (set_fullMidiInName name) ;; ret true
      else ret false
  | None => ret false
  end.

Definition isValidOscPort (port : Z) : bool := (0 <? port) && (port <? 65536).

Definition connect (os : Devices) : M unit :=
  do portToConnect <- gets oscReceivePort_;
  if negb (isValidOscPort portToConnect) then emit (cerr LogInvalidPortNumber)
  else if receiverConnect os portToConnect then
    modify (set_currentReceivePort portToConnect)
  else emit (cerr (LogConnectError portToConnect)).

Definition tryToConnectOsc (os : Devices) : M bool :=
  do currentSendPort <- gets currentSendPort_;
  when (currentSendPort <? 0)
    (do oscSendPort <- gets oscSendPort_;
     when (senderConnect os oscSendPort)
       (emit (cerr (LogOscSendConnected oscSendPort)) ;;
        modify (set_currentSendPort oscSendPort))) ;;
  do currentReceivePort <- gets currentReceivePort_;
  when (currentReceivePort <? 0) (connect os) ;;
  do snd <- gets currentSendPort_;
  do rcv <- gets currentReceivePort_;
  if (0 <? snd) && (0 <? rcv) then
    do pinged <- gets pinged_;
    when (negb pinged)
      (do url <- replyUrl;
       emit (osc_send oscSender "/ping" [Str url; Str "/pingack"])) ;;
    ret true
  else ret false.

(** [timerCallback] does three things in a row; they are named here. First
    the MIDI input: dropped when its device is gone, opened when one is
    wanted and none is open. *)
Definition timer_midi_input (os : Devices) : M unit :=
  do fullMidiInName <- gets fullMidiInName_;
  do midiInName <- gets midiInName_;
  do midiIn <- gets midiIn_;
  if negb (String.eqb fullMidiInName "")
     && negb (bool_decide (fullMidiInName ∈ getDevices os)) then
    emit (cerr (LogMidiInDisconnected fullMidiInName)) ;;
    modify (set_fullMidiInName "") ;;
    modify (set_midiIn false)
  else if negb (String.eqb midiInName "") && negb midiIn then
    do connected <- tryToConnectMidiInput os;
    when connected
      (do name <- gets fullMidiInName_; emit (cerr (LogMidiInConnected name)))
  else ret tt.

(** Then the virtual MIDI output, on a platform that has such ports (the
    branch of the [#if] that compiles). *)
Definition timer_virtual_output (os : Devices) : M unit :=
  do virtMidiOutName <- gets virtMidiOutName_;
  when (String.eqb virtMidiOutName "")
    (let name := "loop4r_control_out" in
     if createNewDevice os name then
       modify (set_virtMidiOut true) ;; modify (set_virtMidiOutName name)
     else
       modify (set_virtMidiOut false) ;; emit (cerr (LogVirtualOutFailed name))).

(** Last the OSC session and its heartbeat. *)
Definition timer_osc (os : Devices) : M unit :=
  do rcv <- gets currentReceivePort_;
  do snd <- gets currentSendPort_;
  if (rcv <? 0) || (snd <? 0) then
    do connected <- tryToConnectOsc os;
    when connected
      (do r <- gets currentReceivePort_;
       do s <- gets currentSendPort_;
       do l <- gets currentLedSendPort_;
       emit (cerr (LogOscConnected r s l)) ;;
       modify (set_heartbeat 5))
  else
    do heartbeat <- gets heartbeat_;
    if heartbeat =? 0 then
      do url <- replyUrl;
      emit (osc_send oscSender "/ping" [Str url; Str "/heartbeat"])
    else if heartbeat <? -5 then
      modify (set_currentReceivePort (-1)) ;;
      modify (set_currentSendPort (-1)) ;;
      do connected <- tryToConnectOsc os;
      when connected
        (do r <- gets currentReceivePort_;
         do s <- gets currentSendPort_;
         emit (cerr (LogOscReconnected r s)) ;;
         modify (set_heartbeat 5))
    else
      modify (set_heartbeat (heartbeat - 1)).

Definition timerCallback (os : Devices) : M unit :=
  timer_midi_input os ;; timer_virtual_output os ;; timer_osc os.

(** ** The display client *)

(** A display client talks to the program with [/loop4r/...] messages: it
    asks for a reply to an address of its own, or registers to be sent the
    LED changes through [oscLedSender]. What the handlers need of the
    outside world: the answers of the sockets, and the version and the user
    id that the reply to [/loop4r/ping] carries. *)
Record Sockets := mkSockets {
  ledSenderConnect : string -> Z -> bool;
  ledSenderDisconnect : bool;
  replyConnect : string -> Z -> bool;
  replySend : bool;
  versionString : string;
  getuid : Z
}.

(** The program: the members above, and the two that only the registration
    of a display client uses. The constructor does not initialise
    [oscRemotePort_]. *)
Record Program := mkProgram {
  app_ : App;
  oscRemoteHost_ : string;
  oscRemotePort_ : Z
}.

Definition set_oscLedSenderInitialized (v : bool) (a : App) : App :=
  mkApp (leds_ a) (loops_ a) (mode_ a) (heartbeat_ a) (engineId_ a)
    (loopCount_ a) (selectedLoop_ a) (hostUrl_ a) (version_ a)
    (currentReceivePort_ a) (currentSendPort_ a) (currentLedSendPort_ a)
    (oscSendPort_ a) (oscReceivePort_ a) (pinged_ a)
    v (channel_ a) (baseNote_ a) (midiInName_ a)
    (fullMidiInName_ a) (midiIn_ a) (virtMidiOutName_ a) (virtMidiOut_ a)
    (missingOutputPortWarningPrinted a).

(** The lines these handlers and the dispatcher write to [std::cerr]. *)
Inductive ClientLine :=
| LogReplyConnectError (host : string) (port : Z)
| LogReplySendError (host : string) (port : Z)
| LogUnregisterDisconnectError (host : string) (port : Z)
| LogRegisterDisconnectError (port : Z)
| LogRegisterConnectError (port : Z)
| LogOscMessage (address : string) (size : nat)
| LogOscArgument (arg : OSCArgument).

(** What the program does to the outside: the events of the members above,
    a message sent through a temporary sender connected to [host:port], the
    calls that connect and disconnect [oscLedSender], and the lines. *)
Inductive Output :=
| of_app (e : Event)
| reply_send (host : string) (port : Z) (address : string) (args : list OSCArgument)
| led_sender_connect (host : string) (port : Z)
| led_sender_disconnect
| client_cerr (l : ClientLine).

Inductive Outcome :=
| Returned (p : Program) (out : list Output)
| Faulted (f : Fault) (out : list Output).

(** [after o r]: the outcome [r] of the rest, after [o] has been written. *)
Definition after_output (o : list Output) (r : Outcome) : Outcome :=
  match r with
  | Returned p o' => Returned p (o ++ o')
  | Faulted f o' => Faulted f (o ++ o')
  end.

(** A member function of the part above, run on the program. *)
Definition run_member (m : M unit) (p : Program) : Outcome :=
  match m (app_ p) with
  | Done _ s out => Returned (mkProgram s (oscRemoteHost_ p) (oscRemotePort_ p)) (of_app <$> out)
  | Crash f out => Faulted f (of_app <$> out)
  end.

(** [handlePingMessage], [handleLedsMessage] and [handleDisplayMessage]
    read their arguments alike: a string, an int32 and a string, stepping an
    [OSCArgument*] that is dereferenced without a look at [message.end ()]. *)
Inductive Parsed (A : Type) :=
| parsed (a : A)
| unexpected
| past_the_end.
Arguments parsed {A} a.
Arguments unexpected {A}.
Arguments past_the_end {A}.

Definition reply_arguments (message : OSCMessage) : Parsed (string * Z * string) :=
  match message with
  | [] => unexpected
  | Str host :: arg =>
      match arg with
      | [] => past_the_end
      | Int32 port :: arg =>
          match arg with
          | [] => past_the_end
          | Str url :: _ => parsed (host, port, url)
          | _ => unexpected
          end
      | _ => unexpected
      end
  | _ => unexpected
  end.

(** The body the three handlers share: a temporary sender is connected to
    [host:port], and [send] says what goes through it. An address given as
    [url] is taken to be one that [OSCAddressPattern] accepts. *)
Definition reply (net : Sockets) (message : OSCMessage)
    (send : string -> Z -> string -> list Output) (p : Program) : Outcome :=
  match reply_arguments message with
  | parsed (host, port, url) =>
      if negb (replyConnect net host port)
      then Returned p [client_cerr (LogReplyConnectError host port)]
      else Returned p (send host port url)
  | unexpected => Returned p []
  | past_the_end => Faulted PastTheEnd []
  end.

Definition handlePingMessage (net : Sockets) (message : OSCMessage) (p : Program) : Outcome :=
  reply net message
    (fun host port url =>
       reply_send host port url
         [Str ("osc.udp://localhost:" +:+ to_string (oscReceivePort_ (app_ p)));
          Str (versionString net);
          Int32 (Z.of_nat (length (leds_ (app_ p))));
          Int32 (getuid net)]
       :: (if replySend net then [] else [client_cerr (LogReplySendError host port)]))
    p.

Definition led_arguments (led : LED.t) : list OSCArgument :=
  [Int32 (LED.index_ led); Int32 (if LED.on_ led then 1 else 0);
   Int32 (LED.timer_ led); Int32 (LedStates_to_int (LED.state_ led))].

Definition handleLedsMessage (net : Sockets) (message : OSCMessage) (p : Program) : Outcome :=
  reply net message
    (fun host port url =>
       (fun led => reply_send host port url (led_arguments led)) <$> leds_ (app_ p))
    p.

Definition handleDisplayMessage (net : Sockets) (message : OSCMessage) (p : Program) : Outcome :=
  reply net message
    (fun host port _ =>
       [reply_send host port "/display" [Int32 (selectedLoop_ (app_ p))]])
    p.

(** The three assignments after [oscLedSender] has been disconnected, and
    after it has been connected. *)
Definition unregistered (p : Program) : Program :=
  mkProgram (set_oscLedSenderInitialized false (app_ p)) "" (-1).

Definition registered (host : string) (port : Z) (p : Program) : Program :=
  mkProgram (set_oscLedSenderInitialized true (app_ p)) host port.

Definition handleRegisterAutoUpdateMessage (net : Sockets) (message : OSCMessage)
    (unreg : bool) (p : Program) : Outcome :=
  match message with
  | [] => Returned p []
  | Str host :: arg =>
      match arg with
      | [] => Faulted PastTheEnd []
      | Int32 port :: _ =>
          if unreg then
            if oscLedSenderInitialized_ (app_ p) then
              if negb (ledSenderDisconnect net) then
                Returned p
                  [led_sender_disconnect;
                   client_cerr (LogUnregisterDisconnectError (oscRemoteHost_ p) (oscRemotePort_ p))]
              else Returned (unregistered p) [led_sender_disconnect]
            else Returned p []
          else if negb (String.eqb host (oscRemoteHost_ p)) || negb (port =? oscRemotePort_ p) then
            let dropped :=
              if oscLedSenderInitialized_ (app_ p) then
                if negb (ledSenderDisconnect net) then
                  (p, [led_sender_disconnect;
                       client_cerr (LogRegisterDisconnectError (oscRemotePort_ p))])
                else (unregistered p, [led_sender_disconnect])
              else (p, []) in
            let p1 := fst dropped in
            let o1 := snd dropped in
            if negb (ledSenderConnect net host port) then
              Returned p1
                (o1 ++ [led_sender_connect host port;
                        client_cerr (LogRegisterConnectError (oscRemotePort_ p1))])
            else Returned (registered host port p1) (o1 ++ [led_sender_connect host port])
          else Returned p []
      | _ => Returned p []
      end
  | _ => Returned p []
  end.

(** [String::startsWith] *)
Definition startsWith (s other : string) : bool := String.prefix other s.

(** [oscMessageReceived]: the message is described on [std::cerr] unless it
    is a heartbeat or a client's ping, and handed to the handler of the first
    address it starts with. *)
Definition oscMessageReceived (net : Sockets) (address : string) (message : OSCMessage)
    (p : Program) : Outcome :=
  after_output
    (if negb (startsWith address "/heartbeat") && negb (startsWith address "/loop4r/ping")
     then client_cerr (LogOscMessage address (length message))
          :: ((fun arg => client_cerr (LogOscArgument arg)) <$> message)
     else [])
    (if startsWith address "/pingack" then run_member (handlePingAckMessage message) p
     else if startsWith address "/ctrl" then run_member (handleCtrlMessage message) p
     else if startsWith address "/heartbeat" then run_member (handleHeartbeatMessage message) p
     else if startsWith address "/loop4r/ping" then handlePingMessage net message p
     else if startsWith address "/loop4r/leds" then handleLedsMessage net message p
     else if startsWith address "/loop4r/display" then handleDisplayMessage net message p
     else if startsWith address "/loop4r/register_auto_update"
     then handleRegisterAutoUpdateMessage net message false p
     else if startsWith address "/loop4r/unregister_auto_update"
     then handleRegisterAutoUpdateMessage net message true p
     else Returned p []).

(** The callbacks through which the running program is driven, each with
    what the outside world answers while it runs. *)
Inductive Callback :=
| midi_in (msg : MidiMessage)
| osc_in (net : Sockets) (address : string) (message : OSCMessage)
| timer_tick (os : Devices).

Definition callback (c : Callback) (p : Program) : Outcome :=
  match c with
  | midi_in msg => run_member (handleIncomingMidiMessage msg) p
  | osc_in net address message => oscMessageReceived net address message p
  | timer_tick os => run_member (timerCallback os) p
  end.

(** Callbacks taken one at a time, each to its end, until one faults. The
    timer and the OSC receiver call back on the message thread, one after
    the other; [handleIncomingMidiMessage] is called on the thread of the
    MIDI input and takes no lock, and is taken here as running between two
    callbacks of the message thread, not during one. *)
Fixpoint callbacks (cs : list Callback) (p : Program) : Outcome :=
  match cs with
  | [] => Returned p []
  | c :: rest =>
      match callback c p with
      | Returned p1 o1 => after_output o1 (callbacks rest p1)
      | Faulted f o1 => Faulted f o1
      end
  end.

(** ** The command line *)

Inductive CommandIndex :=
| NONE | LIST | PANIC | DEVICE_IN | VIRTUAL_OUT | CHANNEL | BASE_NOTE | OSC_IN | OSC_OUT.

(** [ApplicationCommand], without the two descriptions that only
    [printUsage] reads. *)
Record ApplicationCommand := mkCommand {
  param_ : string;
  altParam_ : string;
  command_ : CommandIndex;
  expectedOptions_ : Z;
  opts_ : list string
}.

Definition Dummy : ApplicationCommand := mkCommand "" "" NONE 0 [].

(** The table the constructor fills. *)
Definition commands_ : list ApplicationCommand :=
  [ mkCommand "din" "device in" DEVICE_IN 1 [];
    mkCommand "vout" "virtual" VIRTUAL_OUT (-1) [];
    mkCommand "panic" "" PANIC 0 [];
    mkCommand "list" "" LIST 0 [];
    mkCommand "ch" "channel" CHANNEL 1 [];
    mkCommand "base" "base note" BASE_NOTE 1 [];
    mkCommand "oin" "osc in" OSC_IN 1 [];
    mkCommand "oout" "osc out" OSC_OUT 1 [] ].

(** What parsing needs of the outside: JUCE's [String::equalsIgnoreCase],
    and for a parameter that names a file in the working directory, the
    parameters that [parseLineAsParameters] reads from its lines. *)
Record Shell := mkShell {
  equalsIgnoreCase : string -> string -> bool;
  readParameters : string -> option (list string)
}.

Definition findApplicationCommand (sh : Shell) (param : string) : option ApplicationCommand :=
  List.find
    (fun cmd => equalsIgnoreCase sh (param_ cmd) param
                || equalsIgnoreCase sh (altParam_ cmd) param)
    commands_.

(** [parseParameters] decides when [executeCommand] is called and with
    which options; the calls are collected in the order they are made, each
    with [currentCommand_] as it is passed. [handleVarArgCommand]: *)
Definition handleVarArgCommand (currentCommand : ApplicationCommand) :
    list ApplicationCommand :=
  if expectedOptions_ currentCommand <? 0 then [currentCommand] else [].

Definition add_option (param : string) (c : ApplicationCommand) : ApplicationCommand :=
  mkCommand (param_ c) (altParam_ c) (command_ c) (expectedOptions_ c - 1)
    (opts_ c ++ [param]).

Definition is_NONE (c : CommandIndex) : bool :=
  match c with NONE => true | _ => false end.

(** [parseParameters] with [parseFile]: the result is [currentCommand_] at
    the end and the calls of [executeCommand]. A file may name a file;
    [depth] bounds how deep, and [None] says the bound was reached. *)
Fixpoint parseParameters (depth : nat) (sh : Shell) (parameters : list string)
    (currentCommand : ApplicationCommand) :
    option (ApplicationCommand * list ApplicationCommand) :=
  match depth with
  | O => None
  | S depth =>
      (fix loop (parameters : list string) (currentCommand : ApplicationCommand) :=
         match parameters with
         | [] => Some (currentCommand, handleVarArgCommand currentCommand)
         | param :: rest =>
             if String.eqb param "--" then loop rest currentCommand
             else
               let taken :=
                 match findApplicationCommand sh param with
                 | Some cmd => Some (cmd, handleVarArgCommand currentCommand)
                 | None =>
                     if is_NONE (command_ currentCommand) then
                       match readParameters sh param with
                       | Some lines => parseParameters depth sh lines currentCommand
                       | None => Some (currentCommand, [])
                       end
                     else if negb (expectedOptions_ currentCommand =? 0) then
                       Some (add_option param currentCommand, [])
                     else Some (currentCommand, [])
                 end in
               match taken with
               | Some (current, executed) =>
                   let fixed :=
                     if expectedOptions_ current =? 0 then [current] else [] in
                   match loop rest current with
                   | Some (final, later) => Some (final, executed ++ fixed ++ later)
                   | None => None
                   end
               | None => None
               end
         end) parameters currentCommand
  end.

(** [jlimit] and the three limits, each cast to its unsigned type. *)
Definition jlimit (lowerLimit upperLimit valueToConstrain : Z) : Z :=
  if valueToConstrain <? lowerLimit then lowerLimit
  else if upperLimit <? valueToConstrain then upperLimit
  else valueToConstrain.

Definition limit7Bit (value : Z) : Z := jlimit 0 127 value mod 256.
Definition limit14Bit (value : Z) : Z := jlimit 0 16383 value mod 65536.
Definition limit16Bit (value : Z) : Z := jlimit 0 65535 value mod 65536.

(** The case [PANIC] of [executeCommand]. *)
Definition panic : M unit :=
  for_each (seqZ 1 16)
    (fun ch =>
       sendMidiMessage (controllerEvent ch 64 0) ;;
       sendMidiMessage (controllerEvent ch 120 0) ;;
       sendMidiMessage (controllerEvent ch 123 0) ;;
       for_each (seqZ 0 128) (fun note => sendMidiMessage (noteOff ch note 0))).

(** * Definitions for the statements *)

(** The constructor's state, projections of the output, the table of the
    specification, and for each claim the predicates its theorem and its
    counterexample are about. *)

(** ** The state set up by the constructor *)

Definition initial : App :=
  {| leds_ := (fun i => LED.mk i false TIMER_OFF Dark) <$> seqZ 0 10;
     loops_ := [];
     mode_ := 0;
     heartbeat_ := 5;
     engineId_ := 0;
     loopCount_ := 0;
     selectedLoop_ := -1;
     hostUrl_ := "";
     version_ := "";
     currentReceivePort_ := -1;
     currentSendPort_ := -1;
     currentLedSendPort_ := -1;
     oscSendPort_ := 9951;
     oscReceivePort_ := 9000;
     pinged_ := false;
     oscLedSenderInitialized_ := false;
     channel_ := 1;
     baseNote_ := DEFAULT_BASE_NOTE;
     midiInName_ := "";
     fullMidiInName_ := "";
     midiIn_ := false;
     virtMidiOutName_ := "";
     virtMidiOut_ := false;
     missingOutputPortWarningPrinted := false |}.

(** A machine on which every device and socket is available. *)
Definition friendly : Devices :=
  {| getDevices := [];
     openDevice := fun _ => true;
     createNewDevice := fun _ => true;
     senderConnect := fun _ => true;
     receiverConnect := fun _ => true;
     containsIgnoreCase := fun _ _ => false |}.

(** The state and the output of a run, for stating examples. *)
Definition final_state {A} (r : Res A) : option App :=
  match r with Done _ s _ => Some s | Crash _ _ => None end.

Definition output {A} (r : Res A) : list Event :=
  match r with Done _ _ o => o | Crash _ o => o end.

(** ** Projections of the output *)

(** The [cc] lines on stdout, in order. *)
Definition cc_lines (out : list Event) : list (Z * Z) :=
  omap (fun e => match e with cout_cc cc n => Some (cc, n) | _ => None end) out.

(** The requests sent to the looper, in order. *)
Definition looper_requests (out : list Event) : list (string * list OSCArgument) :=
  omap (fun e => match e with
                 | osc_send oscSender a args => Some (a, args)
                 | _ => None
                 end) out.

(** The messages written to the MIDI output port, in order. *)
Definition midi_sent (out : list Event) : list MidiMessage :=
  omap (fun e => match e with midi_send m => Some m | _ => None end) out.

(** ** Well-formed states *)

(** Ten LEDs, and every loop bound to the LED of its own index, inside the
    pool. *)
Definition wf_loop (l : Loop.t) : Prop :=
  0 <= Loop.index_ l < 10 /\ Loop.led_ l = Loop.index_ l.

Definition wf (s : App) : Prop :=
  length (leds_ s) = 10%nat /\ Forall wf_loop (loops_ s).

(** ** What [ledOn] and [ledOff] write *)

(** The LED a call of [ledOn] or [ledOff] leaves behind, and what it writes. *)
Definition led_events (cc : Z) (pedalIdx : Z) (led : LED.t) (s : App) : list Event :=
  cout_cc cc (ledNumber pedalIdx)
  :: (if oscLedSenderInitialized_ s then [led_message led] else []).

(** ** The LED table of the specification *)

(** The table of the LED state machine, row by row as the specification
    gives it: visual state, blink timer, whether the LED is lit, and the
    shared action LED that is lit with it. *)
Inductive BlinkTimer := timer_off | timer_fast | timer_slow.

Definition timer_value (t : BlinkTimer) : Z :=
  match t with
  | timer_off => TIMER_OFF
  | timer_fast => TIMER_FASTBLINK
  | timer_slow => TIMER_BLINK
  end.

Record Look := mkLook {
  visual : LedStates;
  timer : BlinkTimer;
  lit : bool;
  action : option Z
}.

Definition table (mode : Z) (newState : LoopStates) : Look :=
  match newState with
  | Unknown | Off => mkLook Dark timer_off false None
  | WaitStart | WaitStop => mkLook FastBlink timer_fast true None
  | Recording | Overdubbing | Delay | Scratching | OneShot =>
      mkLook Light timer_off true None
  | Inserting => mkLook FastBlink timer_fast true (Some INSERT)
  | Replacing => mkLook FastBlink timer_fast true (Some REPLACE)
  | Substitute => mkLook FastBlink timer_fast true (Some SUBSTITUTE)
  | Multiplying => mkLook FastBlink timer_fast true (Some MULTIPLY)
  | Playing =>
      if mode =? 0 then mkLook Light timer_off true None
      else mkLook Blink timer_slow true None
  | Muted | Paused => mkLook Blink timer_slow true None
  | _ => mkLook Dark timer_off false None
  end.

(** The shared action LED of a state, for the cleanup step. *)
Definition action_led (state : LoopStates) : option Z :=
  match state with
  | Inserting => Some INSERT
  | Replacing => Some REPLACE
  | Substitute => Some SUBSTITUTE
  | Multiplying => Some MULTIPLY
  | _ => None
  end.

(** The LED with the look of a table row. *)
Definition repaint (lk : Look) (l : LED.t) : LED.t :=
  LED.mk (LED.index_ l) (lit lk) (timer_value (timer lk)) (visual lk).

(** What the first switch does for a table row, as a program. *)
Definition paint (loop : Loop.t) (lk : Look) : M unit :=
  match action lk with
  | Some a =>
      write_led (Loop.led_ loop) (LED.set_state (visual lk)) ;;
      write_led (Loop.led_ loop) (LED.set_timer (timer_value (timer lk))) ;;
      led_switch (if lit lk then 106 else 107) (lit lk) (Loop.index_ loop) ;;
      ledOn a
  | None =>
      write_led (Loop.led_ loop) (LED.set_state (visual lk)) ;;
      write_led (Loop.led_ loop) (LED.set_timer (timer_value (timer lk))) ;;
      led_switch (if lit lk then 106 else 107) (lit lk) (Loop.index_ loop)
  end.

(** ** The LEDs and the lines after [updateLoopLedState] *)

Definition is_led_event (e : Event) : Prop :=
  match e with
  | cout_cc _ _ | osc_send oscLedSender _ _ => True
  | _ => False
  end.

(** [leds_] after [ledOn]/[ledOff] of an optional shared LED. *)
Definition switch_shared (a : option Z) (on : bool) (leds : list LED.t) : list LED.t :=
  match a with
  | Some a => alter (LED.set_on on) (Z.to_nat a) leds
  | None => leds
  end.

Definition shared_line (cc : Z) (a : option Z) : list (Z * Z) :=
  match a with Some a => [(cc, ledNumber a)] | None => [] end.

(** [leds_] and the [cc] lines after [updateLoopLedState], written with the
    operations of the two switches in the order the function runs them. *)
Definition leds_after (loop : Loop.t) (mode : Z) (newState : LoopStates)
    (leds : list LED.t) : list LED.t :=
  let lk := table mode newState in
  let shown :=
    switch_shared (action lk) true
      (alter (repaint lk) (Z.to_nat (Loop.index_ loop)) leds) in
  if newState =? Loop.state_ loop then shown
  else switch_shared (action_led (Loop.state_ loop)) false shown.

Definition lines_after (loop : Loop.t) (mode : Z) (newState : LoopStates) : list (Z * Z) :=
  let lk := table mode newState in
  ((if lit lk then 106 else 107), ledNumber (Loop.index_ loop))
  :: shared_line 106 (action lk)
  ++ (if newState =? Loop.state_ loop then []
      else shared_line 107 (action_led (Loop.state_ loop))).

(** ** C1: the LED table *)

(** The visual state and the timer of the loop's LED after
    [updateLoopLedState] are those of the table row. *)
Definition follows_table_look (s : App) (k : nat) (newState : LoopStates) : Prop :=
  exists loop s' out led,
    loops_ s !! k = Some loop /\
    updateLoopLedState k newState s = Done tt s' out /\
    leds_ s' !! Z.to_nat (Loop.index_ loop) = Some led /\
    LED.state_ led = visual (table (mode_ s) newState) /\
    LED.timer_ led = timer_value (timer (table (mode_ s) newState)).

(** The whole row: visual state, timer, the loop's LED lit or not, and the
    shared action LED lit for the four states that have one. *)
Definition follows_table (s : App) (k : nat) (newState : LoopStates) : Prop :=
  exists loop s' out led,
    loops_ s !! k = Some loop /\
    updateLoopLedState k newState s = Done tt s' out /\
    leds_ s' !! Z.to_nat (Loop.index_ loop) = Some led /\
    LED.state_ led = visual (table (mode_ s) newState) /\
    LED.timer_ led = timer_value (timer (table (mode_ s) newState)) /\
    LED.on_ led = lit (table (mode_ s) newState) /\
    forall a, action (table (mode_ s) newState) = Some a ->
      exists shared, leds_ s' !! Z.to_nat a = Some shared /\ LED.on_ shared = true.

(** The cleanup step does not hit the loop's own LED: either nothing is
    cleaned up, or the shared LED of the previous state is another one. *)
Definition cleanup_spares_own_led (loop : Loop.t) (newState : LoopStates) : Prop :=
  newState <> Loop.state_ loop ->
  action_led (Loop.state_ loop) <> Some (Loop.index_ loop).

(** The cleanup step hits the loop's own LED: the previous state differs
    from the new one, and its shared action LED is the LED of the loop's own
    index (loop 5 and Multiply, 6 and Insert, 7 and Replace, 8 and
    Substitute). *)
Definition cleanup_hits_own_led (loop : Loop.t) (newState : LoopStates) : Prop :=
  newState <> Loop.state_ loop /\
  action_led (Loop.state_ loop) = Some (Loop.index_ loop).

(** The loop's LED is not lit after [updateLoopLedState], whatever the
    table row says. *)
Definition own_led_put_out (s : App) (k : nat) (newState : LoopStates) : Prop :=
  exists loop s' out led,
    loops_ s !! k = Some loop /\
    updateLoopLedState k newState s = Done tt s' out /\
    leds_ s' !! Z.to_nat (Loop.index_ loop) = Some led /\
    LED.on_ led = false.

(** *** Example states *)

(** The state a handler leaves behind (the state itself if it faults). *)
Definition after (m : M unit) (s : App) : App :=
  match m s with Done _ s' _ => s' | Crash _ _ => s end.

(** The session a first tick establishes on a machine where every socket
    connects. *)
Definition established : App := after (timerCallback friendly) initial.

(** The session after a handshake that reported seven loops; then with
    loop 6 reported [Inserting], or with loop 0 reported [Inserting]. *)
Definition seven_loops : App :=
  after (handlePingAckMessage [Str "osc.udp://localhost:9951/"; Str "1.4.0"; Int32 7; Int32 1])
    established.

Definition loop6_inserting : App :=
  after (handleCtrlMessage [Int32 6; Str "state"; Float32 (7 # 1)]) seven_loops.

Definition loop0_inserting : App :=
  after (handleCtrlMessage [Int32 0; Str "state"; Float32 (7 # 1)]) seven_loops.

(** ** C2: the cleanup step and the stored state *)

(** [x] is written before [y] in a list of lines. *)
Definition precedes {A} (x y : A) (l : list A) : Prop :=
  exists pre mid post, l = pre ++ x :: mid ++ y :: post.

(** The line [updateLoopLedState] writes for the loop's own LED. *)
Definition own_line (s : App) (loop : Loop.t) (newState : LoopStates) : Z * Z :=
  ((if lit (table (mode_ s) newState) then 106 else 107), ledNumber (Loop.index_ loop)).

(** The order the specification states (C2): the shared action LED of the previous state
    is turned off before the loop's own LED is switched, and the new state is
    stored. *)
Definition cleanup_before_own (s : App) (k : nat) (newState : LoopStates) : Prop :=
  exists loop b s' out,
    loops_ s !! k = Some loop /\
    action_led (Loop.state_ loop) = Some b /\
    updateLoopLedState k newState s = Done tt s' out /\
    precedes (107, ledNumber b) (own_line s loop newState) (cc_lines out) /\
    loops_ s' = alter (Loop.set_state newState) k (loops_ s).

(** The order of the code, for a loop whose own LED is not the shared
    action LED of its previous state: the loop's own LED, the shared LED of
    the new state if it has one, and only then the shared LED of the previous
    state; the new state is stored. *)
Definition cleanup_after_own (s : App) (k : nat) (newState : LoopStates) : Prop :=
  exists loop b s' out,
    loops_ s !! k = Some loop /\
    action_led (Loop.state_ loop) = Some b /\
    b <> Loop.index_ loop /\
    updateLoopLedState k newState s = Done tt s' out /\
    cc_lines out
      = own_line s loop newState
        :: shared_line 106 (action_led newState) ++ [(107, ledNumber b)] /\
    precedes (own_line s loop newState) (107, ledNumber b) (cc_lines out) /\
    (exists shared, leds_ s' !! Z.to_nat b = Some shared /\ LED.on_ shared = false) /\
    loops_ s' = alter (Loop.set_state newState) k (loops_ s).

(** The new state is stored whatever the previous and the new state are. *)
Definition stores_state (s : App) (k : nat) (newState : LoopStates) : Prop :=
  exists s' out,
    updateLoopLedState k newState s = Done tt s' out /\
    loops_ s' = alter (Loop.set_state newState) k (loops_ s).

(** ** C3: the heartbeat countdown *)

(** What the timer looks at in its OSC part. *)
Definition session (s : App) : Z * Z * Z :=
  (currentReceivePort_ s, currentSendPort_ s, heartbeat_ s).

(** The proactive ping of the timer. *)
Definition heartbeat_ping (s : App) : string * list OSCArgument :=
  ("/ping", [Str ("osc.udp://localhost:" +:+ to_string (currentReceivePort_ s) +:+ "/");
             Str "/heartbeat"]).

(** Ticks of the timer with no message from the looper in between; [oss]
    gives what the devices answer at each tick. *)
Definition ticks (oss : list Devices) : M unit := for_each oss timerCallback.

(** The specification (C3): eleven silent ticks after the handshake reset
    the session. *)
Definition resets_after_eleven_ticks (s : App) (oss : list Devices) : Prop :=
  exists s' out,
    ticks oss s = Done tt s' out /\
    (currentReceivePort_ s' < 0 \/ currentSendPort_ s' < 0 \/ heartbeat_ s' < -5).

(** ** C7: control messages and the heartbeat countdown *)

(** The specification (C7) for a parsed global update: the countdown is 5
    afterwards. *)
Definition selected_loop_resets_heartbeat (s : App) (v : float) : Prop :=
  exists s' out,
    handleCtrlMessage [Int32 (-2); Str "selected_loop_num"; Float32 v] s
      = Done tt s' out /\
    float_to_int v = Some (selectedLoop_ s') /\ heartbeat_ s' = 5.

(** ** C9: no bounds or arity check in [handleCtrlMessage] *)

(** The key that [handleCtrlMessage] looks for behind a loop index: that of
    the global update behind -2, that of a loop's state behind an index from
    0 on, and none behind another negative index. *)
Definition awaited_key (loopIndex : Z) : option string :=
  if loopIndex =? -2 then Some "selected_loop_num"
  else if loopIndex <? 0 then None
  else Some "state".

(** Where a [/ctrl] message makes [handleCtrlMessage] go wrong, and how: the
    message ends behind an index whose key is awaited, or behind the awaited
    key; the value behind the awaited key is a float that no [int] holds; or
    the index of a state message is not below the size of [loops_]. *)
Definition ctrl_fault (s : App) (message : OSCMessage) : option Fault :=
  match message with
  | Int32 loopIndex :: arg =>
      match awaited_key loopIndex, arg with
      | Some _, [] => Some PastTheEnd
      | Some awaited, Str key :: value =>
          if String.eqb key awaited then
            match value with
            | [] => Some PastTheEnd
            | Float32 v :: _ =>
                match float_to_int v with
                | None => Some (NotAnInt v)
                | Some _ =>
                    if (0 <=? loopIndex) && (Z.of_nat (length (loops_ s)) <=? loopIndex)
                    then Some (OutOfBounds loopIndex (length (loops_ s)))
                    else None
                end
            | _ => None
            end
          else None
      | _, _ => None
      end
  | _ => None
  end.

(** The specification (C9), its last two sentences: a state message whose
    index is not below [loopCount_] indexes the loop array out of bounds, and
    a message of one or two arguments is read past its end. *)
Definition beyond_count_is_out_of_bounds (s : App) (loopIndex : Z) (v : float) : Prop :=
  0 <= loopIndex -> loopCount_ s <= loopIndex ->
  exists size out,
    handleCtrlMessage [Int32 loopIndex; Str "state"; Float32 v] s
      = Crash (OutOfBounds loopIndex size) out.

Definition short_is_past_the_end (s : App) (message : OSCMessage) : Prop :=
  message <> [] -> (length message < 3)%nat ->
  exists out, handleCtrlMessage message s = Crash PastTheEnd out.

(** Seven loops, and a heartbeat of their engine that reports one: the seven
    loops stay and [loopCount_] is 1. *)
Definition count_fallen : App :=
  after (handleHeartbeatMessage [Str "osc.udp://localhost:9951/"; Str "1.4.0"; Int32 1; Int32 1])
    seven_loops.

(** ** C8: malformed messages *)

(** The shape [handlePingAckMessage] and [handleHeartbeatMessage] expect. *)
Definition identity_message (message : OSCMessage) : Prop :=
  exists hostUrl version loopCount engineId,
    message = [Str hostUrl; Str version; Int32 loopCount; Int32 engineId].

(** A handler drops a message: it returns and the state is what it was. *)
Definition dropped (handler : OSCMessage -> M unit) (message : OSCMessage)
    (s : App) : Prop :=
  exists out, handler message s = Done tt s out.

(** The specification (C8) for one handler, one message and one state. *)
Definition drops_malformed (handler : OSCMessage -> M unit)
    (expected : OSCMessage -> Prop) (message : OSCMessage) (s : App) : Prop :=
  ~ expected message -> dropped handler message s.

(** What the argument loops of [handlePingAckMessage] and
    [handleHeartbeatMessage] take from a message: the argument at a position
    when it has the type expected there, and the value [kept] when it has
    another type or the message is too short. *)
Definition string_at (n : nat) (message : OSCMessage) (kept : string) : string :=
  match message !! n with Some (Str v) => v | _ => kept end.

Definition int32_at (n : nat) (message : OSCMessage) (kept : Z) : Z :=
  match message !! n with Some (Int32 z) => z | _ => kept end.

(** The message of the expected shape that carries what is taken from
    [message]: [handlePingAckMessage] keeps the members, and
    [handleHeartbeatMessage] keeps the members [hostUrl_] and [version_] and
    its locals [numloops = 0] and [uid = engineId_]. *)
Definition pingack_taken (s : App) (message : OSCMessage) : OSCMessage :=
  [Str (string_at 0 message (hostUrl_ s)); Str (string_at 1 message (version_ s));
   Int32 (int32_at 2 message (loopCount_ s)); Int32 (int32_at 3 message (engineId_ s))].

Definition heartbeat_taken (s : App) (message : OSCMessage) : OSCMessage :=
  [Str (string_at 0 message (hostUrl_ s)); Str (string_at 1 message (version_ s));
   Int32 (int32_at 2 message 0); Int32 (int32_at 3 message (engineId_ s))].

(** One line on [std::cerr] for every argument behind the fourth. *)
Definition extra_lines (l : LogLine) (message : OSCMessage) : list Event :=
  replicate (length message - 4) (cerr l).

(** An argument is the key awaited behind the index of a [/ctrl]
    message. *)
Definition is_key (loopIndex : Z) (a : OSCArgument) : bool :=
  match awaited_key loopIndex, a with
  | Some awaited, Str key => String.eqb key awaited
  | _, _ => false
  end.

(** What a [/ctrl] message that is passed over leaves: behind an index from
    0 on the countdown is set all the same. *)
Definition passed_over (loopIndex : Z) (s : App) : App :=
  if 0 <=? loopIndex then set_heartbeat 5 s else s.

(** ** Loops of the handlers *)

(** *** [updateLoops] *)

(** One loop shown again in its own state, and all of them in turn. *)
Definition refresh_one (mode : Z) (leds : list LED.t) (loop : Loop.t) : list LED.t :=
  leds_after loop mode (Loop.state_ loop) leds.

Definition refresh (mode : Z) (loops : list Loop.t) (leds : list LED.t) : list LED.t :=
  foldl (refresh_one mode) leds loops.

Definition refresh_lines (mode : Z) (loops : list Loop.t) : list (Z * Z) :=
  flat_map (fun loop => lines_after loop mode (Loop.state_ loop)) loops.

(** *** Building the loop collection *)

(** The loop that [loops_.add ({i, Off, leds_.getReference (i)})] adds. *)
Definition new_loop (i : Z) : Loop.t := Loop.mk i Off i.

(** The requests of the specification (§6), with this process's reply
    address. *)
Definition reply_url (s : App) : string :=
  "osc.udp://localhost:" +:+ to_string (currentReceivePort_ s) +:+ "/".

Definition register_request (s : App) (i : Z) : string * list OSCArgument :=
  ("/sl/" +:+ to_string i +:+ "/register_auto_update",
   [Str "state"; Int32 100; Str (reply_url s); Str "/ctrl"]).

Definition get_request (s : App) (i : Z) : string * list OSCArgument :=
  ("/sl/" +:+ to_string i +:+ "/get", [Str "state"; Str (reply_url s); Str "/ctrl"]).

Definition global_request (s : App) : string * list OSCArgument :=
  ("/register_update", [Str "selected_loop_num"; Str (reply_url s); Str "/ctrl"]).

(** *** Refreshing loops that are all [Off] *)

Definition dark_led (l : LED.t) : Prop :=
  LED.state_ l = Dark /\ LED.timer_ l = TIMER_OFF /\ LED.on_ l = false.

Definition off_row : Look := mkLook Dark timer_off false None.

(** After a loop over a non-empty range the last thing done was a refresh
    of all loops. *)
Definition refreshed (s : App) (loops : list Loop.t) (leds : list LED.t)
    (out : list Event) : Prop :=
  exists leds' lines',
    length leds' = 10%nat /\
    leds = refresh (mode_ s) loops leds' /\
    cc_lines out = lines' ++ refresh_lines (mode_ s) loops.

(** *** Programs that leave [loops_] alone *)

Definition keeps_loops {A} (m : M A) : Prop :=
  forall s a s' o, m s = Done a s' o -> loops_ s' = loops_ s.

(** *** [handleHeartbeatMessage] on a message of the expected shape *)

(** The two loop bodies of [handleHeartbeatMessage]. *)
Definition rebuild_body (i : Z) : M unit :=
  add_loop i ;; registerAutoUpdates i false ;; getCurrentState i ;; updateLoops.

Definition extend_body (i : Z) : M unit :=
  registerAutoUpdates i false ;; add_loop i ;; updateLoops.

(** The state after the argument loop. *)
Definition identified (hostUrl version : string) (s : App) : App :=
  set_version version (set_hostUrl hostUrl s).

(** ** C5: a heartbeat from another engine *)

(** The collection was discarded and built anew for [n] loops: the loops
    0..n-1 in state [Off], every one registered for automatic updates and
    queried, the global updates registered, and the LEDs of all loops
    refreshed (dark, as the loops are [Off]) as the last lines written. *)
Definition rebuilt (s : App) (n : Z) (s' : App) (out : list Event) : Prop :=
  loops_ s' = new_loop <$> seqZ 0 n /\
  loopCount_ s' = n /\
  looper_requests out
    = flat_map (fun i => [register_request s i; get_request s i]) (seqZ 0 n)
      ++ [global_request s] /\
  (forall i, 0 <= i < n ->
     exists led, leds_ s' !! Z.to_nat i = Some led /\ dark_led led) /\
  exists lines,
    cc_lines out = lines ++ ((fun i => (107, ledNumber i)) <$> seqZ 0 n).

(** The specification (C5) at one state and message. *)
Definition rebuilds_for_new_engine (s : App) (hostUrl version : string)
    (numloops uid : Z) : Prop :=
  uid <> engineId_ s ->
  exists s' out,
    handleHeartbeatMessage [Str hostUrl; Str version; Int32 numloops; Int32 uid] s
      = Done tt s' out /\
    rebuilt s numloops s' out.

(** The handshake through which an engine becomes known. *)
Definition handshake (net : Sockets) (hostUrl version : string)
    (loopCount engineId : Z) : Callback :=
  osc_in net "/pingack" [Str hostUrl; Str version; Int32 loopCount; Int32 engineId].

(** A callback after which the engine known is still [engineId]: anything
    but a [/pingack], and but a [/heartbeat] that does not name this
    engine. *)
Definition of_engine (engineId : Z) (c : Callback) : bool :=
  match c with
  | osc_in _ address message =>
      negb (startsWith address "/pingack") &&
      (negb (startsWith address "/heartbeat") ||
       match message !! 3%nat with
       | Some (Int32 uid) => uid =? engineId
       | _ => false
       end)
  | _ => true
  end.

(** The collection is not rebuilt: the loops that were there are still
    there, unchanged, in front of what was added. *)
Definition not_rebuilt (s s' : App) : Prop :=
  exists added, loops_ s' = loops_ s ++ added.

(** ** C6: a heartbeat of the same engine with more loops *)

(** The specification (C6) at one state and message: the new indices are
    added after the loops that were there, and every new loop is registered
    for automatic updates and queried for its state. *)
Definition extends_registers_and_queries (s : App) (hostUrl version : string)
    (numloops : Z) : Prop :=
  exists s' out,
    handleHeartbeatMessage
      [Str hostUrl; Str version; Int32 numloops; Int32 (engineId_ s)] s = Done tt s' out /\
    loops_ s' = loops_ s ++ (new_loop <$> seqZ (loopCount_ s) (numloops - loopCount_ s)) /\
    forall i, loopCount_ s <= i < numloops ->
      register_request s i ∈ looper_requests out /\
      get_request s i ∈ looper_requests out.

(** A session of two loops. *)
Definition two_loops : App :=
  after (handlePingAckMessage [Str "osc.udp://localhost:9951/"; Str "1.4.0"; Int32 2; Int32 7])
    established.

(** ** C10: more loops than LEDs *)

Definition pingack_body (i : Z) : M unit :=
  add_loop i ;; registerAutoUpdates i false ;; getCurrentState i.

(** ** C4: loop pedals and the mode *)

(** The control changes of the pedal board: pedal [index] (0-8) down and up,
    and the Record pedal down. *)
Definition pedal_down (channel index : Z) : MidiMessage :=
  controllerEvent channel 104 (index + 1).

Definition pedal_up (channel index : Z) : MidiMessage :=
  controllerEvent channel 105 (index + 1).

Definition record_down (channel : Z) : MidiMessage := pedal_down channel RECORD.

(** Pedal [index] pressed and released, with the events [between]. *)
Definition press_release (channel index : Z) (between : list MidiMessage) : M unit :=
  handleIncomingMidiMessage (pedal_down channel index) ;;
  for_each between handleIncomingMidiMessage ;;
  handleIncomingMidiMessage (pedal_up channel index).

(** The specification (C4): one note-on and then one note-off come out, both
    at the pitch computed with the mode of the moment the pedal went down. *)
Definition same_pitch (s : App) (channel index : Z) (between : list MidiMessage) : Prop :=
  exists s' out,
    press_release channel index between s = Done tt s' out /\
    midi_sent out
      = [noteOn (channel_ s) (baseNote_ s + mode_ s + index) 127;
         noteOff (channel_ s) (baseNote_ s + mode_ s + index) 0].

(** The mode after a press of Record. *)
Definition toggled (mode : Z) : Z := if 0 <? mode then 0 else 20.

(** ** Further properties of the program *)

(** How often the warning about the missing output port was written. *)
Definition warnings (out : list Event) : nat :=
  length (omap (fun e => match e with
                         | cerr LogMissingOutputPort => Some tt
                         | _ => None
                         end) out).

(** *** Relations between the state before, the output and the state after *)

(** A function on LEDs that leaves the index alone, as the three field
    updates of the program do. *)
Definition keeps_index (f : LED.t -> LED.t) : Prop :=
  forall l, LED.index_ (f l) = LED.index_ l.

(** [R] relates the state before, the output and the state after of every
    returning run of [m] from [s]; and from every state. *)
Definition holds_at {A} (R : App -> list Event -> App -> Prop) (m : M A) (s : App) : Prop :=
  forall a s' o, m s = Done a s' o -> R s o s'.

Definition holds {A} (R : App -> list Event -> App -> Prop) (m : M A) : Prop :=
  forall s, holds_at R m s.

(** The three statements that every case of the first [switch] of
    [updateLoopLedState] starts with. *)
Definition own_led (loop : Loop.t) (v : LedStates) (t cc : Z) (on : bool) : M unit :=
  write_led (Loop.led_ loop) (LED.set_state v) ;;
  write_led (Loop.led_ loop) (LED.set_timer t) ;;
  led_switch cc on (Loop.index_ loop).

(** *** The whole program *)

(** The program as the constructor leaves it; [port] is whatever the
    uninitialised [oscRemotePort_] holds. *)
Definition started (port : Z) : Program := mkProgram initial "" port.

(** The events of the members among the outputs of the program. *)
Definition app_events (out : list Output) : list Event :=
  omap (fun o => match o with of_app e => Some e | _ => None end) out.

(** [R] relates the members before, their events and the members after of
    every returning run of the callback. *)
Definition respects (R : App -> list Event -> App -> Prop) (c : Callback) : Prop :=
  forall p p' o, callback c p = Returned p' o -> R (app_ p) (app_events o) (app_ p').

(** The program and the output of an outcome, for stating examples. *)
Definition final_program (r : Outcome) : option Program :=
  match r with Returned p _ => Some p | Faulted _ _ => None end.

Definition outputs (r : Outcome) : list Output :=
  match r with Returned _ o | Faulted _ o => o end.

(** What [sendMidiMessage] leaves and writes. *)
Definition warned (s : App) : App :=
  if virtMidiOut_ s then s
  else if missingOutputPortWarningPrinted s then s
       else set_missingOutputPortWarningPrinted true s.

Definition sent (msg : MidiMessage) (s : App) : list Event :=
  if virtMidiOut_ s then [midi_send msg]
  else if missingOutputPortWarningPrinted s then []
       else [cerr LogMissingOutputPort].

(** *** Invariants *)

(** The LEDs by their indices. *)
Definition led_indices (s : App) : list Z := LED.index_ <$> leds_ s.

(** How many warnings about the missing output port may still be written. *)
Definition warnings_left (s : App) : nat :=
  if missingOutputPortWarningPrinted s then 0%nat else 1%nat.

Definition is_pingack (c : Callback) : bool :=
  match c with
  | osc_in _ address _ => startsWith address "/pingack"
  | _ => false
  end.

Definition is_midi_in (c : Callback) : bool :=
  match c with midi_in _ => true | _ => false end.

(** The LED pool and the loops stay well formed, and no LED changes its
    index. *)
Definition keeps_pool (s : App) (o : list Event) (s' : App) : Prop :=
  wf s -> wf s' /\ led_indices s' = led_indices s.

(** The mode of the Record pedal is 0 or 20. *)
Definition mode_ok (s : App) : Prop := mode_ s = 0 \/ mode_ s = 20.

Definition keeps_mode_ok (s : App) (o : list Event) (s' : App) : Prop :=
  mode_ok s -> mode_ok s'.

Definition same_mode (s : App) (o : list Event) (s' : App) : Prop :=
  mode_ s' = mode_ s.

(** The countdown stays between 0 and 5, and a port that is connected stays
    as it is. *)
Definition counting (s : App) : Prop := 0 <= heartbeat_ s <= 5.

Definition stays_connected (s : App) (o : list Event) (s' : App) : Prop :=
  counting s ->
  counting s' /\
  (0 <= currentReceivePort_ s -> currentReceivePort_ s' = currentReceivePort_ s) /\
  (0 <= currentSendPort_ s -> currentSendPort_ s' = currentSendPort_ s).

Definition same_engine (s : App) (o : list Event) (s' : App) : Prop :=
  engineId_ s' = engineId_ s.

Definition no_midi (s : App) (o : list Event) (s' : App) : Prop := midi_sent o = [].

Definition no_requests (s : App) (o : list Event) (s' : App) : Prop :=
  looper_requests o = [].

Definition warns_once (s : App) (o : list Event) (s' : App) : Prop :=
  (warnings o + warnings_left s' <= warnings_left s)%nat.

(** *** An example session *)

(** Sockets that all connect. *)
Definition reachable : Sockets :=
  {| ledSenderConnect := fun _ _ => true;
     ledSenderDisconnect := true;
     replyConnect := fun _ _ => true;
     replySend := true;
     versionString := "1.0.0";
     getuid := 1000 |}.

(** The program connects, learns of three loops, a display client
    registers, loop 1 starts recording, Record and pedal 2 are pressed, and
    a heartbeat tells of a fourth loop. *)
Definition example_session : list Callback :=
  [ timer_tick friendly;
    osc_in reachable "/pingack"
      [Str "osc.udp://localhost:9951/"; Str "1.7.2"; Int32 3; Int32 41];
    osc_in reachable "/loop4r/register_auto_update" [Str "127.0.0.1"; Int32 9001];
    osc_in reachable "/ctrl" [Int32 1; Str "state"; Float32 (2 # 1)];
    midi_in (controllerEvent 1 104 5);
    midi_in (controllerEvent 1 104 2);
    midi_in (controllerEvent 1 105 2);
    osc_in reachable "/heartbeat"
      [Str "osc.udp://localhost:9951/"; Str "1.7.2"; Int32 4; Int32 41];
    timer_tick friendly ].

Definition example_outcome : Outcome := callbacks example_session (started 0).

Definition example_end : Program := default (started 0) (final_program example_outcome).

(** A heartbeat of an engine that the program has not heard of. *)
Definition new_engine_heartbeat : Callback :=
  osc_in reachable "/heartbeat"
    [Str "osc.udp://localhost:9951/"; Str "1.7.2"; Int32 2; Int32 7].

(** The first pedal, pressed. *)
Definition first_pedal_down : Callback := midi_in (controllerEvent 1 104 1).

(** *** Programs that return *)

(** [m] returns from every state; and from every well-formed state, to a
    well-formed state. *)
Definition runs {A} (m : M A) : Prop :=
  forall s, exists a s' o, m s = Done a s' o.

Definition safe {A} (m : M A) : Prop :=
  forall s, wf s -> exists a s' o, m s = Done a s' o /\ wf s'.

Definition is_osc_in (c : Callback) : bool :=
  match c with osc_in _ _ _ => true | _ => false end.

(** *** The display client *)

(** A message too short for the pointer that steps through it. *)
Definition host_only (message : OSCMessage) : Prop :=
  exists host, message = [Str host].

Definition host_and_port_only (message : OSCMessage) : Prop :=
  exists host port, message = [Str host; Int32 port].

(** The program sends its LED changes to [host:port]. *)
Definition registered_to (host : string) (port : Z) (p : Program) : Prop :=
  oscLedSenderInitialized_ (app_ p) = true /\
  oscRemoteHost_ p = host /\ oscRemotePort_ p = port.

(** The target of a registration is the one the program has on record. *)
Definition on_record (host : string) (port : Z) (p : Program) : bool :=
  String.eqb host (oscRemoteHost_ p) && (port =? oscRemotePort_ p).

(** What went out through [oscLedSender]. *)
Definition display_sent (out : list Event) : list (string * list OSCArgument) :=
  omap (fun e => match e with
                 | osc_send oscLedSender address args => Some (address, args)
                 | _ => None
                 end) out.

(** With no display client registered nothing goes out through
    [oscLedSender], and the members do not register one. *)
Definition dark (s : App) (o : list Event) (s' : App) : Prop :=
  oscLedSenderInitialized_ s = false ->
  oscLedSenderInitialized_ s' = false /\ display_sent o = [].

Definition dark_output (s : App) (o : list Event) (s' : App) : Prop :=
  oscLedSenderInitialized_ s = false -> display_sent o = [].

(** Sockets on which [oscLedSender] cannot be connected. *)
Definition unreachable : Sockets :=
  {| ledSenderConnect := fun _ _ => false;
     ledSenderDisconnect := true;
     replyConnect := fun _ _ => true;
     replySend := true;
     versionString := "1.0.0";
     getuid := 1000 |}.

Definition register_message (net : Sockets) (message : OSCMessage) : Callback :=
  osc_in net "/loop4r/register_auto_update" message.

Definition unregister_message (net : Sockets) (message : OSCMessage) : Callback :=
  osc_in net "/loop4r/unregister_auto_update" message.

(** *** The picture of a display client *)

(** The picture a display client has of the LEDs: for each position the
    arguments of the latest message about the LED of that index. A reply to
    [/loop4r/leds] gives it the picture of the moment. *)
Definition picture (s : App) : list (list OSCArgument) := led_arguments <$> leds_ s.

(** What a message through [oscLedSender] changes in the picture. *)
Definition shown (view : list (list OSCArgument)) (e : Event) : list (list OSCArgument) :=
  match e with
  | osc_send oscLedSender address (Int32 i :: rest) =>
      if String.eqb address "/led" && (0 <=? i)
      then <[Z.to_nat i := Int32 i :: rest]> view
      else view
  | _ => view
  end.

Definition display (out : list Event) (view : list (list OSCArgument)) :
    list (list OSCArgument) :=
  foldl shown view out.

(** Every LED is at the position of its index. *)
Definition indexed (s : App) : Prop :=
  forall n led, leds_ s !! n = Some led -> LED.index_ led = Z.of_nat n.

(** With a client registered and the members in order, the messages sent
    bring the picture of before to the picture of after. *)
Definition in_order (s : App) : Prop :=
  oscLedSenderInitialized_ s = true /\ wf s /\ indexed s.

Definition mirrored (s : App) (o : list Event) (s' : App) : Prop :=
  in_order s -> in_order s' /\ display o (picture s) = picture s'.

Definition is_registration (c : Callback) : bool :=
  match c with
  | osc_in _ address _ =>
      startsWith address "/loop4r/register_auto_update"
      || startsWith address "/loop4r/unregister_auto_update"
  | _ => false
  end.

(** Loop 2 starts inserting, Record is pressed, loop 2 stops. *)
Definition example_changes : list Callback :=
  [ osc_in reachable "/ctrl" [Int32 2; Str "state"; Float32 (8 # 1)];
    midi_in (controllerEvent 1 104 5);
    osc_in reachable "/ctrl" [Int32 2; Str "state"; Float32 (0 # 1)] ].

(** *** More on the messages from the looper *)

(** The handler leaves every LED alone and sends nothing to the pedal board
    or to a display client. *)
Definition leaves_leds (s : App) (o : list Event) (s' : App) : Prop :=
  leds_ s' = leds_ s /\ cc_lines o = [] /\ display_sent o = [].

(** The loops by index and LED, without their states. *)
Definition loop_places (s : App) : list (Z * Z) :=
  (fun l => (Loop.index_ l, Loop.led_ l)) <$> loops_ s.

(** The handler neither adds nor removes a loop, and it leaves alone what
    the program knows of the engine. *)
Definition keeps_places (s : App) (o : list Event) (s' : App) : Prop :=
  loop_places s' = loop_places s /\
  loopCount_ s' = loopCount_ s /\ engineId_ s' = engineId_ s /\
  hostUrl_ s' = hostUrl_ s /\ version_ s' = version_ s /\
  mode_ s' = mode_ s /\
  looper_requests o = [] /\ midi_sent o = [].

(** A heartbeat of the engine the program knows. *)
Definition known_heartbeat (s : App) (hostUrl version : string) (numloops : Z) : OSCMessage :=
  [Str hostUrl; Str version; Int32 numloops; Int32 (engineId_ s)].

(** Three loops, the second and third recording, as after a [/pingack] and
    two [/ctrl] messages. *)
Definition three_loops : App :=
  after (handleCtrlMessage [Int32 2; Str "state"; Float32 (2 # 1)])
    (after (handleCtrlMessage [Int32 1; Str "state"; Float32 (2 # 1)])
       (after (handlePingAckMessage
                 [Str "osc.udp://localhost:9951/"; Str "1.7.2"; Int32 3; Int32 41])
          established)).

(** *** Pedals that do not act on a loop *)

(** The base note and the channel stay as they are. *)
Definition same_notes (s : App) (o : list Event) (s' : App) : Prop :=
  baseNote_ s' = baseNote_ s /\ channel_ s' = channel_ s.

(** A pedal that is none of the four loop pedals and not Record. *)
Definition function_pedal (value : Z) : Prop :=
  pedalIndex value < 0 \/ 4 < pedalIndex value.

(** The Up pedal pressed at the end of the example session, Record pressed
    while it is down, and the Up pedal released. *)
Definition pedal_pressed : Program :=
  default example_end
    (final_program (callback (midi_in (controllerEvent 1 104 10)) example_end)).

Definition record_pressed : Program :=
  default pedal_pressed
    (final_program (callbacks [midi_in (controllerEvent 1 104 5)] pedal_pressed)).

Definition pedal_released : Program :=
  default record_pressed
    (final_program (callback (midi_in (controllerEvent 1 105 10)) record_pressed)).

(** *** The timer and the connections *)

(** The MIDI input is open on a device that is present. *)
Definition input_connected (os : Devices) (s : App) : Prop :=
  midiIn_ s = true /\ fullMidiInName_ s ∈ getDevices os.

(** The [/ping] that announces the program to the looper. *)
Definition announcement (s : App) : string * list OSCArgument :=
  ("/ping", [Str (reply_url s); Str "/pingack"]).

Definition invalid_port_lines (out : list Event) : nat :=
  length (omap (fun e => match e with
                         | cerr LogInvalidPortNumber => Some tt
                         | _ => None
                         end) out).

(** A machine with the pedal board plugged in, and the program with its
    input open on it. *)
Definition with_board : Devices :=
  {| getDevices := ["FCB1010"];
     openDevice := fun _ => true;
     createNewDevice := fun _ => true;
     senderConnect := fun _ => true;
     receiverConnect := fun _ => true;
     containsIgnoreCase := fun _ _ => false |}.

Definition board_open : App := set_midiIn true (set_fullMidiInName "FCB1010" established).

(** The program told to receive on port 0, which is no valid port. *)
Definition port_zero : App :=
  mkApp (leds_ initial) (loops_ initial) (mode_ initial) (heartbeat_ initial)
    (engineId_ initial) (loopCount_ initial) (selectedLoop_ initial) (hostUrl_ initial)
    (version_ initial) (currentReceivePort_ initial) (currentSendPort_ initial)
    (currentLedSendPort_ initial) (oscSendPort_ initial) 0 (pinged_ initial)
    (oscLedSenderInitialized_ initial) (channel_ initial) (baseNote_ initial)
    (midiInName_ initial) (fullMidiInName_ initial) (midiIn_ initial)
    (virtMidiOutName_ initial) (virtMidiOut_ initial)
    (missingOutputPortWarningPrinted initial).

(** *** The command line *)

(** The messages of a panic, channel by channel. *)
Definition panic_messages : list MidiMessage :=
  flat_map
    (fun ch =>
       [controllerEvent ch 64 0; controllerEvent ch 120 0; controllerEvent ch 123 0]
       ++ ((fun note => noteOff ch note 0) <$> seqZ 0 128))
    (seqZ 1 16).

(** A parameter that is neither the name of a command nor [--]. *)
Definition plain_word (sh : Shell) (w : string) : Prop :=
  findApplicationCommand sh w = None /\ w <> "--".

(** A command with the options it has been given. *)
Definition with_options (cmd : ApplicationCommand) (options : list string) :
    ApplicationCommand :=
  mkCommand (param_ cmd) (altParam_ cmd) (command_ cmd)
    (expectedOptions_ cmd - Z.of_nat (length options)) (opts_ cmd ++ options).

(** A shell that compares as written and knows no file. *)
Definition plain_shell : Shell :=
  {| equalsIgnoreCase := String.eqb; readParameters := fun _ => None |}.

(** Without an output port nothing is sent to MIDI, and no port appears. *)
Definition silent (s : App) (o : list Event) (s' : App) : Prop :=
  virtMidiOut_ s = false -> virtMidiOut_ s' = false /\ midi_sent o = [].

(** *** Heartbeats of an engine the program does not know *)

Definition heartbeat_message (net : Sockets) (hostUrl version : string) (numloops uid : Z) :
    Callback :=
  osc_in net "/heartbeat" [Str hostUrl; Str version; Int32 numloops; Int32 uid].

(** The requests that build [n] loops anew. *)
Definition rebuild_requests (s : App) (n : Z) : list (string * list OSCArgument) :=
  flat_map (fun i => [register_request s i; get_request s i]) (seqZ 0 n)
  ++ [global_request s].

(** *** A display client that asks for the LEDs *)

(** The arguments of the messages sent through the temporary sender. *)
Definition replied (out : list Output) : list (list OSCArgument) :=
  omap (fun o => match o with reply_send _ _ _ args => Some args | _ => None end) out.

Definition leds_query (net : Sockets) (host : string) (port : Z) (url : string) : Callback :=
  osc_in net "/loop4r/leds" [Str host; Int32 port; Str url].

(** *** Refreshing twice *)

(** What a refresh writes, LED by LED and in the order of the loops: the
    look of a table row into the loop's own LED, and [on_] of a shared
    LED. *)
Inductive Write :=
| write_look (lk : Look)
| write_on (on : bool).

Definition written (w : Write) : LED.t -> LED.t :=
  match w with
  | write_look lk => repaint lk
  | write_on on => LED.set_on on
  end.

Definition loop_writes (mode : Z) (loop : Loop.t) : list (nat * Write) :=
  let lk := table mode (Loop.state_ loop) in
  (Z.to_nat (Loop.index_ loop), write_look lk)
  :: match action lk with
     | Some a => [(Z.to_nat a, write_on true)]
     | None => []
     end.

Definition write_all (ws : list (nat * Write)) (leds : list LED.t) : list LED.t :=
  foldl (fun leds w => alter (written (snd w)) (fst w) leds) leds ws.

(** All the writes to the LED at position [p], as one function. *)
Definition writes_at (p : nat) (ws : list (nat * Write)) : LED.t -> LED.t :=
  foldl (fun f w led => if Nat.eqb (fst w) p then written (snd w) (f led) else f led)
    (fun led => led) ws.

(** A function on LEDs that sets some of [on_], [timer_] and [state_] to
    fixed values and keeps the rest. *)
Definition fixes (on : option bool) (timer : option Z) (state : option LedStates)
    (led : LED.t) : LED.t :=
  LED.mk (LED.index_ led) (default (LED.on_ led) on) (default (LED.timer_ led) timer)
    (default (LED.state_ led) state).

(** *** The LED of the Record pedal *)

(** The LEDs after a press of Record. *)
Definition record_leds (s : App) : list LED.t :=
  refresh (toggled (mode_ s)) (loops_ s)
    (alter (LED.set_on (negb (toggled (mode_ s) =? 0))) (Z.to_nat RECORD) (leds_ s)).

(** Five loops, all [Off]: the fifth has LED 4, the LED of the Record
    pedal. *)
Definition five_loops : App :=
  after (handlePingAckMessage
           [Str "osc.udp://localhost:9951/"; Str "1.7.2"; Int32 5; Int32 41])
    established.

(** *** A session with one engine *)

(** A session in which engine 1 is and stays the engine known: on a program
    whose sockets are connected, the handshake with seven loops, loop 0
    reported inserting, and a heartbeat of engine 1. *)
Definition on_line : Program :=
  default (started 0) (final_program (callback (timer_tick friendly) (started 0))).

Definition engine_session : list Callback :=
  [ handshake reachable "osc.udp://localhost:9951/" "1.4.0" 7 1;
    osc_in reachable "/ctrl" [Int32 0; Str "state"; Float32 (7 # 1)];
    osc_in reachable "/heartbeat"
      [Str "osc.udp://localhost:9951/"; Str "1.4.0"; Int32 7; Int32 1] ].

Definition engine_known : Program :=
  default on_line (final_program (callbacks engine_session on_line)).

(** * Lemmas and theorems *)

(** ** Executing programs symbolically *)

Lemma prefix_nil {A} (r : Res A) : prefix [] r = r.
Proof. destruct r; reflexivity. Qed.

Lemma prefix_prefix {A} (o1 o2 : list Event) (r : Res A) :
  prefix o1 (prefix o2 r) = prefix (o1 ++ o2) r.
Proof. destruct r; simpl; rewrite app_assoc; reflexivity. Qed.

Section Run.
Context {A B : Type}.

Lemma bind_Done (m : M A) (k : A -> M B) s a s1 o1 :
  m s = Done a s1 o1 -> bind m k s = prefix o1 (k a s1).
Proof. unfold bind; intros ->; reflexivity. Qed.

Lemma bind_Crash (m : M A) (k : A -> M B) s f o :
  m s = Crash f o -> bind m k s = Crash f o.
Proof. unfold bind; intros ->; reflexivity. Qed.

Lemma bind_ret (a : A) (k : A -> M B) s : bind (ret a) k s = k a s.
Proof. unfold bind, ret; apply prefix_nil. Qed.

Lemma bind_gets (f : App -> A) (k : A -> M B) s : bind (gets f) k s = k (f s) s.
Proof. unfold bind, gets; apply prefix_nil. Qed.

Lemma bind_fault (f : Fault) (k : A -> M B) s : bind (fault f) k s = Crash f [].
Proof. reflexivity. Qed.

Lemma bind_inv (m : M A) (k : A -> M B) s b s2 o :
  bind m k s = Done b s2 o ->
  exists a s1 o1 o2, m s = Done a s1 o1 /\ k a s1 = Done b s2 o2 /\ o = o1 ++ o2.
Proof.
  unfold bind; destruct (m s) as [a s1 o1|]; [|discriminate].
  destruct (k a s1) as [b' s2' o2|] eqn:Hk; simpl; [|discriminate].
  intros [= -> -> <-]; eauto 8.
Qed.

End Run.

Lemma bind_modify {B} (f : App -> App) (k : unit -> M B) s :
  bind (modify f) k s = k tt (f s).
Proof. unfold bind, modify; apply prefix_nil. Qed.

Lemma bind_emit {B} (e : Event) (k : unit -> M B) s :
  bind (emit e) k s = prefix [e] (k tt s).
Proof. reflexivity. Qed.

Lemma bind_bind {A B C} (m : M A) (k : A -> M B) (k' : B -> M C) s :
  bind (bind m k) k' s = bind m (fun a => bind (k a) k') s.
Proof.
  unfold bind; destruct (m s) as [a s1 o1|]; [|reflexivity].
  destruct (k a s1) as [b s2 o2|]; simpl; [|reflexivity].
  symmetry; apply prefix_prefix.
Qed.

Lemma getReference_in {A} (arr : list A) (i : Z) s :
  0 <= i < Z.of_nat (length arr) ->
  getReference arr i s = Done (Z.to_nat i) s [].
Proof.
  intros H; unfold getReference.
  replace (0 <=? i) with true by (symmetry; apply Z.leb_le; lia).
  replace (i <? Z.of_nat (length arr)) with true by (symmetry; apply Z.ltb_lt; lia).
  reflexivity.
Qed.

Lemma getReference_out {A} (arr : list A) (i : Z) s :
  i < 0 \/ Z.of_nat (length arr) <= i ->
  getReference arr i s = Crash (OutOfBounds i (length arr)) [].
Proof.
  intros H; unfold getReference.
  destruct (Z.leb_spec 0 i), (Z.ltb_spec i (Z.of_nat (length arr)));
    try reflexivity; lia.
Qed.

Lemma write_led_in (ref : Z) (f : LED.t -> LED.t) s :
  0 <= ref < Z.of_nat (length (leds_ s)) ->
  write_led ref f s = Done tt (set_leds (alter f (Z.to_nat ref) (leds_ s)) s) [].
Proof.
  intros H; unfold write_led.
  rewrite bind_gets, (bind_Done _ _ _ _ _ _ (getReference_in _ _ _ H)).
  reflexivity.
Qed.

Lemma write_led_out (ref : Z) (f : LED.t -> LED.t) s :
  ref < 0 \/ Z.of_nat (length (leds_ s)) <= ref ->
  write_led ref f s = Crash (OutOfBounds ref (length (leds_ s))) [].
Proof.
  intros H; unfold write_led.
  rewrite bind_gets, (bind_Crash _ _ _ _ _ (getReference_out _ _ _ H)).
  reflexivity.
Qed.

Lemma read_led_in (ref : Z) s led :
  0 <= ref -> leds_ s !! Z.to_nat ref = Some led ->
  read_led ref s = Done led s [].
Proof.
  intros H0 Hl; unfold read_led.
  assert (0 <= ref < Z.of_nat (length (leds_ s))) as H.
  { apply lookup_lt_Some in Hl; lia. }
  rewrite bind_gets, (bind_Done _ _ _ _ _ _ (getReference_in _ _ _ H)), Hl.
  reflexivity.
Qed.

Lemma led_switch_in (cc : Z) (on : bool) (i : Z) s led :
  0 <= i -> leds_ s !! Z.to_nat i = Some led ->
  led_switch cc on i s =
    Done tt (set_leds (alter (LED.set_on on) (Z.to_nat i) (leds_ s)) s)
      (led_events cc i (LED.set_on on led) s).
Proof.
  intros H0 Hl; unfold led_switch, led_events.
  assert (0 <= i < Z.of_nat (length (leds_ s))) as H.
  { apply lookup_lt_Some in Hl; lia. }
  rewrite bind_emit, (bind_Done _ _ _ _ _ _ (write_led_in _ _ _ H)).
  assert (leds_ (set_leds (alter (LED.set_on on) (Z.to_nat i) (leds_ s)) s)
            !! Z.to_nat i = Some (LED.set_on on led)) as Hl'.
  { simpl. rewrite list_lookup_alter_eq, Hl. reflexivity. }
  rewrite (bind_Done _ _ _ _ _ _ (read_led_in i _ _ H0 Hl')).
  rewrite bind_gets. simpl.
  destruct (oscLedSenderInitialized_ s); reflexivity.
Qed.

Lemma led_switch_out (cc : Z) (on : bool) (i : Z) s :
  i < 0 \/ Z.of_nat (length (leds_ s)) <= i ->
  led_switch cc on i s =
    Crash (OutOfBounds i (length (leds_ s))) [cout_cc cc (ledNumber i)].
Proof.
  intros H; unfold led_switch.
  rewrite bind_emit, (bind_Crash _ _ _ _ _ (write_led_out _ _ _ H)).
  reflexivity.
Qed.

(** ** The LED table of the specification *)

(** Case analysis on an integer that a [switch] over the loop states
    inspects: the sixteen enumerators and the values outside them. *)
Ltac switch_cases z :=
  let p := fresh "p" in
  destruct z as [|p|p];
  [ | do 4 (try destruct p as [p|p|]) | destruct p as [p|p|] ].

Lemma switch_newState_table (loop : Loop.t) (newState : LoopStates) (s : App) :
  switch_newState loop newState s = paint loop (table (mode_ s) newState) s.
Proof.
  switch_cases newState; try reflexivity.
  unfold switch_newState, table; rewrite bind_gets.
  destruct (mode_ s =? 0); reflexivity.
Qed.

Lemma table_action (mode : Z) (state : LoopStates) :
  action (table mode state) = action_led state.
Proof.
  switch_cases state; try reflexivity.
  unfold table; destruct (mode =? 0); reflexivity.
Qed.

Lemma action_led_range (state : LoopStates) (a : Z) :
  action_led state = Some a -> 5 <= a <= 8.
Proof.
  switch_cases state; simpl; intros [= <-]; unfold INSERT, REPLACE, SUBSTITUTE, MULTIPLY; lia.
Qed.

Lemma action_led_inj (s1 s2 : LoopStates) (a : Z) :
  action_led s1 = Some a -> action_led s2 = Some a -> s1 = s2.
Proof.
  switch_cases s1; simpl; intros [= <-]; switch_cases s2; simpl; intros H;
    try discriminate H; reflexivity.
Qed.

Lemma switch_oldState_action (loop : Loop.t) (s : App) :
  switch_oldState loop s =
    match action_led (Loop.state_ loop) with
    | Some b => ledOff b s
    | None => ret tt s
    end.
Proof.
  unfold switch_oldState. destruct loop as [i st l]; simpl.
  switch_cases st; reflexivity.
Qed.

(** ** What [updateLoopLedState] computes *)

Lemma cc_lines_app (o1 o2 : list Event) :
  cc_lines (o1 ++ o2) = cc_lines o1 ++ cc_lines o2.
Proof. apply omap_app. Qed.

Lemma looper_requests_app (o1 o2 : list Event) :
  looper_requests (o1 ++ o2) = looper_requests o1 ++ looper_requests o2.
Proof. apply omap_app. Qed.

Lemma midi_sent_app (o1 o2 : list Event) :
  midi_sent (o1 ++ o2) = midi_sent o1 ++ midi_sent o2.
Proof. apply omap_app. Qed.

Lemma led_events_only (o : list Event) :
  Forall is_led_event o -> looper_requests o = [] /\ midi_sent o = [].
Proof.
  induction 1 as [|e o He _ [IH1 IH2]]; [split; reflexivity|].
  destruct e as [| [] | |]; simpl in He; try contradiction; split; assumption.
Qed.

Lemma led_events_led cc i led s : Forall is_led_event (led_events cc i led s).
Proof.
  unfold led_events; destruct (oscLedSenderInitialized_ s); repeat constructor.
Qed.

Lemma led_events_cc cc i led s : cc_lines (led_events cc i led s) = [(cc, ledNumber i)].
Proof. unfold led_events; destruct (oscLedSenderInitialized_ s); reflexivity. Qed.

Lemma length_switch_shared a on leds :
  length (switch_shared a on leds) = length leds.
Proof. destruct a; simpl; [apply length_alter | reflexivity]. Qed.

Lemma shared_run (cc : Z) (on : bool) (a : option Z) (s : App) :
  length (leds_ s) = 10%nat ->
  (forall b, a = Some b -> 5 <= b <= 8) ->
  exists out,
    match a with Some b => led_switch cc on b s | None => ret tt s end
      = Done tt (set_leds (switch_shared a on (leds_ s)) s) out /\
    cc_lines out = shared_line cc a /\ Forall is_led_event out.
Proof.
  intros Hlen Ha. destruct a as [b|]; simpl.
  - specialize (Ha b eq_refl).
    destruct (lookup_lt_is_Some_2 (leds_ s) (Z.to_nat b)) as [led Hled]; [lia|].
    rewrite (led_switch_in cc on b s led) by (lia || assumption).
    eexists; split; [reflexivity|]. split; [apply led_events_cc | apply led_events_led].
  - destruct s; eexists; split; [reflexivity|]. split; [reflexivity | constructor].
Qed.

Lemma leds_set_leds v s : leds_ (set_leds v s) = v.
Proof. reflexivity. Qed.

Lemma set_leds_set_leds v w s : set_leds v (set_leds w s) = set_leds v s.
Proof. reflexivity. Qed.

Lemma repaint_steps (lk : Look) (n : nat) (leds : list LED.t) :
  alter (LED.set_on (lit lk)) n
    (alter (LED.set_timer (timer_value (timer lk))) n
       (alter (LED.set_state (visual lk)) n leds))
  = alter (repaint lk) n leds.
Proof.
  rewrite !list_alter_alter_eq. apply list_alter_ext; [|reflexivity].
  intros [] _; reflexivity.
Qed.

(** The three statements every case of the first switch starts with, before
    any continuation [k]. *)
Lemma own_led_run (loop : Loop.t) (lk : Look) (s : App) :
  wf_loop loop -> length (leds_ s) = 10%nat ->
  let i := Loop.index_ loop in
  let s1 := set_leds (alter (repaint lk) (Z.to_nat i) (leds_ s)) s in
  exists out,
    cc_lines out = [((if lit lk then 106 else 107), ledNumber i)] /\
    Forall is_led_event out /\
    (write_led (Loop.led_ loop) (LED.set_state (visual lk)) ;;
     write_led (Loop.led_ loop) (LED.set_timer (timer_value (timer lk))) ;;
     led_switch (if lit lk then 106 else 107) (lit lk) i) s = Done tt s1 out /\
    forall (k : unit -> M unit),
      (write_led (Loop.led_ loop) (LED.set_state (visual lk)) ;;
       write_led (Loop.led_ loop) (LED.set_timer (timer_value (timer lk))) ;;
       do x <- led_switch (if lit lk then 106 else 107) (lit lk) i; k x) s
      = prefix out (k tt s1).
Proof.
  intros [Hi Href] Hlen i s1. fold i in Hi, Href. rewrite Href.
  set (n := Z.to_nat i).
  destruct (lookup_lt_is_Some_2 (leds_ s) n) as [led Hled]; [lia|].
  set (sa := set_leds (alter (LED.set_state (visual lk)) n (leds_ s)) s).
  set (sb := set_leds (alter (LED.set_timer (timer_value (timer lk))) n (leds_ sa)) sa).
  assert (write_led i (LED.set_state (visual lk)) s = Done tt sa []) as Ha.
  { apply write_led_in; lia. }
  assert (write_led i (LED.set_timer (timer_value (timer lk))) sa = Done tt sb []) as Hb.
  { apply write_led_in. unfold sa. rewrite leds_set_leds, length_alter. lia. }
  assert (exists led', led_switch (if lit lk then 106 else 107) (lit lk) i sb
          = Done tt s1 (led_events (if lit lk then 106 else 107) i led' sb)) as [led' Hc].
  { eexists. erewrite led_switch_in; [| lia |].
    2:{ unfold sb, sa. rewrite !leds_set_leds. fold n.
        rewrite !list_lookup_alter_eq, Hled. reflexivity. }
    f_equal. unfold sb, sa, s1. rewrite !leds_set_leds, !set_leds_set_leds.
    fold n. rewrite repaint_steps. reflexivity. }
  eexists. split; [apply led_events_cc|]. split; [apply led_events_led|]. split.
  - rewrite (bind_Done _ _ _ _ _ _ Ha), prefix_nil.
    rewrite (bind_Done _ _ _ _ _ _ Hb), prefix_nil. exact Hc.
  - intros k.
    rewrite (bind_Done _ _ _ _ _ _ Ha), prefix_nil.
    rewrite (bind_Done _ _ _ _ _ _ Hb), prefix_nil.
    rewrite (bind_Done _ _ _ _ _ _ Hc). reflexivity.
Qed.

Lemma paint_run (loop : Loop.t) (lk : Look) (s : App) :
  wf_loop loop -> length (leds_ s) = 10%nat ->
  (forall b, action lk = Some b -> 5 <= b <= 8) ->
  exists out,
    paint loop lk s
      = Done tt (set_leds (switch_shared (action lk) true
                             (alter (repaint lk) (Z.to_nat (Loop.index_ loop)) (leds_ s))) s) out /\
    cc_lines out = ((if lit lk then 106 else 107), ledNumber (Loop.index_ loop))
                     :: shared_line 106 (action lk) /\
    Forall is_led_event out.
Proof.
  intros Hwf Hlen Ha.
  destruct (own_led_run loop lk s Hwf Hlen) as (o1 & Hcc1 & Hled1 & Hown & Hk).
  unfold paint. destruct (action lk) as [a|] eqn:Hact.
  - destruct (shared_run 106 true (Some a)
                (set_leds (alter (repaint lk) (Z.to_nat (Loop.index_ loop)) (leds_ s)) s))
      as (o2 & Hsh & Hcc2 & Hled2).
    { rewrite leds_set_leds, length_alter. assumption. }
    { intros b [= <-]. auto. }
    exists (o1 ++ o2). split; [| split].
    + rewrite (Hk (fun _ => ledOn a)). unfold ledOn. rewrite Hsh. reflexivity.
    + rewrite cc_lines_app, Hcc1, Hcc2. reflexivity.
    + apply Forall_app; split; assumption.
  - exists o1. simpl. repeat split; assumption.
Qed.

Lemma read_loop_in (k : nat) (s : App) (loop : Loop.t) :
  loops_ s !! k = Some loop -> read_loop k s = Done loop s [].
Proof. intros H; unfold read_loop; rewrite bind_gets, H; reflexivity. Qed.

Lemma read_loop_out (k : nat) (s : App) :
  loops_ s !! k = None ->
  read_loop k s = Crash (OutOfBounds (Z.of_nat k) (length (loops_ s))) [].
Proof. intros H; unfold read_loop; rewrite bind_gets, H; reflexivity. Qed.

Lemma length_leds_after loop mode newState leds :
  length (leds_after loop mode newState leds) = length leds.
Proof.
  unfold leds_after. destruct (newState =? Loop.state_ loop);
    rewrite !length_switch_shared, ?length_alter; reflexivity.
Qed.

Lemma updateLoopLedState_run (k : nat) (newState : LoopStates) (s : App) (loop : Loop.t) :
  loops_ s !! k = Some loop -> wf_loop loop -> length (leds_ s) = 10%nat ->
  exists out,
    updateLoopLedState k newState s
      = Done tt (set_loops (alter (Loop.set_state newState) k (loops_ s))
                   (set_leds (leds_after loop (mode_ s) newState (leds_ s)) s)) out /\
    cc_lines out = lines_after loop (mode_ s) newState /\
    Forall is_led_event out.
Proof.
  intros Hk Hwf Hlen. unfold updateLoopLedState, leds_after, lines_after.
  set (lk := table (mode_ s) newState).
  rewrite (bind_Done _ _ _ _ _ _ (read_loop_in k s loop Hk)), prefix_nil.
  destruct (paint_run loop lk s Hwf Hlen) as (o1 & Hp & Hcc1 & Hled1).
  { intros b Hb. unfold lk in Hb. rewrite table_action in Hb.
    eapply action_led_range; eassumption. }
  unfold lk in Hp at 1. rewrite <- switch_newState_table in Hp.
  rewrite (bind_Done _ _ _ _ _ _ Hp).
  set (s1 := set_leds _ s) in *.
  destruct (newState =? Loop.state_ loop); simpl negb; unfold when.
  - rewrite bind_ret. unfold write_loop, modify. simpl prefix.
    exists (o1 ++ []). split; [reflexivity|]. rewrite !app_nil_r. auto.
  - destruct (shared_run 107 false (action_led (Loop.state_ loop)) s1)
      as (o2 & Hsh & Hcc2 & Hled2).
    { unfold s1. rewrite leds_set_leds, length_switch_shared, length_alter. assumption. }
    { apply action_led_range. }
    rewrite <- switch_oldState_action in Hsh.
    rewrite (bind_Done _ _ _ _ _ _ Hsh). unfold write_loop, modify. simpl prefix.
    exists (o1 ++ o2 ++ []). split; [reflexivity|]. rewrite app_nil_r. split.
    + rewrite cc_lines_app, Hcc1, Hcc2. reflexivity.
    + apply Forall_app; split; assumption.
Qed.

Lemma switch_shared_lookup (a : option Z) (on : bool) (leds : list LED.t)
    (n : nat) (led : LED.t) :
  leds !! n = Some led ->
  exists led',
    switch_shared a on leds !! n = Some led' /\
    LED.index_ led' = LED.index_ led /\
    LED.state_ led' = LED.state_ led /\
    LED.timer_ led' = LED.timer_ led /\
    ((forall b, a = Some b -> Z.to_nat b <> n) -> led' = led) /\
    (forall b, a = Some b -> Z.to_nat b = n -> LED.on_ led' = on).
Proof.
  intros Hl. destruct a as [b|]; simpl.
  - destruct (decide (Z.to_nat b = n)) as [<-|Hne].
    + exists (LED.set_on on led). rewrite list_lookup_alter_eq, Hl.
      repeat split; try reflexivity. intros H; destruct (H b eq_refl eq_refl).
    + exists led. rewrite list_lookup_alter_ne, Hl by assumption.
      repeat split; try reflexivity. intros b' [= <-] ?; contradiction.
  - exists led. repeat split; try assumption; try reflexivity. intros b [=].
Qed.

Lemma table_action_lit (mode : Z) (state : LoopStates) (a : Z) :
  action (table mode state) = Some a -> lit (table mode state) = true.
Proof.
  switch_cases state; simpl; try discriminate; try reflexivity.
  destruct (mode =? 0); discriminate.
Qed.

(** ** C1: the LED table *)

Lemma leds_after_own (loop : Loop.t) (mode : Z) (newState : LoopStates)
    (leds : list LED.t) :
  wf_loop loop -> length leds = 10%nat ->
  exists led,
    leds_after loop mode newState leds !! Z.to_nat (Loop.index_ loop) = Some led /\
    LED.state_ led = visual (table mode newState) /\
    LED.timer_ led = timer_value (timer (table mode newState)) /\
    (cleanup_spares_own_led loop newState -> LED.on_ led = lit (table mode newState)).
Proof.
  intros [Hi _] Hlen. set (n := Z.to_nat (Loop.index_ loop)).
  set (lk := table mode newState).
  destruct (lookup_lt_is_Some_2 leds n) as [led0 Hled0]; [lia|].
  assert (alter (repaint lk) n leds !! n = Some (repaint lk led0)) as H1.
  { rewrite list_lookup_alter_eq, Hled0. reflexivity. }
  destruct (switch_shared_lookup (action lk) true _ _ _ H1)
    as (led2 & H2 & _ & Hst2 & Htm2 & Hsame2 & Hon2).
  assert (LED.on_ led2 = lit lk) as Hlit2.
  { destruct (action lk) as [a|] eqn:Ha.
    - destruct (decide (Z.to_nat a = n)) as [Heq|Hne].
      + rewrite (Hon2 a eq_refl Heq). symmetry. eapply table_action_lit; exact Ha.
      + rewrite Hsame2; [reflexivity|]. intros b [= <-]; assumption.
    - rewrite Hsame2; [reflexivity|]. intros b [=]. }
  unfold leds_after. fold lk n. destruct (Z.eqb_spec newState (Loop.state_ loop)) as [Heq|Hne].
  - exists led2. split; [assumption|].
    split; [rewrite Hst2; reflexivity|]. split; [rewrite Htm2; reflexivity|].
    intros _; assumption.
  - destruct (switch_shared_lookup (action_led (Loop.state_ loop)) false _ _ _ H2)
      as (led3 & H3 & _ & Hst3 & Htm3 & Hsame3 & _).
    exists led3. split; [assumption|].
    split; [rewrite Hst3, Hst2; reflexivity|].
    split; [rewrite Htm3, Htm2; reflexivity|].
    intros Hspare. rewrite Hsame3; [assumption|].
    intros b Hb Hbn. apply (Hspare Hne). rewrite Hb. f_equal.
    apply action_led_range in Hb. unfold n in Hbn. lia.
Qed.

Lemma leds_after_shared (loop : Loop.t) (mode : Z) (newState : LoopStates)
    (leds : list LED.t) (a : Z) :
  length leds = 10%nat ->
  action (table mode newState) = Some a ->
  exists shared,
    leds_after loop mode newState leds !! Z.to_nat a = Some shared /\
    LED.on_ shared = true.
Proof.
  intros Hlen Ha. pose proof Ha as Hrange.
  rewrite table_action in Hrange. pose proof Hrange as Hnew.
  apply action_led_range in Hrange.
  destruct (lookup_lt_is_Some_2 (alter (repaint (table mode newState))
              (Z.to_nat (Loop.index_ loop)) leds) (Z.to_nat a)) as [led1 H1].
  { rewrite length_alter. lia. }
  destruct (switch_shared_lookup (action (table mode newState)) true _ _ _ H1)
    as (led2 & H2 & _ & _ & _ & _ & Hon2).
  specialize (Hon2 a Ha eq_refl).
  unfold leds_after. destruct (Z.eqb_spec newState (Loop.state_ loop)) as [Heq|Hne].
  - exists led2. split; assumption.
  - destruct (switch_shared_lookup (action_led (Loop.state_ loop)) false _ _ _ H2)
      as (led3 & H3 & _ & _ & _ & Hsame3 & _).
    exists led3. split; [assumption|]. rewrite Hsame3; [assumption|].
    intros b Hb Hba. apply Hne. apply (action_led_inj _ _ a); [assumption|].
    rewrite Hb. f_equal. apply action_led_range in Hb. lia.
Qed.

Lemma leds_after_hit (loop : Loop.t) (mode : Z) (newState : LoopStates)
    (leds : list LED.t) :
  wf_loop loop -> length leds = 10%nat ->
  cleanup_hits_own_led loop newState ->
  exists led,
    leds_after loop mode newState leds !! Z.to_nat (Loop.index_ loop) = Some led /\
    LED.on_ led = false.
Proof.
  intros [Hi _] Hlen [Hne Hown]. unfold leds_after.
  apply Z.eqb_neq in Hne. rewrite Hne, Hown.
  match goal with |- context [switch_shared (Some _) false ?L] =>
    destruct (lookup_lt_is_Some_2 L (Z.to_nat (Loop.index_ loop))) as [l0 Hl0] end.
  { rewrite length_switch_shared, length_alter. lia. }
  destruct (switch_shared_lookup (Some (Loop.index_ loop)) false _ _ _ Hl0)
    as (l1 & Hl1 & _ & _ & _ & _ & Hoff).
  exists l1. split; [exact Hl1 | exact (Hoff _ eq_refl eq_refl)].
Qed.

(** C1 (what the code does). For a loop of a well-formed state,
    [updateLoopLedState] gives the loop's LED the visual state and the timer
    of the table row of [(mode, newState)], and lights the row's shared
    action LED. The loop's LED is lit or dark as the row says when the
    cleanup step, which runs after the LED was switched, does not hit it.
    When it does (the previous state differs from the new one and its shared
    action LED is the LED of the loop's own index), the [ledOff] of the
    cleanup puts the loop's LED out, and a row that says lit is not
    followed. *)
Theorem updateLoopLedState_cleanup_hits_own_led (s : App) (k : nat) (loop : Loop.t)
    (newState : LoopStates) :
  wf s -> loops_ s !! k = Some loop ->
  follows_table_look s k newState /\
  (cleanup_spares_own_led loop newState -> follows_table s k newState) /\
  (cleanup_hits_own_led loop newState ->
   own_led_put_out s k newState /\
   (lit (table (mode_ s) newState) = true -> ~ follows_table s k newState)).
Proof.
  intros [Hlen Hloops] Hk.
  assert (wf_loop loop) as Hwf.
  { rewrite Forall_lookup in Hloops. exact (Hloops k loop Hk). }
  destruct (updateLoopLedState_run k newState s loop Hk Hwf Hlen) as (out & Hrun & _ & _).
  destruct (leds_after_own loop (mode_ s) newState (leds_ s) Hwf Hlen)
    as (led & Hled & Hst & Htm & Hon).
  split; [|split].
  - eexists loop, _, out, led. repeat split; eassumption.
  - intros Hspare. eexists loop, _, out, led.
    split; [exact Hk|]. split; [exact Hrun|]. split; [exact Hled|].
    split; [exact Hst|]. split; [exact Htm|]. split; [exact (Hon Hspare)|].
    intros a Ha. apply leds_after_shared; assumption.
  - intros Hhit.
    destruct (leds_after_hit loop (mode_ s) newState (leds_ s) Hwf Hlen Hhit)
      as (dark & Hdark & Hoff).
    split.
    + eexists loop, _, out, dark.
      split; [exact Hk|]. split; [exact Hrun|]. split; [exact Hdark | exact Hoff].
    + intros Hlit (loop' & s' & out' & led' & Hk' & Hrun' & Hled' & _ & _ & Hon' & _).
      rewrite Hk in Hk'. injection Hk' as <-.
      rewrite Hrun in Hrun'. injection Hrun' as <- _.
      change (leds_ (set_loops ?a (set_leds ?l ?c))) with l in Hled'.
      rewrite Hdark in Hled'. injection Hled' as <-.
      rewrite Hoff, Hlit in Hon'. discriminate Hon'.
Qed.

(** *** Example states *)

Lemma wf_concrete (s : App) :
  length (leds_ s) = 10%nat ->
  forallb (fun l => (0 <=? Loop.index_ l) && (Loop.index_ l <? 10)
                    && (Loop.led_ l =? Loop.index_ l)) (loops_ s) = true ->
  wf s.
Proof.
  intros Hlen Hall; split; [assumption|].
  apply Forall_forall. intros l Hl.
  rewrite forallb_forall in Hall. apply list_elem_of_In in Hl.
  specialize (Hall l Hl). unfold wf_loop.
  apply andb_prop in Hall as [Hall H3]. apply andb_prop in Hall as [H1 H2].
  lia.
Qed.

Lemma wf_loop6_inserting : wf loop6_inserting.
Proof. apply wf_concrete; reflexivity. Qed.

Lemma wf_loop0_inserting : wf loop0_inserting.
Proof. apply wf_concrete; reflexivity. Qed.

(** Loop 6 of [loop6_inserting] goes from [Inserting] to [Playing]: the
    hypotheses of the theorem hold there, the cleanup hits LED 6, and the
    LED is out afterwards. *)
Lemma updateLoopLedState_cleanup_hits_own_led_witness :
  wf loop6_inserting /\
  loops_ loop6_inserting !! 6%nat = Some (Loop.mk 6 Inserting 6) /\
  cleanup_hits_own_led (Loop.mk 6 Inserting 6) Playing /\
  own_led_put_out loop6_inserting 6 Playing.
Proof.
  assert (cleanup_hits_own_led (Loop.mk 6 Inserting 6) Playing) as Hhit.
  { split; [discriminate | reflexivity]. }
  split; [exact wf_loop6_inserting|]. split; [reflexivity|]. split; [exact Hhit|].
  exact (proj1 (proj2 (proj2 (updateLoopLedState_cleanup_hits_own_led loop6_inserting 6
                                (Loop.mk 6 Inserting 6) Playing wf_loop6_inserting eq_refl))
                  Hhit)).
Defined.

(** The failing input: loop 6 goes from [Inserting] to [Playing]. The lines
    written are [cc 106 7], which lights LED 6 for the loop that plays, and
    [cc 107 7], the cleanup of the Insert LED, which is the same LED: it is
    out afterwards although the row of [Playing] says lit. *)
Lemma updateLoopLedState_table_failing_input :
  cc_lines (output (updateLoopLedState 6 Playing loop6_inserting)) = [(106, 7); (107, 7)] /\
  LED.on_ <$> (leds_ (after (updateLoopLedState 6 Playing) loop6_inserting) !! 6%nat)
    = Some false /\
  lit (table (mode_ loop6_inserting) Playing) = true /\
  ~ follows_table loop6_inserting 6 Playing.
Proof.
  split; [reflexivity|]. split; [reflexivity|]. split; [reflexivity|].
  intros (loop & s' & out & led & Hk & Hrun & Hled & _ & _ & Hon & _).
  vm_compute in Hk. injection Hk as <-.
  vm_compute in Hrun. injection Hrun as <- <-.
  vm_compute in Hled. injection Hled as <-.
  vm_compute in Hon. discriminate Hon.
Qed.

(** ** C2: the cleanup step and the stored state *)

(** C2 (amended). In a well-formed state, a call of [updateLoopLedState]
    whose previous state is Inserting, Replacing, Substitute or Multiplying
    and whose new state differs, for a loop whose own LED is not the shared
    action LED of the previous state, turns that shared LED off after the
    loop's own LED has been switched to its new look: its line is the last
    one written, the shared LED is off in the resulting state, and the
    cleanup still sees the previous state because the new one is stored
    after it. Every call stores the new state. *)
Theorem updateLoopLedState_cleanup_order (s : App) (k : nat) (loop : Loop.t)
    (newState : LoopStates) :
  wf s -> loops_ s !! k = Some loop ->
  stores_state s k newState /\
  (forall b, action_led (Loop.state_ loop) = Some b ->
             newState <> Loop.state_ loop ->
             b <> Loop.index_ loop ->
             cleanup_after_own s k newState).
Proof.
  intros [Hlen Hloops] Hk.
  assert (wf_loop loop) as Hwf.
  { rewrite Forall_lookup in Hloops. exact (Hloops k loop Hk). }
  destruct (updateLoopLedState_run k newState s loop Hk Hwf Hlen) as (out & Hrun & Hcc & _).
  split.
  - eexists _, out. split; [exact Hrun | reflexivity].
  - intros b Hb Hne Hother.
    assert (cc_lines out = own_line s loop newState
              :: shared_line 106 (action_led newState) ++ [(107, ledNumber b)]) as Hlines.
    { rewrite Hcc. unfold lines_after, own_line.
      rewrite table_action, Hb. apply Z.eqb_neq in Hne. rewrite Hne. reflexivity. }
    eexists loop, b, _, out.
    split; [exact Hk|]. split; [exact Hb|]. split; [exact Hother|]. split; [exact Hrun|].
    split; [exact Hlines|]. split; [| split; [|reflexivity]].
    + exists [], (shared_line 106 (action_led newState)), []. exact Hlines.
    + change (leds_ (set_loops ?a (set_leds ?l ?c))) with l. unfold leds_after.
      apply Z.eqb_neq in Hne. rewrite Hne, Hb.
      pose proof (action_led_range _ _ Hb) as Hrange.
      match goal with |- context [switch_shared (Some b) false ?L] =>
        destruct (lookup_lt_is_Some_2 L (Z.to_nat b)) as [l0 Hl0] end.
      { rewrite length_switch_shared, length_alter. lia. }
      destruct (switch_shared_lookup (Some b) false _ _ _ Hl0)
        as (l1 & Hl1 & _ & _ & _ & _ & Hoff).
      exists l1. split; [exact Hl1 | exact (Hoff b eq_refl eq_refl)].
Qed.

(** Loop 0 of [loop0_inserting] goes from [Inserting] to [Off]; the shared
    Insert LED is LED 6. *)
Lemma updateLoopLedState_cleanup_order_witness :
  wf loop0_inserting /\
  loops_ loop0_inserting !! 0%nat = Some (Loop.mk 0 Inserting 0) /\
  stores_state loop0_inserting 0 Off /\
  cleanup_after_own loop0_inserting 0 Off.
Proof.
  split; [exact wf_loop0_inserting|]. split; [reflexivity|].
  destruct (updateLoopLedState_cleanup_order loop0_inserting 0 (Loop.mk 0 Inserting 0) Off
              wf_loop0_inserting eq_refl) as [Hstores Horder].
  split; [exact Hstores|].
  apply (Horder INSERT); [reflexivity | discriminate | discriminate].
Defined.

(** C2 as stated fails for loop 0 going from [Inserting] to [Off]: the
    lines written are [cc 107 1] (LED 0) and then [cc 107 7] (the shared
    Insert LED), so the cleanup does not come before the loop's own LED. *)
Lemma updateLoopLedState_cleanup_order_counterexample :
  ~ cleanup_before_own loop0_inserting 0 Off.
Proof.
  intros (loop & b & s' & out & Hk & Hb & Hrun & (pre & mid & post & Hpre) & _).
  vm_compute in Hk. injection Hk as <-.
  vm_compute in Hb. injection Hb as <-.
  vm_compute in Hrun. injection Hrun as <- <-.
  change (cc_lines _) with [(107, 1); (107, 7)] in Hpre.
  change (own_line _ _ _) with (107, 1) in Hpre.
  change (ledNumber 6) with 7 in Hpre.
  destruct pre as [|p1 [|p2 pre]]; simpl in Hpre.
  - discriminate Hpre.
  - injection Hpre as _ Hmid. destruct mid; discriminate Hmid.
  - injection Hpre as _ _ Hrest. destruct pre; discriminate Hrest.
Qed.

(** ** C3: the heartbeat countdown *)

Lemma timer_midi_input_run (os : Devices) (s : App) :
  exists s' out,
    timer_midi_input os s = Done tt s' out /\
    session s' = session s /\ looper_requests out = [].
Proof.
  unfold timer_midi_input, tryToConnectMidiInput.
  rewrite !bind_gets.
  destruct (negb (fullMidiInName_ s =? "")%string
            && negb (bool_decide (fullMidiInName_ s ∈ getDevices os))).
  { eexists _, _. split; [reflexivity|]. split; reflexivity. }
  destruct (negb (midiInName_ s =? "")%string && negb (midiIn_ s)).
  2:{ eexists _, _. split; [reflexivity|]. split; reflexivity. }
  rewrite bind_bind, bind_gets.
  destruct (match indexOf (getDevices os) (midiInName_ s) with
            | Some index => Some (index, midiInName_ s)
            | None => firstContaining (containsIgnoreCase os) (getDevices os) 0 (midiInName_ s)
            end) as [[index name]|].
  2:{ eexists _, _. split; [reflexivity|]. split; reflexivity. }
  destruct (openDevice os index).
  - eexists _, _. split; [reflexivity|]. split; reflexivity.
  - eexists _, _. split; [reflexivity|]. split; reflexivity.
Qed.

Lemma timer_virtual_output_run (os : Devices) (s : App) :
  exists s' out,
    timer_virtual_output os s = Done tt s' out /\
    session s' = session s /\ looper_requests out = [].
Proof.
  unfold timer_virtual_output. rewrite bind_gets.
  destruct (virtMidiOutName_ s =? "")%string; simpl.
  - destruct (createNewDevice os "loop4r_control_out");
      eexists _, _; (split; [reflexivity|]); split; reflexivity.
  - eexists _, _. split; [reflexivity|]. split; reflexivity.
Qed.

(** One tick of an established session whose countdown is not below the
    reconnection threshold: at zero a ping goes out and the countdown stays;
    otherwise it goes down by one. *)
Lemma timer_osc_established (os : Devices) (s : App) :
  0 <= currentReceivePort_ s -> 0 <= currentSendPort_ s -> -5 <= heartbeat_ s ->
  timer_osc os s =
    if heartbeat_ s =? 0
    then Done tt s [osc_send oscSender (fst (heartbeat_ping s)) (snd (heartbeat_ping s))]
    else Done tt (set_heartbeat (heartbeat_ s - 1) s) [].
Proof.
  intros Hr Hs Hh. unfold timer_osc. rewrite !bind_gets.
  replace (currentReceivePort_ s <? 0) with false by (symmetry; apply Z.ltb_ge; lia).
  replace (currentSendPort_ s <? 0) with false by (symmetry; apply Z.ltb_ge; lia).
  change (false || false) with false. cbv iota. rewrite bind_gets.
  destruct (heartbeat_ s =? 0); [reflexivity|].
  replace (heartbeat_ s <? -5) with false by (symmetry; apply Z.ltb_ge; lia).
  reflexivity.
Qed.

Lemma timerCallback_established (os : Devices) (s : App) :
  0 <= currentReceivePort_ s -> 0 <= currentSendPort_ s -> -5 <= heartbeat_ s ->
  exists s' out,
    timerCallback os s = Done tt s' out /\
    currentReceivePort_ s' = currentReceivePort_ s /\
    currentSendPort_ s' = currentSendPort_ s /\
    heartbeat_ s' = (if heartbeat_ s =? 0 then 0 else heartbeat_ s - 1) /\
    looper_requests out = (if heartbeat_ s =? 0 then [heartbeat_ping s] else []).
Proof.
  intros Hr Hs Hh. unfold timerCallback.
  destruct (timer_midi_input_run os s) as (s1 & o1 & H1 & Hs1 & Ho1).
  destruct (timer_virtual_output_run os s1) as (s2 & o2 & H2 & Hs2 & Ho2).
  rewrite (bind_Done _ _ _ _ _ _ H1), (bind_Done _ _ _ _ _ _ H2).
  rewrite Hs1 in Hs2. unfold session in Hs2. injection Hs2 as Hr2 Hs2 Hh2.
  rewrite timer_osc_established by lia.
  unfold heartbeat_ping. rewrite Hh2, Hr2.
  destruct (Z.eqb_spec (heartbeat_ s) 0) as [Hz|Hz]; simpl prefix.
  - eexists _, _. split; [reflexivity|]. repeat split; try assumption.
    + congruence.
    + rewrite !looper_requests_app, Ho1, Ho2. reflexivity.
  - eexists _, _. split; [reflexivity|]. repeat split; try assumption.
    rewrite !looper_requests_app, Ho1, Ho2. reflexivity.
Qed.

Lemma ticks_established (oss : list Devices) : forall (s : App),
  0 <= currentReceivePort_ s -> 0 <= currentSendPort_ s ->
  0 <= heartbeat_ s ->
  exists s' out,
    ticks oss s = Done tt s' out /\
    currentReceivePort_ s' = currentReceivePort_ s /\
    currentSendPort_ s' = currentSendPort_ s /\
    heartbeat_ s' = Z.max 0 (heartbeat_ s - Z.of_nat (length oss)) /\
    looper_requests out
      = replicate (length oss - Z.to_nat (heartbeat_ s)) (heartbeat_ping s).
Proof.
  induction oss as [|os oss IH]; intros s Hr Hs Hh.
  - exists s, []. split; [reflexivity|]. repeat split; try reflexivity.
    simpl. lia.
  - destruct (timerCallback_established os s) as (s1 & o1 & H1 & Hr1 & Hs1 & Hh1 & Ho1);
      [lia..|].
    destruct (IH s1) as (s2 & o2 & H2 & Hr2 & Hs2 & Hh2 & Ho2).
    { lia. } { lia. } { rewrite Hh1. destruct (Z.eqb_spec (heartbeat_ s) 0); lia. }
    exists s2, (o1 ++ o2). split.
    { unfold ticks; simpl. rewrite (bind_Done _ _ _ _ _ _ H1).
      unfold ticks in H2. rewrite H2. reflexivity. }
    split; [congruence|]. split; [congruence|]. split.
    { rewrite Hh2, Hh1. destruct (Z.eqb_spec (heartbeat_ s) 0); simpl length; lia. }
    rewrite looper_requests_app, Ho1, Ho2, Hh1.
    assert (heartbeat_ping s1 = heartbeat_ping s) as ->.
    { unfold heartbeat_ping. rewrite Hr1. reflexivity. }
    destruct (Z.eqb_spec (heartbeat_ s) 0) as [Hz|Hz].
    + rewrite Hz. simpl. rewrite Nat.sub_0_r. reflexivity.
    + simpl app. f_equal. simpl length. lia.
Qed.

(** C3 (what the code does). From an established session whose countdown
    was set to 5, silent ticks bring the countdown to 0 in five ticks and no
    further: at 0 a tick sends [/ping] and leaves the countdown alone, so
    every later tick pings again, the countdown never gets below the
    threshold of -5, and the session is never reset. After eleven ticks six
    pings have gone out and both ports are still set. *)
Theorem heartbeat_countdown_stalls (s : App) (oss : list Devices) :
  0 <= currentReceivePort_ s -> 0 <= currentSendPort_ s ->
  heartbeat_ s = 5 -> (5 <= length oss)%nat ->
  (exists s' out,
     ticks oss s = Done tt s' out /\
     heartbeat_ s' = 0 /\
     currentReceivePort_ s' = currentReceivePort_ s /\
     currentSendPort_ s' = currentSendPort_ s /\
     looper_requests out = replicate (length oss - 5) (heartbeat_ping s)) /\
  ~ resets_after_eleven_ticks s oss.
Proof.
  intros Hr Hs Hh Hlen.
  destruct (ticks_established oss s Hr Hs ltac:(lia))
    as (s' & out & Hrun & Hr' & Hs' & Hh' & Hout).
  split.
  - exists s', out. split; [exact Hrun|]. split; [lia|]. split; [exact Hr'|].
    split; [exact Hs'|]. rewrite Hout, Hh. reflexivity.
  - intros (s2 & o2 & Hrun2 & Hreset). rewrite Hrun in Hrun2.
    injection Hrun2 as <- <-. lia.
Qed.

Lemma heartbeat_countdown_stalls_witness :
  0 <= currentReceivePort_ established /\
  0 <= currentSendPort_ established /\
  heartbeat_ established = 5 /\
  (5 <= length (replicate 11 friendly))%nat /\
  (exists s' out,
     ticks (replicate 11 friendly) established = Done tt s' out /\
     heartbeat_ s' = 0 /\
     currentReceivePort_ s' = currentReceivePort_ established /\
     currentSendPort_ s' = currentSendPort_ established /\
     looper_requests out
       = replicate (length (replicate 11 friendly) - 5) (heartbeat_ping established)) /\
  ~ resets_after_eleven_ticks established (replicate 11 friendly).
Proof.
  assert (0 <= currentReceivePort_ established) as H1 by (vm_compute; discriminate).
  assert (0 <= currentSendPort_ established) as H2 by (vm_compute; discriminate).
  assert (5 <= length (replicate 11 friendly))%nat as H4 by (simpl; lia).
  split; [exact H1|]. split; [exact H2|]. split; [reflexivity|]. split; [exact H4|].
  exact (heartbeat_countdown_stalls established (replicate 11 friendly) H1 H2 eq_refl H4).
Defined.

(** Running a program step by step: the monad laws, oriented. *)
Ltac mrun :=
  repeat first
    [ rewrite bind_bind
    | rewrite bind_ret
    | rewrite bind_gets
    | rewrite bind_modify
    | rewrite bind_emit
    | rewrite prefix_nil
    | rewrite prefix_prefix
    | progress cbn beta iota
    | progress unfold when ].

(** ** Control messages *)

Lemma getFloat32_as_int_in (v : float) (z : Z) (s : App) :
  float_to_int v = Some z -> getFloat32_as_int v s = Done z s [].
Proof. unfold getFloat32_as_int. intros ->. reflexivity. Qed.

Lemma getFloat32_as_int_out (v : float) (s : App) :
  float_to_int v = None -> getFloat32_as_int v s = Crash (NotAnInt v) [].
Proof. unfold getFloat32_as_int. intros ->. reflexivity. Qed.

(** The body of [handleCtrlMessage] for a non-negative loop index. *)
Lemma handleCtrlMessage_nonnegative (loopIndex : Z) (arg : list OSCArgument) (s : App) :
  0 <= loopIndex ->
  handleCtrlMessage (Int32 loopIndex :: arg) s =
    (do a <- deref arg;
     match a with
     | Str key =>
         when (String.eqb key "state")
           (do v <- deref (tail arg);
            match v with
            | Float32 v =>
                do loopState <- getFloat32_as_int v;
                do loops <- gets loops_;
                do k <- getReference loops loopIndex;
                updateLoopLedState k loopState
            | _ => ret tt
            end)
     | _ => ret tt
     end ;;
     modify (set_heartbeat 5)) s.
Proof.
  intros H. unfold handleCtrlMessage.
  replace (loopIndex =? -2) with false by (symmetry; apply Z.eqb_neq; lia).
  replace (loopIndex <? 0) with false by (symmetry; apply Z.ltb_ge; lia).
  reflexivity.
Qed.

(** A state message whose value no [int] holds. *)
Lemma handleCtrlMessage_state_undefined (loopIndex : Z) (v : float)
    (rest : list OSCArgument) (s : App) :
  0 <= loopIndex -> float_to_int v = None ->
  handleCtrlMessage (Int32 loopIndex :: Str "state" :: Float32 v :: rest) s
    = Crash (NotAnInt v) [].
Proof.
  intros H0 Hv. rewrite handleCtrlMessage_nonnegative by assumption.
  simpl deref. rewrite bind_ret. simpl when.
  rewrite bind_bind, bind_ret, bind_bind.
  rewrite (bind_Crash _ _ _ _ _ (getFloat32_as_int_out _ _ Hv)).
  reflexivity.
Qed.

Lemma handleCtrlMessage_state_out (loopIndex : Z) (v : float) (loopState : Z)
    (rest : list OSCArgument) (s : App) :
  float_to_int v = Some loopState ->
  0 <= loopIndex -> Z.of_nat (length (loops_ s)) <= loopIndex ->
  handleCtrlMessage (Int32 loopIndex :: Str "state" :: Float32 v :: rest) s
    = Crash (OutOfBounds loopIndex (length (loops_ s))) [].
Proof.
  intros Hv H0 Hout. rewrite handleCtrlMessage_nonnegative by assumption.
  simpl deref. rewrite bind_ret. simpl when.
  rewrite bind_bind, bind_ret, bind_bind.
  rewrite (bind_Done _ _ _ _ _ _ (getFloat32_as_int_in _ _ _ Hv)), prefix_nil.
  rewrite bind_bind, bind_gets, bind_bind.
  rewrite (bind_Crash _ _ _ _ _ (getReference_out _ _ _ (or_intror Hout))).
  reflexivity.
Qed.

Lemma handleCtrlMessage_state_in (loopIndex : Z) (v : float) (loopState : Z)
    (rest : list OSCArgument) (s : App) :
  wf s -> float_to_int v = Some loopState ->
  0 <= loopIndex < Z.of_nat (length (loops_ s)) ->
  exists s' out,
    handleCtrlMessage (Int32 loopIndex :: Str "state" :: Float32 v :: rest) s
      = Done tt s' out /\
    heartbeat_ s' = 5 /\
    loops_ s' = alter (Loop.set_state loopState) (Z.to_nat loopIndex) (loops_ s).
Proof.
  intros Hwf Hv Hin. rewrite handleCtrlMessage_nonnegative by lia.
  simpl deref. rewrite bind_ret. simpl when.
  rewrite bind_bind, bind_ret, bind_bind.
  rewrite (bind_Done _ _ _ _ _ _ (getFloat32_as_int_in _ _ _ Hv)), prefix_nil.
  rewrite bind_bind, bind_gets, bind_bind.
  rewrite (bind_Done _ _ _ _ _ _ (getReference_in _ _ _ Hin)), prefix_nil.
  destruct (lookup_lt_is_Some_2 (loops_ s) (Z.to_nat loopIndex)) as [loop Hloop]; [lia|].
  destruct Hwf as [Hlen Hloops].
  assert (wf_loop loop) as Hwfl.
  { rewrite Forall_lookup in Hloops. exact (Hloops _ _ Hloop). }
  destruct (updateLoopLedState_run _ loopState s loop Hloop Hwfl Hlen)
    as (out & Hrun & _ & _).
  rewrite (bind_Done _ _ _ _ _ _ Hrun).
  eexists _, _. split; [reflexivity|]. split; reflexivity.
Qed.

(** A negative index other than -2: the message is ignored. *)
Lemma handleCtrlMessage_negative_ignored (loopIndex : Z) (arg : list OSCArgument)
    (s : App) :
  loopIndex < 0 -> loopIndex <> -2 ->
  handleCtrlMessage (Int32 loopIndex :: arg) s = Done tt s [].
Proof.
  intros Hneg Hne. unfold handleCtrlMessage.
  replace (loopIndex =? -2) with false by (symmetry; apply Z.eqb_neq; lia).
  replace (loopIndex <? 0) with true by (symmetry; apply Z.ltb_lt; lia).
  reflexivity.
Qed.

(** A first argument that is not an int32: logged and dropped. *)
Lemma handleCtrlMessage_unrecognized (first : OSCArgument) (arg : list OSCArgument)
    (s : App) :
  isInt32 first = false ->
  handleCtrlMessage (first :: arg) s = Done tt s [cerr LogUnrecognizedCtrl].
Proof. destruct first; try discriminate; reflexivity. Qed.

(** A handler that ends with [heartbeat_ = 5] leaves 5 behind. *)
Lemma ends_with_heartbeat_reset (m : M unit) (s s' : App) (out : list Event) :
  (m ;; modify (set_heartbeat 5)) s = Done tt s' out -> heartbeat_ s' = 5.
Proof.
  intros H. apply bind_inv in H as (a & s1 & o1 & o2 & _ & H & _).
  injection H as <- _. reflexivity.
Qed.

(** The global update: the selected loop and its two digits. *)
Lemma handleCtrlMessage_selected (v : float) (selected : Z) (rest : list OSCArgument)
    (s : App) :
  float_to_int v = Some selected ->
  exists out,
    handleCtrlMessage (Int32 (-2) :: Str "selected_loop_num" :: Float32 v :: rest) s
      = Done tt (set_selectedLoop selected s) out /\
    cc_lines out
      = [(113, if 0 <? Z.quot selected 10 then Z.quot selected 10 else 0);
         (114, Z.rem selected 10)].
Proof.
  intros Hv. unfold handleCtrlMessage. change (-2 =? -2) with true.
  unfold deref, tail. mrun. rewrite String.eqb_refl. mrun.
  rewrite (bind_Done _ _ _ _ _ _ (getFloat32_as_int_in _ _ _ Hv)), prefix_nil.
  unfold selectLoop. mrun.
  cbn [selectedLoop_ set_selectedLoop].
  destruct (0 <? Z.quot selected 10); mrun;
    cbn [oscLedSenderInitialized_ set_selectedLoop];
    destruct (oscLedSenderInitialized_ s);
    (eexists; split; reflexivity).
Qed.

Lemma handleCtrlMessage_selected_undefined (v : float) (rest : list OSCArgument)
    (s : App) :
  float_to_int v = None ->
  handleCtrlMessage (Int32 (-2) :: Str "selected_loop_num" :: Float32 v :: rest) s
    = Crash (NotAnInt v) [].
Proof.
  intros Hv. unfold handleCtrlMessage. change (-2 =? -2) with true.
  unfold deref, tail. mrun. rewrite String.eqb_refl. mrun.
  rewrite (bind_Crash _ _ _ _ _ (getFloat32_as_int_out _ _ Hv)).
  reflexivity.
Qed.

(** ** C7: control messages and the heartbeat countdown *)

(** C7 (what the code does). A [/ctrl] message with loop index -2 and key
    [selected_loop_num], whose value converts to an [int], updates the
    selected loop and its display and leaves the heartbeat countdown as it
    was: [heartbeat_ = 5] is only reached by a message with a non-negative
    loop index. *)
Theorem handleCtrlMessage_selected_loop_keeps_heartbeat (s : App) (v : float)
    (selected : Z) (rest : list OSCArgument) :
  float_to_int v = Some selected ->
  exists s' out,
    handleCtrlMessage (Int32 (-2) :: Str "selected_loop_num" :: Float32 v :: rest) s
      = Done tt s' out /\
    selectedLoop_ s' = selected /\
    cc_lines out
      = [(113, if 0 <? Z.quot selected 10 then Z.quot selected 10 else 0);
         (114, Z.rem selected 10)] /\
    heartbeat_ s' = heartbeat_ s.
Proof.
  intros Hv. destruct (handleCtrlMessage_selected v selected rest s Hv) as (out & Hrun & Hcc).
  eexists _, out. split; [exact Hrun|]. split; [reflexivity|]. split; [exact Hcc | reflexivity].
Qed.

(** Three ticks into an established session the countdown is 2; the looper
    tells that loop 1 is selected. *)
Lemma handleCtrlMessage_selected_loop_keeps_heartbeat_witness :
  float_to_int (1 # 1) = Some 1 /\
  exists s' out,
    handleCtrlMessage [Int32 (-2); Str "selected_loop_num"; Float32 (1 # 1)]
      (after (ticks (replicate 3 friendly)) established) = Done tt s' out /\
    selectedLoop_ s' = 1 /\
    cc_lines out = [(113, 0); (114, 1)] /\
    heartbeat_ s' = 2.
Proof.
  split; [reflexivity|].
  exact (handleCtrlMessage_selected_loop_keeps_heartbeat
           (after (ticks (replicate 3 friendly)) established) (1 # 1) 1 [] eq_refl).
Defined.

(** The failing input: three ticks into an established session the
    countdown is 2; a selected loop update arrives and the countdown is
    still 2, not 5. *)
Lemma handleCtrlMessage_selected_loop_failing_input :
  let s := after (ticks (replicate 3 friendly)) established in
  heartbeat_ s = 2 /\
  heartbeat_ (after (handleCtrlMessage
                       [Int32 (-2); Str "selected_loop_num"; Float32 (1 # 1)]) s) = 2 /\
  ~ selected_loop_resets_heartbeat s (1 # 1).
Proof.
  split; [reflexivity|]. split; [reflexivity|].
  intros (s' & out & Hrun & _ & Hh).
  vm_compute in Hrun. injection Hrun as <- _. discriminate Hh.
Qed.

(** ** C9: no bounds or arity check in [handleCtrlMessage] *)

(** C9 (amended). In a well-formed state [handleCtrlMessage] goes wrong on
    exactly the messages that [ctrl_fault] tells, and returns on every other
    one: it reads past the end of a message that ends behind an index of -2
    or from 0 on, or behind the key awaited there; it converts a value that
    no [int] holds; and it indexes [loops_] out of bounds with the index of
    a state message that is not below the size of [loops_], whatever
    [loopCount_] is. Nothing is read past the end of a short message whose
    index is ignored or whose second argument is not the awaited key. *)
Theorem handleCtrlMessage_unchecked (s : App) (message : OSCMessage) :
  wf s ->
  match ctrl_fault s message with
  | Some f => handleCtrlMessage message s = Crash f []
  | None => exists s' out, handleCtrlMessage message s = Done tt s' out
  end.
Proof.
  intros Hwf. destruct message as [|first arg]; [simpl; eauto|].
  destruct first as [loopIndex| | |]; try (simpl; eauto; fail).
  unfold ctrl_fault, awaited_key.
  destruct (Z.eqb_spec loopIndex (-2)) as [->|Hne].
  - destruct arg as [|a value]; [reflexivity|].
    destruct a as [| |key|]; try (simpl; eauto; fail).
    destruct (String.eqb_spec key "selected_loop_num") as [->|Hkey].
    + destruct value as [|v rest]; [reflexivity|].
      destruct v as [|v| |];
        try (unfold handleCtrlMessage; simpl; mrun; eauto; fail).
      destruct (float_to_int v) as [selected|] eqn:Hv.
      * change ((0 <=? -2) && _) with false. cbv iota.
        destruct (handleCtrlMessage_selected v selected rest s Hv) as (out & Hrun & _).
        eauto.
      * apply handleCtrlMessage_selected_undefined. exact Hv.
    + unfold handleCtrlMessage, deref. change (-2 =? -2) with true. mrun.
      apply String.eqb_neq in Hkey. rewrite Hkey. eauto.
  - destruct (Z.ltb_spec loopIndex 0) as [Hneg|Hpos].
    + rewrite handleCtrlMessage_negative_ignored by assumption.
      destruct arg; eauto.
    + destruct arg as [|a value].
      { rewrite handleCtrlMessage_nonnegative by assumption. reflexivity. }
      destruct a as [| |key|];
        try (rewrite handleCtrlMessage_nonnegative by assumption; simpl; mrun; eauto; fail).
      destruct (String.eqb_spec key "state") as [->|Hkey].
      * destruct value as [|v rest].
        { rewrite handleCtrlMessage_nonnegative by assumption. reflexivity. }
        destruct v as [|v| |];
          try (rewrite handleCtrlMessage_nonnegative by assumption; simpl; mrun; eauto; fail).
        destruct (float_to_int v) as [loopState|] eqn:Hv.
        -- replace (0 <=? loopIndex) with true by (symmetry; apply Z.leb_le; lia).
           simpl andb.
           destruct (Z.leb_spec (Z.of_nat (length (loops_ s))) loopIndex) as [Hout|Hin].
           ++ eapply handleCtrlMessage_state_out; eassumption.
           ++ destruct (handleCtrlMessage_state_in loopIndex v loopState rest s Hwf Hv
                          ltac:(lia)) as (s' & out & Hrun & _).
              eauto.
        -- apply handleCtrlMessage_state_undefined; assumption.
      * rewrite handleCtrlMessage_nonnegative by assumption. unfold deref. mrun.
        apply String.eqb_neq in Hkey. rewrite Hkey. mrun. unfold modify. eauto.
Qed.

(** Seven loops: a state message for loop 7 is out of bounds, one that ends
    behind its key or its index is read past the end, one whose value is
    3e9 is not converted, and one for loop 6 is handled. *)
Lemma handleCtrlMessage_unchecked_witness :
  wf seven_loops /\
  handleCtrlMessage [Int32 7; Str "state"; Float32 (4 # 1)] seven_loops
    = Crash (OutOfBounds 7 7) [] /\
  handleCtrlMessage [Int32 6; Str "state"] seven_loops = Crash PastTheEnd [] /\
  handleCtrlMessage [Int32 (-2)] seven_loops = Crash PastTheEnd [] /\
  handleCtrlMessage [Int32 6; Str "state"; Float32 (3000000000 # 1)] seven_loops
    = Crash (NotAnInt (3000000000 # 1)) [] /\
  handleCtrlMessage [Int32 6; Str "state"; Float32 NaN] seven_loops
    = Crash (NotAnInt NaN) [] /\
  exists s' out,
    handleCtrlMessage [Int32 6; Str "state"; Float32 (4 # 1)] seven_loops = Done tt s' out.
Proof.
  assert (wf seven_loops) as Hwf by (apply wf_concrete; reflexivity).
  split; [exact Hwf|].
  split; [exact (handleCtrlMessage_unchecked seven_loops
                   [Int32 7; Str "state"; Float32 (4 # 1)] Hwf)|].
  split; [exact (handleCtrlMessage_unchecked seven_loops [Int32 6; Str "state"] Hwf)|].
  split; [exact (handleCtrlMessage_unchecked seven_loops [Int32 (-2)] Hwf)|].
  split; [exact (handleCtrlMessage_unchecked seven_loops
                   [Int32 6; Str "state"; Float32 (3000000000 # 1)] Hwf)|].
  split; [exact (handleCtrlMessage_unchecked seven_loops
                   [Int32 6; Str "state"; Float32 NaN] Hwf)|].
  exact (handleCtrlMessage_unchecked seven_loops
           [Int32 6; Str "state"; Float32 (4 # 1)] Hwf).
Defined.

(** C9 as stated fails twice. The message [/ctrl 0 5] has two arguments and
    is not read past its end: the second argument is no string, so the third
    is never looked at. And with seven loops in [loops_] and [loopCount_]
    fallen to 1, a state message for loop 2 is inside the array. *)
Lemma handleCtrlMessage_unchecked_counterexample :
  ~ short_is_past_the_end seven_loops [Int32 0; Int32 5] /\
  loopCount_ count_fallen = 1 /\
  length (loops_ count_fallen) = 7%nat /\
  ~ beyond_count_is_out_of_bounds count_fallen 2 (4 # 1).
Proof.
  split; [|split; [reflexivity|split; [reflexivity|]]].
  - intros Hclaim. destruct Hclaim as [out Hrun]; [discriminate | simpl; lia |].
    vm_compute in Hrun. discriminate Hrun.
  - intros Hclaim. destruct Hclaim as (size & out & Hrun); [lia | vm_compute; discriminate |].
    vm_compute in Hrun. discriminate Hrun.
Qed.

(** ** Loops of the handlers *)

Lemma bind_ext {A B} (m : M A) (k k' : A -> M B) (s : App) :
  (forall a s1, k a s1 = k' a s1) -> bind m k s = bind m k' s.
Proof.
  intros H. unfold bind. destruct (m s) as [a s1 o1|]; [|reflexivity].
  rewrite H. reflexivity.
Qed.

Lemma for_each_app {A} (body : A -> M unit) (l1 l2 : list A) (s : App) :
  for_each (l1 ++ l2) body s = (for_each l1 body ;; for_each l2 body) s.
Proof.
  revert s; induction l1 as [|x l1 IH]; intros s; simpl.
  - rewrite bind_ret. reflexivity.
  - rewrite bind_bind. apply bind_ext. intros _ s1. apply IH.
Qed.

(** A loop invariant [I done s out] over the elements already visited, the
    state and the output so far. *)
Lemma for_each_invariant {A} (body : A -> M unit)
    (I : list A -> App -> list Event -> Prop) (l : list A) :
  (forall d x r s o,
     l = d ++ x :: r -> I d s o ->
     exists s' o', body x s = Done tt s' o' /\ I (d ++ [x]) s' (o ++ o')) ->
  forall s, I [] s [] ->
  exists s' o, for_each l body s = Done tt s' o /\ I l s' o.
Proof.
  intros Hstep.
  assert (forall rest d s o,
            l = d ++ rest -> I d s o ->
            exists s' o', for_each rest body s = Done tt s' o' /\ I l s' (o ++ o'))
    as Hgen.
  { induction rest as [|x rest IH]; intros d s o Hl HI.
    - exists s, []. split; [reflexivity|]. rewrite app_nil_r in *. subst l. exact HI.
    - destruct (Hstep d x rest s o Hl HI) as (s1 & o1 & Hx & HI1).
      destruct (IH (d ++ [x]) s1 (o ++ o1)) as (s2 & o2 & Hrest & HI2).
      { rewrite <- app_assoc. exact Hl. }
      { exact HI1. }
      exists s2, (o1 ++ o2). split.
      + simpl. rewrite (bind_Done _ _ _ _ _ _ Hx), Hrest. reflexivity.
      + rewrite app_assoc. exact HI2. }
  intros s HI. destruct (Hgen l [] s [] eq_refl HI) as (s' & o' & H1 & H2).
  exists s', o'. split; assumption.
Qed.

Lemma seq_split (n : nat) (d r : list nat) (x : nat) :
  seq 0 n = d ++ x :: r -> x = length d /\ d = seq 0 (length d) /\ (x < n)%nat.
Proof.
  intros H.
  assert (length d < n)%nat as Hlt.
  { apply (f_equal length) in H. rewrite length_seq, length_app in H. simpl in H. lia. }
  assert (seq 0 n !! length d = Some x) as Hx.
  { rewrite H. apply list_lookup_middle. reflexivity. }
  rewrite lookup_seq_lt in Hx by assumption. injection Hx as <-.
  split; [reflexivity|]. split; [|assumption].
  apply (f_equal (take (length d))) in H.
  rewrite take_app_length, take_seq in H.
  rewrite Nat.min_l in H by lia. symmetry. exact H.
Qed.

Lemma seqZ_split (a m : Z) (d r : list Z) (x : Z) :
  seqZ a m = d ++ x :: r ->
  x = a + Z.of_nat (length d) /\ d = seqZ a (Z.of_nat (length d)) /\
  Z.of_nat (length d) < m.
Proof.
  intros H.
  assert (Z.of_nat (length d) < m) as Hlt.
  { apply (f_equal length) in H. rewrite length_seqZ, length_app in H. simpl in H. lia. }
  assert (seqZ a m !! length d = Some x) as Hx.
  { rewrite H. apply list_lookup_middle. reflexivity. }
  rewrite lookup_seqZ_lt in Hx by assumption. injection Hx as <-.
  split; [reflexivity|]. split; [|assumption].
  apply (f_equal (take (length d))) in H.
  rewrite take_app_length in H. rewrite <- H at 1.
  unfold seqZ. rewrite <- fmap_take, take_seq, Nat2Z.id.
  rewrite Nat.min_l by lia. reflexivity.
Qed.

Lemma alter_same {A} (f : A -> A) (l : list A) (k : nat) (x : A) :
  l !! k = Some x -> f x = x -> alter f k l = l.
Proof.
  intros Hk Hf. transitivity (alter id k l).
  - apply list_alter_ext; [|reflexivity]. intros y Hy.
    rewrite Hk in Hy. injection Hy as <-. exact Hf.
  - apply list_alter_id. reflexivity.
Qed.

(** *** [updateLoops] *)

Lemma length_refresh mode loops : forall leds,
  length (refresh mode loops leds) = length leds.
Proof.
  induction loops as [|loop loops IH]; intros leds; [reflexivity|].
  unfold refresh in *. simpl. rewrite IH. apply length_leds_after.
Qed.

Lemma refresh_snoc mode loops loop leds :
  refresh mode (loops ++ [loop]) leds = refresh_one mode (refresh mode loops leds) loop.
Proof. unfold refresh. rewrite foldl_app. reflexivity. Qed.

Lemma refresh_lines_snoc mode loops loop :
  refresh_lines mode (loops ++ [loop])
    = refresh_lines mode loops ++ lines_after loop mode (Loop.state_ loop).
Proof. unfold refresh_lines. rewrite flat_map_app. simpl. rewrite app_nil_r. reflexivity. Qed.

Lemma updateLoops_run (s : App) :
  wf s ->
  exists out,
    updateLoops s = Done tt (set_leds (refresh (mode_ s) (loops_ s) (leds_ s)) s) out /\
    cc_lines out = refresh_lines (mode_ s) (loops_ s) /\
    Forall is_led_event out.
Proof.
  intros [Hlen Hloops]. unfold updateLoops. rewrite bind_gets.
  set (I := fun (d : list nat) (s' : App) (o : list Event) =>
              s' = set_leds (refresh (mode_ s) (take (length d) (loops_ s)) (leds_ s)) s /\
              cc_lines o = refresh_lines (mode_ s) (take (length d) (loops_ s)) /\
              Forall is_led_event o).
  destruct (for_each_invariant
              (fun k => do loop <- read_loop k; updateLoopLedState k (Loop.state_ loop))
              I (seq 0 (length (loops_ s)))) with (s := s) as (s' & o & Hrun & Hs' & Hcc & Hled).
  - intros d x r s1 o1 Hsplit (Hs1 & Hcc1 & Hled1).
    apply seq_split in Hsplit as (-> & _ & Hx).
    destruct (lookup_lt_is_Some_2 (loops_ s) (length d) Hx) as [loop Hloop].
    assert (wf_loop loop) as Hwfl.
    { rewrite Forall_lookup in Hloops. exact (Hloops _ _ Hloop). }
    assert (loops_ s1 !! length d = Some loop) as Hloop1 by (subst s1; exact Hloop).
    rewrite (bind_Done _ _ _ _ _ _ (read_loop_in _ _ _ Hloop1)), prefix_nil.
    destruct (updateLoopLedState_run (length d) (Loop.state_ loop) s1 loop Hloop1 Hwfl)
      as (o2 & Hrun2 & Hcc2 & Hled2).
    { subst s1. rewrite leds_set_leds, length_refresh. exact Hlen. }
    eexists _, o2. split; [exact Hrun2|]. unfold I.
    rewrite length_app. simpl length. rewrite Nat.add_1_r.
    rewrite (take_S_r _ _ _ Hloop), refresh_snoc, refresh_lines_snoc.
    split; [|split].
    + rewrite (alter_same _ _ _ _ Hloop1) by (destruct loop; reflexivity).
      subst s1. reflexivity.
    + rewrite cc_lines_app, Hcc1, Hcc2. subst s1. reflexivity.
    + apply Forall_app; split; assumption.
  - unfold I. simpl. repeat split. destruct s; reflexivity. constructor.
  - exists o. rewrite length_seq, firstn_all in Hs', Hcc.
    rewrite Hrun, Hs'. repeat split; assumption.
Qed.

(** *** Building the loop collection *)

Lemma add_loop_in (i : Z) (s : App) :
  0 <= i < Z.of_nat (length (leds_ s)) ->
  add_loop i s = Done tt (set_loops (loops_ s ++ [new_loop i]) s) [].
Proof.
  intros H. unfold add_loop. rewrite bind_gets.
  rewrite (bind_Done _ _ _ _ _ _ (getReference_in _ _ _ H)), prefix_nil.
  unfold modify, new_loop. rewrite Z2Nat.id by lia. reflexivity.
Qed.

Lemma add_loop_out (i : Z) (s : App) :
  i < 0 \/ Z.of_nat (length (leds_ s)) <= i ->
  add_loop i s = Crash (OutOfBounds i (length (leds_ s))) [].
Proof.
  intros H. unfold add_loop. rewrite bind_gets.
  rewrite (bind_Crash _ _ _ _ _ (getReference_out _ _ _ H)). reflexivity.
Qed.

Lemma registerAutoUpdates_run (i : Z) (s : App) :
  registerAutoUpdates i false s
    = Done tt s [osc_send oscSender (fst (register_request s i)) (snd (register_request s i))].
Proof. reflexivity. Qed.

Lemma getCurrentState_run (i : Z) (s : App) :
  getCurrentState i s
    = Done tt s [osc_send oscSender (fst (get_request s i)) (snd (get_request s i))].
Proof. reflexivity. Qed.

Lemma registerGlobalUpdates_run (s : App) :
  registerGlobalUpdates false s
    = Done tt s [osc_send oscSender (fst (global_request s)) (snd (global_request s))].
Proof. reflexivity. Qed.

Lemma wf_add_loop (i : Z) (s : App) :
  wf s -> 0 <= i < 10 -> wf (set_loops (loops_ s ++ [new_loop i]) s).
Proof.
  intros [Hlen Hloops] Hi. split; [exact Hlen|].
  simpl. apply Forall_app. split; [exact Hloops|].
  constructor; [|constructor]. split; [exact Hi | reflexivity].
Qed.

(** *** Refreshing loops that are all [Off] *)

Lemma refresh_one_off (mode : Z) (leds : list LED.t) (loop : Loop.t) :
  Loop.state_ loop = Off ->
  refresh_one mode leds loop = alter (repaint off_row) (Z.to_nat (Loop.index_ loop)) leds.
Proof. intros H. unfold refresh_one, leds_after. rewrite H. reflexivity. Qed.

Lemma lines_after_off (mode : Z) (loop : Loop.t) :
  Loop.state_ loop = Off ->
  lines_after loop mode (Loop.state_ loop) = [(107, ledNumber (Loop.index_ loop))].
Proof. intros H. unfold lines_after. rewrite H. reflexivity. Qed.

Lemma repaint_off_dark (leds : list LED.t) (p q : nat) :
  (p < length leds)%nat ->
  (p = q \/ exists led, leds !! q = Some led /\ dark_led led) ->
  exists led, alter (repaint off_row) p leds !! q = Some led /\ dark_led led.
Proof.
  intros Hp Hq. destruct (decide (p = q)) as [<-|Hne].
  - destruct (lookup_lt_is_Some_2 leds p Hp) as [led Hled].
    exists (repaint off_row led). rewrite list_lookup_alter_eq, Hled.
    split; [reflexivity|]. repeat split.
  - destruct Hq as [Heq|(led & Hled & Hdark)]; [contradiction|].
    exists led. rewrite list_lookup_alter_ne by assumption. split; assumption.
Qed.

Lemma refresh_off (mode : Z) (loops : list Loop.t) (leds : list LED.t) :
  Forall (fun l => Loop.state_ l = Off /\ wf_loop l) loops ->
  length leds = 10%nat ->
  (forall loop, loop ∈ loops ->
     exists led, refresh mode loops leds !! Z.to_nat (Loop.index_ loop) = Some led
                 /\ dark_led led) /\
  refresh_lines mode loops = (fun l => (107, ledNumber (Loop.index_ l))) <$> loops.
Proof.
  intros Hall Hlen. induction loops as [|x loops IH] using rev_ind.
  - split; [|reflexivity]. intros loop Hin. inversion Hin.
  - apply Forall_app in Hall as [Hall Hx].
    apply Forall_cons in Hx as [[Hoff [Hi _]] _].
    destruct (IH Hall) as [IHdark IHlines].
    rewrite refresh_snoc, refresh_lines_snoc, IHlines, fmap_app.
    rewrite (lines_after_off _ _ Hoff), (refresh_one_off _ _ _ Hoff).
    split; [|reflexivity].
    intros loop Hin. apply repaint_off_dark.
    + rewrite length_refresh. lia.
    + apply elem_of_app in Hin as [Hin|Hin].
      * right. apply IHdark. exact Hin.
      * left. apply list_elem_of_singleton in Hin. subst loop. reflexivity.
Qed.

Lemma wf_grown (s : App) (leds : list LED.t) (a : Z) (n : nat) :
  wf s -> length leds = 10%nat -> 0 <= a -> a + Z.of_nat n <= 10 ->
  wf (set_leds leds (set_loops (loops_ s ++ (new_loop <$> seqZ a (Z.of_nat n))) s)).
Proof.
  intros [_ Hloops] Hlen Ha Hn. split; [exact Hlen|].
  simpl. apply Forall_app. split; [exact Hloops|].
  apply Forall_fmap, Forall_forall. intros i Hi.
  apply elem_of_seqZ in Hi. split; [simpl; lia | reflexivity].
Qed.

(** The loop of [handlePingAckMessage]: add, register, query. *)
Lemma pingack_loop_run (s : App) (a m : Z) :
  length (leds_ s) = 10%nat -> 0 <= a -> a + m <= 10 ->
  exists out,
    for_each (seqZ a m)
      (fun i => add_loop i ;; registerAutoUpdates i false ;; getCurrentState i) s
      = Done tt (set_loops (loops_ s ++ (new_loop <$> seqZ a m)) s) out /\
    looper_requests out
      = flat_map (fun i => [register_request s i; get_request s i]) (seqZ a m) /\
    cc_lines out = [].
Proof.
  intros Hlen Ha Hm.
  set (I := fun (d : list Z) (s' : App) (o : list Event) =>
              s' = set_loops (loops_ s ++ (new_loop <$> d)) s /\
              looper_requests o
                = flat_map (fun i => [register_request s i; get_request s i]) d /\
              cc_lines o = []).
  destruct (for_each_invariant
              (fun i => add_loop i ;; registerAutoUpdates i false ;; getCurrentState i)
              I (seqZ a m)) with (s := s) as (s' & o & Hrun & Hs' & Hreq & Hcc).
  - intros d x r s1 o1 Hsplit (Hs1 & Hreq1 & Hcc1).
    apply seqZ_split in Hsplit as (Hx & _ & Hd).
    assert (0 <= x < Z.of_nat (length (leds_ s1))) as Hin.
    { subst s1. simpl. rewrite Hlen. lia. }
    rewrite (bind_Done _ _ _ _ _ _ (add_loop_in _ _ Hin)), prefix_nil.
    rewrite (bind_Done _ _ _ _ _ _ (registerAutoUpdates_run _ _)).
    rewrite getCurrentState_run. simpl prefix.
    eexists _, _. split; [reflexivity|]. unfold I. split; [|split].
    + subst s1. simpl. rewrite fmap_app, app_assoc. reflexivity.
    + rewrite looper_requests_app, Hreq1, flat_map_app. subst s1. reflexivity.
    + rewrite cc_lines_app, Hcc1. reflexivity.
  - unfold I. simpl. rewrite app_nil_r. repeat split. destruct s; reflexivity.
  - exists o. rewrite Hrun, Hs'. repeat split; assumption.
Qed.

Section Grow.

(** The loops of [handleHeartbeatMessage]: a body that sends requests, adds
    the loop [i] and ends with [updateLoops]. *)
Variable body : Z -> M unit.
Variable requests : App -> Z -> list (string * list OSCArgument).

Hypothesis body_runs : forall (s : App) (i : Z),
  0 <= i < Z.of_nat (length (leds_ s)) ->
  exists out,
    body i s = prefix out (updateLoops (set_loops (loops_ s ++ [new_loop i]) s)) /\
    looper_requests out = requests s i /\ cc_lines out = [].

Hypothesis requests_frame : forall (s : App) (leds : list LED.t) (loops : list Loop.t) i,
  requests (set_leds leds (set_loops loops s)) i = requests s i.

Lemma grow_run (s : App) (a m : Z) :
  wf s -> 0 <= a -> a + m <= 10 ->
  exists leds out,
    for_each (seqZ a m) body s
      = Done tt (set_leds leds (set_loops (loops_ s ++ (new_loop <$> seqZ a m)) s)) out /\
    length leds = 10%nat /\
    looper_requests out = flat_map (requests s) (seqZ a m) /\
    (0 < m -> refreshed s (loops_ s ++ (new_loop <$> seqZ a m)) leds out).
Proof.
  intros Hwf Ha Hm.
  set (I := fun (d : list Z) (s' : App) (o : list Event) =>
              exists leds,
                s' = set_leds leds (set_loops (loops_ s ++ (new_loop <$> d)) s) /\
                length leds = 10%nat /\
                looper_requests o = flat_map (requests s) d /\
                (d <> [] -> refreshed s (loops_ s ++ (new_loop <$> d)) leds o)).
  destruct (for_each_invariant body I (seqZ a m)) with (s := s)
    as (s' & o & Hrun & leds & Hs' & Hlen' & Hreq & Href).
  - intros d x r s1 o1 Hsplit (leds1 & Hs1 & Hlen1 & Hreq1 & _).
    apply seqZ_split in Hsplit as (Hx & Hd & Hlt).
    assert (wf s1) as Hwf1.
    { rewrite Hs1, Hd. apply wf_grown; try assumption. lia. }
    destruct (body_runs s1 x) as (o2 & Hbody & Hreq2 & Hcc2).
    { subst s1. rewrite leds_set_leds, Hlen1. lia. }
    destruct (updateLoops_run (set_loops (loops_ s1 ++ [new_loop x]) s1))
      as (o3 & Hupd & Hcc3 & _).
    { apply wf_add_loop; [exact Hwf1 | lia]. }
    rewrite Hupd in Hbody. simpl prefix in Hbody.
    eexists _, _. split; [exact Hbody|].
    exists (refresh (mode_ s) (loops_ s ++ (new_loop <$> (d ++ [x]))) leds1).
    split; [|split; [|split]].
    + subst s1. simpl. rewrite fmap_app, app_assoc. reflexivity.
    + rewrite length_refresh. exact Hlen1.
    + rewrite !looper_requests_app, Hreq1, Hreq2, flat_map_app.
      destruct (led_events_only o3) as [-> _].
      { destruct (updateLoops_run (set_loops (loops_ s1 ++ [new_loop x]) s1))
          as (o3' & Hupd' & _ & Hled3); [apply wf_add_loop; [exact Hwf1 | lia]|].
        rewrite Hupd in Hupd'. injection Hupd' as <-. exact Hled3. }
      subst s1. rewrite requests_frame. simpl. rewrite !app_nil_r. reflexivity.
    + intros _. exists leds1, (cc_lines o1). split; [exact Hlen1|]. split; [reflexivity|].
      rewrite !cc_lines_app, Hcc2, Hcc3. subst s1. simpl.
      rewrite fmap_app, app_assoc. reflexivity.
  - exists (leds_ s). destruct Hwf as [Hlen _]. simpl. rewrite app_nil_r.
    split; [destruct s; reflexivity|]. split; [exact Hlen|]. split; [reflexivity|].
    intros H; contradiction.
  - exists leds, o. rewrite Hrun, Hs'. split; [reflexivity|]. split; [exact Hlen'|].
    split; [exact Hreq|]. intros Hpos. apply Href.
    rewrite seqZ_cons by assumption. discriminate.
Qed.

End Grow.

(** *** Programs that leave [loops_] alone *)

Lemma keeps_ret {A} (a : A) : keeps_loops (ret a).
Proof. intros s a' s' o [= _ <- _]. reflexivity. Qed.

Lemma keeps_gets {A} (f : App -> A) : keeps_loops (gets f).
Proof. intros s a' s' o [= _ <- _]. reflexivity. Qed.

Lemma keeps_emit (e : Event) : keeps_loops (emit e).
Proof. intros s a' s' o [= _ <- _]. reflexivity. Qed.

Lemma keeps_fault {A} (f : Fault) : keeps_loops (@fault A f).
Proof. intros s a' s' o [=]. Qed.

Lemma keeps_set_leds (v : list LED.t) : keeps_loops (modify (set_leds v)).
Proof. intros s a' s' o [= _ <- _]. reflexivity. Qed.

Lemma keeps_bind {A B} (m : M A) (k : A -> M B) :
  keeps_loops m -> (forall a, keeps_loops (k a)) -> keeps_loops (bind m k).
Proof.
  intros Hm Hk s b s' o H.
  apply bind_inv in H as (a & s1 & o1 & o2 & H1 & H2 & _).
  rewrite (Hk a _ _ _ _ H2). exact (Hm _ _ _ _ H1).
Qed.

Lemma keeps_when (b : bool) (m : M unit) : keeps_loops m -> keeps_loops (when b m).
Proof. intros H. destruct b; [exact H | apply keeps_ret]. Qed.

Lemma keeps_getReference {A} (arr : list A) (i : Z) : keeps_loops (getReference arr i).
Proof.
  unfold getReference.
  destruct ((0 <=? i) && (i <? Z.of_nat (length arr))); [apply keeps_ret | apply keeps_fault].
Qed.

Lemma keeps_write_led (ref : Z) (f : LED.t -> LED.t) : keeps_loops (write_led ref f).
Proof.
  unfold write_led. apply keeps_bind; [apply keeps_gets|]. intros leds.
  apply keeps_bind; [apply keeps_getReference|]. intros i. apply keeps_set_leds.
Qed.

Lemma keeps_read_led (ref : Z) : keeps_loops (read_led ref).
Proof.
  unfold read_led. apply keeps_bind; [apply keeps_gets|]. intros leds.
  apply keeps_bind; [apply keeps_getReference|]. intros i.
  destruct (leds !! i); [apply keeps_ret | apply keeps_fault].
Qed.

Lemma keeps_led_switch (cc : Z) (on : bool) (i : Z) : keeps_loops (led_switch cc on i).
Proof.
  unfold led_switch.
  apply keeps_bind; [apply keeps_emit|]. intros _.
  apply keeps_bind; [apply keeps_write_led|]. intros _.
  apply keeps_bind; [apply keeps_read_led|]. intros led.
  apply keeps_bind; [apply keeps_gets|]. intros b.
  apply keeps_when, keeps_emit.
Qed.

Ltac keeps :=
  repeat first
    [ apply keeps_write_led
    | apply keeps_led_switch
    | apply keeps_ret
    | apply keeps_gets
    | apply keeps_bind; [|intro] ].

Lemma keeps_switch_newState (loop : Loop.t) (newState : LoopStates) :
  keeps_loops (switch_newState loop newState).
Proof.
  switch_cases newState; unfold switch_newState, ledOn, ledOff; keeps.
  match goal with |- keeps_loops (if ?c then _ else _) => destruct c end; keeps.
Qed.

Lemma keeps_switch_oldState (loop : Loop.t) : keeps_loops (switch_oldState loop).
Proof.
  unfold switch_oldState. destruct loop as [i st l]; simpl.
  switch_cases st; unfold ledOff; keeps.
Qed.

Lemma updateLoopLedState_loops (k : nat) (newState : LoopStates) (s s' : App)
    (o : list Event) :
  updateLoopLedState k newState s = Done tt s' o ->
  loops_ s' = alter (Loop.set_state newState) k (loops_ s).
Proof.
  unfold updateLoopLedState. intros H.
  apply bind_inv in H as (loop & s1 & o1 & o2 & H1 & H & _).
  assert (s1 = s) as ->.
  { unfold read_loop in H1. rewrite bind_gets in H1.
    destruct (loops_ s !! k); [|discriminate H1]. injection H1 as _ <- _. reflexivity. }
  apply bind_inv in H as ([] & s2 & o3 & o4 & H2 & H & _).
  apply bind_inv in H as ([] & s3 & o5 & o6 & H3 & H & _).
  injection H as <- _. simpl.
  rewrite (keeps_when _ _ (keeps_switch_oldState loop) _ _ _ _ H3).
  rewrite (keeps_switch_newState _ _ _ _ _ _ H2). reflexivity.
Qed.

Lemma keeps_for_each {A} (body : A -> M unit) (l : list A) :
  (forall x, keeps_loops (body x)) -> keeps_loops (for_each l body).
Proof.
  intros H. induction l as [|x l IH]; simpl; [apply keeps_ret|].
  apply keeps_bind; [apply H | intros _; exact IH].
Qed.

Lemma keeps_updateLoops : keeps_loops updateLoops.
Proof.
  unfold updateLoops. apply keeps_bind; [apply keeps_gets|]. intros loops.
  apply keeps_for_each. intros k s a s' o H.
  apply bind_inv in H as (loop & s1 & o1 & o2 & H1 & H & _).
  unfold read_loop in H1. rewrite bind_gets in H1.
  destruct (loops_ s !! k) as [loop'|] eqn:Hk; [|discriminate H1].
  injection H1 as <- <- _. destruct a.
  rewrite (updateLoopLedState_loops _ _ _ _ _ H).
  apply (alter_same _ _ _ _ Hk). destruct loop'; reflexivity.
Qed.

(** What a returning loop of [handleHeartbeatMessage] has added. *)
Lemma add_loop_loops (i : Z) (s s' : App) (o : list Event) :
  add_loop i s = Done tt s' o -> loops_ s' = loops_ s ++ [new_loop i].
Proof.
  unfold add_loop. rewrite bind_gets. unfold getReference.
  destruct (Z.leb_spec 0 i); simpl andb; [|discriminate].
  destruct (i <? Z.of_nat (length (leds_ s))); [|discriminate].
  rewrite bind_ret. intros [= <- _]. simpl. unfold new_loop.
  rewrite Z2Nat.id by assumption. reflexivity.
Qed.

Lemma for_each_added (body : Z -> M unit) (l : list Z) :
  (forall i s s' o, body i s = Done tt s' o -> loops_ s' = loops_ s ++ [new_loop i]) ->
  forall s s' o,
    for_each l body s = Done tt s' o -> loops_ s' = loops_ s ++ (new_loop <$> l).
Proof.
  intros Hbody. induction l as [|i l IH]; intros s s' o H; simpl in H.
  - injection H as <- _. rewrite app_nil_r. reflexivity.
  - apply bind_inv in H as ([] & s1 & o1 & o2 & H1 & H2 & _).
    rewrite (IH _ _ _ H2), (Hbody _ _ _ _ H1), <- app_assoc. reflexivity.
Qed.

(** *** [handleHeartbeatMessage] on a message of the expected shape *)

Lemma handleHeartbeatMessage_shape (hostUrl version : string) (numloops uid : Z)
    (s : App) :
  handleHeartbeatMessage [Str hostUrl; Str version; Int32 numloops; Int32 uid] s =
    ((if negb (uid =? engineId_ s) then
        when (0 <? numloops)
          (modify (set_loopCount numloops) ;;
           modify (set_loops []) ;;
           for_each (seqZ 0 numloops) rebuild_body ;;
           registerGlobalUpdates false)
      else
        do loopCount <- gets loopCount_;
        when (negb (loopCount =? numloops))
          (for_each (seqZ loopCount (numloops - loopCount)) extend_body ;;
           modify (set_loopCount numloops))) ;;
     modify (set_heartbeat 5)) (identified hostUrl version s).
Proof.
  unfold handleHeartbeatMessage. rewrite bind_gets.
  cbn [heartbeat_arguments]. mrun. reflexivity.
Qed.

Lemma rebuild_body_runs (s : App) (i : Z) :
  0 <= i < Z.of_nat (length (leds_ s)) ->
  exists out,
    rebuild_body i s = prefix out (updateLoops (set_loops (loops_ s ++ [new_loop i]) s)) /\
    looper_requests out = [register_request s i; get_request s i] /\ cc_lines out = [].
Proof.
  intros Hin. unfold rebuild_body.
  rewrite (bind_Done _ _ _ _ _ _ (add_loop_in _ _ Hin)), prefix_nil.
  rewrite (bind_Done _ _ _ _ _ _ (registerAutoUpdates_run _ _)).
  rewrite (bind_Done _ _ _ _ _ _ (getCurrentState_run _ _)).
  rewrite prefix_prefix. eexists. split; [reflexivity|]. split; reflexivity.
Qed.

Lemma extend_body_runs (s : App) (i : Z) :
  0 <= i < Z.of_nat (length (leds_ s)) ->
  exists out,
    extend_body i s = prefix out (updateLoops (set_loops (loops_ s ++ [new_loop i]) s)) /\
    looper_requests out = [register_request s i] /\ cc_lines out = [].
Proof.
  intros Hin. unfold extend_body.
  rewrite (bind_Done _ _ _ _ _ _ (registerAutoUpdates_run _ _)).
  rewrite (bind_Done _ _ _ _ _ _ (add_loop_in _ _ Hin)), prefix_nil.
  eexists. split; [reflexivity|]. split; reflexivity.
Qed.

Lemma extend_body_loops (i : Z) (s s' : App) (o : list Event) :
  extend_body i s = Done tt s' o -> loops_ s' = loops_ s ++ [new_loop i].
Proof.
  unfold extend_body. intros H.
  apply bind_inv in H as ([] & s1 & o1 & o2 & H1 & H & _).
  injection H1 as <- _.
  apply bind_inv in H as ([] & s2 & o3 & o4 & H2 & H3 & _).
  rewrite (keeps_updateLoops _ _ _ _ H3). apply (add_loop_loops _ _ _ _ H2).
Qed.

(** The loops of a freshly built collection are [Off] and well formed. *)
Lemma new_loops_off (a m : Z) :
  0 <= a -> a + m <= 10 ->
  Forall (fun l => Loop.state_ l = Off /\ wf_loop l) (new_loop <$> seqZ a m).
Proof.
  intros Ha Hm. apply Forall_fmap, Forall_forall. intros i Hi.
  apply elem_of_seqZ in Hi. split; [reflexivity|]. split; [simpl; lia | reflexivity].
Qed.

(** ** Heartbeats of another engine and of the engine known *)

Lemma handleHeartbeatMessage_new_engine (s : App) (hostUrl version : string)
    (numloops uid : Z) :
  length (leds_ s) = 10%nat -> uid <> engineId_ s -> 0 < numloops <= 10 ->
  exists s' out,
    handleHeartbeatMessage [Str hostUrl; Str version; Int32 numloops; Int32 uid] s
      = Done tt s' out /\
    rebuilt s numloops s' out.
Proof.
  intros Hlen Huid Hn. rewrite handleHeartbeatMessage_shape.
  replace (uid =? engineId_ s) with false by (symmetry; apply Z.eqb_neq; assumption).
  replace (0 <? numloops) with true by (symmetry; apply Z.ltb_lt; lia).
  change (negb false) with true. mrun.
  set (s0 := set_loops [] (set_loopCount numloops (identified hostUrl version s))).
  destruct (grow_run rebuild_body (fun s i => [register_request s i; get_request s i])
              rebuild_body_runs ltac:(reflexivity) s0 0 numloops)
    as (leds & out & Hrun & Hlen' & Hreq & Href).
  { split; [exact Hlen | constructor]. }
  { lia. } { lia. }
  rewrite (bind_Done _ _ _ _ _ _ Hrun).
  rewrite (bind_Done _ _ _ _ _ _ (registerGlobalUpdates_run _)).
  unfold modify. simpl prefix.
  eexists _, _. split; [reflexivity|].
  destruct (Href ltac:(lia)) as (leds' & lines' & Hlen'' & Hleds & Hlines).
  simpl in Hleds, Hlines.
  destruct (refresh_off (mode_ s) (new_loop <$> seqZ 0 numloops) leds'
              (new_loops_off 0 numloops ltac:(lia) ltac:(lia)) Hlen'') as [Hdark Hcc].
  split; [reflexivity|]. split; [reflexivity|]. split; [|split].
  - rewrite looper_requests_app, Hreq. reflexivity.
  - intros i Hi. simpl. rewrite Hleds.
    apply (Hdark (new_loop i)). apply list_elem_of_fmap. exists i. split; [reflexivity|].
    apply elem_of_seqZ. lia.
  - exists lines'. rewrite cc_lines_app, Hlines, Hcc, <- list_fmap_compose.
    simpl. rewrite app_nil_r. reflexivity.
Qed.

Lemma handleHeartbeatMessage_same_engine (s s' : App) (hostUrl version : string)
    (numloops : Z) (out : list Event) :
  handleHeartbeatMessage [Str hostUrl; Str version; Int32 numloops; Int32 (engineId_ s)] s
    = Done tt s' out ->
  loops_ s' = loops_ s ++ (new_loop <$> seqZ (loopCount_ s) (numloops - loopCount_ s)).
Proof.
  rewrite handleHeartbeatMessage_shape, Z.eqb_refl. simpl negb. cbv iota.
  intros H. apply bind_inv in H as ([] & s1 & o1 & o2 & H & Hlast & _).
  injection Hlast as <- _. simpl.
  rewrite bind_gets in H. simpl in H.
  destruct (Z.eqb_spec (loopCount_ s) numloops) as [->|Hne]; simpl in H.
  - injection H as <- _. rewrite Z.sub_diag. simpl. rewrite app_nil_r. reflexivity.
  - apply bind_inv in H as ([] & s2 & o3 & o4 & H & Hcount & _).
    injection Hcount as <- _. simpl.
    apply (for_each_added extend_body _ extend_body_loops) in H. exact H.
Qed.

(** ** C6: a heartbeat of the same engine with more loops *)

(** C6 (what the code does). In a well-formed state, a heartbeat of the
    known engine that reports more loops (at most 10) adds exactly the new
    indices behind the loops that were there, which keep their indices and
    states, and sends one [register_auto_update] request per new loop and
    nothing else to the looper: no new loop is queried with [/sl/i/get],
    unlike in the two places that build the whole collection. *)
Theorem heartbeat_more_loops (s : App) (hostUrl version : string) (numloops : Z) :
  wf s -> 0 <= loopCount_ s < numloops -> numloops <= 10 ->
  exists s' out,
    handleHeartbeatMessage
      [Str hostUrl; Str version; Int32 numloops; Int32 (engineId_ s)] s = Done tt s' out /\
    loops_ s' = loops_ s ++ (new_loop <$> seqZ (loopCount_ s) (numloops - loopCount_ s)) /\
    loopCount_ s' = numloops /\
    looper_requests out
      = register_request s <$> seqZ (loopCount_ s) (numloops - loopCount_ s) /\
    forall i, get_request s i ∉ looper_requests out.
Proof.
  intros Hwf Hcount Hn. rewrite handleHeartbeatMessage_shape, Z.eqb_refl.
  change (negb true) with false. mrun.
  change (loopCount_ (identified hostUrl version s)) with (loopCount_ s).
  replace (loopCount_ s =? numloops) with false by (symmetry; apply Z.eqb_neq; lia).
  change (negb false) with true. mrun.
  destruct (grow_run extend_body (fun s i => [register_request s i])
              extend_body_runs ltac:(reflexivity) (identified hostUrl version s)
              (loopCount_ s) (numloops - loopCount_ s))
    as (leds & out & Hrun & Hlen' & Hreq & _).
  { exact Hwf. } { lia. } { lia. }
  rewrite (bind_Done _ _ _ _ _ _ Hrun). mrun. unfold modify. simpl prefix.
  eexists _, _. split; [reflexivity|].
  assert (looper_requests (out ++ [])
          = register_request s <$> seqZ (loopCount_ s) (numloops - loopCount_ s)) as Hout.
  { rewrite app_nil_r, Hreq. clear.
    induction (seqZ (loopCount_ s) (numloops - loopCount_ s)) as [|i l IH];
      [reflexivity|]. simpl. rewrite IH. reflexivity. }
  split; [reflexivity|]. split; [reflexivity|]. split; [exact Hout|].
  intros i Hin. rewrite Hout in Hin.
  apply list_elem_of_fmap in Hin as (j & Heq & _). discriminate Heq.
Qed.

Lemma wf_two_loops : wf two_loops.
Proof. apply wf_concrete; reflexivity. Qed.

Lemma heartbeat_more_loops_witness :
  wf two_loops /\ 0 <= loopCount_ two_loops < 3 /\ 3 <= 10 /\
  exists s' out,
    handleHeartbeatMessage [Str "x"; Str "1.0"; Int32 3; Int32 7] two_loops
      = Done tt s' out /\
    loops_ s' = [new_loop 0; new_loop 1; new_loop 2] /\
    looper_requests out = [register_request two_loops 2].
Proof.
  assert (0 <= loopCount_ two_loops < 3) as H
    by (vm_compute; split; [discriminate | reflexivity]).
  split; [exact wf_two_loops|]. split; [exact H|]. split; [lia|].
  destruct (heartbeat_more_loops two_loops "x" "1.0" 3 wf_two_loops H ltac:(lia))
    as (s' & out & Hrun & Hloops & _ & Hreq & _).
  exists s', out. split; [exact Hrun|]. split; [exact Hloops | exact Hreq].
Defined.

(** The scenario of the specification: loop 2 is added and registered, and
    it is not queried. *)
Lemma heartbeat_more_loops_failing_input :
  looper_requests
    (output (handleHeartbeatMessage [Str "x"; Str "1.0"; Int32 3; Int32 7] two_loops))
    = [("/sl/2/register_auto_update",
        [Str "state"; Int32 100; Str "osc.udp://localhost:9000/"; Str "/ctrl"])] /\
  ~ extends_registers_and_queries two_loops "x" "1.0" 3.
Proof.
  split; [reflexivity|].
  intros (s' & out & Hrun & _ & Hall).
  destruct (Hall 2) as [_ Hget]; [vm_compute; split; [discriminate | reflexivity]|].
  vm_compute in Hrun. injection Hrun as _ <-.
  vm_compute in Hget. apply list_elem_of_singleton in Hget. discriminate Hget.
Qed.

(** ** C10: more loops than LEDs *)

Lemma handlePingAckMessage_shape (hostUrl version : string) (loopCount engineId : Z)
    (s : App) :
  handlePingAckMessage [Str hostUrl; Str version; Int32 loopCount; Int32 engineId] s =
    (when (0 <? loopCount)
       (modify (set_loops []) ;;
        for_each (seqZ 0 loopCount) pingack_body ;;
        registerGlobalUpdates false) ;;
     modify (set_heartbeat 5))
      (set_engineId engineId (set_loopCount loopCount (identified hostUrl version s))).
Proof.
  unfold handlePingAckMessage. cbn [pingack_arguments]. mrun. reflexivity.
Qed.

(** A range that passes index 10, cut there. *)
Lemma seqZ_past_ten (a m : Z) :
  0 <= a <= 10 -> 10 < a + m ->
  seqZ a m = seqZ a (10 - a) ++ 10 :: seqZ 11 (a + m - 11).
Proof.
  intros Ha Hm. replace m with ((10 - a) + (a + m - 10)) at 1 by lia.
  rewrite seqZ_app by lia. f_equal.
  replace (a + (10 - a)) with 10 by lia.
  rewrite seqZ_cons by lia. f_equal. f_equal; lia.
Qed.

(** A loop that runs up to index 9 and whose body faults at index 10. *)
Lemma for_each_faults_at_ten (body : Z -> M unit) (a m : Z) (s s1 : App)
    (o1 : list Event) (f : Fault) :
  0 <= a <= 10 -> 10 < a + m ->
  for_each (seqZ a (10 - a)) body s = Done tt s1 o1 ->
  (exists o2, body 10 s1 = Crash f o2) ->
  exists out, for_each (seqZ a m) body s = Crash f out.
Proof.
  intros Ha Hm Hrun [o2 Hcrash].
  rewrite seqZ_past_ten, for_each_app by assumption.
  rewrite (bind_Done _ _ _ _ _ _ Hrun). simpl for_each.
  rewrite (bind_Crash _ _ _ _ _ Hcrash). eexists. reflexivity.
Qed.

Lemma add_loop_ten (s : App) :
  length (leds_ s) = 10%nat -> add_loop 10 s = Crash (OutOfBounds 10 10) [].
Proof.
  intros Hlen. rewrite add_loop_out by (rewrite Hlen; lia). rewrite Hlen. reflexivity.
Qed.

Lemma handlePingAckMessage_overflow (s : App) (hostUrl version : string)
    (loopCount engineId : Z) :
  length (leds_ s) = 10%nat -> 10 < loopCount ->
  exists out,
    handlePingAckMessage [Str hostUrl; Str version; Int32 loopCount; Int32 engineId] s
      = Crash (OutOfBounds 10 10) out.
Proof.
  intros Hlen Hn. rewrite handlePingAckMessage_shape.
  replace (0 <? loopCount) with true by (symmetry; apply Z.ltb_lt; lia). mrun.
  set (s0 := set_loops [] _).
  destruct (pingack_loop_run s0 0 10) as (o1 & Hrun & _); [exact Hlen | lia | lia |].
  destruct (for_each_faults_at_ten pingack_body 0 loopCount s0 _ o1 (OutOfBounds 10 10)
              ltac:(lia) ltac:(lia) Hrun) as [out Hcrash].
  { unfold pingack_body. eexists. apply bind_Crash.
    apply add_loop_ten. exact Hlen. }
  rewrite (bind_Crash _ _ _ _ _ Hcrash). eexists. reflexivity.
Qed.

Lemma handlePingAckMessage_within (s : App) (hostUrl version : string)
    (loopCount engineId : Z) :
  length (leds_ s) = 10%nat -> loopCount <= 10 ->
  exists s' out,
    handlePingAckMessage [Str hostUrl; Str version; Int32 loopCount; Int32 engineId] s
      = Done tt s' out /\
    (0 < loopCount -> loops_ s' = new_loop <$> seqZ 0 loopCount).
Proof.
  intros Hlen Hn. rewrite handlePingAckMessage_shape.
  destruct (Z.ltb_spec 0 loopCount) as [Hpos|Hneg]; mrun.
  - set (s0 := set_loops [] _).
    destruct (pingack_loop_run s0 0 loopCount) as (o1 & Hrun & _);
      [exact Hlen | lia | lia |].
    rewrite (bind_Done _ _ _ _ _ _ Hrun).
    rewrite (bind_Done _ _ _ _ _ _ (registerGlobalUpdates_run _)).
    unfold modify. simpl prefix. eexists _, _. split; [reflexivity|].
    intros _. reflexivity.
  - eexists _, _. split; [reflexivity|]. intros H; lia.
Qed.

Lemma handleHeartbeatMessage_overflow_new (s : App) (hostUrl version : string)
    (numloops uid : Z) :
  length (leds_ s) = 10%nat -> uid <> engineId_ s -> 10 < numloops ->
  exists out,
    handleHeartbeatMessage [Str hostUrl; Str version; Int32 numloops; Int32 uid] s
      = Crash (OutOfBounds 10 10) out.
Proof.
  intros Hlen Huid Hn. rewrite handleHeartbeatMessage_shape.
  replace (uid =? engineId_ s) with false by (symmetry; apply Z.eqb_neq; assumption).
  replace (0 <? numloops) with true by (symmetry; apply Z.ltb_lt; lia).
  change (negb false) with true. mrun.
  set (s0 := set_loops [] _).
  destruct (grow_run rebuild_body (fun s i => [register_request s i; get_request s i])
              rebuild_body_runs ltac:(reflexivity) s0 0 10)
    as (leds & o1 & Hrun & Hlen' & _).
  { split; [exact Hlen | constructor]. } { lia. } { lia. }
  destruct (for_each_faults_at_ten rebuild_body 0 numloops s0 _ o1 (OutOfBounds 10 10)
              ltac:(lia) ltac:(lia) Hrun) as [out Hcrash].
  { unfold rebuild_body. eexists. apply bind_Crash.
    apply add_loop_ten. exact Hlen'. }
  rewrite (bind_Crash _ _ _ _ _ Hcrash). eexists. reflexivity.
Qed.

Lemma handleHeartbeatMessage_overflow_same (s : App) (hostUrl version : string)
    (numloops : Z) :
  wf s -> 0 <= loopCount_ s <= 10 -> 10 < numloops ->
  exists out,
    handleHeartbeatMessage
      [Str hostUrl; Str version; Int32 numloops; Int32 (engineId_ s)] s
      = Crash (OutOfBounds 10 10) out.
Proof.
  intros Hwf Hcount Hn. rewrite handleHeartbeatMessage_shape, Z.eqb_refl.
  change (negb true) with false. mrun.
  change (loopCount_ (identified hostUrl version s)) with (loopCount_ s).
  replace (loopCount_ s =? numloops) with false by (symmetry; apply Z.eqb_neq; lia).
  change (negb false) with true. mrun.
  destruct (grow_run extend_body (fun s i => [register_request s i])
              extend_body_runs ltac:(reflexivity) (identified hostUrl version s)
              (loopCount_ s) (10 - loopCount_ s))
    as (leds & o1 & Hrun & Hlen' & _).
  { exact Hwf. } { lia. } { lia. }
  destruct (for_each_faults_at_ten extend_body (loopCount_ s) (numloops - loopCount_ s)
              (identified hostUrl version s) _ o1 (OutOfBounds 10 10)
              ltac:(lia) ltac:(lia) Hrun) as [out Hcrash].
  { unfold extend_body. eexists.
    rewrite (bind_Done _ _ _ _ _ _ (registerAutoUpdates_run _ _)).
    rewrite (bind_Crash _ _ _ _ _ (add_loop_ten (set_leds leds _) Hlen')). reflexivity. }
  rewrite (bind_Crash _ _ _ _ _ Hcrash). eexists. reflexivity.
Qed.

(** C10. Building or extending the loop collection takes the LED of every
    new loop out of the pool of ten by index, unchecked: a [/pingack] or a
    [/heartbeat] (of another engine, or of the known one) that reports more
    than ten loops indexes [leds_] at 10, outside its bounds, so each of the
    three returns normally only if the reported count is at most 10; and
    with a count of at most 10 the handshake does return. *)
Theorem loop_count_unchecked (s : App) (hostUrl version : string)
    (loopCount engineId : Z) :
  wf s -> 0 <= loopCount_ s <= 10 ->
  let message := [Str hostUrl; Str version; Int32 loopCount; Int32 engineId] in
  (10 < loopCount ->
   (exists out, handlePingAckMessage message s = Crash (OutOfBounds 10 10) out) /\
   (exists out, handleHeartbeatMessage message s = Crash (OutOfBounds 10 10) out)) /\
  (forall s' out, handlePingAckMessage message s = Done tt s' out -> loopCount <= 10) /\
  (forall s' out, handleHeartbeatMessage message s = Done tt s' out -> loopCount <= 10) /\
  (loopCount <= 10 -> exists s' out, handlePingAckMessage message s = Done tt s' out).
Proof.
  intros Hwf Hcount message.
  assert (10 < loopCount ->
          (exists out, handlePingAckMessage message s = Crash (OutOfBounds 10 10) out) /\
          (exists out, handleHeartbeatMessage message s = Crash (OutOfBounds 10 10) out))
    as Hover.
  { intros Hn. split.
    - apply handlePingAckMessage_overflow; [apply Hwf | exact Hn].
    - destruct (Z.eq_dec engineId (engineId_ s)) as [Heq|Hne].
      + unfold message. rewrite Heq.
        apply handleHeartbeatMessage_overflow_same; assumption.
      + apply handleHeartbeatMessage_overflow_new; [apply Hwf | exact Hne | exact Hn]. }
  split; [exact Hover|]. split; [|split].
  - intros s' out Hrun. destruct (Z.le_gt_cases loopCount 10) as [Hle|Hgt]; [exact Hle|].
    destruct (Hover ltac:(lia)) as [[o Hcrash] _]. rewrite Hcrash in Hrun. discriminate Hrun.
  - intros s' out Hrun. destruct (Z.le_gt_cases loopCount 10) as [Hle|Hgt]; [exact Hle|].
    destruct (Hover ltac:(lia)) as [_ [o Hcrash]]. rewrite Hcrash in Hrun. discriminate Hrun.
  - intros Hle.
    destruct (handlePingAckMessage_within s hostUrl version loopCount engineId
                (proj1 Hwf) Hle) as (s' & out & Hrun & _).
    exists s', out. exact Hrun.
Qed.

(** The handshake of an engine with eleven loops. *)
Lemma loop_count_unchecked_witness :
  wf established /\ 0 <= loopCount_ established <= 10 /\
  exists out,
    handlePingAckMessage [Str "osc.udp://localhost:9951/"; Str "1.4.0"; Int32 11; Int32 1]
      established = Crash (OutOfBounds 10 10) out.
Proof.
  assert (wf established) as Hwf by (apply wf_concrete; reflexivity).
  assert (0 <= loopCount_ established <= 10) as Hcount
    by (vm_compute; split; discriminate).
  split; [exact Hwf|]. split; [exact Hcount|].
  destruct (loop_count_unchecked established "osc.udp://localhost:9951/" "1.4.0" 11 1
              Hwf Hcount) as [Hover _].
  exact (proj1 (Hover ltac:(lia))).
Defined.

(** ** C4: loop pedals and the mode *)

Lemma loop_pedal_down (s : App) (channel index : Z) :
  virtMidiOut_ s = true -> 0 <= index <= 3 ->
  handleIncomingMidiMessage (pedal_down channel index) s
    = Done tt s [midi_send (noteOn (channel_ s) (baseNote_ s + mode_ s + index) 127);
                 cerr (LogMidi (pedal_down channel index))].
Proof.
  intros Hout Hi. unfold handleIncomingMidiMessage, pedal_down, sendMidiMessage.
  assert (pedalIndex (index + 1) = index) as ->.
  { assert (index = 0 \/ index = 1 \/ index = 2 \/ index = 3) as [->|[->|[->| ->]]] by lia;
      reflexivity. }
  replace (0 <=? index) with true by (symmetry; apply Z.leb_le; lia).
  replace (index <=? 3) with true by (symmetry; apply Z.leb_le; lia).
  change (true && true) with true. mrun. rewrite Hout. reflexivity.
Qed.

Lemma loop_pedal_up (s : App) (channel index : Z) :
  virtMidiOut_ s = true -> 0 <= index <= 3 ->
  handleIncomingMidiMessage (pedal_up channel index) s
    = Done tt s [midi_send (noteOff (channel_ s) (baseNote_ s + mode_ s + index) 0);
                 cerr (LogMidi (pedal_up channel index))].
Proof.
  intros Hout Hi. unfold handleIncomingMidiMessage, pedal_up, sendMidiMessage.
  assert (pedalIndex (index + 1) = index) as ->.
  { assert (index = 0 \/ index = 1 \/ index = 2 \/ index = 3) as [->|[->|[->| ->]]] by lia;
      reflexivity. }
  replace (0 <=? index) with true by (symmetry; apply Z.leb_le; lia).
  replace (index <=? 3) with true by (symmetry; apply Z.leb_le; lia).
  change (true && true) with true. mrun. rewrite Hout. reflexivity.
Qed.

(** A press of Record toggles the mode, switches LED 4 and refreshes the
    loops; nothing goes to the MIDI output. *)
Lemma record_pedal_down (s : App) (channel : Z) :
  wf s ->
  exists leds out,
    handleIncomingMidiMessage (record_down channel) s
      = Done tt (set_leds leds (set_mode (toggled (mode_ s)) s)) out /\
    midi_sent out = [].
Proof.
  intros [Hlen Hloops].
  unfold handleIncomingMidiMessage, record_down, pedal_down.
  change (pedalIndex (RECORD + 1)) with 4.
  change ((0 <=? 4) && (4 <=? 3)) with false. change (4 =? RECORD) with true.
  mrun. fold (toggled (mode_ s)).
  set (s1 := set_mode (toggled (mode_ s)) s).
  destruct (lookup_lt_is_Some_2 (leds_ s1) (Z.to_nat 4)) as [led Hled].
  { simpl. rewrite Hlen. lia. }
  assert (exists leds o,
            (if toggled (mode_ s) =? 0 then ledOff 4 else ledOn 4) s1
              = Done tt (set_leds leds s1) o /\
            length leds = 10%nat /\ Forall is_led_event o) as (leds1 & o1 & H1 & Hlen1 & Hev1).
  { destruct (toggled (mode_ s) =? 0); unfold ledOff, ledOn;
      rewrite (led_switch_in _ _ 4 s1 led ltac:(lia) Hled);
      (eexists _, _; split; [reflexivity|]; split;
       [rewrite length_alter; exact Hlen | apply led_events_led]). }
  rewrite (bind_Done _ _ _ _ _ _ H1).
  destruct (updateLoops_run (set_leds leds1 s1)) as (o2 & H2 & _ & Hev2).
  { split; [exact Hlen1 | exact Hloops]. }
  rewrite (bind_Done _ _ _ _ _ _ H2). simpl prefix.
  eexists _, _. split; [reflexivity|].
  rewrite !midi_sent_app.
  destruct (led_events_only o1 Hev1) as [_ ->].
  destruct (led_events_only o2 Hev2) as [_ ->]. reflexivity.
Qed.

(** C4 (amended). With the MIDI output port open, a loop pedal (0-3) that
    goes down and directly up again sends one note-on and then one note-off
    at the pitch [baseNote + mode + index]. The mode is read when each event
    is handled, not kept from the press: after a press of Record in between,
    the note-off goes to [baseNote + mode' + index] with the toggled mode. *)
Theorem loop_pedal_notes (s : App) (channel index : Z) :
  virtMidiOut_ s = true -> 0 <= index <= 3 -> wf s ->
  same_pitch s channel index [] /\
  exists s' out,
    press_release channel index [record_down channel] s = Done tt s' out /\
    mode_ s' = toggled (mode_ s) /\
    midi_sent out
      = [noteOn (channel_ s) (baseNote_ s + mode_ s + index) 127;
         noteOff (channel_ s) (baseNote_ s + toggled (mode_ s) + index) 0].
Proof.
  intros Hout Hi Hwf. unfold same_pitch, press_release. split.
  - rewrite (bind_Done _ _ _ _ _ _ (loop_pedal_down s channel index Hout Hi)).
    simpl for_each. rewrite bind_ret.
    rewrite (loop_pedal_up s channel index Hout Hi).
    eexists _, _. split; reflexivity.
  - rewrite (bind_Done _ _ _ _ _ _ (loop_pedal_down s channel index Hout Hi)).
    simpl for_each.
    destruct (record_pedal_down s channel Hwf) as (leds & o & Hrec & Hmidi).
    rewrite bind_bind, (bind_Done _ _ _ _ _ _ Hrec), bind_ret.
    rewrite (loop_pedal_up _ channel index) by assumption.
    eexists _, _. split; [reflexivity|]. split; [reflexivity|].
    simpl prefix. cbn [output]. rewrite !midi_sent_app, Hmidi. reflexivity.
Qed.

Lemma wf_established : wf established.
Proof. apply wf_concrete; reflexivity. Qed.

Lemma loop_pedal_notes_witness :
  virtMidiOut_ established = true /\ 0 <= 0 <= 3 /\ wf established /\
  same_pitch established 1 0 [].
Proof.
  split; [reflexivity|]. split; [lia|]. split; [exact wf_established|].
  exact (proj1 (loop_pedal_notes established 1 0 eq_refl ltac:(lia) wf_established)).
Defined.

(** C4 as stated fails when Record is pressed while pedal 0 is down: the
    note-on goes to note 64 and the note-off to note 84. *)
Lemma loop_pedal_notes_counterexample :
  ~ same_pitch established 1 0 [record_down 1].
Proof.
  intros (s' & out & Hrun & Hmidi).
  vm_compute in Hrun. injection Hrun as _ <-.
  vm_compute in Hmidi. discriminate Hmidi.
Qed.

(** ** Pedal numbers and LED numbers *)

(** X1. On the controller values a MIDI byte can hold, the LED number of a
    pedal is the controller value the pedal sends, and the pedal of an LED
    number is that LED: [ledNumber] and [pedalIndex] are inverse to each
    other. *)
Theorem pedalIndex_ledNumber_inverse (v : Z) :
  0 <= v <= 255 ->
  ledNumber (pedalIndex v) = v /\ pedalIndex (ledNumber v) = v.
Proof.
  intros Hv. destruct v as [|p|p]; [split; reflexivity | | lia].
  do 4 (try destruct p as [p|p|]); try (split; reflexivity).
  all: unfold pedalIndex, ledNumber; rewrite ?Z.mod_small by lia;
    cbn beta iota; rewrite ?Z.mod_small by lia; split; reflexivity.
Qed.

Lemma pedalIndex_ledNumber_inverse_witness :
  0 <= 10 <= 255 /\ ledNumber (pedalIndex 10) = 10 /\ pedalIndex (ledNumber 10) = 10.
Proof.
  split; [lia|]. exact (pedalIndex_ledNumber_inverse 10 ltac:(lia)).
Defined.

(** ** Relations that every step of the handlers respects *)

Lemma getReference_inv {A} (arr : list A) (i : Z) (s s' : App) (n : nat) (o : list Event) :
  getReference arr i s = Done n s' o ->
  s' = s /\ o = [] /\ n = Z.to_nat i /\ 0 <= i < Z.of_nat (length arr).
Proof.
  destruct (Z.le_gt_cases 0 i) as [H0|H0];
    [destruct (Z.lt_ge_cases i (Z.of_nat (length arr))) as [H1|H1]|].
  - rewrite getReference_in by lia. intros [= <- <- <-]. repeat split; lia.
  - rewrite getReference_out by lia. discriminate.
  - rewrite getReference_out by lia. discriminate.
Qed.

Section Holds.

(** A relation closed under doing nothing and under doing one thing after
    another, and under the primitive steps of the program; each lemma below
    needs only the steps its program takes. *)
Variable R : App -> list Event -> App -> Prop.
Hypothesis R_nil : forall s, R s [] s.
Hypothesis R_app : forall s1 o1 s2 o2 s3, R s1 o1 s2 -> R s2 o2 s3 -> R s1 (o1 ++ o2) s3.

Lemma at_ret {A} (a : A) s : holds_at R (ret a) s.
Proof. intros a' s' o [= _ <- <-]. apply R_nil. Qed.

Lemma at_fault {A} (f : Fault) s : holds_at R (@fault A f) s.
Proof. intros a' s' o [=]. Qed.

Lemma at_bind {A B} (m : M A) (k : A -> M B) s :
  holds_at R m s ->
  (forall a s1 o1, m s = Done a s1 o1 -> holds_at R (k a) s1) ->
  holds_at R (bind m k) s.
Proof.
  intros Hm Hk b s' o H.
  apply bind_inv in H as (a & s1 & o1 & o2 & H1 & H2 & ->).
  eapply R_app; [exact (Hm _ _ _ H1) | exact (Hk _ _ _ H1 _ _ _ H2)].
Qed.

Lemma at_seq {A B} (m : M A) (k : A -> M B) s :
  holds_at R m s -> (forall a, holds R (k a)) -> holds_at R (bind m k) s.
Proof. intros Hm Hk. apply at_bind; [exact Hm|]. intros a s1 _ _. apply Hk. Qed.

Lemma at_bind_gets {A B} (f : App -> A) (k : A -> M B) s :
  holds_at R (k (f s)) s -> holds_at R (bind (gets f) k) s.
Proof. intros H b s' o. rewrite bind_gets. apply H. Qed.

Lemma at_bind_ret {A B} (a : A) (k : A -> M B) s :
  holds_at R (k a) s -> holds_at R (bind (ret a) k) s.
Proof. intros H b s' o. rewrite bind_ret. apply H. Qed.

Lemma at_modify (f : App -> App) s : R s [] (f s) -> holds_at R (modify f) s.
Proof. intros H a' s' o E. inversion E; subst. exact H. Qed.

Lemma at_bind_modify {B} (f : App -> App) (k : unit -> M B) s :
  R s [] (f s) -> holds_at R (k tt) (f s) -> holds_at R (bind (modify f) k) s.
Proof.
  intros H Hk. apply at_bind; [apply at_modify; exact H|].
  intros [] s1 o1 E. inversion E; subst. exact Hk.
Qed.

Lemma at_emit (e : Event) s : R s [e] s -> holds_at R (emit e) s.
Proof. intros H a' s' o E. inversion E; subst. exact H. Qed.

Lemma at_bind_emit {B} (e : Event) (k : unit -> M B) s :
  R s [e] s -> holds_at R (k tt) s -> holds_at R (bind (emit e) k) s.
Proof.
  intros H Hk. apply at_bind; [apply at_emit; exact H|].
  intros [] s1 o1 E. inversion E; subst. exact Hk.
Qed.

Lemma at_bind_bind {A B C} (m : M A) (k : A -> M B) (k' : B -> M C) s :
  holds_at R (bind m (fun a => bind (k a) k')) s -> holds_at R (bind (bind m k) k') s.
Proof. intros H c s' o. rewrite bind_bind. apply H. Qed.

Lemma at_when (b : bool) (m : M unit) s :
  (b = true -> holds_at R m s) -> holds_at R (when b m) s.
Proof. intros H. destruct b; [apply H; reflexivity | apply at_ret]. Qed.

Lemma at_for_each {A} (body : A -> M unit) (l : list A) :
  (forall x, x ∈ l -> holds R (body x)) -> holds R (for_each l body).
Proof.
  induction l as [|x l IH]; intros H s; simpl; [apply at_ret|].
  apply at_seq; [apply H; left | intros _; apply IH].
  intros y Hy. apply H. right. exact Hy.
Qed.

Lemma at_getReference {A} (arr : list A) (i : Z) s : holds_at R (getReference arr i) s.
Proof.
  intros n s' o H. apply getReference_inv in H as (-> & -> & _). apply R_nil.
Qed.


Lemma at_eq {A} (m m' : M A) s : m s = m' s -> holds_at R m' s -> holds_at R m s.
Proof. intros E H a s' o. rewrite E. apply H. Qed.

Lemma at_read_led (ref : Z) s : holds_at R (read_led ref) s.
Proof.
  unfold read_led. apply at_bind_gets. apply at_seq; [apply at_getReference|].
  intros n s1. destruct (leds_ s !! n); [apply at_ret | apply at_fault].
Qed.

Lemma at_read_loop (k : nat) s : holds_at R (read_loop k) s.
Proof.
  unfold read_loop. apply at_bind_gets.
  destruct (loops_ s !! k); [apply at_ret | apply at_fault].
Qed.

Section Steps.

(** *** The LEDs, from single steps *)

Hypothesis R_leds : forall s n f,
  keeps_index f -> R s [] (set_leds (alter f n (leds_ s)) s).
Hypothesis R_cc : forall s cc n, R s [cout_cc cc n] s.
Hypothesis R_led_message : forall s led,
  oscLedSenderInitialized_ s = true -> R s [led_message led] s.

Lemma at_write_led (ref : Z) (f : LED.t -> LED.t) s :
  keeps_index f -> holds_at R (write_led ref f) s.
Proof.
  intros Hf. unfold write_led. apply at_bind_gets.
  apply at_bind; [apply at_getReference|].
  intros n s1 o1 H. apply getReference_inv in H as (-> & _).
  apply at_modify, R_leds, Hf.
Qed.

Lemma led_switch_of_steps (cc : Z) (on : bool) (i : Z) : holds R (led_switch cc on i).
Proof.
  intros s. unfold led_switch. apply at_bind_emit; [apply R_cc|].
  apply at_seq; [apply at_write_led; intros []; reflexivity|]. intros _ s1.
  apply at_seq; [apply at_read_led|]. intros led s2.
  apply at_bind_gets. apply at_when. intros Hinit.
  apply at_emit, R_led_message, Hinit.
Qed.

Lemma own_led_of_steps (loop : Loop.t) (v : LedStates) (t cc : Z) (on : bool) :
  holds R (own_led loop v t cc on).
Proof.
  intros s. unfold own_led.
  apply at_seq; [apply at_write_led; intros []; reflexivity|]. intros _ s1.
  apply at_seq; [apply at_write_led; intros []; reflexivity|]. intros _.
  apply led_switch_of_steps.
Qed.

End Steps.

(** *** The handlers *)

Hypothesis R_led_switch : forall cc on i, holds R (led_switch cc on i).
Hypothesis R_own_led : forall loop v t cc on s,
  loop ∈ loops_ s -> holds_at R (own_led loop v t cc on) s.

Lemma own_led_then (loop : Loop.t) (v : LedStates) (t cc : Z) (on : bool) (k : M unit) s :
  (write_led (Loop.led_ loop) (LED.set_state v) ;;
   write_led (Loop.led_ loop) (LED.set_timer t) ;;
   led_switch cc on (Loop.index_ loop) ;; k) s
  = (own_led loop v t cc on ;; k) s.
Proof.
  unfold own_led. rewrite bind_bind. apply bind_ext. intros _ s1.
  rewrite bind_bind. reflexivity.
Qed.

Lemma at_switch_newState (loop : Loop.t) (newState : LoopStates) s :
  loop ∈ loops_ s -> holds_at R (switch_newState loop newState) s.
Proof.
  intros Hin.
  assert (forall v t cc on, holds_at R (own_led loop v t cc on) s) as Hown.
  { intros. apply R_own_led, Hin. }
  assert (forall v t cc on a,
            holds_at R (write_led (Loop.led_ loop) (LED.set_state v) ;;
                        write_led (Loop.led_ loop) (LED.set_timer t) ;;
                        led_switch cc on (Loop.index_ loop) ;; ledOn a) s) as Hboth.
  { intros. eapply at_eq; [apply own_led_then|].
    apply at_seq; [apply Hown|]. intros _. apply R_led_switch. }
  switch_cases newState; unfold switch_newState, ledOn, ledOff;
    try apply Hown; try apply Hboth.
  apply at_bind_gets. destruct (mode_ s =? 0); apply Hown.
Qed.

Lemma at_switch_oldState (loop : Loop.t) : holds R (switch_oldState loop).
Proof.
  unfold switch_oldState. destruct loop as [i st l]; simpl.
  switch_cases st; intros s; try apply at_ret; apply R_led_switch.
Qed.

Hypothesis R_loop_state : forall s k st,
  R s [] (set_loops (alter (Loop.set_state st) k (loops_ s)) s).

Lemma read_loop_inv (k : nat) s loop s' o :
  read_loop k s = Done loop s' o -> s' = s /\ o = [] /\ loops_ s !! k = Some loop.
Proof.
  unfold read_loop. rewrite bind_gets.
  destruct (loops_ s !! k); [|discriminate]. intros E. inversion E; subst. auto.
Qed.

Lemma at_updateLoopLedState (k : nat) (newState : LoopStates) :
  holds R (updateLoopLedState k newState).
Proof.
  intros s. unfold updateLoopLedState.
  apply at_bind; [apply at_read_loop|]. intros loop s1 o1 H.
  apply read_loop_inv in H as (-> & _ & Hk).
  apply at_seq; [apply at_switch_newState; eapply list_elem_of_lookup_2, Hk|].
  intros _ s2.
  apply at_seq; [apply at_when; intros _; apply at_switch_oldState|]. intros _ s3.
  apply at_modify, R_loop_state.
Qed.

Lemma at_updateLoops : holds R updateLoops.
Proof.
  intros s. unfold updateLoops. apply at_bind_gets.
  apply at_for_each. intros k _ s1.
  apply at_seq; [apply at_read_loop|]. intros loop. apply at_updateLoopLedState.
Qed.

Hypothesis R_cc_line : forall s cc n, R s [cout_cc cc n] s.
Hypothesis R_display : forall s,
  oscLedSenderInitialized_ s = true ->
  R s [osc_send oscLedSender "/display" [Int32 (selectedLoop_ s)]] s.

Lemma at_selectLoop : holds R selectLoop.
Proof.
  intros s. unfold selectLoop. apply at_bind_gets.
  apply at_bind.
  { destruct (0 <? Z.quot (selectedLoop_ s) 10); apply at_emit, R_cc_line. }
  intros [] s1 o1 H1.
  assert (s1 = s) as ->.
  { destruct (0 <? Z.quot (selectedLoop_ s) 10); inversion H1; reflexivity. }
  apply at_bind_emit; [apply R_cc_line|]. apply at_bind_gets.
  apply at_when. intros Hinit. apply at_emit, R_display, Hinit.
Qed.

(** *** Pedal events *)

Hypothesis R_sendMidiMessage : forall msg, holds R (sendMidiMessage msg).
Hypothesis R_midi : forall s msg, virtMidiOut_ s = true -> R s [midi_send msg] s.
Hypothesis R_mode : forall s, R s [] (set_mode (toggled (mode_ s)) s).
Hypothesis R_cerr : forall s l, l <> LogMissingOutputPort -> R s [cerr l] s.

Lemma at_handleIncomingMidiMessage (msg : MidiMessage) :
  holds R (handleIncomingMidiMessage msg).
Proof.
  intros s. unfold handleIncomingMidiMessage.
  apply at_seq; [|intros _ s1; apply at_emit, R_cerr; discriminate].
  destruct msg as [ch number value| | |]; try apply at_ret.
  do 2 apply at_bind_gets.
  assert (forall m, holds_at R (do mode <- gets mode_; sendMidiMessage (m mode)) s) as Hloop.
  { intros m. apply at_bind_gets. apply R_sendMidiMessage. }
  destruct number as [|p|p]; [| |].
  1,3: apply at_bind_gets, at_when; intros Hout; apply at_emit, R_midi, Hout.
  do 7 (try destruct p as [p|p|]);
    try (apply at_bind_gets, at_when; intros Hout; apply at_emit, R_midi, Hout).
  - (* 105 *)
    destruct ((0 <=? pedalIndex value) && (pedalIndex value <=? 3));
      [apply (Hloop (fun mode => noteOff _ (_ + mode + _) 0))|].
    destruct (pedalIndex value =? RECORD); [apply at_ret|].
    destruct (pedalIndex value =? UNDO); [|apply R_sendMidiMessage].
    apply at_seq; [apply R_led_switch|]. intros _ s1.
    apply at_seq; [apply R_sendMidiMessage|]. intros _. apply at_updateLoops.
  - (* 104 *)
    destruct ((0 <=? pedalIndex value) && (pedalIndex value <=? 3));
      [apply (Hloop (fun mode => noteOn _ (_ + mode + _) 127))|].
    destruct (pedalIndex value =? RECORD).
    + apply at_bind_gets. apply at_bind_modify; [apply R_mode|].
      apply at_seq; [|intros _; apply at_updateLoops].
      destruct ((if 0 <? mode_ s then 0 else 20) =? 0); apply R_led_switch.
    + destruct (pedalIndex value =? UNDO); [|apply R_sendMidiMessage].
      apply at_seq; [apply R_led_switch|]. intros _. apply R_sendMidiMessage.
Qed.

(** *** Requests to the looper *)

Hypothesis R_looper : forall s address args, R s [osc_send oscSender address args] s.

Lemma at_getCurrentState (i : Z) : holds R (getCurrentState i).
Proof.
  intros s. unfold getCurrentState, replyUrl.
  apply at_bind_bind, at_bind_gets, at_bind_ret, at_emit, R_looper.
Qed.

Lemma at_registerAutoUpdates (i : Z) (unreg : bool) : holds R (registerAutoUpdates i unreg).
Proof.
  intros s. unfold registerAutoUpdates, replyUrl.
  apply at_bind_bind, at_bind_gets, at_bind_ret.
  destruct unreg; apply at_emit, R_looper.
Qed.

Lemma at_registerGlobalUpdates (unreg : bool) : holds R (registerGlobalUpdates unreg).
Proof.
  intros s. unfold registerGlobalUpdates, replyUrl.
  apply at_bind_bind, at_bind_gets, at_bind_ret.
  destruct unreg; apply at_emit, R_looper.
Qed.

Hypothesis R_add_loop : forall s i,
  0 <= i < Z.of_nat (length (leds_ s)) ->
  R s [] (set_loops (loops_ s ++ [new_loop i]) s).

Lemma at_add_loop (i : Z) : holds R (add_loop i).
Proof.
  intros s a s' o.
  destruct (Z.le_gt_cases 0 i) as [H0|H0];
    [destruct (Z.lt_ge_cases i (Z.of_nat (length (leds_ s)))) as [H1|H1]|].
  - rewrite add_loop_in by lia. intros E. inversion E; subst.
    apply R_add_loop. lia.
  - rewrite add_loop_out by lia. discriminate.
  - rewrite add_loop_out by lia. discriminate.
Qed.

(** *** Messages from the looper *)

Hypothesis R_hostUrl : forall s x, R s [] (set_hostUrl x s).
Hypothesis R_version : forall s x, R s [] (set_version x s).
Hypothesis R_loopCount : forall s z, R s [] (set_loopCount z s).
Hypothesis R_engineId : forall s z, R s [] (set_engineId z s).
Hypothesis R_clear : forall s, R s [] (set_loops [] s).
Hypothesis R_heartbeat : forall s, R s [] (set_heartbeat 5 s).

Lemma at_pingack_arguments (args : list OSCArgument) (i : nat) :
  holds R (pingack_arguments i args).
Proof.
  revert i. induction args as [|arg rest IH]; intros i s; simpl; [apply at_ret|].
  apply at_seq; [|intros _; apply IH].
  destruct i as [|[|[|[|i]]]]; destruct arg;
    first [ apply at_ret
          | apply at_modify; first [apply R_hostUrl | apply R_version
                                   | apply R_loopCount | apply R_engineId]
          | apply at_emit, R_cerr; discriminate ].
Qed.

Lemma at_handlePingAckMessage (message : OSCMessage) : holds R (handlePingAckMessage message).
Proof.
  intros s. unfold handlePingAckMessage. destruct message as [|a rest]; [apply at_ret|].
  apply at_seq; [apply at_pingack_arguments|]. intros _ s1.
  apply at_bind_gets.
  apply at_seq; [|intros _ s2; apply at_modify, R_heartbeat].
  apply at_when. intros _.
  apply at_bind_modify; [apply R_clear|].
  apply at_seq; [|intros _; apply at_registerGlobalUpdates].
  apply at_for_each. intros i _ s2.
  apply at_seq; [apply at_add_loop|]. intros _ s3.
  apply at_seq; [apply at_registerAutoUpdates|]. intros _. apply at_getCurrentState.
Qed.

Lemma at_heartbeat_arguments (args : list OSCArgument) (i : nat) (numloops uid : Z) :
  holds R (heartbeat_arguments i args numloops uid).
Proof.
  revert i numloops uid.
  induction args as [|arg rest IH]; intros i numloops uid s; simpl; [apply at_ret|].
  destruct i as [|[|[|[|i]]]]; destruct arg;
    first [ apply IH
          | apply at_bind_modify; [first [apply R_hostUrl | apply R_version] | apply IH]
          | apply at_bind_emit; [apply R_cerr; discriminate | apply IH] ].
Qed.

Lemma at_handleHeartbeatMessage (message : OSCMessage) :
  holds R (handleHeartbeatMessage message).
Proof.
  intros s. unfold handleHeartbeatMessage. destruct message as [|a rest]; [apply at_ret|].
  apply at_bind_gets.
  apply at_seq; [apply at_heartbeat_arguments|]. intros [numloops uid] s1.
  apply at_seq; [|intros _ s2; apply at_modify, R_heartbeat]. simpl fst; simpl snd.
  destruct (negb (uid =? engineId_ s)).
  - apply at_when. intros _.
    apply at_bind_modify; [apply R_loopCount|].
    apply at_bind_modify; [apply R_clear|].
    apply at_seq; [|intros _; apply at_registerGlobalUpdates].
    apply at_for_each. intros i _ s2.
    apply at_seq; [apply at_add_loop|]. intros _ s3.
    apply at_seq; [apply at_registerAutoUpdates|]. intros _ s4.
    apply at_seq; [apply at_getCurrentState|]. intros _. apply at_updateLoops.
  - apply at_bind_gets. apply at_when. intros _.
    apply at_seq; [|intros _ s2; apply at_modify, R_loopCount].
    apply at_for_each. intros i _ s2.
    apply at_seq; [apply at_registerAutoUpdates|]. intros _ s3.
    apply at_seq; [apply at_add_loop|]. intros _. apply at_updateLoops.
Qed.

Hypothesis R_selectedLoop : forall s z, R s [] (set_selectedLoop z s).

Lemma at_deref (arg : list OSCArgument) s : holds_at R (deref arg) s.
Proof. destruct arg; [apply at_fault | apply at_ret]. Qed.

Lemma at_getFloat32_as_int (v : float) s : holds_at R (getFloat32_as_int v) s.
Proof. unfold getFloat32_as_int. destruct (float_to_int v); [apply at_ret | apply at_fault]. Qed.

Lemma at_handleCtrlMessage (message : OSCMessage) : holds R (handleCtrlMessage message).
Proof.
  intros s. unfold handleCtrlMessage. destruct message as [|first arg]; [apply at_ret|].
  destruct first as [loopIndex| | |]; try (apply at_emit, R_cerr; discriminate).
  destruct (loopIndex =? -2).
  { apply at_seq; [apply at_deref|]. intros a s1.
    destruct a; try apply at_ret. apply at_when. intros _.
    apply at_seq; [apply at_deref|]. intros v s2.
    destruct v; try apply at_ret.
    apply at_seq; [apply at_getFloat32_as_int|]. intros selected s3.
    apply at_bind_modify; [apply R_selectedLoop | apply at_selectLoop]. }
  destruct (loopIndex <? 0); [apply at_ret|].
  apply at_seq; [apply at_deref|]. intros a s1.
  apply at_seq; [|intros _ s2; apply at_modify, R_heartbeat].
  destruct a; try apply at_ret. apply at_when. intros _.
  apply at_seq; [apply at_deref|]. intros v s2.
  destruct v; try apply at_ret.
  apply at_seq; [apply at_getFloat32_as_int|]. intros loopState s3.
  apply at_bind_gets. apply at_seq; [apply at_getReference|]. intros k.
  apply at_updateLoopLedState.
Qed.

(** *** The timer *)

Hypothesis R_midiIn : forall s b, R s [] (set_midiIn b s).
Hypothesis R_fullMidiInName : forall s x, R s [] (set_fullMidiInName x s).
Hypothesis R_virtMidiOut : forall s b, R s [] (set_virtMidiOut b s).
Hypothesis R_virtMidiOutName : forall s x, R s [] (set_virtMidiOutName x s).
Hypothesis R_sendPort : forall s,
  currentSendPort_ s < 0 -> R s [] (set_currentSendPort (oscSendPort_ s) s).
Hypothesis R_receivePort : forall s,
  currentReceivePort_ s < 0 -> isValidOscPort (oscReceivePort_ s) = true ->
  R s [] (set_currentReceivePort (oscReceivePort_ s) s).
Hypothesis R_lost_receive : forall s,
  heartbeat_ s < -5 -> R s [] (set_currentReceivePort (-1) s).
Hypothesis R_lost_send : forall s,
  heartbeat_ s < -5 -> R s [] (set_currentSendPort (-1) s).
Hypothesis R_countdown : forall s,
  heartbeat_ s <> 0 -> -5 <= heartbeat_ s ->
  0 <= currentReceivePort_ s -> 0 <= currentSendPort_ s ->
  R s [] (set_heartbeat (heartbeat_ s - 1) s).

Lemma at_tryToConnectMidiInput (os : Devices) : holds R (tryToConnectMidiInput os).
Proof.
  intros s. unfold tryToConnectMidiInput. apply at_bind_gets.
  destruct (match indexOf (getDevices os) (midiInName_ s) with
            | Some index => Some (index, midiInName_ s)
            | None => firstContaining (containsIgnoreCase os) (getDevices os) 0 (midiInName_ s)
            end) as [[index name]|]; [|apply at_ret].
  destruct (openDevice os index); [|apply at_ret].
  apply at_bind_modify; [apply R_midiIn|].
  apply at_bind_modify; [apply R_fullMidiInName|]. apply at_ret.
Qed.

Lemma at_timer_midi_input (os : Devices) : holds R (timer_midi_input os).
Proof.
  intros s. unfold timer_midi_input. do 3 apply at_bind_gets.
  destruct (negb (String.eqb (fullMidiInName_ s) "")
            && negb (bool_decide (fullMidiInName_ s ∈ getDevices os))).
  { apply at_bind_emit; [apply R_cerr; discriminate|].
    apply at_bind_modify; [apply R_fullMidiInName|]. apply at_modify, R_midiIn. }
  destruct (negb (String.eqb (midiInName_ s) "") && negb (midiIn_ s)); [|apply at_ret].
  apply at_seq; [apply at_tryToConnectMidiInput|]. intros connected s1.
  apply at_when. intros _. apply at_bind_gets. apply at_emit, R_cerr. discriminate.
Qed.

Lemma at_timer_virtual_output (os : Devices) : holds R (timer_virtual_output os).
Proof.
  intros s. unfold timer_virtual_output. apply at_bind_gets. apply at_when. intros _.
  destruct (createNewDevice os "loop4r_control_out").
  - apply at_bind_modify; [apply R_virtMidiOut|]. apply at_modify, R_virtMidiOutName.
  - apply at_bind_modify; [apply R_virtMidiOut|]. apply at_emit, R_cerr. discriminate.
Qed.

Lemma at_connect (os : Devices) s :
  currentReceivePort_ s < 0 -> holds_at R (connect os) s.
Proof.
  intros Hr. unfold connect. apply at_bind_gets.
  destruct (isValidOscPort (oscReceivePort_ s)) eqn:Hv; simpl;
    [|apply at_emit, R_cerr; discriminate].
  destruct (receiverConnect os (oscReceivePort_ s));
    [apply at_modify, R_receivePort; assumption | apply at_emit, R_cerr; discriminate].
Qed.

Lemma at_tryToConnectOsc (os : Devices) : holds R (tryToConnectOsc os).
Proof.
  intros s. unfold tryToConnectOsc. apply at_bind_gets.
  apply at_seq.
  { apply at_when. intros Hs. apply Z.ltb_lt in Hs. apply at_bind_gets.
    apply at_when. intros _.
    apply at_bind_emit; [apply R_cerr; discriminate|].
    apply at_modify, R_sendPort, Hs. }
  intros _ s1. apply at_bind_gets.
  apply at_seq.
  { apply at_when. intros Hr. apply Z.ltb_lt in Hr. apply at_connect, Hr. }
  intros _ s2. do 2 apply at_bind_gets.
  destruct ((0 <? currentSendPort_ s2) && (0 <? currentReceivePort_ s2)); [|apply at_ret].
  apply at_bind_gets. apply at_seq; [|intros _ s3; apply at_ret].
  apply at_when. intros _. unfold replyUrl.
  apply at_bind_bind, at_bind_gets, at_bind_ret, at_emit, R_looper.
Qed.

Lemma at_timer_osc (os : Devices) : holds R (timer_osc os).
Proof.
  intros s. unfold timer_osc. do 2 apply at_bind_gets.
  destruct ((currentReceivePort_ s <? 0) || (currentSendPort_ s <? 0)) eqn:Hports.
  { apply at_seq; [apply at_tryToConnectOsc|]. intros connected s1.
    apply at_when. intros _. do 3 apply at_bind_gets.
    apply at_bind_emit; [apply R_cerr; discriminate|]. apply at_modify, R_heartbeat. }
  apply orb_false_elim in Hports as [Hr Hs].
  apply Z.ltb_ge in Hr. apply Z.ltb_ge in Hs.
  apply at_bind_gets.
  destruct (heartbeat_ s =? 0) eqn:H0.
  { unfold replyUrl. apply at_bind_bind, at_bind_gets, at_bind_ret, at_emit, R_looper. }
  apply Z.eqb_neq in H0.
  destruct (heartbeat_ s <? -5) eqn:H5.
  - apply Z.ltb_lt in H5.
    apply at_bind_modify; [apply R_lost_receive, H5|].
    apply at_bind_modify; [apply R_lost_send, H5|].
    apply at_seq; [apply at_tryToConnectOsc|]. intros connected s1.
    apply at_when. intros _. do 2 apply at_bind_gets.
    apply at_bind_emit; [apply R_cerr; discriminate|]. apply at_modify, R_heartbeat.
  - apply Z.ltb_ge in H5. apply at_modify, R_countdown; assumption.
Qed.

Lemma at_timerCallback (os : Devices) : holds R (timerCallback os).
Proof.
  intros s. unfold timerCallback.
  apply at_seq; [apply at_timer_midi_input|]. intros _ s1.
  apply at_seq; [apply at_timer_virtual_output|]. intros _. apply at_timer_osc.
Qed.

End Holds.

(** ** The whole program *)

Lemma app_events_app (o1 o2 : list Output) :
  app_events (o1 ++ o2) = app_events o1 ++ app_events o2.
Proof. apply omap_app. Qed.

Lemma app_events_of_app (out : list Event) : app_events (of_app <$> out) = out.
Proof.
  induction out as [|e out IH]; [reflexivity|].
  change (e :: app_events (of_app <$> out) = e :: out). rewrite IH. reflexivity.
Qed.

Lemma app_events_fmap_none {A} (f : A -> Output) (l : list A) :
  (forall x, match f x with of_app _ => False | _ => True end) ->
  app_events (f <$> l) = [].
Proof.
  intros Hf. induction l as [|x l IH]; [reflexivity|].
  unfold app_events in *. simpl. specialize (Hf x).
  destruct (f x); [destruct Hf | exact IH ..].
Qed.

Lemma after_output_inv (o1 : list Output) (r : Outcome) p' o :
  after_output o1 r = Returned p' o -> exists o2, r = Returned p' o2 /\ o = o1 ++ o2.
Proof. destruct r as [p2 o2|]; [|discriminate]. intros [= <- <-]. eauto. Qed.

Lemma run_member_inv (m : M unit) (p p' : Program) (o : list Output) :
  run_member m p = Returned p' o ->
  exists s' out,
    m (app_ p) = Done tt s' out /\
    p' = mkProgram s' (oscRemoteHost_ p) (oscRemotePort_ p) /\ o = of_app <$> out.
Proof.
  unfold run_member. destruct (m (app_ p)) as [[] s' out|]; [|discriminate].
  intros [= <- <-]. eauto.
Qed.

Lemma reply_inv (net : Sockets) (message : OSCMessage)
    (send : string -> Z -> string -> list Output) (p p' : Program) (o : list Output) :
  reply net message send p = Returned p' o ->
  p' = p /\
  (o = [] \/ exists host port url,
     reply_arguments message = parsed (host, port, url) /\
     (o = [client_cerr (LogReplyConnectError host port)] \/ o = send host port url)).
Proof.
  unfold reply. destruct (reply_arguments message) as [[[host port] url]| |];
    [|intros [= <- <-]; auto | discriminate].
  destruct (negb (replyConnect net host port)); intros [= <- <-]; split; eauto 8.
Qed.

(** The registration of a display client changes [oscLedSenderInitialized_]
    and nothing else of the members, and writes none of their events. *)
Lemma handleRegisterAutoUpdateMessage_inv (net : Sockets) (message : OSCMessage)
    (unreg : bool) (p p' : Program) (o : list Output) :
  handleRegisterAutoUpdateMessage net message unreg p = Returned p' o ->
  app_events o = [] /\
  (app_ p' = app_ p \/ exists b, app_ p' = set_oscLedSenderInitialized b (app_ p)).
Proof.
  unfold handleRegisterAutoUpdateMessage.
  destruct message as [|[| |host|] arg]; try (intros [= <- <-]; auto).
  destruct arg as [|[port| | |] arg']; try discriminate; try (intros [= <- <-]; auto).
  destruct unreg.
  { destruct (oscLedSenderInitialized_ (app_ p)); [|intros [= <- <-]; auto].
    destruct (negb (ledSenderDisconnect net)); intros [= <- <-]; split; eauto. }
  destruct (negb (String.eqb host (oscRemoteHost_ p)) || negb (port =? oscRemotePort_ p));
    [|intros [= <- <-]; auto].
  destruct (oscLedSenderInitialized_ (app_ p)) eqn:Hinit;
    [destruct (negb (ledSenderDisconnect net))|];
    cbn [fst snd]; destruct (negb (ledSenderConnect net host port));
    intros [= <- <-]; split; try reflexivity; simpl; eauto.
Qed.

Section Program.

Variable R : App -> list Event -> App -> Prop.
Hypothesis R_nil : forall s, R s [] s.
Hypothesis R_app : forall s1 o1 s2 o2 s3, R s1 o1 s2 -> R s2 o2 s3 -> R s1 (o1 ++ o2) s3.

Lemma respects_member (m : M unit) (p p' : Program) (o : list Output) :
  holds R m -> run_member m p = Returned p' o -> R (app_ p) (app_events o) (app_ p').
Proof.
  intros Hm H. apply run_member_inv in H as (s' & out & H & -> & ->).
  rewrite app_events_of_app. exact (Hm _ _ _ _ H).
Qed.

Lemma respects_midi_in (msg : MidiMessage) :
  holds R (handleIncomingMidiMessage msg) -> respects R (midi_in msg).
Proof. intros H p p' o. apply respects_member, H. Qed.

Lemma respects_timer_tick (os : Devices) :
  holds R (timerCallback os) -> respects R (timer_tick os).
Proof. intros H p p' o. apply respects_member, H. Qed.

Lemma respects_reply (net : Sockets) (message : OSCMessage)
    (send : string -> Z -> string -> list Output) (p p' : Program) (o : list Output) :
  (forall host port url, app_events (send host port url) = []) ->
  reply net message send p = Returned p' o -> R (app_ p) (app_events o) (app_ p').
Proof.
  intros Hsend H. apply reply_inv in H as (-> & [->|(host & port & url & _ & [->| ->])]);
    rewrite ?Hsend; apply R_nil.
Qed.

Lemma respects_osc_in_unless (net : Sockets) (address : string) (message : OSCMessage) :
  (startsWith address "/pingack" = true -> holds R (handlePingAckMessage message)) ->
  holds R (handleCtrlMessage message) ->
  holds R (handleHeartbeatMessage message) ->
  (startsWith address "/loop4r/register_auto_update" = true \/
   startsWith address "/loop4r/unregister_auto_update" = true ->
   forall s b, R s [] (set_oscLedSenderInitialized b s)) ->
  respects R (osc_in net address message).
Proof.
  intros Hping Hctrl Hbeat Hinit p p' o. simpl. unfold oscMessageReceived.
  intros H. apply after_output_inv in H as (o2 & H & ->).
  assert (app_events
            (if negb (startsWith address "/heartbeat") && negb (startsWith address "/loop4r/ping")
             then client_cerr (LogOscMessage address (length message))
                  :: ((fun arg => client_cerr (LogOscArgument arg)) <$> message)
             else []) = []) as Hlog.
  { destruct (_ && _); [|reflexivity].
    apply (app_events_fmap_none (fun arg => client_cerr (LogOscArgument arg))).
    intros x. exact I. }
  rewrite app_events_app, Hlog. simpl.
  destruct (startsWith address "/pingack") eqn:E1;
    [exact (respects_member _ _ _ _ (Hping eq_refl) H)|].
  destruct (startsWith address "/ctrl"); [exact (respects_member _ _ _ _ Hctrl H)|].
  destruct (startsWith address "/heartbeat"); [exact (respects_member _ _ _ _ Hbeat H)|].
  destruct (startsWith address "/loop4r/ping").
  { eapply respects_reply; [|exact H]. intros host port url. simpl.
    destruct (replySend net); reflexivity. }
  destruct (startsWith address "/loop4r/leds").
  { eapply respects_reply; [|exact H]. intros host port url.
    apply (app_events_fmap_none (fun led => reply_send host port url (led_arguments led))).
    intros x. exact I. }
  destruct (startsWith address "/loop4r/display").
  { eapply respects_reply; [|exact H]. intros host port url. reflexivity. }
  assert (forall unreg,
            (forall s b, R s [] (set_oscLedSenderInitialized b s)) ->
            handleRegisterAutoUpdateMessage net message unreg p = Returned p' o2 ->
            R (app_ p) (app_events o2) (app_ p')) as Hreg.
  { intros unreg Hi Hr.
    apply handleRegisterAutoUpdateMessage_inv in Hr as (-> & [->|[b ->]]);
      [apply R_nil | apply Hi]. }
  destruct (startsWith address "/loop4r/register_auto_update");
    [exact (Hreg _ (Hinit (or_introl eq_refl)) H)|].
  destruct (startsWith address "/loop4r/unregister_auto_update");
    [exact (Hreg _ (Hinit (or_intror eq_refl)) H)|].
  injection H as <- <-. apply R_nil.
Qed.

Lemma respects_osc_in (net : Sockets) (address : string) (message : OSCMessage) :
  (startsWith address "/pingack" = true -> holds R (handlePingAckMessage message)) ->
  holds R (handleCtrlMessage message) ->
  holds R (handleHeartbeatMessage message) ->
  (forall s b, R s [] (set_oscLedSenderInitialized b s)) ->
  respects R (osc_in net address message).
Proof.
  intros Hping Hctrl Hbeat Hinit.
  apply respects_osc_in_unless; [exact Hping | exact Hctrl | exact Hbeat |].
  intros _. exact Hinit.
Qed.

Lemma respects_callbacks (cs : list Callback) :
  (forall c, c ∈ cs -> respects R c) ->
  forall p p' o, callbacks cs p = Returned p' o -> R (app_ p) (app_events o) (app_ p').
Proof.
  induction cs as [|c cs IH]; intros Hcs p p' o; simpl.
  - intros [= <- <-]. apply R_nil.
  - destruct (callback c p) as [p1 o1|] eqn:Hc; [|discriminate].
    intros H. apply after_output_inv in H as (o2 & H & ->).
    rewrite app_events_app. eapply R_app.
    + apply (Hcs c); [left | exact Hc].
    + apply IH; [|exact H]. intros c' Hc'. apply Hcs. right. exact Hc'.
Qed.

End Program.

Lemma sendMidiMessage_run (msg : MidiMessage) (s : App) :
  sendMidiMessage msg s = Done tt (warned s) (sent msg s).
Proof.
  unfold sendMidiMessage, warned, sent. rewrite bind_gets.
  destruct (virtMidiOut_ s); [reflexivity|]. rewrite bind_gets.
  destruct (missingOutputPortWarningPrinted s); reflexivity.
Qed.

(** ** The LED pool *)

Lemma led_indices_alter (f : LED.t -> LED.t) (n : nat) (leds : list LED.t) :
  keeps_index f -> LED.index_ <$> alter f n leds = LED.index_ <$> leds.
Proof.
  intros Hf. revert n. induction leds as [|l leds IH]; intros [|n]; simpl; try reflexivity.
  - rewrite Hf. reflexivity.
  - f_equal. apply IH.
Qed.

Lemma keeps_pool_nil s : keeps_pool s [] s.
Proof. intros H. auto. Qed.

Lemma keeps_pool_app s1 o1 s2 o2 s3 :
  keeps_pool s1 o1 s2 -> keeps_pool s2 o2 s3 -> keeps_pool s1 (o1 ++ o2) s3.
Proof.
  intros H1 H2 Hwf. destruct (H1 Hwf) as [Hwf2 E2]. destruct (H2 Hwf2) as [Hwf3 E3].
  split; [exact Hwf3 | congruence].
Qed.

Lemma keeps_pool_same s o s' :
  leds_ s' = leds_ s -> loops_ s' = loops_ s -> keeps_pool s o s'.
Proof.
  intros El Eo [Hlen Hloops]. unfold wf, led_indices. rewrite El, Eo. auto.
Qed.

Lemma keeps_pool_leds s n f :
  keeps_index f -> keeps_pool s [] (set_leds (alter f n (leds_ s)) s).
Proof.
  intros Hf [Hlen Hloops]. split; [split|].
  - simpl. rewrite length_alter. exact Hlen.
  - exact Hloops.
  - apply led_indices_alter, Hf.
Qed.

Lemma keeps_pool_led_switch cc on i : holds keeps_pool (led_switch cc on i).
Proof.
  apply led_switch_of_steps;
    first [ exact keeps_pool_nil | exact keeps_pool_app | exact keeps_pool_leds
          | intros; apply keeps_pool_same; reflexivity ].
Qed.

Lemma keeps_pool_own_led loop v t cc on : holds keeps_pool (own_led loop v t cc on).
Proof.
  apply own_led_of_steps;
    first [ exact keeps_pool_nil | exact keeps_pool_app | exact keeps_pool_leds
          | intros; apply keeps_pool_same; reflexivity ].
Qed.

Lemma keeps_pool_loop_state s k st :
  keeps_pool s [] (set_loops (alter (Loop.set_state st) k (loops_ s)) s).
Proof.
  intros [Hlen Hloops]. split; [split; [exact Hlen|] | reflexivity].
  simpl. apply Forall_alter; [exact Hloops|]. intros [] _. exact id.
Qed.

Lemma keeps_pool_add_loop s i :
  0 <= i < Z.of_nat (length (leds_ s)) ->
  keeps_pool s [] (set_loops (loops_ s ++ [new_loop i]) s).
Proof.
  intros Hi [Hlen Hloops]. split; [split; [exact Hlen|] | reflexivity].
  simpl. apply Forall_app. split; [exact Hloops|].
  apply Forall_singleton. rewrite Hlen in Hi. split; [simpl; lia | reflexivity].
Qed.

Lemma keeps_pool_clear s : keeps_pool s [] (set_loops [] s).
Proof. intros [Hlen _]. split; [split; [exact Hlen | constructor] | reflexivity]. Qed.

Lemma keeps_pool_sendMidiMessage msg : holds keeps_pool (sendMidiMessage msg).
Proof.
  intros s a s' o. rewrite sendMidiMessage_run. intros [= <- <-].
  apply keeps_pool_same; unfold warned;
    destruct (virtMidiOut_ s), (missingOutputPortWarningPrinted s); reflexivity.
Qed.

Ltac pool :=
  first [ exact keeps_pool_nil | exact keeps_pool_app
        | exact keeps_pool_led_switch
        | intros; apply keeps_pool_own_led
        | exact keeps_pool_loop_state | exact keeps_pool_add_loop
        | exact keeps_pool_clear | exact keeps_pool_sendMidiMessage
        | intros; apply keeps_pool_same; reflexivity ].

Lemma keeps_pool_callback (c : Callback) : respects keeps_pool c.
Proof.
  destruct c as [msg|net address message|os].
  - apply respects_midi_in. apply at_handleIncomingMidiMessage; pool.
  - apply respects_osc_in; try pool.
    + intros _. apply at_handlePingAckMessage; pool.
    + apply at_handleCtrlMessage; pool.
    + apply at_handleHeartbeatMessage; pool.
  - apply respects_timer_tick. apply at_timerCallback; pool.
Qed.

(** X2. However the program is driven, and whatever the outside world
    answers: when it starts from well-formed members and every callback
    returns, the members are well formed again, ten LEDs with the indices
    they had and every loop on the LED of its own index. *)
Theorem callbacks_keep_pool (cs : list Callback) (p p' : Program) (o : list Output) :
  wf (app_ p) ->
  callbacks cs p = Returned p' o ->
  wf (app_ p') /\ led_indices (app_ p') = led_indices (app_ p).
Proof.
  intros Hwf H.
  apply (respects_callbacks keeps_pool keeps_pool_nil keeps_pool_app cs
           (fun c _ => keeps_pool_callback c) p p' o H Hwf).
Qed.

(** ** The mode, the countdown and the engine *)

(** The premises of the lemmas on relations, discharged alike: [Hnil] and
    [Happ], the two LED programs from single steps, and [tac] for a step. *)
Ltac steps Hnil Happ tac :=
  first [ exact Hnil | exact Happ
        | let cc := fresh in let on := fresh in let i := fresh in
          intros cc on i; apply led_switch_of_steps; [exact Hnil | exact Happ | tac ..]
        | let loop := fresh in let v := fresh in let t := fresh in
          let cc := fresh in let on := fresh in let s := fresh in
          intros loop v t cc on s _; apply own_led_of_steps; [exact Hnil | exact Happ | tac ..]
        | tac ].

Lemma sendMidiMessage_fields (msg : MidiMessage) (s : App) :
  forall a s' o, sendMidiMessage msg s = Done a s' o ->
  leds_ s' = leds_ s /\ loops_ s' = loops_ s /\ mode_ s' = mode_ s /\
  heartbeat_ s' = heartbeat_ s /\ engineId_ s' = engineId_ s /\
  currentReceivePort_ s' = currentReceivePort_ s /\
  currentSendPort_ s' = currentSendPort_ s /\
  oscLedSenderInitialized_ s' = oscLedSenderInitialized_ s /\
  virtMidiOut_ s' = virtMidiOut_ s /\
  o = sent msg s.
Proof.
  intros a s' o. rewrite sendMidiMessage_run. intros [= <- <-]. unfold warned.
  destruct (virtMidiOut_ s) eqn:E1, (missingOutputPortWarningPrinted s) eqn:E2;
    simpl; rewrite ?E1; auto 12.
Qed.

Lemma keeps_mode_ok_nil s : keeps_mode_ok s [] s.
Proof. exact id. Qed.

Lemma keeps_mode_ok_app s1 o1 s2 o2 s3 :
  keeps_mode_ok s1 o1 s2 -> keeps_mode_ok s2 o2 s3 -> keeps_mode_ok s1 (o1 ++ o2) s3.
Proof. unfold keeps_mode_ok. auto. Qed.

Lemma keeps_mode_ok_sendMidiMessage msg : holds keeps_mode_ok (sendMidiMessage msg).
Proof.
  intros s a s' o H. apply sendMidiMessage_fields in H as (_ & _ & E & _).
  unfold keeps_mode_ok, mode_ok. rewrite E. exact id.
Qed.

Lemma keeps_mode_ok_mode s : keeps_mode_ok s [] (set_mode (toggled (mode_ s)) s).
Proof. intros _. unfold mode_ok, toggled. simpl. destruct (0 <? mode_ s); auto. Qed.

Ltac mode_ok :=
  steps keeps_mode_ok_nil keeps_mode_ok_app
    ltac:(first [ exact keeps_mode_ok_sendMidiMessage | exact keeps_mode_ok_mode
                | intros; exact id ]).

Lemma keeps_mode_ok_callback (c : Callback) : respects keeps_mode_ok c.
Proof.
  destruct c as [msg|net address message|os].
  - apply respects_midi_in. apply at_handleIncomingMidiMessage; mode_ok.
  - apply respects_osc_in; try mode_ok.
    + intros _. apply at_handlePingAckMessage; mode_ok.
    + apply at_handleCtrlMessage; mode_ok.
    + apply at_handleHeartbeatMessage; mode_ok.
  - apply respects_timer_tick. apply at_timerCallback; mode_ok.
Qed.

Lemma same_mode_nil s : same_mode s [] s.
Proof. reflexivity. Qed.

Lemma same_mode_app s1 o1 s2 o2 s3 :
  same_mode s1 o1 s2 -> same_mode s2 o2 s3 -> same_mode s1 (o1 ++ o2) s3.
Proof. unfold same_mode. congruence. Qed.

Ltac same_mode := steps same_mode_nil same_mode_app ltac:(intros; reflexivity).

Lemma same_mode_callback (c : Callback) : is_midi_in c = false -> respects same_mode c.
Proof.
  destruct c as [msg|net address message|os]; [discriminate| |]; intros _.
  - apply respects_osc_in; try same_mode.
    + intros _. apply at_handlePingAckMessage; same_mode.
    + apply at_handleCtrlMessage; same_mode.
    + apply at_handleHeartbeatMessage; same_mode.
  - apply respects_timer_tick. apply at_timerCallback; same_mode.
Qed.

(** X3. The mode of the Record pedal is 0 or 20 and stays so however the
    program is driven, and only a MIDI message changes it: messages from the
    looper, from a display client and the timer leave it as it is. *)
Theorem callbacks_keep_mode (cs : list Callback) (p p' : Program) (o : list Output) :
  callbacks cs p = Returned p' o ->
  (mode_ok (app_ p) -> mode_ok (app_ p')) /\
  (forallb (fun c => negb (is_midi_in c)) cs = true -> mode_ (app_ p') = mode_ (app_ p)).
Proof.
  intros H. split.
  - exact (respects_callbacks keeps_mode_ok keeps_mode_ok_nil keeps_mode_ok_app cs
             (fun c _ => keeps_mode_ok_callback c) p p' o H).
  - intros Hcs.
    apply (respects_callbacks same_mode same_mode_nil same_mode_app cs) with (o := o);
      [|exact H].
    intros c Hc. apply same_mode_callback.
    rewrite forallb_forall in Hcs. apply list_elem_of_In in Hc.
    apply negb_true_iff, Hcs, Hc.
Qed.

Lemma stays_connected_nil s : stays_connected s [] s.
Proof. intros H. auto. Qed.

Lemma stays_connected_app s1 o1 s2 o2 s3 :
  stays_connected s1 o1 s2 -> stays_connected s2 o2 s3 -> stays_connected s1 (o1 ++ o2) s3.
Proof.
  intros H1 H2 Hc. destruct (H1 Hc) as (Hc2 & Hr2 & Hs2).
  destruct (H2 Hc2) as (Hc3 & Hr3 & Hs3). split; [exact Hc3|].
  split; intros H0.
  - rewrite <- (Hr2 H0). apply Hr3. rewrite (Hr2 H0). exact H0.
  - rewrite <- (Hs2 H0). apply Hs3. rewrite (Hs2 H0). exact H0.
Qed.

Lemma stays_connected_same s o s' :
  heartbeat_ s' = heartbeat_ s \/ heartbeat_ s' = 5 ->
  currentReceivePort_ s' = currentReceivePort_ s ->
  currentSendPort_ s' = currentSendPort_ s ->
  stays_connected s o s'.
Proof.
  unfold stays_connected, counting. intros [-> | ->] -> ->; intros H; repeat split; auto; lia.
Qed.

Lemma stays_connected_sendMidiMessage msg : holds stays_connected (sendMidiMessage msg).
Proof.
  intros s a s' o H. apply sendMidiMessage_fields in H as (_ & _ & _ & E1 & _ & E2 & E3 & _).
  apply stays_connected_same; auto.
Qed.

Ltac connected :=
  steps stays_connected_nil stays_connected_app
    ltac:(first [ exact stays_connected_sendMidiMessage
                | intros; apply stays_connected_same; solve [auto]
                | unfold stays_connected, counting; simpl; intros; repeat split; intros; lia ]).

Lemma stays_connected_callback (c : Callback) : respects stays_connected c.
Proof.
  destruct c as [msg|net address message|os].
  - apply respects_midi_in. apply at_handleIncomingMidiMessage; connected.
  - apply respects_osc_in; try connected.
    + intros _. apply at_handlePingAckMessage; connected.
    + apply at_handleCtrlMessage; connected.
    + apply at_handleHeartbeatMessage; connected.
  - apply respects_timer_tick. apply at_timerCallback; connected.
Qed.

(** X4. Once the countdown is between 0 and 5, as the constructor leaves it,
    it stays there however the program is driven, and an OSC port that is
    connected is never given up: the branch of the timer that reconnects when
    the countdown has gone below -5 is not reached. *)
Theorem callbacks_stay_connected (cs : list Callback) (p p' : Program) (o : list Output) :
  counting (app_ p) ->
  callbacks cs p = Returned p' o ->
  counting (app_ p') /\
  (0 <= currentReceivePort_ (app_ p) ->
   currentReceivePort_ (app_ p') = currentReceivePort_ (app_ p)) /\
  (0 <= currentSendPort_ (app_ p) ->
   currentSendPort_ (app_ p') = currentSendPort_ (app_ p)).
Proof.
  intros Hc H.
  exact (respects_callbacks stays_connected stays_connected_nil stays_connected_app cs
           (fun c _ => stays_connected_callback c) p p' o H Hc).
Qed.

Lemma same_engine_nil s : same_engine s [] s.
Proof. reflexivity. Qed.

Lemma same_engine_app s1 o1 s2 o2 s3 :
  same_engine s1 o1 s2 -> same_engine s2 o2 s3 -> same_engine s1 (o1 ++ o2) s3.
Proof. unfold same_engine. congruence. Qed.

Lemma same_engine_sendMidiMessage msg : holds same_engine (sendMidiMessage msg).
Proof.
  intros s a s' o H. apply sendMidiMessage_fields in H as (_ & _ & _ & _ & E & _). exact E.
Qed.

Ltac same_engine :=
  steps same_engine_nil same_engine_app
    ltac:(first [ exact same_engine_sendMidiMessage | intros; reflexivity ]).

Lemma same_engine_callback (c : Callback) : is_pingack c = false -> respects same_engine c.
Proof.
  destruct c as [msg|net address message|os]; simpl; intros Hc.
  - apply respects_midi_in. apply at_handleIncomingMidiMessage; same_engine.
  - apply respects_osc_in; try same_engine.
    + rewrite Hc. discriminate.
    + apply at_handleCtrlMessage; same_engine.
    + apply at_handleHeartbeatMessage; same_engine.
  - apply respects_timer_tick. apply at_timerCallback; same_engine.
Qed.

(** X5. [engineId_] is written by the handler of [/pingack] and by nothing
    else: in particular a heartbeat that names another engine rebuilds the
    loops and leaves [engineId_] as it was, so that the next heartbeat of
    that engine is again one of a new engine. *)
Theorem callbacks_keep_engine (cs : list Callback) (p p' : Program) (o : list Output) :
  forallb (fun c => negb (is_pingack c)) cs = true ->
  callbacks cs p = Returned p' o ->
  engineId_ (app_ p') = engineId_ (app_ p).
Proof.
  intros Hcs H.
  apply (respects_callbacks same_engine same_engine_nil same_engine_app cs) with (o := o);
    [|exact H].
  intros c Hc. apply same_engine_callback.
  rewrite forallb_forall in Hcs. apply list_elem_of_In in Hc.
  apply negb_true_iff, Hcs, Hc.
Qed.

(** ** What goes out where *)

Lemma no_midi_nil s : no_midi s [] s.
Proof. reflexivity. Qed.

Lemma no_midi_app s1 o1 s2 o2 s3 :
  no_midi s1 o1 s2 -> no_midi s2 o2 s3 -> no_midi s1 (o1 ++ o2) s3.
Proof. unfold no_midi. intros H1 H2. rewrite midi_sent_app, H1, H2. reflexivity. Qed.

Ltac no_midi := steps no_midi_nil no_midi_app ltac:(intros; reflexivity).

Lemma no_requests_nil s : no_requests s [] s.
Proof. reflexivity. Qed.

Lemma no_requests_app s1 o1 s2 o2 s3 :
  no_requests s1 o1 s2 -> no_requests s2 o2 s3 -> no_requests s1 (o1 ++ o2) s3.
Proof. unfold no_requests. intros H1 H2. rewrite looper_requests_app, H1, H2. reflexivity. Qed.

Lemma no_requests_sendMidiMessage msg : holds no_requests (sendMidiMessage msg).
Proof.
  intros s a s' o. rewrite sendMidiMessage_run. intros E. inversion E; subst.
  unfold no_requests, sent.
  destruct (virtMidiOut_ s), (missingOutputPortWarningPrinted s); reflexivity.
Qed.

Ltac no_requests :=
  steps no_requests_nil no_requests_app
    ltac:(first [ exact no_requests_sendMidiMessage | intros; reflexivity
                | intros; unfold no_requests, led_message; reflexivity ]).

(** X6. The two sides of the program do not mix: a MIDI message from the
    pedal board sends no request to the looper, and a message from the
    looper or from a display client, or a tick of the timer, sends no
    MIDI. *)
Theorem callback_sides (c : Callback) (p p' : Program) (o : list Output) :
  callback c p = Returned p' o ->
  if is_midi_in c then looper_requests (app_events o) = []
  else midi_sent (app_events o) = [].
Proof.
  intros H. destruct c as [msg|net address message|os]; simpl.
  - revert H. apply (respects_midi_in no_requests).
    apply at_handleIncomingMidiMessage; no_requests.
  - revert H. apply (respects_osc_in no_midi); try no_midi.
    + intros _. apply at_handlePingAckMessage; no_midi.
    + apply at_handleCtrlMessage; no_midi.
    + apply at_handleHeartbeatMessage; no_midi.
  - revert H. apply (respects_timer_tick no_midi). apply at_timerCallback; no_midi.
Qed.

Lemma warnings_app (o1 o2 : list Event) : warnings (o1 ++ o2) = (warnings o1 + warnings o2)%nat.
Proof. unfold warnings. rewrite omap_app, length_app. reflexivity. Qed.

Lemma warns_once_nil s : warns_once s [] s.
Proof. unfold warns_once. simpl. lia. Qed.

Lemma warns_once_app s1 o1 s2 o2 s3 :
  warns_once s1 o1 s2 -> warns_once s2 o2 s3 -> warns_once s1 (o1 ++ o2) s3.
Proof. unfold warns_once. rewrite warnings_app. lia. Qed.

Lemma warns_once_sendMidiMessage msg : holds warns_once (sendMidiMessage msg).
Proof.
  intros s a s' o. rewrite sendMidiMessage_run. intros E0. inversion E0; subst.
  unfold warns_once, warned, sent, warnings_left.
  destruct (virtMidiOut_ s), (missingOutputPortWarningPrinted s) eqn:E;
    simpl; rewrite ?E; simpl; lia.
Qed.

Lemma warns_once_cerr s l : l <> LogMissingOutputPort -> warns_once s [cerr l] s.
Proof. intros Hl. unfold warns_once. destruct l; try (simpl; lia). destruct Hl. reflexivity. Qed.

Ltac warns_once :=
  steps warns_once_nil warns_once_app
    ltac:(first [ exact warns_once_sendMidiMessage | exact warns_once_cerr
                | intros; unfold warns_once, warnings_left; simpl;
                  match goal with |- context [if ?b then _ else _] => destruct b end;
                  simpl; lia ]).

Lemma warns_once_callback (c : Callback) : respects warns_once c.
Proof.
  destruct c as [msg|net address message|os].
  - apply respects_midi_in. apply at_handleIncomingMidiMessage; warns_once.
  - apply respects_osc_in; try warns_once.
    + intros _. apply at_handlePingAckMessage; warns_once.
    + apply at_handleCtrlMessage; warns_once.
    + apply at_handleHeartbeatMessage; warns_once.
  - apply respects_timer_tick. apply at_timerCallback; warns_once.
Qed.

(** X7. The warning about the missing MIDI output port is written at most
    once in the life of the program, and not at all once it has been
    written. *)
Theorem callbacks_warn_once (cs : list Callback) (p p' : Program) (o : list Output) :
  callbacks cs p = Returned p' o ->
  (warnings (app_events o) <= 1)%nat /\
  (missingOutputPortWarningPrinted (app_ p) = true -> warnings (app_events o) = 0%nat).
Proof.
  intros H.
  pose proof (respects_callbacks warns_once warns_once_nil warns_once_app cs
                (fun c _ => warns_once_callback c) p p' o H) as Hw.
  unfold warns_once, warnings_left in Hw.
  split; [destruct (missingOutputPortWarningPrinted (app_ p)); lia|].
  intros E. rewrite E in Hw. lia.
Qed.
(** ** The example session *)

Lemma wf_started (port : Z) : wf (app_ (started port)).
Proof. apply wf_concrete; reflexivity. Qed.

Lemma example_returns :
  callbacks example_session (started 0) = Returned example_end (outputs example_outcome).
Proof. vm_compute. reflexivity. Qed.

Lemma callbacks_keep_pool_witness :
  wf (app_ (started 0)) /\
  callbacks example_session (started 0) = Returned example_end (outputs example_outcome) /\
  wf (app_ example_end) /\
  led_indices (app_ example_end) = led_indices (app_ (started 0)).
Proof.
  split; [apply wf_started|]. split; [exact example_returns|].
  exact (callbacks_keep_pool example_session (started 0) example_end
           (outputs example_outcome) (wf_started 0) example_returns).
Defined.

Lemma callbacks_keep_mode_witness :
  callbacks example_session (started 0) = Returned example_end (outputs example_outcome) /\
  mode_ok (app_ (started 0)) /\ mode_ok (app_ example_end).
Proof.
  split; [exact example_returns|]. split; [left; reflexivity|].
  apply (callbacks_keep_mode example_session (started 0) example_end
           (outputs example_outcome) example_returns).
  left. reflexivity.
Defined.

Lemma callbacks_stay_connected_witness :
  counting (app_ (started 0)) /\
  callbacks example_session (started 0) = Returned example_end (outputs example_outcome) /\
  counting (app_ example_end).
Proof.
  assert (counting (app_ (started 0))) as Hc by (unfold counting; simpl; lia).
  split; [exact Hc|]. split; [exact example_returns|].
  exact (proj1 (callbacks_stay_connected example_session (started 0) example_end
                  (outputs example_outcome) Hc example_returns)).
Defined.

Lemma callbacks_keep_engine_witness :
  forallb (fun c => negb (is_pingack c)) [new_engine_heartbeat; new_engine_heartbeat] = true /\
  callbacks [new_engine_heartbeat; new_engine_heartbeat] (started 0)
    = Returned
        (default (started 0)
           (final_program (callbacks [new_engine_heartbeat; new_engine_heartbeat] (started 0))))
        (outputs (callbacks [new_engine_heartbeat; new_engine_heartbeat] (started 0))) /\
  engineId_
    (app_ (default (started 0)
             (final_program (callbacks [new_engine_heartbeat; new_engine_heartbeat] (started 0)))))
    = 0.
Proof.
  split; [reflexivity|].
  assert (callbacks [new_engine_heartbeat; new_engine_heartbeat] (started 0)
          = Returned
              (default (started 0)
                 (final_program (callbacks [new_engine_heartbeat; new_engine_heartbeat] (started 0))))
              (outputs (callbacks [new_engine_heartbeat; new_engine_heartbeat] (started 0))))
    as H by (vm_compute; reflexivity).
  split; [exact H|].
  exact (callbacks_keep_engine [new_engine_heartbeat; new_engine_heartbeat] _ _ _ eq_refl H).
Defined.

Lemma callback_sides_witness :
  callback first_pedal_down (started 0)
    = Returned (default (started 0) (final_program (callback first_pedal_down (started 0))))
        (outputs (callback first_pedal_down (started 0))) /\
  looper_requests (app_events (outputs (callback first_pedal_down (started 0)))) = [].
Proof.
  assert (callback first_pedal_down (started 0)
          = Returned (default (started 0) (final_program (callback first_pedal_down (started 0))))
              (outputs (callback first_pedal_down (started 0))))
    as H by (vm_compute; reflexivity).
  split; [exact H|].
  exact (callback_sides first_pedal_down (started 0) _ _ H).
Defined.

Lemma callbacks_warn_once_witness :
  callbacks [first_pedal_down; first_pedal_down] (started 0)
    = Returned
        (default (started 0)
           (final_program (callbacks [first_pedal_down; first_pedal_down] (started 0))))
        (outputs (callbacks [first_pedal_down; first_pedal_down] (started 0))) /\
  (warnings (app_events (outputs (callbacks [first_pedal_down; first_pedal_down] (started 0))))
   <= 1)%nat.
Proof.
  assert (callbacks [first_pedal_down; first_pedal_down] (started 0)
          = Returned
              (default (started 0)
                 (final_program (callbacks [first_pedal_down; first_pedal_down] (started 0))))
              (outputs (callbacks [first_pedal_down; first_pedal_down] (started 0))))
    as H by (vm_compute; reflexivity).
  split; [exact H|].
  exact (proj1 (callbacks_warn_once _ _ _ _ H)).
Defined.

(** ** Callbacks that cannot fault *)

Lemma runs_ret {A} (a : A) : runs (ret a).
Proof. intros s. eexists _, _, _. reflexivity. Qed.

Lemma runs_gets {A} (f : App -> A) : runs (gets f).
Proof. intros s. eexists _, _, _. reflexivity. Qed.

Lemma runs_modify (f : App -> App) : runs (modify f).
Proof. intros s. eexists _, _, _. reflexivity. Qed.

Lemma runs_emit (e : Event) : runs (emit e).
Proof. intros s. eexists _, _, _. reflexivity. Qed.

Lemma runs_bind {A B} (m : M A) (k : A -> M B) :
  runs m -> (forall a, runs (k a)) -> runs (bind m k).
Proof.
  intros Hm Hk s. destruct (Hm s) as (a & s1 & o1 & H1).
  destruct (Hk a s1) as (b & s2 & o2 & H2).
  rewrite (bind_Done _ _ _ _ _ _ H1), H2. eexists _, _, _. reflexivity.
Qed.

Lemma runs_when (b : bool) (m : M unit) : runs m -> runs (when b m).
Proof. intros H. destruct b; [exact H | apply runs_ret]. Qed.

Lemma runs_sendMidiMessage (msg : MidiMessage) : runs (sendMidiMessage msg).
Proof. intros s. rewrite sendMidiMessage_run. eexists _, _, _. reflexivity. Qed.

Ltac runs :=
  repeat first [ apply runs_ret | apply runs_gets | apply runs_modify | apply runs_emit
               | apply runs_sendMidiMessage
               | apply runs_when
               | apply runs_bind; [|intros ?]
               | match goal with
                 | |- runs (if ?b then _ else _) => destruct b
                 | |- runs (match ?x with _ => _ end) => destruct x
                 | |- runs (let _ := _ in _) => cbv zeta
                 end ].

Lemma runs_timerCallback (os : Devices) : runs (timerCallback os).
Proof.
  unfold timerCallback, timer_midi_input, timer_virtual_output, timer_osc, replyUrl.
  runs.
Qed.

Lemma safe_of_runs {A} (m : M A) : runs m -> holds keeps_pool m -> safe m.
Proof.
  intros Hr Hk s Hwf. destruct (Hr s) as (a & s' & o & H).
  exists a, s', o. split; [exact H|]. exact (proj1 (Hk _ _ _ _ H Hwf)).
Qed.

Lemma safe_bind {A B} (m : M A) (k : A -> M B) :
  safe m -> (forall a, safe (k a)) -> safe (bind m k).
Proof.
  intros Hm Hk s Hwf. destruct (Hm s Hwf) as (a & s1 & o1 & H1 & Hwf1).
  destruct (Hk a s1 Hwf1) as (b & s2 & o2 & H2 & Hwf2).
  rewrite (bind_Done _ _ _ _ _ _ H1), H2. eexists _, _, _. split; [reflexivity | exact Hwf2].
Qed.

Lemma safe_led_switch (cc : Z) (on : bool) (i : Z) :
  0 <= i < 10 -> safe (led_switch cc on i).
Proof.
  intros Hi s Hwf.
  destruct (lookup_lt_is_Some_2 (leds_ s) (Z.to_nat i)) as [led Hled].
  { rewrite (proj1 Hwf). lia. }
  pose proof (led_switch_in cc on i s led ltac:(lia) Hled) as H.
  eexists _, _, _. split; [exact H|].
  exact (proj1 (keeps_pool_led_switch cc on i _ _ _ _ H Hwf)).
Qed.

Lemma safe_updateLoops : safe updateLoops.
Proof.
  intros s Hwf. destruct (updateLoops_run s Hwf) as (out & H & _).
  eexists _, _, _. split; [exact H|].
  refine (proj1 (at_updateLoops keeps_pool keeps_pool_nil keeps_pool_app _ _ _ _ _ _ _ H Hwf));
    pool.
Qed.

Lemma safe_sendMidiMessage (msg : MidiMessage) : safe (sendMidiMessage msg).
Proof. apply safe_of_runs; [apply runs_sendMidiMessage | apply keeps_pool_sendMidiMessage]. Qed.

Lemma safe_plain {A} (m : M A) :
  (forall s, exists a o, m s = Done a s o) -> safe m.
Proof. intros H s Hwf. destruct (H s) as (a & o & E). eauto 6. Qed.

Lemma safe_handleIncomingMidiMessage (msg : MidiMessage) :
  safe (handleIncomingMidiMessage msg).
Proof.
  unfold handleIncomingMidiMessage.
  apply safe_bind; [|intros _; apply safe_plain; intros s; eexists _, _; reflexivity].
  destruct msg as [ch number value| | |];
    try (apply safe_plain; intros s; eexists _, _; reflexivity).
  apply safe_bind; [apply safe_plain; intros s; eexists _, _; reflexivity|]. intros channel.
  apply safe_bind; [apply safe_plain; intros s; eexists _, _; reflexivity|]. intros baseNote.
  assert (forall m, safe (do mode <- gets mode_; sendMidiMessage (m mode))) as Hloop.
  { intros m. apply safe_bind; [apply safe_plain; intros s; eexists _, _; reflexivity|].
    intros mode. apply safe_sendMidiMessage. }
  assert (safe (do midiOut <- gets virtMidiOut_;
                when midiOut (emit (midi_send (controllerEvent ch number value))))) as Hother.
  { apply safe_plain. intros s. unfold bind, gets, when.
    destruct (virtMidiOut_ s); eexists _, _; reflexivity. }
  destruct number as [|n|n]; [exact Hother| |exact Hother].
  do 7 (try destruct n as [n|n|]); try exact Hother.
  - (* 105 *)
    destruct ((0 <=? pedalIndex value) && (pedalIndex value <=? 3));
      [apply (Hloop (fun mode => noteOff _ (_ + mode + _) 0))|].
    destruct (pedalIndex value =? RECORD);
      [apply safe_plain; intros s; eexists _, _; reflexivity|].
    destruct (pedalIndex value =? UNDO) eqn:E; [|apply safe_sendMidiMessage].
    apply Z.eqb_eq in E. rewrite E.
    apply safe_bind; [apply safe_led_switch; unfold UNDO; lia|]. intros _.
    apply safe_bind; [apply safe_sendMidiMessage|]. intros _. apply safe_updateLoops.
  - (* 104 *)
    destruct ((0 <=? pedalIndex value) && (pedalIndex value <=? 3));
      [apply (Hloop (fun mode => noteOn _ (_ + mode + _) 127))|].
    destruct (pedalIndex value =? RECORD) eqn:E.
    + apply Z.eqb_eq in E. rewrite E.
      apply safe_bind; [apply safe_plain; intros s; eexists _, _; reflexivity|]. intros mode.
      apply safe_bind.
      { apply safe_of_runs; [apply runs_modify|]. intros s a s' o H. inversion H; subst.
        apply keeps_pool_same; reflexivity. }
      intros _. apply safe_bind; [|intros _; apply safe_updateLoops].
      destruct ((if 0 <? mode then 0 else 20) =? 0); apply safe_led_switch; unfold RECORD; lia.
    + destruct (pedalIndex value =? UNDO) eqn:E'; [|apply safe_sendMidiMessage].
      apply Z.eqb_eq in E'. rewrite E'.
      apply safe_bind; [apply safe_led_switch; unfold UNDO; lia|]. intros _.
      apply safe_sendMidiMessage.
Qed.

Lemma callback_returns (c : Callback) (p : Program) :
  is_osc_in c = false -> wf (app_ p) -> exists p' o, callback c p = Returned p' o.
Proof.
  destruct c as [msg|net address message|os]; [|discriminate|]; intros _ Hwf; simpl;
    unfold run_member.
  - destruct (safe_handleIncomingMidiMessage msg (app_ p) Hwf) as (a & s' & o & -> & _).
    eauto.
  - destruct (runs_timerCallback os (app_ p)) as (a & s' & o & ->). eauto.
Qed.

(** X8. A MIDI message and a tick of the timer cannot fault: from
    well-formed members every sequence of them returns. The accesses out of
    bounds and past the end of a message are all in the handlers of OSC
    messages. *)
Theorem callbacks_return (cs : list Callback) (p : Program) :
  forallb (fun c => negb (is_osc_in c)) cs = true ->
  wf (app_ p) ->
  exists p' o, callbacks cs p = Returned p' o.
Proof.
  revert p. induction cs as [|c cs IH]; intros p Hcs Hwf; simpl.
  - eauto.
  - simpl in Hcs. apply andb_prop in Hcs as [Hc Hcs]. apply negb_true_iff in Hc.
    destruct (callback_returns c p Hc Hwf) as (p1 & o1 & H1). rewrite H1.
    destruct (IH p1 Hcs) as (p' & o & H).
    { exact (proj1 (keeps_pool_callback c p p1 o1 H1 Hwf)). }
    rewrite H. simpl. eauto.
Qed.

Lemma callbacks_return_witness :
  forallb (fun c => negb (is_osc_in c))
    [timer_tick friendly; midi_in (controllerEvent 1 104 5); midi_in (controllerEvent 1 105 10)]
    = true /\
  wf (app_ (started 0)) /\
  exists p' o,
    callbacks
      [timer_tick friendly; midi_in (controllerEvent 1 104 5); midi_in (controllerEvent 1 105 10)]
      (started 0) = Returned p' o.
Proof.
  split; [reflexivity|]. split; [apply wf_started|].
  exact (callbacks_return
           [timer_tick friendly; midi_in (controllerEvent 1 104 5);
            midi_in (controllerEvent 1 105 10)]
           (started 0) eq_refl (wf_started 0)).
Defined.

(** ** The display client *)

(** X9. The three queries of a display client, [/loop4r/ping],
    [/loop4r/leds] and [/loop4r/display], change nothing in the program and
    send nothing through the program's own senders or ports: what they
    write goes through the temporary sender or to [std::cerr]. *)
Theorem client_queries_change_nothing (net : Sockets) (message : OSCMessage)
    (p p' : Program) (o : list Output) :
  handlePingMessage net message p = Returned p' o \/
  handleLedsMessage net message p = Returned p' o \/
  handleDisplayMessage net message p = Returned p' o ->
  p' = p /\ app_events o = [].
Proof.
  assert (forall send,
            (forall host port url, app_events (send host port url) = []) ->
            reply net message send p = Returned p' o -> p' = p /\ app_events o = []) as Hr.
  { intros send Hsend H.
    apply reply_inv in H as (-> & [->|(host & port & url & _ & [->| ->])]);
      rewrite ?Hsend; auto. }
  intros [H|[H|H]]; revert H; apply Hr; intros host port url.
  - simpl. destruct (replySend net); reflexivity.
  - apply (app_events_fmap_none (fun led => reply_send host port url (led_arguments led))).
    intros x. exact I.
  - reflexivity.
Qed.

Lemma client_queries_change_nothing_witness :
  handleLedsMessage reachable [Str "127.0.0.1"; Int32 9001; Str "/leds"] example_end
    = Returned example_end
        (outputs (handleLedsMessage reachable [Str "127.0.0.1"; Int32 9001; Str "/leds"]
                    example_end)) /\
  example_end = example_end /\
  app_events (outputs (handleLedsMessage reachable [Str "127.0.0.1"; Int32 9001; Str "/leds"]
                         example_end)) = [].
Proof.
  assert (handleLedsMessage reachable [Str "127.0.0.1"; Int32 9001; Str "/leds"] example_end
          = Returned example_end
              (outputs (handleLedsMessage reachable [Str "127.0.0.1"; Int32 9001; Str "/leds"]
                          example_end))) as H by (vm_compute; reflexivity).
  split; [exact H|].
  exact (client_queries_change_nothing reachable [Str "127.0.0.1"; Int32 9001; Str "/leds"]
           example_end example_end _ (or_intror (or_introl H))).
Defined.

Lemma reply_faults (net : Sockets) (message : OSCMessage)
    (send : string -> Z -> string -> list Output) (p : Program) (f : Fault) (o : list Output) :
  reply net message send p = Faulted f o <->
  f = PastTheEnd /\ o = [] /\ (host_only message \/ host_and_port_only message).
Proof.
  unfold reply, host_only, host_and_port_only. split.
  - destruct message as [|[| |host|] [|[port| | |] [|[| |url|] rest]]]; simpl;
      try discriminate; try (destruct (negb (replyConnect net host port)); discriminate);
      intros [= <- <-]; eauto 8.
  - intros (-> & -> & [[host ->]|(host & port & ->)]); reflexivity.
Qed.

(** X10. The handlers of a display client's messages step a pointer through
    the arguments without a look at the end of the message. The three
    queries fault, by a read past the end, exactly on a message that is a
    host alone or a host and a port alone; the registration exactly on a
    host alone. Every other message is answered or ignored. *)
Theorem client_messages_fault (net : Sockets) (message : OSCMessage) (p : Program)
    (f : Fault) (o : list Output) :
  (handlePingMessage net message p = Faulted f o <->
   f = PastTheEnd /\ o = [] /\ (host_only message \/ host_and_port_only message)) /\
  (handleLedsMessage net message p = Faulted f o <->
   f = PastTheEnd /\ o = [] /\ (host_only message \/ host_and_port_only message)) /\
  (handleDisplayMessage net message p = Faulted f o <->
   f = PastTheEnd /\ o = [] /\ (host_only message \/ host_and_port_only message)) /\
  (forall unreg,
     handleRegisterAutoUpdateMessage net message unreg p = Faulted f o <->
     f = PastTheEnd /\ o = [] /\ host_only message).
Proof.
  split; [apply reply_faults|]. split; [apply reply_faults|]. split; [apply reply_faults|].
  intros unreg. unfold handleRegisterAutoUpdateMessage, host_only. split.
  - destruct message as [|[| |host|] [|[port| | |] rest]]; simpl; try discriminate.
    + intros [= <- <-]. eauto.
    + destruct unreg.
      * destruct (oscLedSenderInitialized_ (app_ p)); [|discriminate].
        destruct (negb (ledSenderDisconnect net)); discriminate.
      * destruct (negb (String.eqb host (oscRemoteHost_ p)) || negb (port =? oscRemotePort_ p));
          [|discriminate].
        destruct (negb (ledSenderConnect net host port)); discriminate.
  - intros (-> & -> & [host ->]). reflexivity.
Qed.

Lemma on_record_registered (host : string) (port : Z) (p : Program) :
  on_record host port (registered host port p) = true.
Proof. unfold on_record. simpl. rewrite String.eqb_refl, Z.eqb_refl. reflexivity. Qed.

Lemma register_on_record (net : Sockets) (host : string) (port : Z)
    (rest : list OSCArgument) (p : Program) :
  on_record host port p = true ->
  handleRegisterAutoUpdateMessage net (Str host :: Int32 port :: rest) false p
    = Returned p [].
Proof.
  unfold on_record, handleRegisterAutoUpdateMessage. intros H.
  apply andb_prop in H as [-> ->]. reflexivity.
Qed.

Lemma register_off_record (net : Sockets) (host : string) (port : Z)
    (rest : list OSCArgument) (p : Program) :
  on_record host port p = false ->
  handleRegisterAutoUpdateMessage net (Str host :: Int32 port :: rest) false p
    = (let dropped :=
         if oscLedSenderInitialized_ (app_ p) then
           if negb (ledSenderDisconnect net) then
             (p, [led_sender_disconnect;
                  client_cerr (LogRegisterDisconnectError (oscRemotePort_ p))])
           else (unregistered p, [led_sender_disconnect])
         else (p, []) in
       if negb (ledSenderConnect net host port) then
         Returned (fst dropped)
           (snd dropped ++ [led_sender_connect host port;
                            client_cerr (LogRegisterConnectError (oscRemotePort_ (fst dropped)))])
       else Returned (registered host port (fst dropped))
              (snd dropped ++ [led_sender_connect host port])).
Proof.
  unfold on_record, handleRegisterAutoUpdateMessage. intros H.
  rewrite <- negb_andb, H. reflexivity.
Qed.

(** X11. A registration with sockets that work. Whatever the rest of the
    message and whoever was registered before, the program ends registered
    to the host and port of the message, provided a client is registered or
    the target is not the one on record; [oscLedSender] is disconnected
    first when a client was registered, and then connected. The same
    message once more is ignored: no socket is touched. *)
Theorem register_connects (net : Sockets) (host : string) (port : Z)
    (rest : list OSCArgument) (p : Program) :
  ledSenderDisconnect net = true ->
  ledSenderConnect net host port = true ->
  oscLedSenderInitialized_ (app_ p) = true \/ on_record host port p = false ->
  exists p1 o,
    handleRegisterAutoUpdateMessage net (Str host :: Int32 port :: rest) false p
      = Returned p1 o /\
    registered_to host port p1 /\
    app_ p1 = set_oscLedSenderInitialized true (app_ p) /\
    (on_record host port p = false ->
     o = (if oscLedSenderInitialized_ (app_ p) then [led_sender_disconnect] else [])
         ++ [led_sender_connect host port]) /\
    handleRegisterAutoUpdateMessage net (Str host :: Int32 port :: rest) false p1
      = Returned p1 [].
Proof.
  intros Hd Hc Hp.
  destruct (on_record host port p) eqn:Hrec.
  - destruct Hp as [Hinit|]; [|discriminate].
    exists p, []. split; [apply register_on_record, Hrec|].
    pose proof Hrec as Hrec'. unfold on_record in Hrec'.
    apply andb_prop in Hrec' as [Eh Ep].
    apply String.eqb_eq in Eh. apply Z.eqb_eq in Ep.
    split; [split; [exact Hinit | auto]|].
    split; [destruct p as [[] ? ?]; simpl in *; rewrite Hinit; reflexivity|].
    split; [discriminate | apply register_on_record, Hrec].
  - rewrite (register_off_record _ _ _ _ _ Hrec), Hd, Hc. simpl negb. cbv zeta iota.
    destruct (oscLedSenderInitialized_ (app_ p)) eqn:Hinit; cbn [fst snd].
    + exists (registered host port (unregistered p)),
        [led_sender_disconnect; led_sender_connect host port].
      split; [reflexivity|]. split; [repeat split|]. split; [reflexivity|].
      split; [reflexivity|]. apply register_on_record, on_record_registered.
    + exists (registered host port p), [led_sender_connect host port].
      split; [reflexivity|]. split; [repeat split|]. split; [reflexivity|].
      split; [reflexivity|]. apply register_on_record, on_record_registered.
Qed.

Lemma register_connects_witness :
  ledSenderDisconnect reachable = true /\
  ledSenderConnect reachable "10.0.0.2" 7000 = true /\
  (oscLedSenderInitialized_ (app_ example_end) = true \/
   on_record "10.0.0.2" 7000 example_end = false) /\
  exists p1 o,
    handleRegisterAutoUpdateMessage reachable [Str "10.0.0.2"; Int32 7000] false example_end
      = Returned p1 o /\
    registered_to "10.0.0.2" 7000 p1.
Proof.
  split; [reflexivity|]. split; [reflexivity|].
  assert (oscLedSenderInitialized_ (app_ example_end) = true \/
          on_record "10.0.0.2" 7000 example_end = false) as H by (left; reflexivity).
  split; [exact H|].
  destruct (register_connects reachable "10.0.0.2" 7000 [] example_end eq_refl eq_refl H)
    as (p1 & o & Hrun & Hreg & _).
  exists p1, o. split; [exact Hrun | exact Hreg].
Defined.

(** A registration with sockets that work leaves a client registered. *)
Lemma register_registers (net : Sockets) (host : string) (port : Z)
    (rest : list OSCArgument) (p : Program) :
  ledSenderDisconnect net = true ->
  ledSenderConnect net host port = true ->
  oscLedSenderInitialized_ (app_ p) = true \/ on_record host port p = false ->
  exists p1 o,
    handleRegisterAutoUpdateMessage net (Str host :: Int32 port :: rest) false p
      = Returned p1 o /\
    oscLedSenderInitialized_ (app_ p1) = true /\
    app_ p1 = set_oscLedSenderInitialized true (app_ p).
Proof.
  intros Hd Hc Hp.
  destruct (on_record host port p) eqn:Hrec.
  - destruct Hp as [Hinit|]; [|discriminate].
    exists p, []. split; [apply register_on_record, Hrec|]. split; [exact Hinit|].
    destruct p as [[] ? ?]; simpl in *; rewrite Hinit; reflexivity.
  - rewrite (register_off_record _ _ _ _ _ Hrec), Hd, Hc. simpl negb. cbv zeta iota.
    destruct (oscLedSenderInitialized_ (app_ p)); cbn [fst snd];
      eexists _, _; (split; [reflexivity|]); split; reflexivity.
Qed.

Lemma unregister_run (net : Sockets) (host : string) (port : Z)
    (rest : list OSCArgument) (p : Program) :
  ledSenderDisconnect net = true ->
  handleRegisterAutoUpdateMessage net (Str host :: Int32 port :: rest) true p
    = if oscLedSenderInitialized_ (app_ p)
      then Returned (unregistered p) [led_sender_disconnect]
      else Returned p [].
Proof. intros Hd. unfold handleRegisterAutoUpdateMessage. rewrite Hd. reflexivity. Qed.

(** The lines that describe a message on [std::cerr]. *)
Lemma app_events_message_lines (address : string) (message : OSCMessage) :
  app_events
    (client_cerr (LogOscMessage address (length message))
     :: ((fun arg => client_cerr (LogOscArgument arg)) <$> message)) = [].
Proof.
  apply (app_events_fmap_none (fun arg => client_cerr (LogOscArgument arg))).
  intros x. exact I.
Qed.

Lemma oscMessageReceived_register (net : Sockets) (message : OSCMessage) (p : Program) :
  oscMessageReceived net "/loop4r/register_auto_update" message p
  = after_output
      (client_cerr (LogOscMessage "/loop4r/register_auto_update" (length message))
       :: ((fun arg => client_cerr (LogOscArgument arg)) <$> message))
      (handleRegisterAutoUpdateMessage net message false p).
Proof. reflexivity. Qed.

Lemma oscMessageReceived_unregister (net : Sockets) (message : OSCMessage) (p : Program) :
  oscMessageReceived net "/loop4r/unregister_auto_update" message p
  = after_output
      (client_cerr (LogOscMessage "/loop4r/unregister_auto_update" (length message))
       :: ((fun arg => client_cerr (LogOscArgument arg)) <$> message))
      (handleRegisterAutoUpdateMessage net message true p).
Proof. reflexivity. Qed.

(** X12. Registration and unregistration as messages to the program, with
    sockets that work: after a client has registered, an unregistration
    from anyone, whatever host and port it names, leaves the program
    unregistered, with an empty host and port -1 on record and the members
    otherwise as they were. *)
Theorem register_unregister (net : Sockets) (host host' : string) (port port' : Z)
    (rest rest' : list OSCArgument) (p : Program) :
  ledSenderDisconnect net = true ->
  ledSenderConnect net host port = true ->
  oscLedSenderInitialized_ (app_ p) = true \/ on_record host port p = false ->
  exists o,
    callbacks [register_message net (Str host :: Int32 port :: rest);
               unregister_message net (Str host' :: Int32 port' :: rest')] p
      = Returned (unregistered p) o /\
    app_events o = [].
Proof.
  intros Hd Hc Hp.
  destruct (register_registers net host port rest p Hd Hc Hp)
    as (p1 & o1 & H1 & Hinit & Happ).
  assert (handleRegisterAutoUpdateMessage net (Str host' :: Int32 port' :: rest') true p1
          = Returned (unregistered p) [led_sender_disconnect]) as H2.
  { rewrite (unregister_run _ _ _ _ _ Hd), Hinit. unfold unregistered. rewrite Happ.
    reflexivity. }
  unfold callbacks, callback, register_message, unregister_message.
  rewrite oscMessageReceived_register, H1. cbn [after_output].
  rewrite oscMessageReceived_unregister, H2. cbn [after_output].
  eexists. split; [reflexivity|].
  rewrite !app_events_app, !app_events_message_lines.
  destruct (handleRegisterAutoUpdateMessage_inv _ _ _ _ _ _ H1) as [-> _]. reflexivity.
Qed.

Lemma register_unregister_witness :
  ledSenderDisconnect reachable = true /\
  ledSenderConnect reachable "10.0.0.2" 7000 = true /\
  (oscLedSenderInitialized_ (app_ (started 0)) = true \/
   on_record "10.0.0.2" 7000 (started 0) = false) /\
  exists o,
    callbacks [register_message reachable [Str "10.0.0.2"; Int32 7000];
               unregister_message reachable [Str "10.0.0.9"; Int32 1]] (started 0)
      = Returned (unregistered (started 0)) o /\
    app_events o = [].
Proof.
  split; [reflexivity|]. split; [reflexivity|].
  assert (oscLedSenderInitialized_ (app_ (started 0)) = true \/
          on_record "10.0.0.2" 7000 (started 0) = false) as H by (right; reflexivity).
  split; [exact H|].
  exact (register_unregister reachable "10.0.0.2" "10.0.0.9" 7000 1 [] [] (started 0)
           eq_refl eq_refl H).
Defined.

(** X13. A registration that cannot connect. When a client is registered
    and another target asks, [oscLedSender] is disconnected before the new
    connection is tried; when that fails the program is left with no client
    at all, and the error line names port -1, the value just put on record,
    not the port that could not be reached. *)
Theorem register_failure_drops_client (net : Sockets) (host : string) (port : Z)
    (rest : list OSCArgument) (p : Program) :
  oscLedSenderInitialized_ (app_ p) = true ->
  on_record host port p = false ->
  ledSenderDisconnect net = true ->
  ledSenderConnect net host port = false ->
  handleRegisterAutoUpdateMessage net (Str host :: Int32 port :: rest) false p
    = Returned (unregistered p)
        [led_sender_disconnect; led_sender_connect host port;
         client_cerr (LogRegisterConnectError (-1))].
Proof.
  intros Hinit Hrec Hd Hc.
  rewrite (register_off_record _ _ _ _ _ Hrec), Hinit, Hd, Hc. reflexivity.
Qed.

Lemma register_failure_drops_client_witness :
  oscLedSenderInitialized_ (app_ example_end) = true /\
  on_record "10.0.0.2" 7000 example_end = false /\
  ledSenderDisconnect unreachable = true /\
  ledSenderConnect unreachable "10.0.0.2" 7000 = false /\
  handleRegisterAutoUpdateMessage unreachable [Str "10.0.0.2"; Int32 7000] false example_end
    = Returned (unregistered example_end)
        [led_sender_disconnect; led_sender_connect "10.0.0.2" 7000;
         client_cerr (LogRegisterConnectError (-1))].
Proof.
  split; [reflexivity|]. split; [reflexivity|]. split; [reflexivity|]. split; [reflexivity|].
  exact (register_failure_drops_client unreachable "10.0.0.2" 7000 [] example_end
           eq_refl eq_refl eq_refl eq_refl).
Defined.

Lemma display_sent_app (o1 o2 : list Event) :
  display_sent (o1 ++ o2) = display_sent o1 ++ display_sent o2.
Proof. apply omap_app. Qed.

Lemma dark_nil s : dark s [] s.
Proof. intros H. auto. Qed.

Lemma dark_app s1 o1 s2 o2 s3 : dark s1 o1 s2 -> dark s2 o2 s3 -> dark s1 (o1 ++ o2) s3.
Proof.
  intros H1 H2 H. destruct (H1 H) as [H' E1]. destruct (H2 H') as [H'' E2].
  split; [exact H''|]. rewrite display_sent_app, E1, E2. reflexivity.
Qed.

Lemma dark_sendMidiMessage msg : holds dark (sendMidiMessage msg).
Proof.
  intros s a s' o H. apply sendMidiMessage_fields in H as (_&_&_&_&_&_&_& E & _ & ->).
  intros Hs. split; [congruence|]. unfold sent.
  destruct (virtMidiOut_ s), (missingOutputPortWarningPrinted s); reflexivity.
Qed.

Ltac dark :=
  steps dark_nil dark_app
    ltac:(first [ exact dark_sendMidiMessage
                | intros; intros ?; split; [assumption | reflexivity]
                | intros; intros ?; congruence ]).

(** X14. While no display client is registered nothing goes out through
    [oscLedSender], whatever the callback. *)
Theorem unregistered_is_dark (c : Callback) (p p' : Program) (o : list Output) :
  callback c p = Returned p' o ->
  oscLedSenderInitialized_ (app_ p) = false ->
  display_sent (app_events o) = [].
Proof.
  intros H. revert p p' o H. change (respects dark_output c).
  assert (forall m : M unit, holds dark m -> holds dark_output m) as Hweak.
  { intros m Hm s a s' o H Hs. exact (proj2 (Hm s a s' o H Hs)). }
  destruct c as [msg|net address message|os].
  - apply respects_midi_in, Hweak. apply at_handleIncomingMidiMessage; dark.
  - apply respects_osc_in.
    + intros s _. reflexivity.
    + intros _. apply Hweak. apply at_handlePingAckMessage; dark.
    + apply Hweak. apply at_handleCtrlMessage; dark.
    + apply Hweak. apply at_handleHeartbeatMessage; dark.
    + intros s b _. reflexivity.
  - apply respects_timer_tick, Hweak. apply at_timerCallback; dark.
Qed.

Lemma unregistered_is_dark_witness :
  callback new_engine_heartbeat (started 0)
    = Returned (default (started 0) (final_program (callback new_engine_heartbeat (started 0))))
        (outputs (callback new_engine_heartbeat (started 0))) /\
  oscLedSenderInitialized_ (app_ (started 0)) = false /\
  display_sent (app_events (outputs (callback new_engine_heartbeat (started 0)))) = [].
Proof.
  assert (callback new_engine_heartbeat (started 0)
          = Returned
              (default (started 0) (final_program (callback new_engine_heartbeat (started 0))))
              (outputs (callback new_engine_heartbeat (started 0))))
    as H by (vm_compute; reflexivity).
  split; [exact H|]. split; [reflexivity|].
  exact (unregistered_is_dark new_engine_heartbeat (started 0) _ _ H eq_refl).
Defined.

(** ** The picture of a display client *)

Lemma display_app (o1 o2 : list Event) (view : list (list OSCArgument)) :
  display (o1 ++ o2) view = display o2 (display o1 view).
Proof. apply foldl_app. Qed.

Lemma mirrored_nil s : mirrored s [] s.
Proof. intros H. auto. Qed.

Lemma mirrored_app s1 o1 s2 o2 s3 :
  mirrored s1 o1 s2 -> mirrored s2 o2 s3 -> mirrored s1 (o1 ++ o2) s3.
Proof.
  intros H1 H2 H. destruct (H1 H) as [H' E1]. destruct (H2 H') as [H'' E2].
  split; [exact H''|]. rewrite display_app, E1, E2. reflexivity.
Qed.

(** A step that leaves the LEDs and the registration alone, and whose
    output is no message about an LED. *)
Lemma mirrored_same s o s' :
  leds_ s' = leds_ s ->
  oscLedSenderInitialized_ s' = oscLedSenderInitialized_ s ->
  (wf s -> wf s') ->
  (forall view, display o view = view) ->
  mirrored s o s'.
Proof.
  intros El Ei Hwf Ho (Hinit & Hw & Hidx). split.
  - split; [congruence|]. split; [auto|]. unfold indexed. rewrite El. exact Hidx.
  - rewrite Ho. unfold picture. rewrite El. reflexivity.
Qed.

Lemma alter_lookup_insert {A} (f : A -> A) (n : nat) (l : list A) (x : A) :
  l !! n = Some x -> alter f n l = <[n := f x]> l.
Proof.
  revert n. induction l as [|y l IH]; intros [|n] H; simpl in *; try discriminate.
  - injection H as ->. reflexivity.
  - f_equal. apply IH, H.
Qed.

(** After [on_] of an LED has been written and the LED has been sent, the
    picture is the one of the new LEDs. *)
Lemma shown_led (s : App) (n : nat) (led : LED.t) (f : LED.t -> LED.t) :
  keeps_index f -> indexed s -> leds_ s !! n = Some led ->
  shown (picture s) (led_message (f led)) = led_arguments <$> alter f n (leds_ s).
Proof.
  intros Hf Hidx Hl. unfold shown, led_message, picture.
  rewrite Hf, (Hidx _ _ Hl). change (String.eqb "/led" "/led") with true.
  replace (0 <=? Z.of_nat n) with true by (symmetry; apply Z.leb_le; lia).
  cbn [andb]. rewrite Nat2Z.id, (alter_lookup_insert f n _ _ Hl), list_fmap_insert.
  unfold led_arguments. rewrite Hf, (Hidx _ _ Hl). reflexivity.
Qed.

Lemma indexed_alter (s : App) (n : nat) (f : LED.t -> LED.t) :
  keeps_index f -> indexed s -> indexed (set_leds (alter f n (leds_ s)) s).
Proof.
  intros Hf Hidx m led. simpl. destruct (decide (m = n)) as [->|Hne].
  - rewrite list_lookup_alter_eq. destruct (leds_ s !! n) as [l|] eqn:E; [|discriminate].
    intros [= <-]. rewrite Hf. apply Hidx, E.
  - rewrite list_lookup_alter_ne by congruence. apply Hidx.
Qed.

Lemma wf_set_leds (s : App) (leds : list LED.t) :
  length leds = length (leds_ s) -> wf s -> wf (set_leds leds s).
Proof. intros Hlen [H1 H2]. split; [simpl; congruence | exact H2]. Qed.

Lemma mirrored_led_switch cc on i : holds mirrored (led_switch cc on i).
Proof.
  intros s a s' o H.
  destruct (Z.le_gt_cases 0 i) as [H0|H0];
    [destruct (Z.lt_ge_cases i (Z.of_nat (length (leds_ s)))) as [H1|H1]|];
    [|rewrite led_switch_out in H by lia; discriminate ..].
  destruct (lookup_lt_is_Some_2 (leds_ s) (Z.to_nat i)) as [led Hled]; [lia|].
  rewrite (led_switch_in cc on i s led H0 Hled) in H. inversion H; subst. clear H.
  intros (Hinit & Hwf & Hidx). split.
  - split; [exact Hinit|]. split.
    + apply wf_set_leds; [apply length_alter | exact Hwf].
    + apply indexed_alter; [intros []; reflexivity | exact Hidx].
  - unfold led_events. rewrite Hinit. unfold display. cbn [foldl].
    change (shown (picture s) (cout_cc cc (ledNumber i))) with (picture s).
    apply (shown_led s (Z.to_nat i) led (LED.set_on on));
      [intros []; reflexivity | exact Hidx | exact Hled].
Qed.

Lemma mirrored_own_led loop v t cc on s :
  loop ∈ loops_ s -> holds_at mirrored (own_led loop v t cc on) s.
Proof.
  intros Hin a s' o H (Hinit & Hwf & Hidx).
  assert (wf_loop loop) as [Hi Hled].
  { destruct Hwf as [_ Hloops]. rewrite Forall_forall in Hloops. apply Hloops, Hin. }
  set (i := Loop.index_ loop) in *. set (n := Z.to_nat i).
  destruct (lookup_lt_is_Some_2 (leds_ s) n) as [led Hl].
  { rewrite (proj1 Hwf). unfold n. lia. }
  set (paint := fun l : LED.t => LED.set_on on (LED.set_timer t (LED.set_state v l))).
  assert (keeps_index paint) as Hpaint by (intros []; reflexivity).
  assert (own_led loop v t cc on s
          = Done tt (set_leds (alter paint n (leds_ s)) s)
              [cout_cc cc (ledNumber i); led_message (paint led)]) as Hrun.
  { unfold own_led. rewrite Hled. fold i.
    rewrite (bind_Done _ _ _ _ _ _ (write_led_in i _ s ltac:(rewrite (proj1 Hwf); lia))).
    rewrite prefix_nil.
    rewrite (bind_Done _ _ _ _ _ _
               (write_led_in i _ _
                  ltac:(rewrite leds_set_leds, length_alter, (proj1 Hwf); lia))).
    rewrite prefix_nil.
    rewrite (led_switch_in cc on i _ (LED.set_timer t (LED.set_state v led))).
    - unfold led_events. change (oscLedSenderInitialized_ _) with (oscLedSenderInitialized_ s).
      rewrite Hinit. rewrite !leds_set_leds, !set_leds_set_leds. fold n.
      rewrite !list_alter_alter_eq. reflexivity.
    - lia.
    - rewrite !leds_set_leds. fold n. rewrite !list_lookup_alter_eq, Hl. reflexivity. }
  rewrite Hrun in H. inversion H; subst. clear H. split.
  - split; [exact Hinit|]. split.
    + apply wf_set_leds; [apply length_alter | exact Hwf].
    + apply indexed_alter; [exact Hpaint | exact Hidx].
  - unfold display. cbn [foldl].
    change (shown (picture s) (cout_cc cc (ledNumber i))) with (picture s).
    apply (shown_led s n led paint Hpaint Hidx Hl).
Qed.

Lemma mirrored_loop_state s k st :
  mirrored s [] (set_loops (alter (Loop.set_state st) k (loops_ s)) s).
Proof.
  apply mirrored_same; try reflexivity.
  intros Hwf. exact (proj1 (keeps_pool_loop_state s k st Hwf)).
Qed.

Lemma mirrored_add_loop s i :
  0 <= i < Z.of_nat (length (leds_ s)) ->
  mirrored s [] (set_loops (loops_ s ++ [new_loop i]) s).
Proof.
  intros Hi. apply mirrored_same; try reflexivity.
  intros Hwf. exact (proj1 (keeps_pool_add_loop s i Hi Hwf)).
Qed.

Lemma mirrored_clear s : mirrored s [] (set_loops [] s).
Proof.
  apply mirrored_same; try reflexivity.
  intros Hwf. exact (proj1 (keeps_pool_clear s Hwf)).
Qed.

Lemma mirrored_sendMidiMessage msg : holds mirrored (sendMidiMessage msg).
Proof.
  intros s a s' o H.
  pose proof (keeps_pool_sendMidiMessage msg s a s' o H) as Hpool.
  apply sendMidiMessage_fields in H as (El & _ & _ & _ & _ & _ & _ & Ei & _ & ->).
  apply mirrored_same; [exact El | exact Ei | intros Hwf; exact (proj1 (Hpool Hwf)) |].
  intros view. unfold sent.
  destruct (virtMidiOut_ s), (missingOutputPortWarningPrinted s); reflexivity.
Qed.

Ltac mirrored :=
  first [ exact mirrored_nil | exact mirrored_app
        | exact mirrored_led_switch | exact mirrored_own_led
        | exact mirrored_loop_state | exact mirrored_add_loop | exact mirrored_clear
        | exact mirrored_sendMidiMessage
        | intros; apply mirrored_same; [reflexivity | reflexivity | exact id | intros; reflexivity] ].

Lemma mirrored_callback (c : Callback) : is_registration c = false -> respects mirrored c.
Proof.
  destruct c as [msg|net address message|os]; simpl; intros Hc.
  - apply respects_midi_in. apply at_handleIncomingMidiMessage; mirrored.
  - apply orb_false_elim in Hc as [Hc1 Hc2].
    apply respects_osc_in_unless; try mirrored.
    + intros _. apply at_handlePingAckMessage; mirrored.
    + apply at_handleCtrlMessage; mirrored.
    + apply at_handleHeartbeatMessage; mirrored.
    + rewrite Hc1, Hc2. intros [|]; discriminate.
  - apply respects_timer_tick. apply at_timerCallback; mirrored.
Qed.

(** X15. A display client that has the picture of the LEDs of one moment
    and takes every [/led] message it is sent from then on has the picture
    of the LEDs after any sequence of callbacks, as long as no registration
    message comes in between: no LED is changed without the change being
    sent, and each message describes the LED as it is in the end. The
    members are in order before and after: a client is registered, the
    loops are on the LEDs of their indices and each LED is at the position
    of its index. *)
Theorem display_mirrors (cs : list Callback) (p p' : Program) (o : list Output) :
  forallb (fun c => negb (is_registration c)) cs = true ->
  in_order (app_ p) ->
  callbacks cs p = Returned p' o ->
  in_order (app_ p') /\
  display (app_events o) (picture (app_ p)) = picture (app_ p').
Proof.
  intros Hcs Hp H.
  apply (respects_callbacks mirrored mirrored_nil mirrored_app cs) with (o := o);
    [|exact H | exact Hp].
  intros c Hc. apply mirrored_callback.
  rewrite forallb_forall in Hcs. apply list_elem_of_In in Hc.
  apply negb_true_iff, Hcs, Hc.
Qed.

Lemma indexed_concrete (s : App) :
  led_indices s = seqZ 0 (Z.of_nat (length (leds_ s))) -> indexed s.
Proof.
  intros H n led Hl.
  assert (led_indices s !! n = Some (LED.index_ led)) as Hn.
  { unfold led_indices. rewrite list_lookup_fmap, Hl. reflexivity. }
  rewrite H in Hn. apply lookup_seqZ in Hn as [-> _]. lia.
Qed.

Lemma in_order_example_end : in_order (app_ example_end).
Proof.
  split; [reflexivity|]. split; [apply wf_concrete; reflexivity|].
  apply indexed_concrete. reflexivity.
Qed.

Lemma display_mirrors_witness :
  forallb (fun c => negb (is_registration c)) example_changes = true /\
  in_order (app_ example_end) /\
  callbacks example_changes example_end
    = Returned (default example_end (final_program (callbacks example_changes example_end)))
        (outputs (callbacks example_changes example_end)) /\
  display (app_events (outputs (callbacks example_changes example_end)))
    (picture (app_ example_end))
  = picture (app_ (default example_end (final_program (callbacks example_changes example_end)))).
Proof.
  assert (callbacks example_changes example_end
          = Returned (default example_end (final_program (callbacks example_changes example_end)))
              (outputs (callbacks example_changes example_end)))
    as H by (vm_compute; reflexivity).
  split; [reflexivity|]. split; [exact in_order_example_end|]. split; [exact H|].
  exact (proj2 (display_mirrors example_changes example_end _ _ eq_refl
                  in_order_example_end H)).
Defined.

(** ** More on the messages from the looper *)

Lemma leaves_leds_nil s : leaves_leds s [] s.
Proof. repeat split. Qed.

Lemma leaves_leds_app s1 o1 s2 o2 s3 :
  leaves_leds s1 o1 s2 -> leaves_leds s2 o2 s3 -> leaves_leds s1 (o1 ++ o2) s3.
Proof.
  intros (E1 & C1 & D1) (E2 & C2 & D2). split; [congruence|].
  rewrite cc_lines_app, display_sent_app, C1, C2, D1, D2. auto.
Qed.

Ltac leaves_leds :=
  first [ exact leaves_leds_nil | exact leaves_leds_app
        | intros; split; [reflexivity | split; reflexivity] ].

(** X16. The handler of [/pingack] never touches an LED: whatever the
    message, the LEDs are after it as they were before, and no line goes to
    the pedal board and no message to a display client. The loops it builds
    anew are all [Off], whatever the LEDs of the loops it discarded show;
    the handler of a heartbeat, which builds the loops in the same way,
    refreshes the LEDs with [updateLoops]. *)
Theorem handlePingAckMessage_leaves_leds (message : OSCMessage) (s s' : App)
    (o : list Event) :
  handlePingAckMessage message s = Done tt s' o ->
  leds_ s' = leds_ s /\ cc_lines o = [] /\ display_sent o = [].
Proof.
  assert (holds leaves_leds (handlePingAckMessage message)) as Hh
    by (apply at_handlePingAckMessage; leaves_leds).
  intros H. exact (Hh _ _ _ _ H).
Qed.

Lemma handlePingAckMessage_leaves_leds_witness :
  handlePingAckMessage [Str "osc.udp://localhost:9951/"; Str "1.7.2"; Int32 2; Int32 41]
    loop0_inserting
  = Done tt
      (after (handlePingAckMessage
                [Str "osc.udp://localhost:9951/"; Str "1.7.2"; Int32 2; Int32 41])
         loop0_inserting)
      (output (handlePingAckMessage
                 [Str "osc.udp://localhost:9951/"; Str "1.7.2"; Int32 2; Int32 41]
                 loop0_inserting)) /\
  leds_ (after (handlePingAckMessage
                  [Str "osc.udp://localhost:9951/"; Str "1.7.2"; Int32 2; Int32 41])
           loop0_inserting)
  = leds_ loop0_inserting.
Proof.
  assert (handlePingAckMessage
            [Str "osc.udp://localhost:9951/"; Str "1.7.2"; Int32 2; Int32 41] loop0_inserting
          = Done tt
              (after (handlePingAckMessage
                        [Str "osc.udp://localhost:9951/"; Str "1.7.2"; Int32 2; Int32 41])
                 loop0_inserting)
              (output (handlePingAckMessage
                         [Str "osc.udp://localhost:9951/"; Str "1.7.2"; Int32 2; Int32 41]
                         loop0_inserting))) as H by (vm_compute; reflexivity).
  split; [exact H|].
  exact (proj1 (handlePingAckMessage_leaves_leds _ _ _ _ H)).
Defined.

Lemma keeps_places_nil s : keeps_places s [] s.
Proof. repeat split. Qed.

Lemma keeps_places_app s1 o1 s2 o2 s3 :
  keeps_places s1 o1 s2 -> keeps_places s2 o2 s3 -> keeps_places s1 (o1 ++ o2) s3.
Proof.
  intros (A1 & B1 & C1 & D1 & E1 & F1 & G1 & H1) (A2 & B2 & C2 & D2 & E2 & F2 & G2 & H2).
  unfold keeps_places. rewrite looper_requests_app, midi_sent_app, G1, G2, H1, H2.
  repeat split; congruence.
Qed.

Lemma keeps_places_loop_state s k st :
  keeps_places s [] (set_loops (alter (Loop.set_state st) k (loops_ s)) s).
Proof.
  split; [|repeat split]. unfold loop_places. simpl.
  generalize (loops_ s). intros loops. revert k.
  induction loops as [|l loops IH]; intros [|k]; simpl; try reflexivity.
  f_equal. apply IH.
Qed.

Ltac keeps_places :=
  steps keeps_places_nil keeps_places_app
    ltac:(first [ exact keeps_places_loop_state
                | intros; split; [reflexivity | repeat split] ]).

(** X17. A [/ctrl] message, whatever it holds, neither adds nor removes a
    loop, nor moves one to another index or LED: it changes the state of
    loops, the LEDs, the selected loop and the countdown, and nothing of
    what the program knows of the engine, nor the mode; and it sends
    nothing to the looper or to the MIDI output. *)
Theorem handleCtrlMessage_keeps_places (message : OSCMessage) (s s' : App) (o : list Event) :
  handleCtrlMessage message s = Done tt s' o ->
  loop_places s' = loop_places s /\
  loopCount_ s' = loopCount_ s /\ engineId_ s' = engineId_ s /\
  hostUrl_ s' = hostUrl_ s /\ version_ s' = version_ s /\
  mode_ s' = mode_ s /\
  looper_requests o = [] /\ midi_sent o = [].
Proof.
  assert (holds keeps_places (handleCtrlMessage message)) as Hh
    by (apply at_handleCtrlMessage; keeps_places).
  intros H. exact (Hh _ _ _ _ H).
Qed.

Lemma handleCtrlMessage_keeps_places_witness :
  handleCtrlMessage [Int32 0; Str "state"; Float32 (4 # 1)] loop0_inserting
  = Done tt
      (after (handleCtrlMessage [Int32 0; Str "state"; Float32 (4 # 1)]) loop0_inserting)
      (output (handleCtrlMessage [Int32 0; Str "state"; Float32 (4 # 1)] loop0_inserting)) /\
  loop_places (after (handleCtrlMessage [Int32 0; Str "state"; Float32 (4 # 1)])
                 loop0_inserting)
  = loop_places loop0_inserting.
Proof.
  assert (handleCtrlMessage [Int32 0; Str "state"; Float32 (4 # 1)] loop0_inserting
          = Done tt
              (after (handleCtrlMessage [Int32 0; Str "state"; Float32 (4 # 1)])
                 loop0_inserting)
              (output (handleCtrlMessage [Int32 0; Str "state"; Float32 (4 # 1)]
                         loop0_inserting))) as H by (vm_compute; reflexivity).
  split; [exact H|].
  exact (proj1 (handleCtrlMessage_keeps_places _ _ _ _ H)).
Defined.

(** A heartbeat of the known engine that reports fewer loops. *)
Lemma heartbeat_fewer_loops (s : App) (hostUrl version : string) (numloops : Z) :
  numloops < loopCount_ s ->
  handleHeartbeatMessage (known_heartbeat s hostUrl version numloops) s
    = Done tt (set_heartbeat 5 (set_loopCount numloops (identified hostUrl version s))) [].
Proof.
  intros Hn. unfold known_heartbeat. rewrite handleHeartbeatMessage_shape, Z.eqb_refl.
  change (negb true) with false. mrun.
  change (loopCount_ (identified hostUrl version s)) with (loopCount_ s).
  replace (loopCount_ s =? numloops) with false by (symmetry; apply Z.eqb_neq; lia).
  change (negb false) with true. mrun.
  assert (seqZ (loopCount_ s) (numloops - loopCount_ s) = []) as ->.
  { unfold seqZ. replace (Z.to_nat (numloops - loopCount_ s)) with 0%nat by lia. reflexivity. }
  simpl for_each. mrun. reflexivity.
Qed.

(** A heartbeat of the known engine that reports more loops. *)
Lemma heartbeat_grows (s : App) (hostUrl version : string) (numloops : Z) :
  wf s -> 0 <= loopCount_ s < numloops -> numloops <= 10 ->
  exists s' out,
    handleHeartbeatMessage (known_heartbeat s hostUrl version numloops) s = Done tt s' out /\
    loops_ s' = loops_ s ++ (new_loop <$> seqZ (loopCount_ s) (numloops - loopCount_ s)) /\
    loopCount_ s' = numloops /\ engineId_ s' = engineId_ s.
Proof.
  intros Hwf Hcount Hn. unfold known_heartbeat.
  rewrite handleHeartbeatMessage_shape, Z.eqb_refl.
  change (negb true) with false. mrun.
  change (loopCount_ (identified hostUrl version s)) with (loopCount_ s).
  replace (loopCount_ s =? numloops) with false by (symmetry; apply Z.eqb_neq; lia).
  change (negb false) with true. mrun.
  destruct (grow_run extend_body (fun s i => [register_request s i])
              extend_body_runs ltac:(reflexivity) (identified hostUrl version s)
              (loopCount_ s) (numloops - loopCount_ s))
    as (leds & out & Hrun & _).
  { exact Hwf. } { lia. } { lia. }
  rewrite (bind_Done _ _ _ _ _ _ Hrun). mrun. unfold modify. simpl prefix.
  eexists _, _. split; [reflexivity|]. repeat split.
Qed.

(** X18. Heartbeats of the known engine never remove a loop, and
    [loopCount_] follows the count they report. So when the count falls
    from [n] to [m] and comes back to [n], the loops [m] to [n - 1] are
    added a second time behind the ones that are still there: the same
    index and the same LED twice in [loops_], the first with the state it
    had, the second [Off]. *)
Theorem heartbeat_count_falls_and_returns (s : App) (hostUrl version : string) (m n : Z) :
  wf s -> loopCount_ s = n -> 0 <= m < n -> n <= 10 ->
  exists s1 s2 out,
    handleHeartbeatMessage (known_heartbeat s hostUrl version m) s = Done tt s1 [] /\
    loops_ s1 = loops_ s /\ leds_ s1 = leds_ s /\ loopCount_ s1 = m /\
    handleHeartbeatMessage (known_heartbeat s1 hostUrl version n) s1 = Done tt s2 out /\
    loops_ s2 = loops_ s ++ (new_loop <$> seqZ m (n - m)) /\
    loopCount_ s2 = n.
Proof.
  intros Hwf Hcount Hm Hn.
  set (s1 := set_heartbeat 5 (set_loopCount m (identified hostUrl version s))).
  destruct (heartbeat_grows s1 hostUrl version n) as (s2 & out & Hrun & Hloops & Hc & _).
  { exact Hwf. } { simpl. lia. } { exact Hn. }
  exists s1, s2, out.
  split; [apply heartbeat_fewer_loops; lia|].
  split; [reflexivity|]. split; [reflexivity|]. split; [reflexivity|].
  split; [exact Hrun|]. split; [exact Hloops | exact Hc].
Qed.

Lemma wf_three_loops : wf three_loops.
Proof. apply wf_concrete; reflexivity. Qed.

Lemma heartbeat_count_falls_and_returns_witness :
  wf three_loops /\ loopCount_ three_loops = 3 /\ 0 <= 1 < 3 /\ 3 <= 10 /\
  exists s1 s2 out,
    handleHeartbeatMessage (known_heartbeat three_loops "x" "1.7.2" 1) three_loops
      = Done tt s1 [] /\
    handleHeartbeatMessage (known_heartbeat s1 "x" "1.7.2" 3) s1 = Done tt s2 out /\
    loops_ s2
      = [Loop.mk 0 Off 0; Loop.mk 1 Recording 1; Loop.mk 2 Recording 2;
         Loop.mk 1 Off 1; Loop.mk 2 Off 2].
Proof.
  split; [exact wf_three_loops|]. split; [reflexivity|]. split; [lia|]. split; [lia|].
  destruct (heartbeat_count_falls_and_returns three_loops "x" "1.7.2" 1 3
              wf_three_loops eq_refl ltac:(lia) ltac:(lia))
    as (s1 & s2 & out & H1 & _ & _ & _ & H2 & Hloops & _).
  exists s1, s2, out. split; [exact H1|]. split; [exact H2|].
  rewrite Hloops. reflexivity.
Defined.

(** ** Pedals that do not act on a loop *)

Lemma same_notes_nil s : same_notes s [] s.
Proof. split; reflexivity. Qed.

Lemma same_notes_app s1 o1 s2 o2 s3 :
  same_notes s1 o1 s2 -> same_notes s2 o2 s3 -> same_notes s1 (o1 ++ o2) s3.
Proof. intros [A1 B1] [A2 B2]. split; congruence. Qed.

Lemma same_notes_sendMidiMessage msg : holds same_notes (sendMidiMessage msg).
Proof.
  intros s a s' o. rewrite sendMidiMessage_run. intros E. inversion E; subst.
  unfold same_notes, warned.
  destruct (virtMidiOut_ s), (missingOutputPortWarningPrinted s); split; reflexivity.
Qed.

Ltac same_notes :=
  steps same_notes_nil same_notes_app
    ltac:(first [ exact same_notes_sendMidiMessage | intros; split; reflexivity ]).

Lemma same_notes_callback (c : Callback) : respects same_notes c.
Proof.
  destruct c as [msg|net address message|os].
  - apply respects_midi_in. apply at_handleIncomingMidiMessage; same_notes.
  - apply respects_osc_in; try same_notes.
    + intros _. apply at_handlePingAckMessage; same_notes.
    + apply at_handleCtrlMessage; same_notes.
    + apply at_handleHeartbeatMessage; same_notes.
  - apply respects_timer_tick. apply at_timerCallback; same_notes.
Qed.

Lemma no_midi_led_switch cc on i : holds no_midi (led_switch cc on i).
Proof. apply led_switch_of_steps; no_midi. Qed.

Lemma no_midi_updateLoops : holds no_midi updateLoops.
Proof. apply at_updateLoops; no_midi. Qed.

Lemma midi_sent_sent (msg : MidiMessage) (s : App) :
  midi_sent (sent msg s) = if virtMidiOut_ s then [msg] else [].
Proof.
  unfold sent. destruct (virtMidiOut_ s); [reflexivity|].
  destruct (missingOutputPortWarningPrinted s); reflexivity.
Qed.

(** What a function pedal sends: one note at the base note plus the pedal
    index, whatever the mode. *)
Lemma function_pedal_sends (number value channel : Z) (s s' : App) (o : list Event) :
  function_pedal value -> number = 104 \/ number = 105 ->
  handleIncomingMidiMessage (controllerEvent channel number value) s = Done tt s' o ->
  midi_sent o
  = if virtMidiOut_ s
    then [if number =? 104
          then noteOn (channel_ s) (baseNote_ s + pedalIndex value) 127
          else noteOff (channel_ s) (baseNote_ s + pedalIndex value) 0]
    else [].
Proof.
  intros Hf Hn H. unfold handleIncomingMidiMessage in H.
  apply bind_inv in H as ([] & s1 & o1 & o2 & H & Hlog & ->).
  inversion Hlog; subst. rewrite midi_sent_app, app_nil_r.
  rewrite !bind_gets in H.
  assert (((0 <=? pedalIndex value) && (pedalIndex value <=? 3)) = false) as E1.
  { unfold function_pedal in Hf. apply andb_false_iff.
    destruct Hf; [left; apply Z.leb_gt | right; apply Z.leb_gt]; lia. }
  assert ((pedalIndex value =? RECORD) = false) as E2.
  { unfold function_pedal, RECORD in *. apply Z.eqb_neq. lia. }
  assert (forall msg s0 s2 o0,
            sendMidiMessage msg s0 = Done tt s2 o0 ->
            virtMidiOut_ s2 = virtMidiOut_ s0 /\ midi_sent o0 = if virtMidiOut_ s0 then [msg] else [])
    as Hsend.
  { intros msg s0 s2 o0 Hs. rewrite sendMidiMessage_run in Hs. inversion Hs; subst.
    split; [|apply midi_sent_sent]. unfold warned.
    destruct (virtMidiOut_ s0) eqn:E, (missingOutputPortWarningPrinted s0); simpl;
      rewrite ?E; reflexivity. }
  assert (forall cc on i s0 s2 o0,
            led_switch cc on i s0 = Done tt s2 o0 ->
            virtMidiOut_ s2 = virtMidiOut_ s0 /\ channel_ s2 = channel_ s0 /\
            baseNote_ s2 = baseNote_ s0 /\ midi_sent o0 = []) as Hled.
  { intros cc on i s0 s2 o0 Hs.
    pose proof (no_midi_led_switch cc on i s0 tt s2 o0 Hs) as Hm.
    destruct (Z.le_gt_cases 0 i) as [H0|H0];
      [destruct (Z.lt_ge_cases i (Z.of_nat (length (leds_ s0)))) as [H1|H1]|];
      [|rewrite led_switch_out in Hs by lia; discriminate ..].
    destruct (lookup_lt_is_Some_2 (leds_ s0) (Z.to_nat i)) as [led Hl]; [lia|].
    rewrite (led_switch_in cc on i s0 led H0 Hl) in Hs. inversion Hs; subst. auto. }
  destruct Hn as [-> | ->]; cbv iota beta in H; rewrite E1, E2 in H;
    change (104 =? 104) with true; change (105 =? 104) with false.
  - destruct (pedalIndex value =? UNDO).
    + apply bind_inv in H as ([] & s2 & o3 & o4 & Hl & Hs & ->).
      apply Hled in Hl as (Ev & Ec & Eb & Em). apply Hsend in Hs as [_ Hs].
      rewrite midi_sent_app, Em, Hs, Ev. reflexivity.
    + apply Hsend in H as [_ Hs]. exact Hs.
  - destruct (pedalIndex value =? UNDO).
    + apply bind_inv in H as ([] & s2 & o3 & o4 & Hl & H & ->).
      apply bind_inv in H as ([] & s3 & o5 & o6 & Hs & Hu & ->).
      apply Hled in Hl as (Ev & Ec & Eb & Em). apply Hsend in Hs as [_ Hs].
      apply no_midi_updateLoops in Hu.
      rewrite !midi_sent_app, Em, Hs, Hu, Ev, app_nil_r. reflexivity.
    + apply Hsend in H as [_ Hs]. exact Hs.
Qed.

(** X19. A pedal that is neither a loop pedal nor Record sends its note-on
    and its note-off at the same pitch, the base note plus the pedal index,
    whatever happens between the press and the release: the mode, which
    moves the notes of the loop pedals, does not enter, and no callback
    changes the base note or the channel. *)
Theorem function_pedal_notes (value ch ch' : Z) (cs : list Callback)
    (p p1 p2 p3 : Program) (o1 o2 o3 : list Output) :
  function_pedal value ->
  callback (midi_in (controllerEvent ch 104 value)) p = Returned p1 o1 ->
  callbacks cs p1 = Returned p2 o2 ->
  callback (midi_in (controllerEvent ch' 105 value)) p2 = Returned p3 o3 ->
  midi_sent (app_events o1)
  = (if virtMidiOut_ (app_ p)
     then [noteOn (channel_ (app_ p)) (baseNote_ (app_ p) + pedalIndex value) 127]
     else []) /\
  midi_sent (app_events o3)
  = (if virtMidiOut_ (app_ p2)
     then [noteOff (channel_ (app_ p)) (baseNote_ (app_ p) + pedalIndex value) 0]
     else []).
Proof.
  intros Hf H1 H2 H3.
  pose proof (same_notes_callback _ _ _ _ H1) as [Eb1 Ec1].
  pose proof (respects_callbacks same_notes same_notes_nil same_notes_app cs
                (fun c _ => same_notes_callback c) _ _ _ H2) as [Eb2 Ec2].
  simpl in H1, H3.
  apply run_member_inv in H1 as (s1 & out1 & H1 & _ & ->).
  apply run_member_inv in H3 as (s3 & out3 & H3 & _ & ->).
  rewrite !app_events_of_app.
  rewrite (function_pedal_sends 104 value ch _ _ _ Hf (or_introl eq_refl) H1).
  rewrite (function_pedal_sends 105 value ch' _ _ _ Hf (or_intror eq_refl) H3).
  change (104 =? 104) with true. change (105 =? 104) with false. cbv iota.
  rewrite Eb2, Ec2, Eb1, Ec1. split; reflexivity.
Qed.

Lemma function_pedal_notes_witness :
  function_pedal 10 /\
  callback (midi_in (controllerEvent 1 104 10)) example_end
    = Returned pedal_pressed (outputs (callback (midi_in (controllerEvent 1 104 10)) example_end)) /\
  callbacks [midi_in (controllerEvent 1 104 5)] pedal_pressed
    = Returned record_pressed
        (outputs (callbacks [midi_in (controllerEvent 1 104 5)] pedal_pressed)) /\
  callback (midi_in (controllerEvent 1 105 10)) record_pressed
    = Returned pedal_released
        (outputs (callback (midi_in (controllerEvent 1 105 10)) record_pressed)) /\
  midi_sent (app_events (outputs (callback (midi_in (controllerEvent 1 104 10)) example_end)))
    = [noteOn 1 74 127] /\
  midi_sent (app_events (outputs (callback (midi_in (controllerEvent 1 105 10)) record_pressed)))
    = [noteOff 1 74 0].
Proof.
  assert (function_pedal 10) as Hf by (right; vm_compute; reflexivity).
  assert (callback (midi_in (controllerEvent 1 104 10)) example_end
          = Returned pedal_pressed
              (outputs (callback (midi_in (controllerEvent 1 104 10)) example_end)))
    as H1 by (vm_compute; reflexivity).
  assert (callbacks [midi_in (controllerEvent 1 104 5)] pedal_pressed
          = Returned record_pressed
              (outputs (callbacks [midi_in (controllerEvent 1 104 5)] pedal_pressed)))
    as H2 by (vm_compute; reflexivity).
  assert (callback (midi_in (controllerEvent 1 105 10)) record_pressed
          = Returned pedal_released
              (outputs (callback (midi_in (controllerEvent 1 105 10)) record_pressed)))
    as H3 by (vm_compute; reflexivity).
  split; [exact Hf|]. split; [exact H1|]. split; [exact H2|]. split; [exact H3|].
  exact (function_pedal_notes 10 1 1 _ _ _ _ _ _ _ _ Hf H1 H2 H3).
Defined.

(** ** The selected loop *)

(** X20. [selectLoop] writes the selected loop to the pedal board in two
    digits and changes nothing. For a loop number that is not negative the
    two values are its tens and its ones, the ones between 0 and 9. For a
    negative one, such as the -1 the constructor sets, the tens are written
    as 0 and the ones are not positive: -1 is written as [cc 114 -1]. *)
Theorem selectLoop_digits (s : App) :
  exists tens ones out,
    selectLoop s = Done tt s out /\
    cc_lines out = [(113, tens); (114, ones)] /\
    (0 <= selectedLoop_ s ->
     selectedLoop_ s = 10 * tens + ones /\ 0 <= tens /\ 0 <= ones <= 9) /\
    (selectedLoop_ s < 0 ->
     tens = 0 /\ -9 <= ones <= 0 /\ (selectedLoop_ s - ones) mod 10 = 0).
Proof.
  remember (selectedLoop_ s) as sel eqn:Hsel.
  pose proof (Z.quot_rem' sel 10) as Hqr.
  exists (if 0 <? Z.quot sel 10 then Z.quot sel 10 else 0), (Z.rem sel 10).
  assert (exists out,
            selectLoop s = Done tt s out /\
            cc_lines out
            = [(113, if 0 <? Z.quot sel 10 then Z.quot sel 10 else 0); (114, Z.rem sel 10)])
    as (out & Hrun & Hcc).
  { unfold selectLoop. rewrite bind_gets, <- Hsel.
    destruct (0 <? Z.quot sel 10), (oscLedSenderInitialized_ s) eqn:Hi;
      mrun; rewrite ?Hi; eexists; split; reflexivity. }
  exists out. split; [exact Hrun|]. split; [exact Hcc|]. split.
  - intros H0.
    pose proof (Z.rem_bound_pos sel 10 H0 ltac:(lia)) as Hr.
    assert (0 <= Z.quot sel 10) as Hq by (apply Z.quot_pos; lia).
    destruct (Z.ltb_spec 0 (Z.quot sel 10)); lia.
  - intros Hneg.
    assert (-9 <= Z.rem sel 10 <= 0) as Hr.
    { assert (Z.rem sel 10 = - Z.rem (- sel) 10) as ->
        by (rewrite <- Z.rem_opp_l by lia; f_equal; lia).
      pose proof (Z.rem_bound_pos (- sel) 10 ltac:(lia) ltac:(lia)). lia. }
    assert (Z.quot sel 10 <= 0) as Hq.
    { assert (Z.quot sel 10 = - Z.quot (- sel) 10) as ->
        by (rewrite <- Z.quot_opp_l by lia; f_equal; lia).
      assert (0 <= Z.quot (- sel) 10) by (apply Z.quot_pos; lia). lia. }
    split; [destruct (Z.ltb_spec 0 (Z.quot sel 10)); lia|].
    split; [lia|].
    replace (sel - Z.rem sel 10) with (Z.quot sel 10 * 10) by lia.
    apply Z.mod_mul. lia.
Qed.

(** ** The timer and the connections *)

Lemma indexOf_Some (devices : list string) (name : string) (i : nat) :
  indexOf devices name = Some i -> name ∈ devices.
Proof.
  revert i. induction devices as [|d rest IH]; intros i; simpl; [discriminate|].
  destruct (String.eqb_spec d name) as [->|Hne]; [intros _; left|].
  destruct (indexOf rest name) as [j|]; [|discriminate].
  intros _. right. exact (IH j eq_refl).
Qed.

Lemma indexOf_elem (devices : list string) (name : string) :
  name ∈ devices -> exists i, indexOf devices name = Some i.
Proof.
  induction devices as [|d rest IH]; intros Hin; [inversion Hin|]. simpl.
  destruct (String.eqb_spec d name) as [->|Hne]; [eauto|].
  apply elem_of_cons in Hin as [->|Hin]; [congruence|].
  destruct (IH Hin) as [i ->]. eauto.
Qed.

Lemma firstContaining_Some (contains : string -> string -> bool)
    (devices : list string) (n : nat) (name : string) (i : nat) (d : string) :
  firstContaining contains devices n name = Some (i, d) ->
  d ∈ devices /\ contains d name = true.
Proof.
  revert n. induction devices as [|d' rest IH]; intros n; simpl; [discriminate|].
  destruct (contains d' name) eqn:E.
  - intros [= _ <-]. split; [left | exact E].
  - intros H. destruct (IH _ H) as [Hin Hc]. split; [right; exact Hin | exact Hc].
Qed.

Lemma tryToConnectMidiInput_inv (os : Devices) (s s' : App) (b : bool) (o : list Event) :
  tryToConnectMidiInput os s = Done b s' o ->
  o = [] /\
  if b then
    exists name,
      s' = set_fullMidiInName name (set_midiIn true s) /\
      name ∈ getDevices os /\
      (midiInName_ s ∈ getDevices os -> name = midiInName_ s) /\
      (midiInName_ s ∉ getDevices os -> containsIgnoreCase os name (midiInName_ s) = true)
  else s' = s.
Proof.
  unfold tryToConnectMidiInput. rewrite bind_gets.
  destruct (indexOf (getDevices os) (midiInName_ s)) as [index|] eqn:Hi.
  - destruct (openDevice os index); mrun; intros E; inversion E; subst;
      (split; [reflexivity|]); [|reflexivity].
    exists (midiInName_ s). split; [reflexivity|].
    pose proof (indexOf_Some _ _ _ Hi) as Hin.
    split; [exact Hin|]. split; [reflexivity|]. intros Hn. destruct (Hn Hin).
  - destruct (firstContaining (containsIgnoreCase os) (getDevices os) 0 (midiInName_ s))
      as [[index name]|] eqn:Hf.
    + destruct (openDevice os index); mrun; intros E; inversion E; subst;
        (split; [reflexivity|]); [|reflexivity].
      exists name. split; [reflexivity|].
      destruct (firstContaining_Some _ _ _ _ _ _ Hf) as [Hin Hc].
      split; [exact Hin|]. split; [|intros _; exact Hc].
      intros Hn. apply indexOf_elem in Hn as [i Hn]. congruence.
    + mrun. intros E; inversion E; subst. split; reflexivity.
Qed.

(** X21. The MIDI input over the ticks of the timer. While the input is
    open on a device that is present, a tick leaves it alone. When the
    device is gone the tick drops the input and says so, and does not look
    for another device in the same tick. When no input is open and one is
    wanted, a tick that opens one opens a device that is present: the one
    of exactly the wanted name if there is one, otherwise one that contains
    the name. *)
Theorem timer_midi_input_lifecycle (os : Devices) (s : App) :
  (input_connected os s -> timer_midi_input os s = Done tt s []) /\
  (fullMidiInName_ s <> "" -> fullMidiInName_ s ∉ getDevices os ->
   timer_midi_input os s
   = Done tt (set_midiIn false (set_fullMidiInName "" s))
       [cerr (LogMidiInDisconnected (fullMidiInName_ s))]) /\
  (fullMidiInName_ s = "" -> midiIn_ s = false ->
   forall s' o,
     timer_midi_input os s = Done tt s' o -> midiIn_ s' = true ->
     input_connected os s' /\
     (midiInName_ s ∈ getDevices os -> fullMidiInName_ s' = midiInName_ s) /\
     (midiInName_ s ∉ getDevices os ->
      containsIgnoreCase os (fullMidiInName_ s') (midiInName_ s) = true) /\
     o = [cerr (LogMidiInConnected (fullMidiInName_ s'))]).
Proof.
  unfold timer_midi_input. rewrite !bind_gets. split; [|split].
  - intros [Hin Hdev].
    rewrite (bool_decide_eq_true_2 _ Hdev), Hin. cbn [negb]. rewrite !andb_false_r.
    reflexivity.
  - intros Hname Hgone.
    rewrite (proj2 (String.eqb_neq _ _) Hname), (bool_decide_eq_false_2 _ Hgone).
    cbn [negb andb]. mrun. reflexivity.
  - intros Hname Hclosed s' o. rewrite Hname, Hclosed. cbn [negb andb String.eqb].
    rewrite andb_true_r.
    destruct (negb (String.eqb (midiInName_ s) "")).
    2:{ intros E. inversion E; subst. congruence. }
    intros H Hopen.
    apply bind_inv in H as (b & s1 & o1 & o2 & Htry & H & ->).
    apply tryToConnectMidiInput_inv in Htry as [-> Hb].
    destruct b.
    + destruct Hb as (name & -> & Hin & Hexact & Hpart).
      simpl in H. rewrite bind_gets in H. inversion H; subst.
      split; [split; [reflexivity | exact Hin]|]. auto.
    + subst s1. inversion H; subst. congruence.
Qed.

Lemma timer_midi_input_lifecycle_witness :
  input_connected with_board board_open /\
  timer_midi_input with_board board_open = Done tt board_open [].
Proof.
  assert (input_connected with_board board_open) as H.
  { split; [reflexivity|]. apply list_elem_of_singleton. reflexivity. }
  split; [exact H|].
  exact (proj1 (timer_midi_input_lifecycle with_board board_open) H).
Defined.

Lemma invalid_port_lines_app (o1 o2 : list Event) :
  invalid_port_lines (o1 ++ o2) = (invalid_port_lines o1 + invalid_port_lines o2)%nat.
Proof. unfold invalid_port_lines. rewrite omap_app, length_app. reflexivity. Qed.

(** The first two parts of a tick leave the OSC session alone. *)
Lemma timer_devices_run (os : Devices) (s : App) :
  exists s1 o1,
    (timer_midi_input os ;; timer_virtual_output os) s = Done tt s1 o1 /\
    session s1 = session s /\
    oscReceivePort_ s1 = oscReceivePort_ s /\ oscSendPort_ s1 = oscSendPort_ s /\
    pinged_ s1 = pinged_ s /\
    looper_requests o1 = [] /\ invalid_port_lines o1 = 0%nat.
Proof.
  assert (exists s1 o1,
            timer_midi_input os s = Done tt s1 o1 /\
            session s1 = session s /\
            oscReceivePort_ s1 = oscReceivePort_ s /\ oscSendPort_ s1 = oscSendPort_ s /\
            pinged_ s1 = pinged_ s /\
            looper_requests o1 = [] /\ invalid_port_lines o1 = 0%nat)
    as (s1 & o1 & H1 & A1 & B1 & C1 & D1 & E1 & F1).
  { unfold timer_midi_input, tryToConnectMidiInput. rewrite !bind_gets.
    destruct (negb (String.eqb (fullMidiInName_ s) "")
              && negb (bool_decide (fullMidiInName_ s ∈ getDevices os)));
      [eexists _, _; split; [reflexivity|]; repeat split|].
    destruct (negb (String.eqb (midiInName_ s) "") && negb (midiIn_ s));
      [|eexists _, _; split; [reflexivity|]; repeat split].
    rewrite bind_bind, bind_gets.
    destruct (match indexOf (getDevices os) (midiInName_ s) with
              | Some index => Some (index, midiInName_ s)
              | None =>
                  firstContaining (containsIgnoreCase os) (getDevices os) 0 (midiInName_ s)
              end) as [[index name]|];
      [|eexists _, _; split; [reflexivity|]; repeat split].
    destruct (openDevice os index); eexists _, _; (split; [reflexivity|]); repeat split. }
  assert (exists s2 o2,
            timer_virtual_output os s1 = Done tt s2 o2 /\
            session s2 = session s1 /\
            oscReceivePort_ s2 = oscReceivePort_ s1 /\ oscSendPort_ s2 = oscSendPort_ s1 /\
            pinged_ s2 = pinged_ s1 /\
            looper_requests o2 = [] /\ invalid_port_lines o2 = 0%nat)
    as (s2 & o2 & H2 & A2 & B2 & C2 & D2 & E2 & F2).
  { unfold timer_virtual_output. rewrite bind_gets.
    destruct (String.eqb (virtMidiOutName_ s1) ""); simpl;
      [|eexists _, _; split; [reflexivity|]; repeat split].
    destruct (createNewDevice os "loop4r_control_out");
      eexists _, _; (split; [reflexivity|]); repeat split. }
  exists s2, (o1 ++ o2). rewrite (bind_Done _ _ _ _ _ _ H1), H2.
  split; [reflexivity|].
  rewrite looper_requests_app, invalid_port_lines_app, E1, E2, F1, F2.
  repeat split; congruence.
Qed.

Lemma timerCallback_split (os : Devices) (s : App) :
  timerCallback os s = ((timer_midi_input os ;; timer_virtual_output os) ;; timer_osc os) s.
Proof. unfold timerCallback. rewrite bind_bind. reflexivity. Qed.

Ltac fields :=
  cbn [leds_ loops_ mode_ heartbeat_ engineId_ loopCount_ selectedLoop_ hostUrl_ version_
       currentReceivePort_ currentSendPort_ currentLedSendPort_ oscSendPort_ oscReceivePort_
       pinged_ oscLedSenderInitialized_ channel_ baseNote_ midiInName_ fullMidiInName_
       midiIn_ virtMidiOutName_ virtMidiOut_ missingOutputPortWarningPrinted
       set_leds set_loops set_mode set_heartbeat set_engineId set_loopCount set_selectedLoop
       set_hostUrl set_version set_currentReceivePort set_currentSendPort set_fullMidiInName
       set_midiIn set_virtMidiOutName set_virtMidiOut set_missingOutputPortWarningPrinted].

Lemma timer_osc_connects (os : Devices) (s : App) :
  currentReceivePort_ s < 0 -> currentSendPort_ s < 0 -> pinged_ s = false ->
  senderConnect os (oscSendPort_ s) = true ->
  receiverConnect os (oscReceivePort_ s) = true ->
  isValidOscPort (oscReceivePort_ s) = true -> 0 < oscSendPort_ s ->
  timer_osc os s
  = Done tt
      (set_heartbeat 5
         (set_currentReceivePort (oscReceivePort_ s)
            (set_currentSendPort (oscSendPort_ s) s)))
      [cerr (LogOscSendConnected (oscSendPort_ s));
       osc_send oscSender "/ping"
         [Str ("osc.udp://localhost:" +:+ to_string (oscReceivePort_ s) +:+ "/");
          Str "/pingack"];
       cerr (LogOscConnected (oscReceivePort_ s) (oscSendPort_ s) (currentLedSendPort_ s))].
Proof.
  intros Hr Hs Hp Hsc Hrc Hv Hpos.
  assert ((currentReceivePort_ s <? 0) = true) as Br by (apply Z.ltb_lt; lia).
  assert ((currentSendPort_ s <? 0) = true) as Bs by (apply Z.ltb_lt; lia).
  assert ((0 <? oscSendPort_ s) = true) as Bp by (apply Z.ltb_lt; lia).
  assert ((0 <? oscReceivePort_ s) = true) as Bv.
  { unfold isValidOscPort in Hv. apply andb_prop in Hv as [Hv _]. exact Hv. }
  unfold timer_osc, tryToConnectOsc, connect, replyUrl.
  repeat (mrun; fields; rewrite ?Br, ?Bs, ?Bp, ?Bv, ?Hp, ?Hsc, ?Hrc, ?Hv;
          cbn [orb andb negb]).
  reflexivity.
Qed.

(** X22. The tick that connects. With no OSC port connected, sockets that
    connect, a valid receive port and a positive send port, one tick
    connects both ports, sets the countdown to 5 and announces the program
    to the looper with one [/ping] that asks for a [/pingack] on the
    receive port just connected. *)
Theorem timerCallback_connects (os : Devices) (s : App) :
  currentReceivePort_ s < 0 -> currentSendPort_ s < 0 -> pinged_ s = false ->
  senderConnect os (oscSendPort_ s) = true ->
  receiverConnect os (oscReceivePort_ s) = true ->
  isValidOscPort (oscReceivePort_ s) = true -> 0 < oscSendPort_ s ->
  exists s' out,
    timerCallback os s = Done tt s' out /\
    currentSendPort_ s' = oscSendPort_ s /\
    currentReceivePort_ s' = oscReceivePort_ s /\
    heartbeat_ s' = 5 /\
    looper_requests out = [announcement s'].
Proof.
  intros Hr Hs Hp Hsc Hrc Hv Hpos.
  destruct (timer_devices_run os s) as (s1 & o1 & H1 & Hsess & Hrp & Hsp & Hpg & Hreq & _).
  unfold session in Hsess. injection Hsess as Er Es Eh.
  rewrite timerCallback_split, (bind_Done _ _ _ _ _ _ H1).
  rewrite <- Er in Hr. rewrite <- Es in Hs. rewrite <- Hpg in Hp.
  rewrite <- Hsp in Hsc, Hpos |- *. rewrite <- Hrp in Hrc, Hv |- *.
  clear H1 Er Es Eh Hrp Hsp Hpg s. rename s1 into s.
  rewrite (timer_osc_connects os s Hr Hs Hp Hsc Hrc Hv Hpos). simpl prefix.
  eexists _, _. split; [reflexivity|].
  split; [reflexivity|]. split; [reflexivity|]. split; [reflexivity|].
  rewrite looper_requests_app, Hreq. reflexivity.
Qed.

Lemma timerCallback_connects_witness :
  currentReceivePort_ initial < 0 /\ currentSendPort_ initial < 0 /\
  exists s' out,
    timerCallback friendly initial = Done tt s' out /\
    currentSendPort_ s' = 9951 /\ currentReceivePort_ s' = 9000 /\ heartbeat_ s' = 5.
Proof.
  split; [reflexivity|]. split; [reflexivity|].
  destruct (timerCallback_connects friendly initial eq_refl eq_refl eq_refl eq_refl eq_refl
              eq_refl eq_refl) as (s' & out & H & Hs & Hr & Hh & _).
  exists s', out. auto.
Defined.

Lemma timer_osc_invalid_port (os : Devices) (s : App) :
  currentReceivePort_ s < 0 -> isValidOscPort (oscReceivePort_ s) = false ->
  exists s' out,
    timer_osc os s = Done tt s' out /\
    currentReceivePort_ s' = currentReceivePort_ s /\
    oscReceivePort_ s' = oscReceivePort_ s /\
    heartbeat_ s' = heartbeat_ s /\
    looper_requests out = [] /\ invalid_port_lines out = 1%nat.
Proof.
  intros Hr Hv.
  assert ((currentReceivePort_ s <? 0) = true) as Br by (apply Z.ltb_lt; lia).
  assert ((0 <? currentReceivePort_ s) = false) as Br' by (apply Z.ltb_ge; lia).
  unfold timer_osc, tryToConnectOsc, connect, replyUrl.
  mrun. rewrite Br. cbn [orb]. mrun.
  destruct (currentSendPort_ s <? 0); simpl when; mrun;
    [destruct (senderConnect os (oscSendPort_ s)); simpl when; mrun|];
    repeat (mrun; fields; rewrite ?Br, ?Br', ?Hv, ?andb_false_r; cbn [orb andb negb]);
    eexists _, _; (split; [reflexivity|]); repeat split.
Qed.

(** X23. A receive port that is no valid port, such as 0. The program then
    never connects and never talks to the looper: every tick of the timer
    writes the line about the invalid port number, the receive port stays
    unconnected and the countdown stays where it is, and no request goes
    out, however many ticks pass. *)
Theorem ticks_invalid_port (oss : list Devices) (s : App) :
  currentReceivePort_ s < 0 -> isValidOscPort (oscReceivePort_ s) = false ->
  exists s' out,
    ticks oss s = Done tt s' out /\
    currentReceivePort_ s' = currentReceivePort_ s /\
    heartbeat_ s' = heartbeat_ s /\
    looper_requests out = [] /\
    invalid_port_lines out = length oss.
Proof.
  revert s. induction oss as [|os oss IH]; intros s Hr Hv.
  - exists s, []. repeat split.
  - destruct (timer_devices_run os s) as (s1 & o1 & H1 & Hsess & Hrp & _ & _ & Hreq1 & Hl1).
    unfold session in Hsess. injection Hsess as Er Es Eh.
    destruct (timer_osc_invalid_port os s1) as (s2 & o2 & H2 & Er2 & Ep2 & Eh2 & Hreq2 & Hl2).
    { lia. } { rewrite Hrp. exact Hv. }
    destruct (IH s2) as (s' & o' & H' & Er' & Eh' & Hreq' & Hl').
    { lia. } { rewrite Ep2, Hrp. exact Hv. }
    exists s', ((o1 ++ o2) ++ o'). unfold ticks in *. simpl for_each.
    rewrite (bind_Done _ _ _ _ _ _
               (eq_trans (timerCallback_split os s)
                  (eq_trans (bind_Done _ _ _ _ _ _ H1) (f_equal (prefix o1) H2)))).
    rewrite H'. split; [reflexivity|].
    rewrite !looper_requests_app, !invalid_port_lines_app, Hreq1, Hreq2, Hreq', Hl1, Hl2, Hl'.
    repeat split; simpl; lia.
Qed.

Lemma ticks_invalid_port_witness :
  currentReceivePort_ port_zero < 0 /\ isValidOscPort (oscReceivePort_ port_zero) = false /\
  exists s' out,
    ticks [friendly; friendly; friendly] port_zero = Done tt s' out /\
    looper_requests out = [] /\ invalid_port_lines out = 3%nat.
Proof.
  split; [reflexivity|]. split; [reflexivity|].
  destruct (ticks_invalid_port [friendly; friendly; friendly] port_zero eq_refl eq_refl)
    as (s' & out & H & _ & _ & Hreq & Hl).
  exists s', out. auto.
Defined.

(** ** The command line *)

(** X24. The three limits clamp to their range, and the cast to the
    unsigned type that follows never wraps: the result is inside the range,
    a value inside the range is returned as it is, a negative one gives 0
    and one above the range gives the upper end. *)
Theorem limits_clamp (value : Z) :
  (0 <= limit7Bit value <= 127 /\
   (0 <= value <= 127 -> limit7Bit value = value) /\
   (value < 0 -> limit7Bit value = 0) /\ (127 < value -> limit7Bit value = 127)) /\
  (0 <= limit14Bit value <= 16383 /\
   (0 <= value <= 16383 -> limit14Bit value = value) /\
   (value < 0 -> limit14Bit value = 0) /\ (16383 < value -> limit14Bit value = 16383)) /\
  (0 <= limit16Bit value <= 65535 /\
   (0 <= value <= 65535 -> limit16Bit value = value) /\
   (value < 0 -> limit16Bit value = 0) /\ (65535 < value -> limit16Bit value = 65535)).
Proof.
  assert (forall hi m, 0 <= hi < m ->
            let r := jlimit 0 hi value mod m in
            0 <= r <= hi /\ (0 <= value <= hi -> r = value) /\
            (value < 0 -> r = 0) /\ (hi < value -> r = hi)) as H.
  { intros hi m Hm. unfold jlimit.
    destruct (Z.ltb_spec value 0); [|destruct (Z.ltb_spec hi value)];
      cbv zeta; rewrite Z.mod_small by lia; repeat split; lia. }
  split; [apply (H 127 256); lia|]. split; [apply (H 16383 65536); lia|].
  apply (H 65535 65536); lia.
Qed.

Lemma for_each_writes {A} (body : A -> M unit) (f : A -> list Event) (l : list A) (s : App) :
  (forall x, body x s = Done tt s (f x)) ->
  for_each l body s = Done tt s (flat_map f l).
Proof.
  intros Hb. induction l as [|x l IH]; [reflexivity|]. simpl.
  rewrite (bind_Done _ _ _ _ _ _ (Hb x)), IH. reflexivity.
Qed.

Lemma midi_sent_midi (msgs : list MidiMessage) : midi_sent (midi_send <$> msgs) = msgs.
Proof.
  induction msgs as [|m l IH]; [reflexivity|].
  change (m :: midi_sent (midi_send <$> l) = m :: l). rewrite IH. reflexivity.
Qed.

Lemma panic_run (s : App) :
  virtMidiOut_ s = true -> panic s = Done tt s (midi_send <$> panic_messages).
Proof.
  intros Hout.
  assert (forall msg, sendMidiMessage msg s = Done tt s [midi_send msg]) as Hsend.
  { intros msg. rewrite sendMidiMessage_run. unfold warned, sent. rewrite Hout. reflexivity. }
  unfold panic.
  rewrite (for_each_writes _
             (fun ch =>
                midi_send <$>
                  ([controllerEvent ch 64 0; controllerEvent ch 120 0; controllerEvent ch 123 0]
                   ++ ((fun note => noteOff ch note 0) <$> seqZ 0 128)))).
  - reflexivity.
  - intros ch. rewrite !(bind_Done _ _ _ _ _ _ (Hsend _)).
    rewrite (for_each_writes _ (fun note => [midi_send (noteOff ch note 0)])).
    + reflexivity.
    + intros note. apply Hsend.
Qed.

Lemma silent_nil s : silent s [] s.
Proof. intros H. auto. Qed.

Lemma silent_app s1 o1 s2 o2 s3 : silent s1 o1 s2 -> silent s2 o2 s3 -> silent s1 (o1 ++ o2) s3.
Proof.
  intros H1 H2 H0. destruct (H1 H0) as [H0' E1]. destruct (H2 H0') as [H0'' E2].
  rewrite midi_sent_app, E1, E2. auto.
Qed.

Lemma silent_sendMidiMessage msg : holds silent (sendMidiMessage msg).
Proof.
  intros s0 a s1 o Hs H0.
  apply sendMidiMessage_fields in Hs as (_&_&_&_&_&_&_&_& Ev & ->).
  split; [congruence|]. rewrite midi_sent_sent, H0. reflexivity.
Qed.

(** X25. A panic with an output port sends 2096 messages and changes
    nothing: for every channel from 1 to 16 the controllers 64, 120 and 123
    at 0 and a note-off for every note from 0 to 127. Without an output
    port it sends nothing. *)
Theorem panic_silences (s : App) :
  (virtMidiOut_ s = true ->
   exists out,
     panic s = Done tt s out /\
     length (midi_sent out) = 2096%nat /\
     forall ch, 1 <= ch <= 16 ->
       controllerEvent ch 64 0 ∈ midi_sent out /\
       controllerEvent ch 120 0 ∈ midi_sent out /\
       controllerEvent ch 123 0 ∈ midi_sent out /\
       forall note, 0 <= note <= 127 -> noteOff ch note 0 ∈ midi_sent out) /\
  (virtMidiOut_ s = false ->
   forall s' out, panic s = Done tt s' out -> midi_sent out = []).
Proof.
  split.
  - intros Hout. exists (midi_send <$> panic_messages).
    split; [apply panic_run, Hout|]. rewrite midi_sent_midi.
    split; [vm_compute; reflexivity|].
    intros ch Hch.
    assert (forall m,
              m ∈ [controllerEvent ch 64 0; controllerEvent ch 120 0; controllerEvent ch 123 0]
                  ++ ((fun note => noteOff ch note 0) <$> seqZ 0 128) ->
              m ∈ panic_messages) as Hin.
    { intros m Hm. unfold panic_messages. apply list_elem_of_In, in_flat_map.
      exists ch. split; [|apply list_elem_of_In, Hm].
      apply list_elem_of_In, elem_of_seqZ. lia. }
    split; [apply Hin, elem_of_app; left; repeat constructor|].
    split; [apply Hin, elem_of_app; left; repeat constructor|].
    split; [apply Hin, elem_of_app; left; repeat constructor|].
    intros note Hnote. apply Hin, elem_of_app. right.
    apply list_elem_of_fmap. exists note. split; [reflexivity|].
    apply elem_of_seqZ. lia.
  - intros Hout s' out H.
    assert (holds silent panic) as Hp.
    { unfold panic. apply at_for_each; try exact silent_nil; try exact silent_app.
      intros ch _ s0.
      apply at_seq; try exact silent_app; [apply silent_sendMidiMessage|]. intros _ s1.
      apply at_seq; try exact silent_app; [apply silent_sendMidiMessage|]. intros _ s2.
      apply at_seq; try exact silent_app; [apply silent_sendMidiMessage|]. intros _.
      apply at_for_each; try exact silent_nil; try exact silent_app.
      intros note _. apply silent_sendMidiMessage. }
    exact (proj2 (Hp _ _ _ _ H Hout)).
Qed.

Lemma panic_silences_witness :
  virtMidiOut_ established = true /\
  exists out,
    panic established = Done tt established out /\ length (midi_sent out) = 2096%nat.
Proof.
  split; [reflexivity|].
  destruct (proj1 (panic_silences established) eq_refl) as (out & H & Hlen & _).
  exists out. auto.
Defined.

Lemma parseParameters_nil (depth : nat) (sh : Shell) (cur : ApplicationCommand) :
  parseParameters (S depth) sh [] cur = Some (cur, handleVarArgCommand cur).
Proof. reflexivity. Qed.

Lemma parseParameters_cons (depth : nat) (sh : Shell) (param : string)
    (rest : list string) (cur : ApplicationCommand) :
  parseParameters (S depth) sh (param :: rest) cur
  = if String.eqb param "--" then parseParameters (S depth) sh rest cur
    else
      match
        match findApplicationCommand sh param with
        | Some cmd => Some (cmd, handleVarArgCommand cur)
        | None =>
            if is_NONE (command_ cur) then
              match readParameters sh param with
              | Some lines => parseParameters depth sh lines cur
              | None => Some (cur, [])
              end
            else if negb (expectedOptions_ cur =? 0) then Some (add_option param cur, [])
            else Some (cur, [])
        end
      with
      | Some (current, executed) =>
          match parseParameters (S depth) sh rest current with
          | Some (final, later) =>
              Some (final,
                    executed ++ (if expectedOptions_ current =? 0 then [current] else [])
                    ++ later)
          | None => None
          end
      | None => None
      end.
Proof. reflexivity. Qed.

Lemma findApplicationCommand_Some (sh : Shell) (param : string) (cmd : ApplicationCommand) :
  findApplicationCommand sh param = Some cmd ->
  is_NONE (command_ cmd) = false /\ opts_ cmd = [] /\
  (expectedOptions_ cmd = 0 \/ expectedOptions_ cmd = 1 \/ expectedOptions_ cmd = -1).
Proof.
  unfold findApplicationCommand. intros H. apply find_some in H as [Hin _].
  simpl in Hin. repeat (destruct Hin as [<-|Hin]; [simpl; auto|]). destruct Hin.
Qed.

Lemma plain_word_step (depth : nat) (sh : Shell) (w : string) (rest : list string)
    (cur : ApplicationCommand) :
  plain_word sh w -> is_NONE (command_ cur) = false ->
  parseParameters (S depth) sh (w :: rest) cur
  = let current := if expectedOptions_ cur =? 0 then cur else add_option w cur in
    match parseParameters (S depth) sh rest current with
    | Some (final, later) =>
        Some (final, (if expectedOptions_ current =? 0 then [current] else []) ++ later)
    | None => None
    end.
Proof.
  intros [Hfind Hw] Hcmd. rewrite parseParameters_cons, Hfind, Hcmd.
  rewrite (proj2 (String.eqb_neq _ _) Hw).
  destruct (expectedOptions_ cur =? 0); reflexivity.
Qed.

(** Words behind a command that has its options. *)
Lemma words_run_again (depth : nat) (sh : Shell) (words : list string)
    (cur : ApplicationCommand) :
  is_NONE (command_ cur) = false -> expectedOptions_ cur = 0 ->
  Forall (plain_word sh) words ->
  parseParameters (S depth) sh words cur = Some (cur, replicate (length words) cur).
Proof.
  intros Hcmd Hopt Hwords. induction Hwords as [|w words Hw _ IH].
  - rewrite parseParameters_nil. unfold handleVarArgCommand. rewrite Hopt. reflexivity.
  - rewrite (plain_word_step _ _ _ _ _ Hw Hcmd), Hopt. cbn [Z.eqb]. cbv zeta.
    rewrite IH, Hopt. reflexivity.
Qed.

Lemma with_options_cons (cmd : ApplicationCommand) (o : string) (options : list string) :
  with_options (add_option o cmd) options = with_options cmd (o :: options).
Proof.
  unfold with_options, add_option. cbn [param_ altParam_ command_ expectedOptions_ opts_].
  f_equal; [|rewrite <- app_assoc; reflexivity].
  cbn [length]. lia.
Qed.

(** The options of a command, then words. *)
Lemma options_then_words (depth : nat) (sh : Shell) (options words : list string)
    (cur : ApplicationCommand) :
  is_NONE (command_ cur) = false ->
  expectedOptions_ cur = Z.of_nat (length options) -> options <> [] ->
  Forall (plain_word sh) options -> Forall (plain_word sh) words ->
  parseParameters (S depth) sh (options ++ words) cur
  = Some (with_options cur options,
          replicate (S (length words)) (with_options cur options)).
Proof.
  intros Hcmd Hopt Hne Hoptions Hwords. revert cur Hcmd Hopt.
  induction Hoptions as [|o options Ho Hoptions IH]; intros cur Hcmd Hopt; [congruence|].
  cbn [app]. rewrite (plain_word_step _ _ _ _ _ Ho Hcmd).
  replace (expectedOptions_ cur =? 0) with false
    by (symmetry; apply Z.eqb_neq; cbn [length] in Hopt; lia).
  cbv zeta. destruct options as [|o' options].
  - cbn [app]. rewrite (words_run_again depth sh words (add_option o cur)); 
      [|exact Hcmd | cbn [length] in Hopt; simpl; lia | exact Hwords].
    replace (expectedOptions_ (add_option o cur) =? 0) with true
      by (symmetry; apply Z.eqb_eq; cbn [length] in Hopt; simpl; lia).
    rewrite <- with_options_cons.
    assert (with_options (add_option o cur) [] = add_option o cur) as ->.
    { unfold with_options. destruct (add_option o cur) as [a b c d e]. simpl.
      rewrite Z.sub_0_r, app_nil_r. reflexivity. }
    reflexivity.
  - rewrite IH; [|discriminate | exact Hcmd | cbn [length] in Hopt |- *; simpl; lia].
    replace (expectedOptions_ (add_option o cur) =? 0) with false
      by (symmetry; apply Z.eqb_neq; cbn [length] in Hopt; simpl; lia).
    rewrite with_options_cons. reflexivity.
Qed.

(** X26. What the parser of the command line does with words behind a
    command that has all its options. [currentCommand_] is not cleared when
    a command has run, so every further word that is not a command runs the
    same command again with the same options, and is not looked up as a
    program file, whatever the files are: [ch 5 6 7] sets the channel to 5
    three times. The command runs once for its last option and once more
    for every such word. *)
Theorem extra_words_run_again (depth : nat) (sh : Shell) (name : string)
    (cmd : ApplicationCommand) (options words : list string) (cur : ApplicationCommand) :
  findApplicationCommand sh name = Some cmd -> name <> "--" ->
  expectedOptions_ cmd = Z.of_nat (length options) ->
  Forall (plain_word sh) options -> Forall (plain_word sh) words ->
  parseParameters (S depth) sh (name :: options ++ words) cur
  = Some (with_options cmd options,
          handleVarArgCommand cur
          ++ replicate (S (length words)) (with_options cmd options)).
Proof.
  intros Hfind Hname Hopt Hoptions Hwords.
  destruct (findApplicationCommand_Some _ _ _ Hfind) as (Hcmd & _ & _).
  rewrite parseParameters_cons, Hfind, (proj2 (String.eqb_neq _ _) Hname).
  destruct options as [|o options].
  - cbn [app]. rewrite (words_run_again depth sh words cmd Hcmd Hopt Hwords), Hopt.
    cbn [length Z.of_nat Z.eqb].
    assert (with_options cmd [] = cmd) as ->.
    { unfold with_options. destruct cmd as [a b c d e]. simpl.
      rewrite Z.sub_0_r, app_nil_r. reflexivity. }
    reflexivity.
  - rewrite (options_then_words depth sh (o :: options) words cmd Hcmd Hopt
               ltac:(discriminate) Hoptions Hwords).
    replace (expectedOptions_ cmd =? 0) with false
      by (symmetry; apply Z.eqb_neq; cbn [length] in Hopt; lia).
    reflexivity.
Qed.

Lemma extra_words_run_again_witness :
  findApplicationCommand plain_shell "ch" = Some (mkCommand "ch" "channel" CHANNEL 1 []) /\
  parseParameters 1 plain_shell ["ch"; "5"; "6"; "7"] Dummy
  = Some (mkCommand "ch" "channel" CHANNEL 0 ["5"],
          replicate 3 (mkCommand "ch" "channel" CHANNEL 0 ["5"])).
Proof.
  split; [reflexivity|].
  assert (forall w, w = "5" \/ w = "6" \/ w = "7" -> plain_word plain_shell w) as Hw.
  { intros w [->|[->| ->]]; split; try reflexivity; discriminate. }
  exact (extra_words_run_again 0 plain_shell "ch" (mkCommand "ch" "channel" CHANNEL 1 [])
           ["5"] ["6"; "7"] Dummy eq_refl ltac:(discriminate) eq_refl
           (Forall_cons_2 _ _ _ (Hw "5" ltac:(auto)) (Forall_nil_2 _))
           (Forall_cons_2 _ _ _ (Hw "6" ltac:(auto))
              (Forall_cons_2 _ _ _ (Hw "7" ltac:(auto)) (Forall_nil_2 _)))).
Defined.

(** ** Heartbeats of an engine the program does not know *)

Lemma oscMessageReceived_heartbeat (net : Sockets) (message : OSCMessage) (p : Program) :
  oscMessageReceived net "/heartbeat" message p
  = run_member (handleHeartbeatMessage message) p.
Proof.
  unfold oscMessageReceived.
  change (startsWith "/heartbeat" "/heartbeat") with true.
  change (startsWith "/heartbeat" "/pingack") with false.
  change (startsWith "/heartbeat" "/ctrl") with false.
  cbn [negb andb]. destruct (run_member (handleHeartbeatMessage message) p); reflexivity.
Qed.

(** X27. A heartbeat that names an engine other than [engineId_] rebuilds
    the loops, and since only a [/pingack] records an engine, the next
    heartbeat of that engine does so again, whatever has happened in
    between short of a [/pingack]: the loops are all put back to [Off],
    discarding the states that [/ctrl] messages have reported, and every
    loop is registered and queried once more. *)
Theorem unknown_engine_rebuilds_again (net net' : Sockets) (hostUrl version : string)
    (n uid : Z) (cs : list Callback) (p p1 p2 : Program) (o1 o2 : list Output) :
  wf (app_ p) -> uid <> engineId_ (app_ p) -> 0 < n <= 10 ->
  callback (heartbeat_message net hostUrl version n uid) p = Returned p1 o1 ->
  forallb (fun c => negb (is_pingack c)) cs = true ->
  callbacks cs p1 = Returned p2 o2 ->
  exists p3 o3,
    callback (heartbeat_message net' hostUrl version n uid) p2 = Returned p3 o3 /\
    loops_ (app_ p3) = new_loop <$> seqZ 0 n /\
    looper_requests (app_events o3) = rebuild_requests (app_ p2) n /\
    engineId_ (app_ p3) = engineId_ (app_ p).
Proof.
  intros Hwf Huid Hn H1 Hcs H2.
  assert (wf (app_ p1) /\ engineId_ (app_ p1) = engineId_ (app_ p)) as [Hwf1 He1].
  { split.
    - exact (proj1 (keeps_pool_callback _ _ _ _ H1 Hwf)).
    - exact (same_engine_callback (heartbeat_message net hostUrl version n uid) eq_refl
               _ _ _ H1). }
  assert (wf (app_ p2) /\ engineId_ (app_ p2) = engineId_ (app_ p1)) as [Hwf2 He2].
  { split.
    - exact (proj1 (respects_callbacks keeps_pool keeps_pool_nil keeps_pool_app cs
                      (fun c _ => keeps_pool_callback c) _ _ _ H2 Hwf1)).
    - apply (respects_callbacks same_engine same_engine_nil same_engine_app cs)
        with (o := o2); [|exact H2].
      intros c Hc. apply same_engine_callback.
      rewrite forallb_forall in Hcs. apply list_elem_of_In in Hc.
      apply negb_true_iff, Hcs, Hc. }
  destruct (handleHeartbeatMessage_new_engine (app_ p2) hostUrl version n uid)
    as (s3 & out3 & H3 & Hloops & _ & Hreq & _).
  { exact (proj1 Hwf2). } { congruence. } { exact Hn. }
  exists (mkProgram s3 (oscRemoteHost_ p2) (oscRemotePort_ p2)), (of_app <$> out3).
  unfold heartbeat_message, callback. rewrite oscMessageReceived_heartbeat.
  unfold run_member. rewrite H3. split; [reflexivity|].
  split; [exact Hloops|]. rewrite app_events_of_app. split; [exact Hreq|].
  cbn [app_].
  assert (holds same_engine
            (handleHeartbeatMessage [Str hostUrl; Str version; Int32 n; Int32 uid])) as Hh
    by (apply at_handleHeartbeatMessage; same_engine).
  rewrite (Hh _ _ _ _ H3). congruence.
Qed.

Lemma unknown_engine_rebuilds_again_witness :
  wf (app_ example_end) /\ 7 <> engineId_ (app_ example_end) /\ 0 < 2 <= 10 /\
  exists p1 o1 p2 o2 p3 o3,
    callback (heartbeat_message reachable "x" "1.7.2" 2 7) example_end = Returned p1 o1 /\
    callbacks [osc_in reachable "/ctrl" [Int32 1; Str "state"; Float32 (2 # 1)]] p1
      = Returned p2 o2 /\
    callback (heartbeat_message reachable "x" "1.7.2" 2 7) p2 = Returned p3 o3 /\
    loops_ (app_ p2) = [Loop.mk 0 Off 0; Loop.mk 1 Recording 1] /\
    loops_ (app_ p3) = [Loop.mk 0 Off 0; Loop.mk 1 Off 1].
Proof.
  assert (wf (app_ example_end)) as Hwf by (apply wf_concrete; reflexivity).
  assert (7 <> engineId_ (app_ example_end)) as Hid by (vm_compute; discriminate).
  split; [exact Hwf|]. split; [exact Hid|]. split; [lia|].
  destruct (callback (heartbeat_message reachable "x" "1.7.2" 2 7) example_end)
    as [p1 o1|] eqn:H1; [|vm_compute in H1; discriminate H1].
  destruct (callbacks [osc_in reachable "/ctrl" [Int32 1; Str "state"; Float32 (2 # 1)]] p1)
    as [p2 o2|] eqn:H2;
    [|vm_compute in H1; injection H1 as <- <-; vm_compute in H2; discriminate H2].
  destruct (unknown_engine_rebuilds_again reachable reachable "x" "1.7.2" 2 7
              [osc_in reachable "/ctrl" [Int32 1; Str "state"; Float32 (2 # 1)]] _ _ _ _ _
              Hwf Hid ltac:(lia) H1 eq_refl H2) as (p3 & o3 & H3 & Hloops & _).
  exists p1, o1, p2, o2, p3, o3.
  split; [reflexivity|]. split; [exact H2|]. split; [exact H3|].
  split; [|rewrite Hloops; reflexivity].
  vm_compute in H1. injection H1 as <- <-. vm_compute in H2. injection H2 as <- _.
  reflexivity.
Defined.

(** ** A display client that asks for the LEDs *)

Lemma oscMessageReceived_leds (net : Sockets) (message : OSCMessage) (p : Program) :
  oscMessageReceived net "/loop4r/leds" message p
  = after_output
      (client_cerr (LogOscMessage "/loop4r/leds" (length message))
       :: ((fun arg => client_cerr (LogOscArgument arg)) <$> message))
      (handleLedsMessage net message p).
Proof. reflexivity. Qed.

Lemma replied_replies (host : string) (port : Z) (url : string) (leds : list LED.t) :
  replied ((fun led => reply_send host port url (led_arguments led)) <$> leds)
  = led_arguments <$> leds.
Proof.
  induction leds as [|l leds IH]; [reflexivity|].
  change (led_arguments l
          :: replied ((fun led => reply_send host port url (led_arguments led)) <$> leds)
          = led_arguments l :: (led_arguments <$> leds)).
  rewrite IH. reflexivity.
Qed.

(** X28. A display client that asks for the LEDs with [/loop4r/leds] is
    sent the picture of the moment, one message for each LED in the layout
    of the [/led] messages; and when it is the registered client and takes
    every [/led] message that follows, its picture is the picture of the
    LEDs after any sequence of callbacks without a registration message. *)
Theorem snapshot_then_updates (net : Sockets) (host : string) (port : Z) (url : string)
    (cs : list Callback) (p p1 p2 : Program) (o1 o2 : list Output) :
  replyConnect net host port = true ->
  in_order (app_ p) ->
  forallb (fun c => negb (is_registration c)) cs = true ->
  callback (leds_query net host port url) p = Returned p1 o1 ->
  callbacks cs p1 = Returned p2 o2 ->
  replied o1 = picture (app_ p) /\
  display (app_events o2) (replied o1) = picture (app_ p2).
Proof.
  intros Hc Hp Hcs H1 H2.
  unfold leds_query, callback in H1. rewrite oscMessageReceived_leds in H1.
  unfold handleLedsMessage, reply in H1. cbn [reply_arguments] in H1.
  rewrite Hc in H1. cbn [negb after_output] in H1. injection H1 as <- <-.
  assert (replied
            (client_cerr (LogOscMessage "/loop4r/leds" 3)
             :: ((fun arg => client_cerr (LogOscArgument arg)) <$>
                   [Str host; Int32 port; Str url])
             ++ ((fun led => reply_send host port url (led_arguments led)) <$>
                   leds_ (app_ p)))
          = picture (app_ p)) as Hsnap.
  { change (replied ((fun led => reply_send host port url (led_arguments led)) <$>
                       leds_ (app_ p)) = picture (app_ p)).
    apply replied_replies. }
  split; [exact Hsnap|].
  match goal with
  | |- display _ ?v = _ => replace v with (picture (app_ p)) by (symmetry; exact Hsnap)
  end.
  apply (respects_callbacks mirrored mirrored_nil mirrored_app cs) with (o := o2);
    [|exact H2 | exact Hp].
  intros c Hin. apply mirrored_callback.
  rewrite forallb_forall in Hcs. apply list_elem_of_In in Hin.
  apply negb_true_iff, Hcs, Hin.
Qed.

Lemma snapshot_then_updates_witness :
  replyConnect reachable "127.0.0.1" 9001 = true /\
  in_order (app_ example_end) /\
  callback (leds_query reachable "127.0.0.1" 9001 "/leds") example_end
    = Returned example_end
        (outputs (callback (leds_query reachable "127.0.0.1" 9001 "/leds") example_end)) /\
  callbacks example_changes example_end
    = Returned (default example_end (final_program (callbacks example_changes example_end)))
        (outputs (callbacks example_changes example_end)) /\
  display (app_events (outputs (callbacks example_changes example_end)))
    (replied (outputs (callback (leds_query reachable "127.0.0.1" 9001 "/leds") example_end)))
  = picture (app_ (default example_end (final_program (callbacks example_changes example_end)))).
Proof.
  assert (callback (leds_query reachable "127.0.0.1" 9001 "/leds") example_end
          = Returned example_end
              (outputs (callback (leds_query reachable "127.0.0.1" 9001 "/leds") example_end)))
    as H1 by (vm_compute; reflexivity).
  assert (callbacks example_changes example_end
          = Returned (default example_end (final_program (callbacks example_changes example_end)))
              (outputs (callbacks example_changes example_end)))
    as H2 by (vm_compute; reflexivity).
  split; [reflexivity|]. split; [exact in_order_example_end|].
  split; [exact H1|]. split; [exact H2|].
  exact (proj2 (snapshot_then_updates reachable "127.0.0.1" 9001 "/leds" example_changes
                  example_end _ _ _ _ eq_refl in_order_example_end eq_refl H1 H2)).
Defined.

(** ** Refreshing twice *)

Lemma refresh_write_all (mode : Z) (loops : list Loop.t) (leds : list LED.t) :
  refresh mode loops leds = write_all (flat_map (loop_writes mode) loops) leds.
Proof.
  revert leds. induction loops as [|loop loops IH]; intros leds; [reflexivity|].
  unfold refresh in *. cbn [foldl flat_map]. rewrite IH.
  unfold write_all. rewrite foldl_app. f_equal.
  unfold refresh_one, leds_after, loop_writes. rewrite Z.eqb_refl.
  destruct (action (table mode (Loop.state_ loop))); reflexivity.
Qed.

Lemma write_all_lookup (ws : list (nat * Write)) (leds : list LED.t) (p : nat) :
  write_all ws leds !! p = writes_at p ws <$> leds !! p.
Proof.
  revert leds. induction ws as [|[n w] ws IH] using rev_ind; intros leds.
  - unfold write_all, writes_at. simpl. destruct (leds !! p); reflexivity.
  - unfold write_all, writes_at in *. rewrite !foldl_app. cbn [foldl fst snd].
    destruct (Nat.eqb_spec n p) as [->|Hne].
    + rewrite list_lookup_alter_eq, IH. destruct (leds !! p); reflexivity.
    + rewrite list_lookup_alter_ne by exact Hne. apply IH.
Qed.

Lemma writes_at_fixes (p : nat) (ws : list (nat * Write)) :
  exists o t v, forall led, writes_at p ws led = fixes o t v led.
Proof.
  induction ws as [|[n w] ws IH] using rev_ind.
  - exists None, None, None. intros []. reflexivity.
  - destruct IH as (o & t & v & IH).
    unfold writes_at in *. rewrite foldl_app. cbn [foldl fst snd].
    destruct (Nat.eqb n p); [|eauto].
    destruct w as [lk|b].
    + exists (Some (lit lk)), (Some (timer_value (timer lk))), (Some (visual lk)).
      intros led. rewrite IH. reflexivity.
    + exists (Some b), t, v. intros led. rewrite IH. reflexivity.
Qed.

Lemma fixes_twice (o : option bool) (t : option Z) (v : option LedStates) (led : LED.t) :
  fixes o t v (fixes o t v led) = fixes o t v led.
Proof. destruct o, t, v; reflexivity. Qed.

Lemma write_all_twice (ws : list (nat * Write)) (leds : list LED.t) :
  write_all ws (write_all ws leds) = write_all ws leds.
Proof.
  apply list_eq. intros p. rewrite !write_all_lookup.
  destruct (writes_at_fixes p ws) as (o & t & v & H).
  destruct (leds !! p) as [led|]; [|reflexivity]. simpl.
  rewrite !H, fixes_twice. reflexivity.
Qed.

(** X29. A refresh of the loops is idempotent: from well-formed members
    [updateLoops] returns, and run once more right away it changes nothing
    and writes the same lines to the pedal board again. Every write of a
    refresh sets a field of an LED to a value that the LEDs do not enter
    into, so the second pass finds each field as it leaves it. *)
Theorem updateLoops_twice (s : App) :
  wf s ->
  exists s1 o1 o2,
    updateLoops s = Done tt s1 o1 /\
    updateLoops s1 = Done tt s1 o2 /\
    cc_lines o2 = cc_lines o1.
Proof.
  intros Hwf. destruct (updateLoops_run s Hwf) as (o1 & H1 & Hcc1 & _).
  set (s1 := set_leds (refresh (mode_ s) (loops_ s) (leds_ s)) s) in *.
  assert (wf s1) as Hwf1.
  { apply wf_set_leds; [apply length_refresh | exact Hwf]. }
  destruct (updateLoops_run s1 Hwf1) as (o2 & H2 & Hcc2 & _).
  exists s1, o1, o2. split; [exact H1|]. split; [|rewrite Hcc1, Hcc2; reflexivity].
  rewrite H2. f_equal. unfold s1.
  change (set_leds
            (refresh (mode_ s) (loops_ s) (refresh (mode_ s) (loops_ s) (leds_ s))) s
          = set_leds (refresh (mode_ s) (loops_ s) (leds_ s)) s).
  rewrite !refresh_write_all, write_all_twice. reflexivity.
Qed.

Lemma updateLoops_twice_witness :
  wf three_loops /\
  exists s1 o1 o2,
    updateLoops three_loops = Done tt s1 o1 /\ updateLoops s1 = Done tt s1 o2 /\
    cc_lines o2 = cc_lines o1.
Proof.
  split; [exact wf_three_loops|]. exact (updateLoops_twice three_loops wf_three_loops).
Defined.

(** ** The LED of the Record pedal *)

Lemma record_pedal_run (s : App) (channel : Z) :
  wf s ->
  exists out,
    handleIncomingMidiMessage (record_down channel) s
    = Done tt (set_leds (record_leds s) (set_mode (toggled (mode_ s)) s)) out.
Proof.
  intros [Hlen Hloops].
  unfold handleIncomingMidiMessage, record_down, pedal_down.
  change (pedalIndex (RECORD + 1)) with 4.
  change ((0 <=? 4) && (4 <=? 3)) with false. change (4 =? RECORD) with true.
  mrun. fold (toggled (mode_ s)).
  set (s1 := set_mode (toggled (mode_ s)) s).
  destruct (lookup_lt_is_Some_2 (leds_ s1) (Z.to_nat 4)) as [led Hled].
  { simpl. rewrite Hlen. lia. }
  assert (exists o,
            (if toggled (mode_ s) =? 0 then ledOff 4 else ledOn 4) s1
            = Done tt
                (set_leds (alter (LED.set_on (negb (toggled (mode_ s) =? 0))) (Z.to_nat 4)
                             (leds_ s1)) s1) o) as (o1 & H1).
  { destruct (toggled (mode_ s) =? 0); unfold ledOff, ledOn;
      rewrite (led_switch_in _ _ 4 s1 led ltac:(lia) Hled); eexists; reflexivity. }
  rewrite (bind_Done _ _ _ _ _ _ H1).
  destruct (updateLoops_run
              (set_leds (alter (LED.set_on (negb (toggled (mode_ s) =? 0))) (Z.to_nat 4)
                           (leds_ s1)) s1)) as (o2 & H2 & _).
  { split; [rewrite leds_set_leds, length_alter; exact Hlen | exact Hloops]. }
  rewrite (bind_Done _ _ _ _ _ _ H2). simpl prefix.
  eexists. reflexivity.
Qed.

Lemma writes_at_none (p : nat) (ws : list (nat * Write)) (led : LED.t) :
  Forall (fun w => fst w <> p) ws -> writes_at p ws led = led.
Proof.
  intros H. induction ws as [|[n w] ws IH] using rev_ind; [reflexivity|].
  apply Forall_app in H as [H Hw]. inversion Hw as [|? ? Hn _]; subst.
  unfold writes_at in *. rewrite foldl_app. cbn [foldl fst snd].
  simpl in Hn. rewrite (proj2 (Nat.eqb_neq n p) Hn). exact (IH H).
Qed.

Lemma loop_writes_places (mode : Z) (loop : Loop.t) :
  Forall (fun w => fst w = Z.to_nat (Loop.index_ loop) \/ (5 <= fst w <= 8)%nat)
    (loop_writes mode loop).
Proof.
  unfold loop_writes. constructor; [left; reflexivity|].
  destruct (action (table mode (Loop.state_ loop))) as [a|] eqn:E; [|constructor].
  constructor; [|constructor]. right. simpl.
  assert (a = INSERT \/ a = REPLACE \/ a = SUBSTITUTE \/ a = MULTIPLY) as Ha.
  { revert E. generalize (Loop.state_ loop). intros st. unfold table.
    switch_cases st; try discriminate; try (intros [= <-]; auto);
      destruct (mode =? 0); discriminate. }
  unfold INSERT, REPLACE, SUBSTITUTE, MULTIPLY in Ha.
  destruct Ha as [->|[->|[->| ->]]]; lia.
Qed.

(** X30. The LED of the Record pedal after a press of Record. The press
    toggles the mode between 0 and 20, switches LED 4 to show it and
    refreshes the loops. When no loop has index 4 the LED is lit exactly
    when the new mode is 20. But the fifth loop has LED 4 as its own: when
    the last loop has index 4 and is [Off], the refresh puts the LED out
    again, and it is dark in either mode. *)
Theorem record_led_after_press (s : App) (channel : Z) :
  wf s ->
  exists s' out led,
    handleIncomingMidiMessage (record_down channel) s = Done tt s' out /\
    mode_ s' = toggled (mode_ s) /\
    leds_ s' !! 4%nat = Some led /\
    ((forall loop, loop ∈ loops_ s -> Loop.index_ loop <> 4) ->
     LED.on_ led = negb (mode_ s' =? 0)) /\
    (forall front loop,
       loops_ s = front ++ [loop] -> Loop.index_ loop = 4 -> Loop.state_ loop = Off ->
       LED.on_ led = false).
Proof.
  intros Hwf. destruct (record_pedal_run s channel Hwf) as (out & Hrun).
  destruct Hwf as [Hlen Hloops].
  destruct (lookup_lt_is_Some_2 (leds_ s) 4) as [led0 Hled0]; [rewrite Hlen; lia|].
  set (on := negb (toggled (mode_ s) =? 0)).
  set (ws := flat_map (loop_writes (toggled (mode_ s))) (loops_ s)).
  assert (record_leds s !! 4%nat = Some (writes_at 4 ws (LED.set_on on led0))) as Hled.
  { unfold record_leds. rewrite refresh_write_all, write_all_lookup.
    change (Z.to_nat RECORD) with 4%nat.
    rewrite list_lookup_alter_eq, Hled0. reflexivity. }
  exists (set_leds (record_leds s) (set_mode (toggled (mode_ s)) s)), out,
    (writes_at 4 ws (LED.set_on on led0)).
  split; [exact Hrun|]. split; [reflexivity|]. split; [exact Hled|]. split.
  - intros Hnone. rewrite writes_at_none; [reflexivity|].
    unfold ws. apply Forall_flat_map, Forall_forall. intros loop Hin.
    pose proof (Hnone loop Hin) as Hne.
    assert (wf_loop loop) as [Hi _] by (rewrite Forall_forall in Hloops; auto).
    eapply Forall_impl; [apply loop_writes_places|].
    intros w [-> | Hw]; simpl; lia.
  - intros front loop Hsplit Hindex Hstate.
    unfold ws. rewrite Hsplit, flat_map_app. cbn [flat_map]. rewrite app_nil_r.
    unfold loop_writes at 2. rewrite Hstate, Hindex.
    change (table (toggled (mode_ s)) Off) with (mkLook Dark timer_off false None).
    cbn [action]. unfold writes_at. rewrite foldl_app. reflexivity.
Qed.

Lemma wf_five_loops : wf five_loops.
Proof. apply wf_concrete; reflexivity. Qed.

Lemma record_led_after_press_witness :
  wf five_loops /\
  exists s' out led,
    handleIncomingMidiMessage (record_down 1) five_loops = Done tt s' out /\
    mode_ s' = 20 /\ leds_ s' !! 4%nat = Some led /\ LED.on_ led = false.
Proof.
  split; [exact wf_five_loops|].
  destruct (record_led_after_press five_loops 1 wf_five_loops)
    as (s' & out & led & Hrun & Hmode & Hled & _ & Hlast).
  exists s', out, led. split; [exact Hrun|]. split; [rewrite Hmode; reflexivity|].
  split; [exact Hled|].
  apply (Hlast [new_loop 0; new_loop 1; new_loop 2; new_loop 3] (new_loop 4));
    reflexivity.
Defined.

(** ** C8: malformed messages *)

Lemma handlePingAckMessage_resets (message : OSCMessage) (s s' : App)
    (out : list Event) :
  message <> [] ->
  handlePingAckMessage message s = Done tt s' out -> heartbeat_ s' = 5.
Proof.
  intros Hne H. destruct message as [|a rest]; [contradiction|].
  unfold handlePingAckMessage in H.
  apply bind_inv in H as (? & s1 & o1 & o2 & _ & H & _).
  rewrite bind_gets in H. eapply ends_with_heartbeat_reset. exact H.
Qed.

Lemma handleHeartbeatMessage_resets (message : OSCMessage) (s s' : App)
    (out : list Event) :
  message <> [] ->
  handleHeartbeatMessage message s = Done tt s' out -> heartbeat_ s' = 5.
Proof.
  intros Hne H. destruct message as [|a rest]; [contradiction|].
  unfold handleHeartbeatMessage in H. rewrite bind_gets in H.
  apply bind_inv in H as (locals & s1 & o1 & o2 & _ & H & _).
  eapply ends_with_heartbeat_reset. exact H.
Qed.

(** A program that differs from another by lines written first. *)
Lemma bind_prefix {A B} (m m' : M A) (k : A -> M B) (o : list Event) (s : App) :
  m s = prefix o (m' s) -> bind m k s = prefix o (bind m' k s).
Proof.
  intros H. unfold bind. rewrite H. destruct (m' s) as [a s1 o1|f o1]; simpl; [|reflexivity].
  rewrite prefix_prefix. reflexivity.
Qed.

(** Behind the fourth argument every argument is logged. *)
Lemma pingack_arguments_extra (rest : list OSCArgument) : forall (i : nat) (s : App),
  pingack_arguments (4 + i) rest s
    = Done tt s (replicate (length rest) (cerr LogUnexpectedPingAckArgs)).
Proof.
  induction rest as [|arg rest IH]; intros i s; [reflexivity|].
  change (pingack_arguments (4 + i) (arg :: rest))
    with (emit (cerr LogUnexpectedPingAckArgs) ;; pingack_arguments (4 + S i) rest).
  rewrite bind_emit, IH. reflexivity.
Qed.

Lemma heartbeat_arguments_extra (rest : list OSCArgument) :
  forall (i : nat) (numloops uid : Z) (s : App),
  heartbeat_arguments (4 + i) rest numloops uid s
    = Done (numloops, uid) s (replicate (length rest) (cerr LogUnexpectedHeartbeatArgs)).
Proof.
  induction rest as [|arg rest IH]; intros i numloops uid s; [reflexivity|].
  change (heartbeat_arguments (4 + i) (arg :: rest) numloops uid)
    with (emit (cerr LogUnexpectedHeartbeatArgs) ;;
          heartbeat_arguments (4 + S i) rest numloops uid).
  rewrite bind_emit, IH. reflexivity.
Qed.

(** The argument loops take from any message what they take from the
    message of the expected shape made of it. *)
Lemma pingack_arguments_taken (message : OSCMessage) (s : App) :
  pingack_arguments 0 message s
    = prefix (extra_lines LogUnexpectedPingAckArgs message)
        (pingack_arguments 0 (pingack_taken s message) s).
Proof.
  destruct message as [|a [|b [|c [|d rest]]]];
    [ | destruct a | destruct a, b | destruct a, b, c | destruct a, b, c, d ];
    try (destruct s; reflexivity);
    cbn [pingack_arguments]; mrun;
    rewrite (pingack_arguments_extra rest 0);
    unfold extra_lines, pingack_taken, string_at, int32_at;
    cbn [length Nat.sub lookup list_lookup pingack_arguments]; mrun;
    rewrite Nat.sub_0_r; unfold ret, prefix; rewrite app_nil_r;
    destruct s; reflexivity.
Qed.

Lemma heartbeat_arguments_taken (message : OSCMessage) (s : App) :
  heartbeat_arguments 0 message 0 (engineId_ s) s
    = prefix (extra_lines LogUnexpectedHeartbeatArgs message)
        (heartbeat_arguments 0 (heartbeat_taken s message) 0 (engineId_ s) s).
Proof.
  destruct message as [|a [|b [|c [|d rest]]]];
    [ | destruct a | destruct a, b | destruct a, b, c | destruct a, b, c, d ];
    try (destruct s; reflexivity);
    cbn [heartbeat_arguments]; mrun;
    rewrite (heartbeat_arguments_extra rest 0);
    unfold extra_lines, heartbeat_taken, string_at, int32_at;
    cbn [length Nat.sub lookup list_lookup heartbeat_arguments]; mrun;
    rewrite Nat.sub_0_r; unfold ret, prefix; rewrite app_nil_r;
    destruct s; reflexivity.
Qed.

Lemma handlePingAckMessage_taken (message : OSCMessage) (s : App) :
  message <> [] ->
  handlePingAckMessage message s
    = prefix (extra_lines LogUnexpectedPingAckArgs message)
        (handlePingAckMessage (pingack_taken s message) s).
Proof.
  intros Hne. destruct message as [|a rest]; [contradiction|].
  unfold handlePingAckMessage, pingack_taken.
  apply bind_prefix. apply (pingack_arguments_taken (a :: rest) s).
Qed.

Lemma handleHeartbeatMessage_taken (message : OSCMessage) (s : App) :
  message <> [] ->
  handleHeartbeatMessage message s
    = prefix (extra_lines LogUnexpectedHeartbeatArgs message)
        (handleHeartbeatMessage (heartbeat_taken s message) s).
Proof.
  intros Hne. destruct message as [|a rest]; [contradiction|].
  unfold handleHeartbeatMessage, heartbeat_taken. rewrite !bind_gets.
  apply bind_prefix. apply (heartbeat_arguments_taken (a :: rest) s).
Qed.

(** A [/ctrl] message whose second argument is not the awaited key, or
    whose third is no float, is passed over. *)
Lemma handleCtrlMessage_other_key (loopIndex : Z) (a : OSCArgument)
    (rest : list OSCArgument) (s : App) :
  is_key loopIndex a = false ->
  handleCtrlMessage (Int32 loopIndex :: a :: rest) s = Done tt (passed_over loopIndex s) [].
Proof.
  unfold is_key, awaited_key, passed_over, handleCtrlMessage, deref.
  destruct (Z.eqb_spec loopIndex (-2)) as [->|Hne].
  - destruct a as [| |key|]; try reflexivity. intros Hkey. mrun. rewrite Hkey. reflexivity.
  - destruct (Z.ltb_spec loopIndex 0) as [Hneg|Hpos].
    + replace (0 <=? loopIndex) with false by (symmetry; apply Z.leb_gt; lia). reflexivity.
    + replace (0 <=? loopIndex) with true by (symmetry; apply Z.leb_le; lia).
      destruct a as [| |key|]; try reflexivity. intros Hkey. mrun. rewrite Hkey. reflexivity.
Qed.

Lemma handleCtrlMessage_other_value (loopIndex : Z) (a v : OSCArgument)
    (rest : list OSCArgument) (s : App) :
  is_key loopIndex a = true -> isFloat32 v = false ->
  handleCtrlMessage (Int32 loopIndex :: a :: v :: rest) s
    = Done tt (passed_over loopIndex s) [].
Proof.
  unfold is_key, awaited_key, passed_over, handleCtrlMessage, deref.
  destruct (Z.eqb_spec loopIndex (-2)) as [->|Hne].
  - destruct a as [| |key|]; try discriminate. intros Hkey Hv. mrun. rewrite Hkey.
    destruct v; try discriminate; reflexivity.
  - destruct (Z.ltb_spec loopIndex 0) as [Hneg|Hpos]; [discriminate|].
    replace (0 <=? loopIndex) with true by (symmetry; apply Z.leb_le; lia).
    destruct a as [| |key|]; try discriminate. intros Hkey Hv. mrun. rewrite Hkey.
    destruct v; try discriminate; reflexivity.
Qed.

Lemma handleCtrlMessage_extra (a b c : OSCArgument) (rest : list OSCArgument) (s : App) :
  handleCtrlMessage (a :: b :: c :: rest) s = handleCtrlMessage [a; b; c] s.
Proof. reflexivity. Qed.

(** A heartbeat of the expected shape that reports at most ten loops is
    handled to the end. *)
Lemma handleHeartbeatMessage_within (s : App) (hostUrl version : string)
    (numloops uid : Z) :
  wf s -> 0 <= loopCount_ s -> numloops <= 10 ->
  exists s' out,
    handleHeartbeatMessage [Str hostUrl; Str version; Int32 numloops; Int32 uid] s
      = Done tt s' out.
Proof.
  intros Hwf Hcount Hn. destruct (Z.eq_dec uid (engineId_ s)) as [->|Huid].
  - destruct (Z.lt_trichotomy numloops (loopCount_ s)) as [Hlt|[Heq|Hgt]].
    + eexists _, _. apply (heartbeat_fewer_loops s hostUrl version numloops Hlt).
    + rewrite handleHeartbeatMessage_shape, Z.eqb_refl. change (negb true) with false.
      mrun. change (loopCount_ (identified hostUrl version s)) with (loopCount_ s).
      rewrite <- Heq, Z.eqb_refl. simpl negb. mrun. unfold modify. eauto.
    + destruct (heartbeat_grows s hostUrl version numloops Hwf ltac:(lia) Hn)
        as (s' & out & Hrun & _).
      eauto.
  - destruct (Z.lt_ge_cases 0 numloops) as [Hpos|Hneg].
    + destruct (handleHeartbeatMessage_new_engine s hostUrl version numloops uid
                  (proj1 Hwf) Huid ltac:(lia)) as (s' & out & Hrun & _).
      eauto.
    + rewrite handleHeartbeatMessage_shape.
      replace (uid =? engineId_ s) with false by (symmetry; apply Z.eqb_neq; assumption).
      replace (0 <? numloops) with false by (symmetry; apply Z.ltb_ge; assumption).
      simpl negb. mrun. unfold modify. eauto.
Qed.

(** C8 (amended). An empty [/pingack], [/heartbeat] or [/ctrl] message is
    dropped with the state unchanged and nothing written, and a [/ctrl]
    message whose first argument is not an int32 is logged and dropped with
    the state unchanged. A [/ctrl] message with an int32 index whose second
    argument is not the key awaited behind the index, or whose third is no
    float, is passed over without a line: the state stays, but for the
    countdown, which an index from 0 on sets to 5; what follows the third
    argument is not looked at. A [/pingack] or [/heartbeat] message that is
    not empty is never dropped: an argument of another type than expected at
    its place is skipped, every argument behind the fourth is logged, and the
    handler then does what it does for the message of the expected shape
    that carries the arguments taken and, for the others, what the handler
    keeps; so the countdown is 5 whenever it returns, and in a well-formed
    state whose [loopCount_] is not negative it returns when at most ten
    loops are reported. *)
Theorem malformed_messages (s : App) (message : OSCMessage) :
  message <> [] ->
  (handlePingAckMessage [] s = Done tt s [] /\
   handleHeartbeatMessage [] s = Done tt s [] /\
   handleCtrlMessage [] s = Done tt s []) /\
  (forall first rest,
     isInt32 first = false ->
     handleCtrlMessage (first :: rest) s = Done tt s [cerr LogUnrecognizedCtrl]) /\
  (forall loopIndex a rest,
     is_key loopIndex a = false ->
     handleCtrlMessage (Int32 loopIndex :: a :: rest) s
       = Done tt (passed_over loopIndex s) []) /\
  (forall loopIndex a v rest,
     is_key loopIndex a = true -> isFloat32 v = false ->
     handleCtrlMessage (Int32 loopIndex :: a :: v :: rest) s
       = Done tt (passed_over loopIndex s) []) /\
  (forall a b c rest,
     handleCtrlMessage (a :: b :: c :: rest) s = handleCtrlMessage [a; b; c] s) /\
  handlePingAckMessage message s
    = prefix (extra_lines LogUnexpectedPingAckArgs message)
        (handlePingAckMessage (pingack_taken s message) s) /\
  handleHeartbeatMessage message s
    = prefix (extra_lines LogUnexpectedHeartbeatArgs message)
        (handleHeartbeatMessage (heartbeat_taken s message) s) /\
  (forall s' out, handlePingAckMessage message s = Done tt s' out -> heartbeat_ s' = 5) /\
  (forall s' out, handleHeartbeatMessage message s = Done tt s' out -> heartbeat_ s' = 5) /\
  (length (leds_ s) = 10%nat -> int32_at 2 message (loopCount_ s) <= 10 ->
   exists s' out, handlePingAckMessage message s = Done tt s' out /\ heartbeat_ s' = 5) /\
  (wf s -> 0 <= loopCount_ s -> int32_at 2 message 0 <= 10 ->
   exists s' out, handleHeartbeatMessage message s = Done tt s' out /\ heartbeat_ s' = 5).
Proof.
  intros Hne.
  split; [repeat split|].
  split; [intros first rest; apply handleCtrlMessage_unrecognized|].
  split; [intros loopIndex a rest; apply handleCtrlMessage_other_key|].
  split; [intros loopIndex a v rest; apply handleCtrlMessage_other_value|].
  split; [intros a b c rest; apply handleCtrlMessage_extra|].
  split; [apply handlePingAckMessage_taken; exact Hne|].
  split; [apply handleHeartbeatMessage_taken; exact Hne|].
  split; [intros s' out; apply handlePingAckMessage_resets; exact Hne|].
  split; [intros s' out; apply handleHeartbeatMessage_resets; exact Hne|].
  split.
  - intros Hlen Hn.
    destruct (handlePingAckMessage_within s (string_at 0 message (hostUrl_ s))
                (string_at 1 message (version_ s)) _ (int32_at 3 message (engineId_ s))
                Hlen Hn) as (s' & out & Hrun & _).
    assert (handlePingAckMessage message s
            = Done tt s' (extra_lines LogUnexpectedPingAckArgs message ++ out)) as H.
    { rewrite (handlePingAckMessage_taken message s Hne). unfold pingack_taken.
      rewrite Hrun. reflexivity. }
    eexists _, _. split; [exact H|]. exact (handlePingAckMessage_resets _ _ _ _ Hne H).
  - intros Hwf Hcount Hn.
    destruct (handleHeartbeatMessage_within s (string_at 0 message (hostUrl_ s))
                (string_at 1 message (version_ s)) _ (int32_at 3 message (engineId_ s))
                Hwf Hcount Hn) as (s' & out & Hrun).
    assert (handleHeartbeatMessage message s
            = Done tt s' (extra_lines LogUnexpectedHeartbeatArgs message ++ out)) as H.
    { rewrite (handleHeartbeatMessage_taken message s Hne). unfold heartbeat_taken.
      rewrite Hrun. reflexivity. }
    eexists _, _. split; [exact H|]. exact (handleHeartbeatMessage_resets _ _ _ _ Hne H).
Qed.

(** Seven loops, loop 0 inserting, and a [/pingack] with the single argument
    [Int32 3]: it is handled as the [/pingack] of the host, version, seven
    loops and engine 1 that the program knows, which builds the seven loops
    anew. *)
Lemma malformed_messages_witness :
  [Int32 3] <> [] /\
  pingack_taken loop0_inserting [Int32 3]
    = [Str "osc.udp://localhost:9951/"; Str "1.4.0"; Int32 7; Int32 1] /\
  handlePingAckMessage [Int32 3] loop0_inserting
    = handlePingAckMessage [Str "osc.udp://localhost:9951/"; Str "1.4.0"; Int32 7; Int32 1]
        loop0_inserting /\
  exists s' out,
    handlePingAckMessage [Int32 3] loop0_inserting = Done tt s' out /\ heartbeat_ s' = 5.
Proof.
  assert ([Int32 3] <> []) as Hne by discriminate.
  destruct (malformed_messages loop0_inserting [Int32 3] Hne)
    as (_ & _ & _ & _ & _ & Htaken & _ & _ & _ & Hreturns & _).
  split; [exact Hne|]. split; [reflexivity|]. split.
  - rewrite Htaken. apply prefix_nil.
  - apply Hreturns; [reflexivity | vm_compute; discriminate].
Defined.

(** C8 as stated fails for [/pingack] with the single argument [Int32 3]
    (wrong type in the first place, wrong arity): the handler skips the
    argument, then rebuilds the seven loops, which puts loop 0 back from
    [Inserting] to [Off], and resets the countdown. *)
Lemma malformed_messages_counterexample :
  ~ drops_malformed handlePingAckMessage identity_message [Int32 3] loop0_inserting.
Proof.
  intros Hclaim. destruct Hclaim as [out Hrun].
  - intros (h & v & n & e & Heq). discriminate Heq.
  - vm_compute in Hrun. discriminate Hrun.
Qed.

(** ** C5: a heartbeat from another engine *)

(** The handshake records the engine. *)
Lemma handlePingAckMessage_records (hostUrl version : string) (loopCount engineId : Z)
    (s s' : App) (out : list Event) :
  handlePingAckMessage [Str hostUrl; Str version; Int32 loopCount; Int32 engineId] s
    = Done tt s' out ->
  engineId_ s' = engineId.
Proof.
  rewrite handlePingAckMessage_shape. intros H.
  apply bind_inv in H as ([] & s1 & o1 & o2 & Hbuild & Hlast & _).
  injection Hlast as <- _.
  change (engineId_ (set_heartbeat 5 s1)) with (engineId_ s1).
  assert (holds same_engine
            (when (0 <? loopCount)
               (modify (set_loops []) ;;
                for_each (seqZ 0 loopCount) pingack_body ;;
                registerGlobalUpdates false))) as Hsame.
  { intros s0. apply at_when; [exact same_engine_nil|]. intros _.
    apply at_bind_modify; [exact same_engine_app | reflexivity |].
    apply at_seq; [exact same_engine_app | | intros _; apply at_registerGlobalUpdates; same_engine].
    apply at_for_each; [exact same_engine_nil | exact same_engine_app |].
    intros i _ s2. unfold pingack_body.
    apply at_seq; [exact same_engine_app | apply at_add_loop; same_engine |]. intros _ s3.
    apply at_seq; [exact same_engine_app | apply at_registerAutoUpdates; same_engine |].
    intros _. apply at_getCurrentState; same_engine. }
  exact (Hsame _ _ _ _ Hbuild).
Qed.

Lemma of_engine_not_pingack (engineId : Z) (c : Callback) :
  of_engine engineId c = true -> is_pingack c = false.
Proof.
  destruct c as [msg|net address message|os]; simpl; try reflexivity.
  intros H. apply andb_prop in H as [H _]. apply negb_true_iff in H. exact H.
Qed.

(** After the handshake and callbacks that leave the known engine as it is,
    the state is well formed and [engineId_] is the engine of the
    handshake. *)
Lemma engine_recorded (net : Sockets) (hostUrl version : string) (loopCount engineId : Z)
    (cs : list Callback) (p0 p : Program) (o : list Output) :
  wf (app_ p0) ->
  callbacks (handshake net hostUrl version loopCount engineId :: cs) p0 = Returned p o ->
  forallb (of_engine engineId) cs = true ->
  wf (app_ p) /\ engineId_ (app_ p) = engineId.
Proof.
  intros Hwf H Hcs. split.
  - exact (proj1 (respects_callbacks keeps_pool keeps_pool_nil keeps_pool_app _
                    (fun c _ => keeps_pool_callback c) p0 p o H Hwf)).
  - cbn [callbacks] in H.
    destruct (callback (handshake net hostUrl version loopCount engineId) p0)
      as [p1 o1|] eqn:Hc; [|discriminate].
    apply after_output_inv in H as (o2 & H & ->).
    assert (engineId_ (app_ p1) = engineId) as H1.
    { unfold handshake, callback, oscMessageReceived in Hc.
      apply after_output_inv in Hc as (o3 & Hc & _).
      change (startsWith "/pingack" "/pingack") with true in Hc. cbv iota in Hc.
      apply run_member_inv in Hc as (s' & out & Hrun & -> & _).
      exact (handlePingAckMessage_records _ _ _ _ _ _ _ Hrun). }
    rewrite <- H1.
    apply (respects_callbacks same_engine same_engine_nil same_engine_app cs) with (o := o2);
      [|exact H].
    intros c Hc'. apply same_engine_callback. apply (of_engine_not_pingack engineId).
    rewrite forallb_forall in Hcs. apply Hcs. apply list_elem_of_In. exact Hc'.
Qed.

(** C5 (amended). The engine of the last handshake being the engine known
    (no [/pingack] and no [/heartbeat] that names another engine was handled
    since), a heartbeat of the expected shape whose engine id differs from
    it and whose loop count is positive (and at most 10, the size of the LED
    pool) discards the loop collection and builds it anew, whatever
    [loopCount_] was: every loop is registered and queried and the LEDs are
    refreshed. A heartbeat with the known engine id never rebuilds: if it
    returns, the loops that were there are still there, unchanged, in front
    of the added ones; and it returns when it reports at most 10 loops and
    [loopCount_] is not negative. *)
Theorem heartbeat_engine_change (net : Sockets) (hostUrl version : string)
    (loopCount engineId : Z) (cs : list Callback) (p0 p : Program) (o : list Output)
    (hostUrl' version' : string) (numloops uid : Z) :
  wf (app_ p0) ->
  callbacks (handshake net hostUrl version loopCount engineId :: cs) p0 = Returned p o ->
  forallb (of_engine engineId) cs = true ->
  (uid <> engineId -> 0 < numloops <= 10 ->
   exists s' out,
     handleHeartbeatMessage [Str hostUrl'; Str version'; Int32 numloops; Int32 uid] (app_ p)
       = Done tt s' out /\
     rebuilt (app_ p) numloops s' out) /\
  (forall s' out,
     handleHeartbeatMessage [Str hostUrl'; Str version'; Int32 numloops; Int32 engineId]
       (app_ p) = Done tt s' out ->
     not_rebuilt (app_ p) s') /\
  (0 <= loopCount_ (app_ p) -> numloops <= 10 ->
   exists s' out,
     handleHeartbeatMessage [Str hostUrl'; Str version'; Int32 numloops; Int32 engineId]
       (app_ p) = Done tt s' out).
Proof.
  intros Hwf H Hcs.
  destruct (engine_recorded net hostUrl version loopCount engineId cs p0 p o Hwf H Hcs)
    as [Hwf' Hengine].
  split; [|split].
  - intros Huid Hn. apply handleHeartbeatMessage_new_engine; [exact (proj1 Hwf') | | exact Hn].
    rewrite Hengine. exact Huid.
  - intros s' out Hrun. rewrite <- Hengine in Hrun. eexists.
    apply (handleHeartbeatMessage_same_engine _ _ _ _ _ _ Hrun).
  - intros Hcount Hn. apply handleHeartbeatMessage_within; assumption.
Qed.

(** A session: the handshake with engine 1 and seven loops, loop 0 reported
    inserting, a heartbeat of engine 1; then engine 2 reports seven loops. *)
Lemma heartbeat_engine_change_witness :
  wf (app_ on_line) /\
  callbacks engine_session on_line
    = Returned engine_known (outputs (callbacks engine_session on_line)) /\
  forallb (of_engine 1) (tail engine_session) = true /\
  exists s' out,
    handleHeartbeatMessage [Str "osc.udp://localhost:9951/"; Str "1.4.0"; Int32 7; Int32 2]
      (app_ engine_known) = Done tt s' out /\
    rebuilt (app_ engine_known) 7 s' out.
Proof.
  assert (wf (app_ on_line)) as Hwf by (apply wf_concrete; reflexivity).
  assert (callbacks engine_session on_line
          = Returned engine_known (outputs (callbacks engine_session on_line))) as H
    by (vm_compute; reflexivity).
  split; [exact Hwf|]. split; [exact H|]. split; [reflexivity|].
  apply (proj1 (heartbeat_engine_change reachable "osc.udp://localhost:9951/" "1.4.0" 7 1
                  (tail engine_session) on_line engine_known _
                  "osc.udp://localhost:9951/" "1.4.0" 7 2 Hwf H eq_refl)).
  - discriminate.
  - lia.
Defined.

(** C5 as stated fails for a new engine that reports no loops: the guard
    [numloops > 0] skips the rebuild and the seven loops of the old engine
    stay, loop 0 still [Inserting]. *)
Lemma heartbeat_engine_change_counterexample :
  ~ rebuilds_for_new_engine loop0_inserting "osc.udp://localhost:9951/" "1.4.0" 0 2.
Proof.
  intros Hclaim. destruct Hclaim as (s' & out & Hrun & Hloops & _).
  - vm_compute. discriminate.
  - vm_compute in Hrun. injection Hrun as <- _. vm_compute in Hloops. discriminate Hloops.
Qed.
